(* ===== verification/_CoqProject ===== *)
-Q . S2P
Prelude.v
StateMonad.v
CString.v
Types.v
KvApp.v
Config.v
NodeLog.v
Samples.v
Replication.v
Handlers.v
LogMerge.v
HandlerFacts.v
HandlerProps.v
Storage.v
StorageFacts.v
MemTransport.v
Membership.v
MembershipFacts.v
Fsm.v
FsmFacts.v
FsmProps.v
Progress.v
Lifecycle.v
LifecycleProps.v
Cluster.v
KvCluster.v
Voter.v
Findings.v
MessageLayout.v
MqttTransport.v
MqttHal.v
MqttTls.v
MqttEsp32.v
MqttProps.v
TcpTransport.v
TcpPeers.v
TcpProps.v
TcpPeerProps.v
Fits.v
FitsProps.v
CliProcess.v
CliFacts.v
DemoApp.v
CliFsm.v
DemoMain.v
CliJoins.v
CliProps.v
Replay.v
CounterApp.v
CounterProps.v
CounterCli.v
CounterCliProps.v
