(* ===== verification/Prelude.v ===== *)
(** * Verification of raft_rx: a Raft implementation in C

    raft_rx replicates a log of commands over a cluster of nodes.  A node is a
    reactive machine: in every tick it latches its inputs, lets the rxnet runtime
    pick one transition of a table, and dumps its outputs - commit, apply, drive a
    membership change, compact, save, send.  Nodes talk through a transport (in
    memory, over MQTT or over TCP), save themselves in three text files, and feed an
    application through four callbacks.

    This library translates the C sources under [src/c/] into executable Rocq
    definitions, keeping the names of the code, and proves what makes the program
    correct.  Claims [C1], [C2], ... are the theorems whose comment carries that
    number.

    ** Parts, files, and the code they model

    - [Prelude]: record update, the error monad, tactics, generic list lemmas;
      [StateMonad]: the monad of programs on a shared state, and its rules.
    - [CString], [MessageLayout]: the C library on strings and files (bounded
      copies, [atoi], [%d], [%15s], [fgets], [strtok], [snprintf], [fread] of
      integers), and the bytes of a struct as codecs with one round-trip law each.
    - [Types]: the structs, enumerations and capacities of [include/raft/raft.h].
    - [Config], [NodeLog], [Replication], [Handlers], [Membership], [Fsm],
      [Lifecycle]: [src/raft.c], in its order.  Member lists and their encoding; log
      indices, peers, votes, the election timeout; building [AppendEntries] and the
      commit rule; the four message handlers; applying, compaction and the
      membership driver; guards, actions, transition table, latch and dump; init,
      start, stop, reset for a join, the cluster API.
    - [Storage]: [src/raft_storage.c].  A disk maps paths to contents and a save is
      the list of its disk operations, so that a crash can happen between any two.
    - [KvApp]: [src/raft_kv_app.c], the key-value application.
    - [MemTransport]: [src/raft_transport.c], and the class [TransportLaws] of what a
      node expects of any transport.
    - [MqttTransport], [MqttHal], [MqttTls], [MqttEsp32]: [src/raft_mqtt_transport.c] with
      [raft_mqtt_join.c] over a hardware abstraction, the class [MqttHalLaws] of what
      the transport expects of one, and the POSIX and ESP32 abstractions, the first
      with the socket, TLS and thread objects of its connection
      ([raft_mqtt_hal_posix.c], [raft_mqtt_hal_esp32.c]).
    - [TcpTransport], [TcpPeers]: [src/raft_tcp_transport.c], frames, listener and
      queues, and the peer table with its files and the life cycle.
    - [Cluster], [KvCluster]: the nodes of one process under one runtime, over the
      shared memory transport and disk, and the two programs that run such a cluster
      of key-value nodes ([examples/kv_cluster.c], [examples/kv_cluster_trace.c]).
    - [CliProcess]: what the command line machines of the other two example programs
      have in common: the process they share with the node and the transport, the
      monad of its operations, and the queue of join requests; the class
      [RequestQueues] is what a machine provides for it.
    - [DemoApp], [CliFsm], [DemoMain]: the demo program [examples/demo_app/src].  Its
      application and command line ([demo_kv_app.c], [demo_args.c]), the command line
      machine that shares node and transport with the Raft machine ([cli_fsm.c]: a
      tick latches a line, requests and forwarded commands, dispatches, and settles
      the requests), and the process ([main.c]), with a tick of its node whose
      applied commands register addresses in the transport.
    - [CounterApp], [CounterCli]: the counter program [examples/counter/src], its
      application and set-up ([main.c]) and its command line machine
      ([counter_cli.c]).
    - [LogMerge], [HandlerFacts], [StorageFacts], [MembershipFacts], [FsmFacts],
      [Fits], [CliFacts], [CliJoins]: the lemmas; [Samples]: concrete nodes for the
      witnesses.
    - [HandlerProps], [FsmProps], [Progress], [LifecycleProps], [Voter], [MqttProps],
      [TcpProps], [TcpPeerProps], [FitsProps], [CliProps], [Replay], [CounterProps],
      [CounterCliProps], [Findings] and the [...Facts] files: the theorems.

    ** How the parts fit together

    A [raft_node_t U] carries the application state [U]; the clock, the transport's
    state, the disk and the runtime's choice are arguments of a tick,
    [Fsm.node_tick].  The node's theorems are proved against the interfaces
    [TransportLaws] and [RuntimeLaws]; [mem_transport_laws], [mqtt_transport_laws]
    and [tcp_transport_laws] discharge the first for the three transports,
    [first_enabled_laws] the second for the documented behaviour of rxnet.  The
    MQTT transport is in turn proved against [MqttHalLaws], which [posix_hal_laws]
    and [esp_hal_laws] discharge.  The programs that run a cluster are proved against
    [ClusterRuntime], the two orders in which a runtime may run the machines
    ([lockstep_runtime], [in_turn_runtime]), the replay of the log against
    [ReplayLaws], what an application promises ([counter_replay_laws]), and the loop
    over join requests against [RequestQueuesLaws].

    Errors: [None] is what C leaves undefined and the program can run into, an access
    outside an array or a signed overflow, so a theorem that an operation is [Some]
    is a memory-safety theorem; the [int] results of the code are values.

    ** What the theorems show

    - Safety of elections: one vote per term across crashes and restarts, one winner
      per term, leaders only by majority, elections of overlapping configurations
      share a voter ([Voter], [FsmProps]).
    - Replication: log matching, no loss through repeated messages, the vote and
      commit rules on every branch ([HandlerProps]).
    - Every operation of a tick stays within the arrays and keeps the node's
      invariant ([node_tick_safe]), and every message it sends is a value of the C
      struct, which is what the transports' theorems ask of a message
      ([tick_sends_struct_values]).  So does a tick of a whole cluster
      ([cluster_tick_safe]).
    - Membership and compaction: committed entries are applied once and in order,
      the driver's protocol, what a compaction drops ([MembershipFacts]).
    - Progress: a timeout starts an election; a cluster of one elects its member and
      applies its clients' commands ([Progress]).
    - Storage and life cycle: a save is read back, a crash during it leaves an old or
      new state, any file content loads within bounds, restart, first start, reset
      for a join ([StorageFacts], [LifecycleProps]).
    - The state of an application is the committed log replayed, through ticks,
      compactions and restarts ([Replay]).
    - The application refines a finite map, and its snapshots are read back ([KvApp]).
    - Transports: queues are first-in first-out and bounded, a message sent arrives
      at its addressee and nowhere else, the TCP listener accepts exactly the
      well-formed frames however they are cut, addresses survive a restart, loading
      them terminates on any file ([MemTransport], [MqttProps], [TcpProps],
      [TcpPeerProps]).  A connection to the broker that fails releases what it has
      acquired ([MqttTls]).
    - The demo program: a tick without a typed command settles every join request
      within the arrays, a leader asks for the node that wants to join, an address
      replicated through the log is registered as it was sent, and a typed [set]
      reaches the leader or the user is told ([CliProps]).  Its node takes the ticks
      of the library ([demo_tick_is_node_tick]).
    - The counter program: the value counts the increments applied since the last
      reset and does not overflow ([CounterProps]), and a tick settles the join
      requests whatever is typed ([CounterCliProps]).
    - The cluster programs, run to their end: a leader, the commands in every store,
      the fourth node in every configuration ([KvCluster]).
    - [Findings] and some lemmas of the files above show where the code does less
      than it means to: runs in which an entry held by one node is committed, a
      restart that reads before the log array, a leader of a term it did not win,
      stale bytes in announced ids, peers lost by a crash while they are loaded, a
      leader's snapshot that counts an entry twice.

    ** Bounds and fuel

    The capacities are those of [raft.h].  Loops over arrays are structural.  The
    others carry fuel, given by the definition itself and enough: [fgets_lines] and
    [kv_restore_loop] the length of the text ([fgets_loop_fuel],
    [kv_restore_loop_text]), [apply_loop] the distance to the commit index
    ([apply_loop_applied]), [advance_commit_loop] the distance from the last index
    ([advance_commit_loop_max]), [mqtt_recv_loop] and [mqtt_discard] the backlog of
    the HAL ([mqtt_recv_loop_spec]: any more gives the same), [send_full] the length
    of the buffer ([send_full_spec]), [load_peers_loop] the length of the text
    ([tcp_load_terminates]), [joins_loop] the number of pending requests, each turn
    of which drops a request or passes one ([each_join_handles]).

    ** Parameters

    Code outside the repository is a parameter with its documented behaviour: the
    choice of the rxnet runtime ([RuntimeLaws]) and its order ([ClusterRuntime]), sockets ([SocketLaws]; the
    listener's connections are what arrives on them), OpenSSL, coreMQTT and the
    ESP-IDF client (whether their calls succeed, what they deliver), FreeRTOS queues
    ([RtosQueueLaws]), the layout of structs ([MessageLayout], [Layout], with the
    LP64 little-endian instances), what [select] and [fgets] find on the terminal
    ([stdin_t]).

    ** Not modelled, and why

    - [RX_TRACE_ENABLE] instrumentation: it writes to a trace buffer only.
    - [mkdir], and the [exit(1)] of a storage file that cannot be opened: the disk of
      [Storage] always accepts.  In [TcpPeers] [mkdir] is recorded and [fopen] may
      fail.
    - NUL bytes inside text lines, numbers in files beyond [int], and, except where
      the code increments one ([int_incr]), the overflow of log indices.
    - A received struct with more than [RAFT_MAX_BATCH] entries or an unterminated
      string, which the code does not reject: a [raft_message_t] here has at most
      that many entries, and an unterminated string ends with its array.
    - Clients that keep a TCP connection open without sending: connections end.
    - The run loop of the example programs ([rx_coop_exec_run]), the registration of
      their machines, [calloc] and [mkdtemp], which are taken to succeed.
    - The tests and the Python port. *)
From stdpp Require Export base gmap strings list sorting.
From stdpp Require Export options.

(* Comparisons are decided by case analysis and [lia], never unfolded. *)
#[global] Arguments Nat.leb : simpl never.
#[global] Arguments Nat.ltb : simpl never.
#[global] Arguments Nat.eqb : simpl never.

(** ** Notations and record update

    A C struct is a Rocq record; an assignment [s->f = v] is the update
    [s <| f := v |>].  [Eta] gives the constructor applied to the projections
    of a record, and [derive_setter] reads the update function of a projection
    off it. *)

Declare Scope raft_scope.
Delimit Scope raft_scope with raft.

Class Eta (R : Type) := eta_expand : R → R.
Class Setter {R T : Type} (proj : R → T) := set_field : (T → T) → R → R.
Arguments set_field {R T} proj {_} f r : simpl never.

Ltac derive_setter :=
  lazymatch goal with
  | |- @Setter ?R ?T ?proj =>
      let f := fresh "f" in
      let r := fresh "r" in
      intros f r;
      let body := eval hnf in (@eta_expand R _ r) in
      lazymatch eval pattern (proj r) in body with
      | ?g _ => exact (g (f (proj r)))
      end
  end.

#[export] Hint Extern 1 (Setter _) => derive_setter : typeclass_instances.

#[warnings="-postfix-notation-not-level-1"]
Notation "r <| p := v |>" := (set_field p (λ _, v) r)
  (at level 12, left associativity, p at level 11,
   format "r  <| p  :=  v |>") : raft_scope.
Open Scope raft_scope.

(** ** The error monad

    [None] stands for the behaviours the C standard leaves undefined and that
    the program can run into: a read or a write outside an array, and the
    overflow of a signed [int].  A theorem that an operation is [Some] is a
    memory-safety theorem. *)

Definition INT_MAX : Z := 2147483647.

(** [x + 1] on a C [int]: undefined at [INT_MAX]. *)
Definition int_incr (x : Z) : option Z :=
  if (x <? INT_MAX)%Z then Some (x + 1)%Z else None.

(** A [for] loop over the elements of an array, threading the state. *)
Fixpoint for_each {A S : Type} (body : S → A → option S) (l : list A) (s : S) : option S :=
  match l with
  | [] => Some s
  | x :: l => s' ← body s x; for_each body l s'
  end.

(** [a[i]] for an array of a fixed size, [i] an [int]. *)
Definition array_get {A : Type} (a : list A) (i : Z) : option A :=
  if (i <? 0)%Z then None else a !! Z.to_nat i.

(** [a[i] = x]. *)
Definition array_set {A : Type} (a : list A) (i : nat) (x : A) : option (list A) :=
  if (i <? length a)%nat then Some (<[i := x]> a) else None.

(** Appending to a queue of bounded capacity: the element is dropped when the
    queue is full. *)
Definition queue_push {A : Type} (capacity : nat) (q : list A) (x : A) : list A :=
  if (length q <? capacity)%nat then q ++ [x] else q.

(** ** Tactics *)

(** Reads of a record through an update: [p (r <| q := v |>)] becomes [v] when
    [p] is [q], and [p r] when the updated field does not matter to [p]. *)
Ltac rsimpl_step :=
  match goal with
  | |- context [?p (set_field ?q ?f ?r)] =>
      first [ progress change (p (set_field q f r)) with (p r)
            | progress change (p (set_field q f r)) with (f (p r)) ]
  | H : context [?p (set_field ?q ?f ?r)] |- _ =>
      first [ progress change (p (set_field q f r)) with (p r) in H
            | progress change (p (set_field q f r)) with (f (p r)) in H ]
  end.
Ltac rsimpl := repeat rsimpl_step; cbv beta in *.

(** Boolean tests of the code to propositions. *)
Ltac bool_step :=
  match goal with
  | H : _ && _ = true |- _ => apply andb_true_iff in H as [? ?]
  | H : _ || _ = false |- _ => apply orb_false_iff in H as [? ?]
  | H : negb _ = true |- _ => apply negb_true_iff in H
  | H : negb _ = false |- _ => apply negb_false_iff in H
  | H : bool_decide _ = true |- _ => apply bool_decide_eq_true in H
  | H : bool_decide _ = false |- _ => apply bool_decide_eq_false in H
  | H : (_ =? _)%Z = true |- _ => apply Z.eqb_eq in H
  | H : (_ =? _)%Z = false |- _ => apply Z.eqb_neq in H
  | H : (_ <? _)%Z = true |- _ => apply Z.ltb_lt in H
  | H : (_ <? _)%Z = false |- _ => apply Z.ltb_ge in H
  | H : (_ <=? _)%Z = true |- _ => apply Z.leb_le in H
  | H : (_ <=? _)%Z = false |- _ => apply Z.leb_gt in H
  | H : (_ <? _)%nat = true |- _ => apply Nat.ltb_lt in H
  | H : (_ <? _)%nat = false |- _ => apply Nat.ltb_ge in H
  | H : (_ <=? _)%nat = true |- _ => apply Nat.leb_le in H
  | H : (_ <=? _)%nat = false |- _ => apply Nat.leb_gt in H
  | H : (_ =? _)%nat = true |- _ => apply Nat.eqb_eq in H
  | H : (_ =? _)%nat = false |- _ => apply Nat.eqb_neq in H
  end.
Ltac bools := repeat bool_step.

(** One case of an [option] computation that returned a value. *)
Ltac opt_step :=
  match goal with
  | H : Some _ = Some _ |- _ => injection H as H
  | H : None = Some _ |- _ => discriminate H
  | H : Some _ = None |- _ => discriminate H
  | H : mbind _ ?e = Some _ |- _ =>
      let E := fresh "E" in
      apply bind_Some in H as (? & E & H)
  end.
Ltac opts := repeat opt_step; simplify_eq.
(** Reduce the binds whose first computation is known to succeed, only them. *)
Ltac bind_simpl_in H := cbn [mbind option_bind fmap option_fmap option_map] in H.
Ltac bind_simpl := cbn [mbind option_bind fmap option_fmap option_map].

Create HintDb raft discriminated.
Create Rewrite HintDb raft.

(** ** Generic lemmas *)

Lemma for_each_app {A S} (body : S → A → option S) l1 l2 s :
  for_each body (l1 ++ l2) s = s' ← for_each body l1 s; for_each body l2 s'.
Proof.
  revert s; induction l1 as [|x l1 IH]; intros s; [done|]; simpl.
  destruct (body s x); simpl; [apply IH|done].
Qed.

(** The loop rule: an invariant of the body is an invariant of the loop. *)
Lemma for_each_inv {A S} (P : S → Prop) (body : S → A → option S) l s s' :
  (∀ x s1 s2, x ∈ l → P s1 → body s1 x = Some s2 → P s2) →
  P s → for_each body l s = Some s' → P s'.
Proof.
  revert s; induction l as [|x l IH]; intros s Hb Hs H; simpl in H; opts; [done|].
  eapply IH; [|eapply Hb; [left|exact Hs|eassumption]|exact H].
  intros y s1 s2 Hy. apply Hb. by right.
Qed.

(** The loop rule for definedness. *)
Lemma for_each_defined {A S} (P : S → Prop) (body : S → A → option S) l s :
  (∀ x s1, x ∈ l → P s1 → ∃ s2, body s1 x = Some s2 ∧ P s2) →
  P s → ∃ s', for_each body l s = Some s' ∧ P s'.
Proof.
  revert s; induction l as [|x l IH]; intros s Hb Hs; simpl; [eauto|].
  destruct (Hb x s) as (s2 & -> & H2); [left|done|]; simpl.
  apply IH; [|done]. intros y s1 Hy. apply Hb. by right.
Qed.

Lemma array_get_Some {A} (a : list A) i :
  (0 ≤ i < Z.of_nat (length a))%Z → ∃ x, array_get a i = Some x.
Proof.
  intros H. unfold array_get. case_match; bools; [lia|].
  destruct (lookup_lt_is_Some_2 a (Z.to_nat i)) as [x ->]; [lia|eauto].
Qed.

Lemma array_get_inv {A} (a : list A) i x :
  array_get a i = Some x → (0 ≤ i < Z.of_nat (length a))%Z ∧ a !! Z.to_nat i = Some x.
Proof.
  unfold array_get. intros Hx. case_match; bools; [done|].
  pose proof (lookup_lt_Some _ _ _ Hx). split; [lia|done].
Qed.

Lemma queue_push_length {A} n (q : list A) x :
  (length q ≤ n)%nat → (length (queue_push n q x) ≤ n)%nat.
Proof. unfold queue_push. case_match; bools; rewrite ?length_app; simpl; lia. Qed.

Lemma queue_push_elem {A} n (q : list A) x y :
  y ∈ queue_push n q x → y ∈ q ∨ y = x.
Proof.
  unfold queue_push. case_match; [|by left].
  rewrite elem_of_app, list_elem_of_singleton. tauto.
Qed.

(** Two disjoint selections of a list share its elements out. *)
Lemma filter_disjoint_length {A} (P Q : A → Prop)
    `{∀ x, Decision (P x)} `{∀ x, Decision (Q x)} (l : list A) :
  (∀ x, x ∈ l → P x → Q x → False) →
  (length (filter P l) + length (filter Q l) ≤ length l)%nat.
Proof.
  induction l as [|x l IH]; intros HPQ; [done|].
  assert (length (filter P l) + length (filter Q l) ≤ length l)%nat
    by (apply IH; intros y Hy; apply HPQ; by right).
  rewrite !filter_cons. simpl.
  repeat case_decide; simpl; try lia.
  exfalso. eapply (HPQ x); [left|done..].
Qed.

(** Two majorities of the same list have an element in common. *)
Lemma majorities_intersect {A} (P Q : A → Prop)
    `{∀ x, Decision (P x)} `{∀ x, Decision (Q x)} (l : list A) :
  (length l < 2 * length (filter P l))%nat →
  (length l < 2 * length (filter Q l))%nat →
  ∃ x, x ∈ l ∧ P x ∧ Q x.
Proof.
  intros HP HQ.
  destruct (decide (Exists (λ x, P x ∧ Q x) l)) as [He|Hn].
  - apply Exists_exists in He. destruct He as (x & ? & ? & ?). eauto.
  - exfalso. assert (length (filter P l) + length (filter Q l) ≤ length l)%nat; [|lia].
    apply filter_disjoint_length. intros x Hx ? ?. apply Hn, Exists_exists. eauto.
Qed.

Lemma forallb_Forall {A} (f : A → bool) (l : list A) :
  forallb f l = true → Forall (λ x, f x = true) l.
Proof.
  intros H. apply Forall_forall. intros x Hx. rewrite forallb_forall in H.
  by apply H, list_elem_of_In.
Qed.

Lemma alter_cons_O {A} (f : A → A) x (l : list A) : alter f 0%nat (x :: l) = f x :: l.
Proof. done. Qed.
Lemma alter_cons_S {A} (f : A → A) x (l : list A) i : alter f (S i) (x :: l) = x :: alter f i l.
Proof. done. Qed.
#[export] Hint Resolve queue_push_length : raft.
#[export] Hint Rewrite @alter_cons_O @alter_cons_S : raft.
