(* ===== verification/StateMonad.v ===== *)
(** Programs that work on a shared state: a monad of partial state transformers, in
    which [None] is what C leaves undefined, and the rules to reason about when such a
    program is defined and what its result satisfies. *)
From S2P Require Import Prelude.

(** ** The monad *)

Definition M (S A : Type) : Type := S → option (A * S).

#[export] Instance M_ret S : MRet (M S) := λ A a s, Some (a, s).
#[export] Instance M_bind S : MBind (M S) := λ A B f m s, '(a, s) ← m s; f a s.

Definition gets {S A} (f : S → A) : M S A := λ s, Some (f s, s).
Definition modify {S} (f : S → S) : M S unit := λ s, Some (tt, f s).
Definition lift {S A} (o : option A) : M S A := λ s, a ← o; Some (a, s).
Definition reads {S A} (f : S → option A) : M S A := λ s, a ← f s; Some (a, s).
Definition when {S} (b : bool) (m : M S unit) : M S unit := if b then m else mret tt.

Fixpoint each {S A} (body : A → M S unit) (l : list A) : M S unit :=
  match l with [] => mret tt | x :: l => _ ← body x; each body l end.

(** ** Reasoning about the monad *)

Section Wp.
  Context {S : Type}.
  Implicit Types d : S.

(** The computation is defined and its result satisfies [Q]. *)
Definition wp {A} (m : M S A) (Q : A → S → Prop) d : Prop :=
  ∃ a d', m d = Some (a, d') ∧ Q a d'.

Lemma wp_ret {A} (a : A) Q d : Q a d → wp (mret a) Q d.
Proof. intros H. by exists a, d. Qed.

Lemma wp_bind {A B} (m : M S A) (f : A → M S B) Q d :
  wp m (λ a, wp (f a) Q) d → wp (m ≫= f) Q d.
Proof.
  intros (a & d1 & Hm & b & d2 & Hf & HQ). exists b, d2. split; [|done].
  unfold mbind, M_bind. rewrite Hm. exact Hf.
Qed.

Lemma wp_mono {A} (m : M S A) (Q1 Q2 : A → S → Prop) d :
  wp m Q1 d → (∀ a d', Q1 a d' → Q2 a d') → wp m Q2 d.
Proof. intros (a & d' & Hm & HQ) H. exists a, d'. auto. Qed.

Lemma wp_gets {A} (f : S → A) Q d : Q (f d) d → wp (gets f) Q d.
Proof. intros H. by exists (f d), d. Qed.

Lemma wp_modify f (Q : unit → S → Prop) d : Q tt (f d) → wp (modify f) Q d.
Proof. intros H. by exists tt, (f d). Qed.

Lemma wp_lift {A} (o : option A) a Q d : o = Some a → Q a d → wp (lift o) Q d.
Proof. intros -> H. by exists a, d. Qed.

Lemma wp_reads {A} (f : S → option A) a Q d : f d = Some a → Q a d → wp (reads f) Q d.
Proof. intros E H. exists a, d. unfold reads. by rewrite E. Qed.

(** The loop rule. *)
Lemma wp_each {A} (body : A → M S unit) l (I : S → Prop) d :
  I d → (∀ x d', x ∈ l → I d' → wp (body x) (λ _, I) d') → wp (each body l) (λ _, I) d.
Proof.
  revert d; induction l as [|x l IH]; intros d Hd Hb; cbn [each]; [by apply wp_ret|].
  apply wp_bind. eapply wp_mono; [by apply Hb; [left|]|]. intros [] d' Hd'. apply IH; [done|].
  intros y d'' Hy. apply Hb. by right.
Qed.

End Wp.
