(* ===== verification/CString.v ===== *)
(** The part of the C library the program uses on strings and text files:
    bounded copies, [atoi], [%d], [%15s], [fgets], [strtok] and [snprintf],
    with the lemmas the parsers and printers of the other files rest on.

    A [char] array is the [string] of its bytes before the first NUL; a copy
    into a zeroed array of [size] bytes with [strncpy(dst, src, size - 1)] keeps
    the first [size - 1] bytes.  A file is the [string] of its bytes. *)
From Stdlib Require Export Ascii.
From Stdlib Require Import DecimalString DecimalN DecimalPos DecimalFacts.
From S2P Require Import Prelude.

Definition newline : Ascii.ascii := "010"%char.

(** [isspace] of the C locale. *)
Definition isspace (c : Ascii.ascii) : bool :=
  let n := Ascii.N_of_ascii c in ((9 <=? n) && (n <=? 13) || (n =? 32))%N.

Fixpoint str_take (n : nat) (s : string) : string :=
  match n, s with
  | S n, String c s => String c (str_take n s)
  | _, _ => ""
  end.

(** Every byte of [s] satisfies [p]. *)
Fixpoint str_all (p : Ascii.ascii → bool) (s : string) : bool :=
  match s with
  | "" => true
  | String c s => p c && str_all p s
  end.

Definition is_char (c d : Ascii.ascii) : bool := bool_decide (c = d).
Definition lacks (c : Ascii.ascii) (s : string) : bool := str_all (λ d, negb (is_char c d)) s.

(** [strncpy(dst, src, size - 1)] into a [char dst\[size\]] whose last byte is 0. *)
Definition strncpy (size : nat) (src : string) : string := str_take (size - 1) src.

Definition streq (s t : string) : bool := bool_decide (s = t).

(** [strcmp(s, t) > 0], bytes compared as [unsigned char]. *)
Definition strcmp_gt (s t : string) : bool :=
  match String.compare s t with Gt => true | _ => false end.

(** [strchr(s, c)]: the text before the first [c] and the text after it. *)
Fixpoint str_break (c : Ascii.ascii) (s : string) : option (string * string) :=
  match s with
  | "" => None
  | String d s =>
      if is_char c d then Some ("", s)
      else match str_break c s with
           | Some (a, b) => Some (String d a, b)
           | None => None
           end
  end.

(** [strncmp(line, p, strlen(p)) == 0]: the text of [line] after the prefix. *)
Fixpoint strip_prefix (p line : string) : option string :=
  match p, line with
  | "", _ => Some line
  | String c p, String d line => if is_char c d then strip_prefix p line else None
  | String _ _, "" => None
  end.

Fixpoint skip_space (s : string) : string :=
  match s with
  | String c s' => if isspace c then skip_space s' else s
  | "" => ""
  end.

Definition digit_val (c : Ascii.ascii) : option Z :=
  let n := Ascii.N_of_ascii c in
  if ((48 <=? n) && (n <=? 57))%N then Some (Z.of_N n - 48)%Z else None.

Fixpoint atoi_digits (acc : Z) (s : string) : Z :=
  match s with
  | "" => acc
  | String c s =>
      match digit_val c with
      | Some d => atoi_digits (10 * acc + d) s
      | None => acc
      end
  end.

Definition atoi (s : string) : Z :=
  match skip_space s with
  | String c s' =>
      if is_char "-"%char c then (- atoi_digits 0 s')%Z
      else if is_char "+"%char c then atoi_digits 0 s'
      else atoi_digits 0 (String c s')
  | "" => 0
  end.

(** [%d] and [%zu]. *)
Definition print_dec (n : N) : string := NilEmpty.string_of_uint (N.to_uint n).
Definition print_int (z : Z) : string :=
  if (z <? 0)%Z then String "-" (print_dec (Z.to_N (- z))) else print_dec (Z.to_N z).

Fixpoint take_nonspace (n : nat) (s : string) : string :=
  match n, s with
  | S n, String c s => if isspace c then "" else String c (take_nonspace n s)
  | _, _ => ""
  end.

(** [sscanf(s, "%<width>s", dst)]: [None] when no conversion takes place, and
    [dst] keeps its value. *)
Definition sscanf_s (width : nat) (s : string) : option string :=
  match take_nonspace width (skip_space s) with
  | "" => None
  | tok => Some tok
  end.

(** [fgets(line, size, fp)]: at most [size - 1] bytes, up to and including a
    newline; the line and the rest of the file. *)
Fixpoint fgets_upto (n : nat) (s : string) : string * string :=
  match n, s with
  | S n, String c s =>
      if is_char newline c then (String c "", s)
      else let '(l, r) := fgets_upto n s in (String c l, r)
  | _, _ => ("", s)
  end.

Fixpoint fgets_loop (fuel size : nat) (s : string) : list string :=
  match fuel, s with
  | S fuel, String _ _ =>
      let '(l, r) := fgets_upto (size - 1) s in l :: fgets_loop fuel size r
  | _, _ => []
  end.

(** The successive results of [while (fgets(line, size, fp))]. *)
Definition fgets_lines (size : nat) (file : string) : list string :=
  fgets_loop (String.length file) size file.

(** The successive results of [strtok] with the delimiter [c]: the maximal
    non-empty pieces without [c]. *)
Fixpoint strtok_from (c : Ascii.ascii) (cur s : string) : list string :=
  match s with
  | "" => if streq cur "" then [] else [cur]
  | String d s =>
      if is_char c d
      then if streq cur "" then strtok_from c "" s else cur :: strtok_from c "" s
      else strtok_from c (cur +:+ String d "") s
  end.
Definition strtok (c : Ascii.ascii) (s : string) : list string := strtok_from c "" s.

(** [snprintf(out, size, "%s", text)]: what is written before the final NUL,
    and the returned length of the whole text. *)
Definition snprintf (size : nat) (text : string) : string * nat :=
  (str_take (size - 1) text, String.length text).

(** ** Lemmas *)

Lemma str_app_nil_l s : "" +:+ s = s.
Proof. done. Qed.

Lemma str_app_cons c s t : String c s +:+ t = String c (s +:+ t).
Proof. done. Qed.

Lemma str_app_assoc s t u : s +:+ (t +:+ u) = (s +:+ t) +:+ u.
Proof. induction s as [|c s IH]; [done|]. by rewrite !str_app_cons, IH. Qed.

Lemma str_app_nil_r s : s +:+ "" = s.
Proof. induction s as [|c s IH]; [done|]. by rewrite str_app_cons, IH. Qed.

Lemma str_app_length s t : String.length (s +:+ t) = (String.length s + String.length t)%nat.
Proof. induction s as [|c s IH]; [done|]. rewrite str_app_cons. simpl. lia. Qed.

Lemma str_app_inj s t u : s +:+ t = s +:+ u → t = u.
Proof. induction s as [|c s IH]; [done|]. rewrite !str_app_cons. intros [= H]. by apply IH. Qed.

Lemma str_take_all n s : (String.length s ≤ n)%nat → str_take n s = s.
Proof.
  revert n; induction s as [|c s IH]; intros [|n] H; simpl in *; try done; [lia|].
  rewrite IH; [done|lia].
Qed.

Lemma str_take_length n s : (String.length (str_take n s) ≤ n)%nat.
Proof.
  revert s; induction n as [|n IH]; intros [|c s]; simpl; try lia.
  specialize (IH s). lia.
Qed.

Lemma strncpy_fits size s : (String.length s < size)%nat → strncpy size s = s.
Proof. intros H. apply str_take_all. lia. Qed.

Lemma strncpy_length size s : (0 < size)%nat → (String.length (strncpy size s) < size)%nat.
Proof. intros H. unfold strncpy. pose proof (str_take_length (size - 1) s). lia. Qed.

Lemma strncpy_idemp size s : strncpy size (strncpy size s) = strncpy size s.
Proof. apply str_take_all, str_take_length. Qed.

Lemma streq_true s t : streq s t = true ↔ s = t.
Proof. apply bool_decide_eq_true. Qed.

Lemma streq_false s t : streq s t = false ↔ s ≠ t.
Proof. apply bool_decide_eq_false. Qed.

Lemma streq_refl s : streq s s = true.
Proof. by apply streq_true. Qed.

Lemma str_all_app p s t : str_all p (s +:+ t) = str_all p s && str_all p t.
Proof.
  induction s as [|c s IH]; [done|].
  rewrite str_app_cons. simpl. by rewrite IH, andb_assoc.
Qed.

Lemma strip_prefix_app p s : strip_prefix p (p +:+ s) = Some s.
Proof.
  induction p as [|c p IH]; [done|]. rewrite str_app_cons. simpl.
  unfold is_char. by rewrite bool_decide_true.
Qed.

(** A line of the right length is read back whole. *)
Lemma fgets_upto_line n l rest :
  lacks newline l = true → (String.length l < n)%nat →
  fgets_upto n (l +:+ String newline rest) = (l +:+ String newline "", rest).
Proof.
  revert n; induction l as [|c l IH]; intros [|n] Hl Hn; simpl in Hn; try lia.
  - done.
  - rewrite !str_app_cons. unfold lacks in Hl. simpl in Hl. bools. simpl.
    rewrite H. rewrite IH; [done|done|lia].
Qed.

Lemma fgets_loop_cons fuel size l rest :
  lacks newline l = true → (S (String.length l) < size)%nat →
  fgets_loop (S fuel) size (l +:+ String newline rest) =
    (l +:+ String newline "") :: fgets_loop fuel size rest.
Proof.
  intros Hl Hs. pose proof (fgets_upto_line (size - 1) l rest Hl ltac:(lia)) as Hu.
  destruct l as [|c l]; cbn -[String.append fgets_upto] in *; by rewrite Hu.
Qed.

Lemma fgets_upto_length n s l r :
  fgets_upto n s = (l, r) → (0 < n)%nat → s ≠ "" → (String.length r < String.length s)%nat.
Proof.
  intros H Hn Hs. destruct n as [|n]; [lia|]. destruct s as [|c s]; [done|]. clear Hn Hs.
  revert c s l r H; induction n as [|n IH]; intros c s l r H; cbn in H.
  - case_match; simplify_eq; simpl; lia.
  - case_match; simplify_eq; simpl; [lia|]. destruct s as [|d s].
    + simplify_eq; simpl; lia.
    + destruct (fgets_upto (S n) (String d s)) as [l' r'] eqn:E. cbn in E, H.
      rewrite E in H. simplify_eq. apply IH in E. simpl in *. lia.
Qed.

(** The fuel of [fgets_lines] is enough: more fuel reads nothing more. *)
Lemma fgets_loop_fuel fuel size s :
  (1 < size)%nat → (String.length s ≤ fuel)%nat →
  fgets_loop fuel size s = fgets_loop (String.length s) size s.
Proof.
  intros Hsz. remember (String.length s) as n eqn:En.
  revert fuel s En. induction (lt_wf n) as [n _ IH]. intros fuel s -> Hf.
  destruct s as [|c s]; [by destruct fuel|].
  destruct fuel as [|fuel]; [simpl in Hf; lia|].
  cbn -[fgets_upto].
  destruct (fgets_upto (size - 1) (String c s)) as [l r] eqn:E.
  apply fgets_upto_length in E as Hr; [|lia|done]. simpl in Hr, Hf, IH.
  f_equal. rewrite (IH (String.length r) ltac:(lia) fuel r eq_refl ltac:(lia)).
  symmetry. apply (IH (String.length r) ltac:(lia) (String.length s) r eq_refl). lia.
Qed.

Lemma fgets_lines_nil size : fgets_lines size "" = [].
Proof. done. Qed.

(** Reading a file whose first line fits in the buffer. *)
Lemma fgets_lines_cons size l rest :
  lacks newline l = true → (S (String.length l) < size)%nat →
  fgets_lines size (l +:+ String newline rest) =
    (l +:+ String newline "") :: fgets_lines size rest.
Proof.
  intros Hl Hs. unfold fgets_lines at 1. rewrite str_app_length. simpl.
  rewrite Nat.add_succ_r. rewrite fgets_loop_cons by done. f_equal.
  apply fgets_loop_fuel; lia.
Qed.

(** [%d] and [atoi]. *)
Fixpoint uint_value (acc : Z) (d : Decimal.uint) : Z :=
  match d with
  | Decimal.Nil => acc
  | Decimal.D0 d => uint_value (10 * acc) d
  | Decimal.D1 d => uint_value (10 * acc + 1) d
  | Decimal.D2 d => uint_value (10 * acc + 2) d
  | Decimal.D3 d => uint_value (10 * acc + 3) d
  | Decimal.D4 d => uint_value (10 * acc + 4) d
  | Decimal.D5 d => uint_value (10 * acc + 5) d
  | Decimal.D6 d => uint_value (10 * acc + 6) d
  | Decimal.D7 d => uint_value (10 * acc + 7) d
  | Decimal.D8 d => uint_value (10 * acc + 8) d
  | Decimal.D9 d => uint_value (10 * acc + 9) d
  end.

Lemma uint_value_pos d p : uint_value (Zpos p) d = Zpos (Pos.of_uint_acc d p).
Proof.
  revert p; induction d; intros p; cbn [uint_value Pos.of_uint_acc];
    [done|..]; rewrite <- IHd; f_equal; lia.
Qed.

Lemma uint_value_of_uint d : uint_value 0 d = Z.of_N (Pos.of_uint d).
Proof. induction d; [done|done|..]; cbn -[Pos.of_uint_acc]; apply uint_value_pos. Qed.

Lemma atoi_digits_uint d acc rest :
  atoi_digits acc (NilEmpty.string_of_uint d +:+ rest) = atoi_digits (uint_value acc d) rest.
Proof.
  revert acc; induction d; intros acc; [done|..];
    cbn [NilEmpty.string_of_uint uint_value]; rewrite str_app_cons; cbn [atoi_digits];
    match goal with
    | |- context [digit_val ?c] =>
        let v := eval vm_compute in (digit_val c) in change (digit_val c) with v
    end; cbv iota beta; rewrite IHd; f_equal; f_equal; lia.
Qed.

Definition starts_nondigit (s : string) : bool :=
  match s with
  | "" => true
  | String c _ => match digit_val c with Some _ => false | None => true end
  end.

Lemma atoi_digits_stop acc s : starts_nondigit s = true → atoi_digits acc s = acc.
Proof. destruct s; simpl; [done|]. by case_match. Qed.

Lemma atoi_digits_print_dec n rest :
  starts_nondigit rest = true → atoi_digits 0 (print_dec n +:+ rest) = Z.of_N n.
Proof.
  intros H. unfold print_dec. rewrite atoi_digits_uint, uint_value_of_uint.
  change (Pos.of_uint ?d) with (N.of_uint d). rewrite DecimalN.Unsigned.of_to.
  by apply atoi_digits_stop.
Qed.

Definition is_digit (c : Ascii.ascii) : bool :=
  match digit_val c with Some _ => true | None => false end.

Lemma string_of_uint_digits d : str_all is_digit (NilEmpty.string_of_uint d) = true.
Proof. induction d; simpl; rewrite ?IHd; done. Qed.

Lemma print_dec_digits n : str_all is_digit (print_dec n) = true.
Proof. apply string_of_uint_digits. Qed.

Lemma print_dec_nonempty n : print_dec n ≠ "".
Proof.
  unfold print_dec. destruct n as [|p]; [done|]. cbn.
  pose proof (DecimalPos.Unsigned.to_uint_nonnil p) as H.
  by destruct (Pos.to_uint p).
Qed.

Lemma digit_not_space c : is_digit c = true → isspace c = false.
Proof. by destruct c as [[] [] [] [] [] [] [] []]. Qed.

Lemma digit_not_sign c : is_digit c = true → is_char "-" c = false ∧ is_char "+" c = false.
Proof. by destruct c as [[] [] [] [] [] [] [] []]. Qed.

(** A printed integer is read back, whatever non-digit follows it. *)
Lemma atoi_print_int z rest :
  starts_nondigit rest = true → atoi (print_int z +:+ rest) = z.
Proof.
  intros Hr. unfold print_int. case_match; bools.
  - rewrite str_app_cons. unfold atoi. cbn [skip_space]. simpl.
    rewrite atoi_digits_print_dec by done. lia.
  - pose proof (atoi_digits_print_dec (Z.to_N z) rest Hr) as Ha.
    pose proof (print_dec_digits (Z.to_N z)) as Hd.
    pose proof (print_dec_nonempty (Z.to_N z)) as Hn.
    destruct (print_dec (Z.to_N z)) as [|c s]; [done|].
    rewrite str_app_cons in *. simpl in Hd. bools.
    unfold atoi. cbn [skip_space]. rewrite digit_not_space by done.
    destruct (digit_not_sign c) as [-> ->]; [done|]. rewrite Ha. lia.
Qed.

Lemma print_int_lacks c z :
  is_digit c = false → is_char c "-" = false → lacks c (print_int z) = true.
Proof.
  intros Hc Hm.
  assert (∀ s, str_all is_digit s = true → lacks c s = true) as Hall.
  { induction s as [|d s IH]; [done|]. unfold lacks. simpl. intros Hs. bools.
    apply andb_true_iff. split; [|by apply IH].
    apply negb_true_iff. unfold is_char. apply bool_decide_eq_false. intros <-. congruence. }
  unfold print_int. case_match; [|apply Hall, print_dec_digits].
  unfold lacks. simpl. unfold is_char in *. rewrite Hm.
  apply Hall, print_dec_digits.
Qed.

(** [%15s] reads back a word that fits, up to the white space after it. *)
Definition is_word (s : string) : bool :=
  negb (streq s "") && str_all (λ c, negb (isspace c)) s.

Lemma take_nonspace_word n s c rest :
  str_all (λ c, negb (isspace c)) s = true → isspace c = true →
  (String.length s ≤ n)%nat → take_nonspace n (s +:+ String c rest) = s.
Proof.
  revert n; induction s as [|d s IH]; intros n Hs Hc Hn.
  - destruct n; [done|]. rewrite str_app_nil_l. cbn [take_nonspace]. by rewrite Hc.
  - simpl in Hs, Hn. bools. destruct n; [lia|]. rewrite str_app_cons. cbn [take_nonspace].
    rewrite H. f_equal. apply IH; [done..|lia].
Qed.

Lemma sscanf_s_word n s rest :
  is_word s = true → (String.length s ≤ n)%nat →
  sscanf_s n (s +:+ String newline rest) = Some s.
Proof.
  unfold is_word. intros Hs Hn. bools.
  destruct s as [|c s]; [done|].
  assert (skip_space (String c s +:+ String newline rest) = String c s +:+ String newline rest)
    as Hskip.
  { rewrite str_app_cons. cbn [skip_space]. simpl in H0.
    apply andb_true_iff in H0 as [Hc _]. apply negb_true_iff in Hc. by rewrite Hc. }
  unfold sscanf_s. rewrite Hskip, take_nonspace_word; done.
Qed.

(** A word has no newline. *)
Lemma word_lacks c s : isspace c = true → str_all (λ d, negb (isspace d)) s = true → lacks c s = true.
Proof.
  intros Hc. induction s as [|d s IH]; [done|]. unfold lacks. simpl. intros Hs. bools.
  apply andb_true_iff. split; [|by apply IH].
  apply negb_true_iff, bool_decide_eq_false. intros <-. congruence.
Qed.

Lemma lacks_app c s t : lacks c (s +:+ t) = lacks c s && lacks c t.
Proof. apply str_all_app. Qed.

Lemma str_break_app c a b : lacks c a = true → str_break c (a +:+ String c b) = Some (a, b).
Proof.
  induction a as [|d a IH]; intros H.
  - rewrite str_app_nil_l. cbn [str_break]. unfold is_char. by rewrite bool_decide_true.
  - unfold lacks in H. simpl in H. bools. rewrite str_app_cons. cbn [str_break].
    rewrite H, IH; done.
Qed.

Lemma str_break_lacks c a : lacks c a = true → str_break c a = None.
Proof.
  induction a as [|d a IH]; intros H; [done|].
  unfold lacks in H. simpl in H. bools. simpl. rewrite H, IH; done.
Qed.

Lemma strtok_from_app c cur a s :
  lacks c a = true → strtok_from c cur (a +:+ s) = strtok_from c (cur +:+ a) s.
Proof.
  revert cur; induction a as [|d a IH]; intros cur H.
  - by rewrite str_app_nil_r.
  - unfold lacks in H. simpl in H. bools. rewrite str_app_cons. cbn [strtok_from].
    rewrite H, IH by done. f_equal. rewrite <- str_app_assoc. done.
Qed.

(** Tokens separated by single delimiters. *)
Lemma strtok_cons c a s :
  lacks c a = true → a ≠ "" → strtok c (a +:+ String c s) = a :: strtok c s.
Proof.
  intros Ha Hn. unfold strtok. rewrite strtok_from_app by done. rewrite str_app_nil_l.
  cbn [strtok_from]. unfold is_char. rewrite bool_decide_true by done.
  destruct (streq a "") eqn:E; [by apply streq_true in E|done].
Qed.

Lemma strtok_last c a : lacks c a = true → a ≠ "" → strtok c a = [a].
Proof.
  intros Ha Hn. unfold strtok. rewrite <- (str_app_nil_r a) at 1.
  rewrite strtok_from_app, str_app_nil_l by done. cbn [strtok_from].
  destruct (streq a "") eqn:E; [by apply streq_true in E|done].
Qed.

(** The values of an [int], and the length of their decimal text. *)
Definition in_int (z : Z) : Prop := (- INT_MAX - 1 ≤ z ≤ INT_MAX)%Z.

Lemma uint_value_ge acc d :
  (0 ≤ acc)%Z → (acc * 10 ^ Z.of_nat (String.length (NilEmpty.string_of_uint d)) ≤ uint_value acc d)%Z.
Proof.
  revert acc; induction d; intros acc Ha; cbn [uint_value NilEmpty.string_of_uint String.length];
    [lia|..]; rewrite Nat2Z.inj_succ, Z.pow_succ_r by lia;
    (etrans; [|apply IHd; lia]); nia.
Qed.

Lemma print_dec_length n : (Z.of_N n < 10 ^ 10)%Z → (String.length (print_dec n) ≤ 10)%nat.
Proof.
  intros Hn. unfold print_dec.
  pose proof (DecimalN.Unsigned.to_of (N.to_uint n)) as Hu.
  pose proof (DecimalN.Unsigned.of_to n) as Ho. rewrite Ho in Hu.
  assert (uint_value 0 (N.to_uint n) = Z.of_N n) as Hv.
  { rewrite uint_value_of_uint. change (Pos.of_uint ?d) with (N.of_uint d). by rewrite Ho. }
  assert (∀ k d, (1 ≤ k)%Z → uint_value k d = Z.of_N n →
     (String.length (NilEmpty.string_of_uint d) ≤ 9)%nat) as Hlen.
  { intros k d Hk Hd. pose proof (uint_value_ge k d ltac:(lia)) as Hge. rewrite Hd in Hge.
    destruct (decide (String.length (NilEmpty.string_of_uint d) ≤ 9)%nat) as [|Hgt]; [done|exfalso].
    assert (10 ^ 10 ≤ 10 ^ Z.of_nat (String.length (NilEmpty.string_of_uint d)))%Z
      by (apply Z.pow_le_mono_r; lia). nia. }
  destruct (N.to_uint n) as [|d|d|d|d|d|d|d|d|d|d];
    cbn [NilEmpty.string_of_uint String.length uint_value] in *; [lia| |..].
  2-10: apply Hlen in Hv; lia.
  unfold Decimal.unorm in Hu. cbn [Decimal.nzhead] in Hu.
  destruct (Decimal.nzhead d) as [|e|e|e|e|e|e|e|e|e|e] eqn:E; try discriminate;
    [injection Hu as ->; simpl; lia|].
  exfalso. by eapply nzhead_nonzero.
Qed.

Lemma print_int_length z : in_int z → (String.length (print_int z) ≤ 11)%nat.
Proof.
  unfold in_int, INT_MAX, print_int. intros Hz. case_match; bools; simpl.
  - pose proof (print_dec_length (Z.to_N (- z))). lia.
  - pose proof (print_dec_length (Z.to_N z)). lia.
Qed.

(** *** Binary integers *)

Definition byte_of (z : Z) : Ascii.ascii := Ascii.ascii_of_N (Z.to_N (z mod 256)).

(** [fwrite(&x, sizeof(int32_t), 1, fp)], least significant byte first. *)
Definition fwrite_int32 (x : Z) : string :=
  String (byte_of x) (String (byte_of (Z.shiftr x 8))
    (String (byte_of (Z.shiftr x 16)) (String (byte_of (Z.shiftr x 24)) ""))).

(** [fread(&x, sizeof(int32_t), 1, fp)]: the value and the rest of the file. *)
Definition fread_int32 (s : string) : option (Z * string) :=
  match s with
  | String a (String b (String c (String d rest))) =>
      let v c := Z.of_N (Ascii.N_of_ascii c) in
      let u := (v a + 256 * v b + 65536 * v c + 16777216 * v d)%Z in
      Some ((if (u <? 2 ^ 31)%Z then u else u - 2 ^ 32)%Z, rest)
  | _ => None
  end.

Lemma byte_of_val z : Z.of_N (Ascii.N_of_ascii (byte_of z)) = (z mod 256)%Z.
Proof.
  unfold byte_of. pose proof (Z.mod_pos_bound z 256 ltac:(lia)).
  rewrite Ascii.N_ascii_embedding by lia. lia.
Qed.

Lemma fread_fwrite_int32 x rest : in_int x → fread_int32 (fwrite_int32 x +:+ rest) = Some (x, rest).
Proof.
  unfold in_int, INT_MAX. intros Hx. unfold fwrite_int32.
  rewrite !str_app_cons, str_app_nil_l. unfold fread_int32. rewrite !byte_of_val.
  rewrite !Z.shiftr_div_pow2 by lia. do 2 f_equal.
  change (2 ^ 8)%Z with 256%Z. change (2 ^ 16)%Z with 65536%Z. change (2 ^ 24)%Z with 16777216%Z.
  change (2 ^ 31)%Z with 2147483648%Z. change (2 ^ 32)%Z with 4294967296%Z.
  case_match; bools; Z.div_mod_to_equations; lia.
Qed.
