(* ===== verification/Types.v ===== *)
(** The data of [c/include/raft/raft.h]: limits, enumerations and structs.

    An array with its element count ([x\[N\]], [x_count]) is the list of its
    live elements when the code never reads past the count; [log], which it
    does read past the count, is the whole array next to [log_count].  The
    flags the code only tests for zero ([granted], [success], [running], ...)
    are booleans; the other [int]s are [Z] and the [size_t]s are [nat]. *)
From S2P Require Import Prelude CString.

Definition RAFT_MAX_NODES : nat := 8.
Definition RAFT_MAX_PEERS : nat := RAFT_MAX_NODES - 1.
Definition RAFT_MAX_ID : nat := 16.
Definition RAFT_MAX_LOG : nat := 128.
Definition RAFT_MAX_QUEUE : nat := 256.
Definition RAFT_MAX_BATCH : nat := 16.
Definition RAFT_MAX_OP : nat := 32.
Definition RAFT_MAX_KEY : nat := 64.
Definition RAFT_MAX_VALUE : nat := 128.
Definition RAFT_MAX_SNAPSHOT_SIZE : nat := 4096.

Inductive raft_role_t : Type :=
| RAFT_ROLE_FOLLOWER
| RAFT_ROLE_CANDIDATE
| RAFT_ROLE_LEADER.

Inductive raft_membership_state_t : Type :=
| RAFT_MEMBERSHIP_STABLE
| RAFT_MEMBERSHIP_JOINT_PENDING
| RAFT_MEMBERSHIP_JOINT
| RAFT_MEMBERSHIP_FINALIZING.

Inductive raft_message_kind_t : Type :=
| RAFT_MSG_REQUEST_VOTE
| RAFT_MSG_REQUEST_VOTE_RESPONSE
| RAFT_MSG_APPEND_ENTRIES
| RAFT_MSG_APPEND_ENTRIES_RESPONSE.

#[export] Instance raft_role_eq_dec : EqDecision raft_role_t.
Proof. solve_decision. Defined.
#[export] Instance raft_membership_state_eq_dec : EqDecision raft_membership_state_t.
Proof. solve_decision. Defined.
#[export] Instance raft_message_kind_eq_dec : EqDecision raft_message_kind_t.
Proof. solve_decision. Defined.

Record raft_command_t : Type := mkCommand {
  op : string;
  key : string;
  value : string;
}.

Record raft_log_entry_t : Type := mkEntry {
  entry_index : Z;
  entry_term : Z;
  entry_leader_id : string;
  entry_command : raft_command_t;
}.

Record raft_message_t : Type := mkMessage {
  kind : raft_message_kind_t;
  msg_term : Z;
  source : string;
  target : string;
  granted : bool;
  success : bool;
  prev_log_index : Z;
  prev_log_term : Z;
  prev_log_leader_id : string;
  leader_commit : Z;
  msg_match_index : Z;
  last_log_index : Z;
  last_log_term : Z;
  entries : list raft_log_entry_t;
}.

#[export] Instance raft_command_eq_dec : EqDecision raft_command_t.
Proof. solve_decision. Defined.
#[export] Instance raft_log_entry_eq_dec : EqDecision raft_log_entry_t.
Proof. solve_decision. Defined.
#[export] Instance raft_message_eq_dec : EqDecision raft_message_t.
Proof. solve_decision. Defined.

(** The result of [memset(&x, 0, sizeof(x))]. *)
Definition zero_command : raft_command_t := mkCommand "" "" "".
Definition zero_entry : raft_log_entry_t := mkEntry 0 0 "" zero_command.
Definition zero_message (k : raft_message_kind_t) : raft_message_t :=
  mkMessage k 0 "" "" false false 0 0 "" 0 0 0 0 [].

#[export] Instance raft_message_eta : Eta raft_message_t := λ m,
  mkMessage (kind m) (msg_term m) (source m) (target m) (granted m) (success m)
    (prev_log_index m) (prev_log_term m) (prev_log_leader_id m) (leader_commit m)
    (msg_match_index m) (last_log_index m) (last_log_term m) (entries m).

(** The application callbacks; a [NULL] pointer is [None].  [user] is the state
    the [void *user] pointer designates; [snapshot] is given the size of the
    buffer and returns the bytes it wrote into it. *)
Record raft_application_t (U : Type) : Type := mkApplication {
  apply : option (U → raft_command_t → U);
  reload : option (U → U);
  snapshot : option (U → nat → string);
  restore_snapshot : option (U → string → U);
  user : U;
}.
Arguments mkApplication {U}.
Arguments apply {U}.
Arguments reload {U}.
Arguments snapshot {U}.
Arguments restore_snapshot {U}.
Arguments user {U}.

#[export] Instance raft_application_eta U : Eta (raft_application_t U) := λ a,
  mkApplication (apply a) (reload a) (snapshot a) (restore_snapshot a) (user a).

(** The pluggable transport: a table of operations on a context [T]. *)
Record raft_transport_t (T : Type) : Type := mkTransport {
  send : T → raft_message_t → T * Z;
  recv : T → nat → T * list raft_message_t;
  submit_command : T → raft_command_t → T * Z;
  recv_commands : T → nat → T * list raft_command_t;
  set_enabled : option (T → bool → T);
}.
Arguments mkTransport {T}.
Arguments send {T}.
Arguments recv {T}.
Arguments submit_command {T}.
Arguments recv_commands {T}.
Arguments set_enabled {T}.

(** [snapshot_buf] holds the first [snapshot_buf_size] bytes of the buffer. *)
Record raft_file_storage_t : Type := mkStorage {
  storage_node_id : string;
  root_dir : string;
  snapshot_buf : string;
}.

#[export] Instance raft_file_storage_eta : Eta raft_file_storage_t := λ s,
  mkStorage (storage_node_id s) (root_dir s) (snapshot_buf s).

Record raft_node_config_t : Type := mkConfig {
  node_id : string;
  peers : list string;
  initial_members : list string;
  learner : bool;
  election_timeout_ms : Z;
  heartbeat_interval_ms : Z;
}.

#[export] Instance raft_node_config_eta : Eta raft_node_config_t := λ c,
  mkConfig (node_id c) (peers c) (initial_members c) (learner c)
    (election_timeout_ms c) (heartbeat_interval_ms c).

Record raft_cluster_configuration_t : Type := mkClusterConfig {
  old_members : list string;
  new_members : list string;
  config_index : Z;
}.

Definition zero_configuration : raft_cluster_configuration_t := mkClusterConfig [] [] 0.

#[export] Instance raft_cluster_configuration_eq_dec : EqDecision raft_cluster_configuration_t.
Proof. solve_decision. Defined.

(** [struct raft_node], without the back pointer to the cluster, the shared
    clock and the transport context, which the operations take as arguments.
    [machine_state] is the [state] of the embedded rxnet machine. *)
Record raft_node_t (U : Type) : Type := mkNode {
  config : raft_node_config_t;
  storage : raft_file_storage_t;
  application : raft_application_t U;
  machine_state : raft_role_t;
  current_term : Z;
  voted_for : string;
  log : list raft_log_entry_t;
  log_count : nat;
  snapshot_last_included_index : Z;
  snapshot_last_included_term : Z;
  commit_index : Z;
  last_applied : Z;
  leader_id : string;
  compaction_threshold : Z;
  running : bool;
  config_state : raft_cluster_configuration_t;
  membership_state : raft_membership_state_t;
  requested_membership : list string;
  requested_membership_pending : bool;
  joint_config_index : Z;
  final_config_index : Z;
  votes_received : list string;
  next_index : list Z;
  match_index : list Z;
  outbox : list raft_message_t;
  pending_append_entries : list raft_message_t;
  pending_vote_requests : list raft_message_t;
  pending_votes : list raft_message_t;
  persist_dirty : bool;
  election_deadline_ms : Z;
  heartbeat_deadline_ms : Z;
}.
Arguments mkNode {U}.
Arguments config {U}.
Arguments storage {U}.
Arguments application {U}.
Arguments machine_state {U}.
Arguments current_term {U}.
Arguments voted_for {U}.
Arguments log {U}.
Arguments log_count {U}.
Arguments snapshot_last_included_index {U}.
Arguments snapshot_last_included_term {U}.
Arguments commit_index {U}.
Arguments last_applied {U}.
Arguments leader_id {U}.
Arguments compaction_threshold {U}.
Arguments running {U}.
Arguments config_state {U}.
Arguments membership_state {U}.
Arguments requested_membership {U}.
Arguments requested_membership_pending {U}.
Arguments joint_config_index {U}.
Arguments final_config_index {U}.
Arguments votes_received {U}.
Arguments next_index {U}.
Arguments match_index {U}.
Arguments outbox {U}.
Arguments pending_append_entries {U}.
Arguments pending_vote_requests {U}.
Arguments pending_votes {U}.
Arguments persist_dirty {U}.
Arguments election_deadline_ms {U}.
Arguments heartbeat_deadline_ms {U}.

#[export] Instance raft_node_eta U : Eta (raft_node_t U) := λ n,
  mkNode (config n) (storage n) (application n) (machine_state n) (current_term n)
    (voted_for n) (log n) (log_count n) (snapshot_last_included_index n)
    (snapshot_last_included_term n) (commit_index n) (last_applied n) (leader_id n)
    (compaction_threshold n) (running n) (config_state n) (membership_state n)
    (requested_membership n) (requested_membership_pending n) (joint_config_index n)
    (final_config_index n) (votes_received n) (next_index n) (match_index n) (outbox n)
    (pending_append_entries n) (pending_vote_requests n) (pending_votes n)
    (persist_dirty n) (election_deadline_ms n) (heartbeat_deadline_ms n).

(** The usual identifiers: what fits an id array and survives the text files. *)
Definition valid_id (s : string) : bool :=
  is_word s && (String.length s <? RAFT_MAX_ID)%nat && negb (streq s "-").

Lemma valid_id_strncpy s : valid_id s = true → strncpy RAFT_MAX_ID s = s.
Proof. unfold valid_id. intros H. bools. by apply strncpy_fits. Qed.

Lemma valid_id_nonempty s : valid_id s = true → s ≠ "".
Proof. unfold valid_id, is_word. intros H. bools. by apply streq_false. Qed.

#[export] Hint Resolve valid_id_strncpy valid_id_nonempty : raft.
