(* ===== verification/KvApp.v ===== *)
(** The replicated key-value application, [c/src/raft_kv_app.c]: an array of
    pairs with a [used] flag behind the four application callbacks, its
    abstract specification as a finite map, and the refinement between them. *)
From S2P Require Import Prelude CString Types.

Definition RAFT_KV_MAX_PAIRS : nat := 128.

Record raft_kv_pair_t : Type := mkPair {
  pair_key : string;
  pair_value : string;
  used : bool;
}.

(** The pairs below [count]; the array is never read past it. *)
Record raft_kv_state_t : Type := mkKv { pairs : list raft_kv_pair_t }.

#[export] Instance raft_kv_pair_eta : Eta raft_kv_pair_t := λ p,
  mkPair (pair_key p) (pair_value p) (used p).

Definition kv_count (kv : raft_kv_state_t) : nat := length (pairs kv).

Definition raft_kv_state_init : raft_kv_state_t := mkKv [].

(** The search loop shared by [raft_kv_get] and [kv_apply]: the first used pair
    with the key. *)
Fixpoint kv_find (ps : list raft_kv_pair_t) (k : string) : option nat :=
  match ps with
  | [] => None
  | p :: ps => if used p && streq (pair_key p) k then Some 0%nat else S <$> kv_find ps k
  end.

Definition raft_kv_get (kv : raft_kv_state_t) (k : string) : string :=
  match i ← kv_find (pairs kv) k; pairs kv !! i with
  | Some p => pair_value p
  | None => ""
  end.

Definition kv_apply (kv : raft_kv_state_t) (command : raft_command_t) : raft_kv_state_t :=
  if streq (op command) "set" then
    match kv_find (pairs kv) (key command) with
    | Some i =>
        mkKv (alter (λ p, p <| pair_value := strncpy RAFT_MAX_VALUE (value command) |>) i (pairs kv))
    | None =>
        if (kv_count kv <? RAFT_KV_MAX_PAIRS)%nat
        then mkKv (pairs kv ++ [mkPair (strncpy RAFT_MAX_KEY (key command))
                                  (strncpy RAFT_MAX_VALUE (value command)) true])
        else kv
    end
  else if streq (op command) "del" then
    match kv_find (pairs kv) (key command) with
    | Some i => mkKv (alter (λ p, p <| used := false |>) i (pairs kv))
    | None => kv
    end
  else kv.

Definition kv_reload (kv : raft_kv_state_t) : raft_kv_state_t := mkKv [].

Definition kv_line (p : raft_kv_pair_t) : string :=
  pair_key p +:+ String "="%char (pair_value p +:+ String newline "").

Fixpoint kv_snapshot_loop (buf_size : nat) (out : string) (ps : list raft_kv_pair_t) : string :=
  match ps with
  | [] => out
  | p :: ps =>
      if negb (used p) then kv_snapshot_loop buf_size out ps
      else if (buf_size <=? String.length out)%nat then out
      else
        let n := String.length (kv_line p) in
        if (n =? 0)%nat || (buf_size - String.length out <=? n)%nat then out
        else kv_snapshot_loop buf_size (out +:+ kv_line p) ps
  end.

Definition kv_snapshot (kv : raft_kv_state_t) (buf_size : nat) : string :=
  kv_snapshot_loop buf_size "" (pairs kv).

(** The parsing loop; every iteration consumes a line, so the length of the
    buffer is enough fuel. *)
Fixpoint kv_restore_loop (fuel : nat) (p : string) (acc : list raft_kv_pair_t)
    : list raft_kv_pair_t :=
  match fuel with
  | O => acc
  | S fuel =>
      if streq p "" || negb (length acc <? RAFT_KV_MAX_PAIRS)%nat then acc
      else
        match str_break newline p with
        | None => acc
        | Some (line, rest) =>
            match str_break "="%char line with
            | None => acc
            | Some (k, v) =>
                if (String.length k =? 0)%nat || (RAFT_MAX_KEY <=? String.length k)%nat
                   || (RAFT_MAX_VALUE <=? String.length v)%nat
                then kv_restore_loop fuel rest acc
                else kv_restore_loop fuel rest (acc ++ [mkPair k v true])
            end
        end
  end.

Definition kv_restore_snapshot (kv : raft_kv_state_t) (buf : string) : raft_kv_state_t :=
  mkKv (kv_restore_loop (String.length buf) buf []).

Definition raft_kv_make_application (kv : raft_kv_state_t) : raft_application_t raft_kv_state_t :=
  mkApplication (Some kv_apply) (Some kv_reload) (Some kv_snapshot) (Some kv_restore_snapshot) kv.

(** *** Specification *)

(** The store as a finite map. *)
Definition kv_map (kv : raft_kv_state_t) : gmap string string :=
  list_to_map ((λ p, (pair_key p, pair_value p)) <$> filter (λ p, used p = true) (pairs kv)).

(** What a command does to the map; [room] tells whether a new key fits. *)
Definition kv_spec_apply (room : bool) (m : gmap string string) (c : raft_command_t)
    : gmap string string :=
  if streq (op c) "set" then
    match m !! key c with
    | Some _ => <[key c := value c]> m
    | None => if room then <[key c := value c]> m else m
    end
  else if streq (op c) "del" then delete (key c) m
  else m.

(** A command whose key and value fit their arrays. *)
Definition command_fits (c : raft_command_t) : bool :=
  (String.length (op c) <? RAFT_MAX_OP)%nat && (String.length (key c) <? RAFT_MAX_KEY)%nat
  && (String.length (value c) <? RAFT_MAX_VALUE)%nat.

Definition live_keys (ps : list raft_kv_pair_t) : list string :=
  pair_key <$> filter (λ p, used p = true) ps.

Record kv_wf (kv : raft_kv_state_t) : Prop := {
  kv_wf_nodup : NoDup (live_keys (pairs kv));
  kv_wf_count : (kv_count kv ≤ RAFT_KV_MAX_PAIRS)%nat;
  kv_wf_fits : Forall (λ p, (String.length (pair_key p) < RAFT_MAX_KEY)%nat ∧
                            (String.length (pair_value p) < RAFT_MAX_VALUE)%nat) (pairs kv);
}.

(** A pair the text snapshot can represent. *)
Definition printable_pair (p : raft_kv_pair_t) : bool :=
  negb (streq (pair_key p) "") && lacks "="%char (pair_key p) && lacks newline (pair_key p)
  && lacks newline (pair_value p).

(** The bytes the used pairs take in the snapshot. *)
Fixpoint kv_text (ps : list raft_kv_pair_t) : string :=
  match ps with
  | [] => ""
  | p :: ps => if used p then kv_line p +:+ kv_text ps else kv_text ps
  end.

(** ** Lemmas *)

Lemma live_keys_cons p ps :
  live_keys (p :: ps) = if used p then pair_key p :: live_keys ps else live_keys ps.
Proof. unfold live_keys. rewrite filter_cons. destruct (used p); done. Qed.

Lemma kv_map_cons p ps :
  kv_map (mkKv (p :: ps)) =
    if used p then <[pair_key p := pair_value p]> (kv_map (mkKv ps)) else kv_map (mkKv ps).
Proof. unfold kv_map. simpl. rewrite filter_cons. destruct (used p); done. Qed.

Lemma kv_find_None ps k : kv_find ps k = None ↔ k ∉ live_keys ps.
Proof.
  induction ps as [|p ps IH]; [split; [intros _; apply not_elem_of_nil|done]|].
  rewrite live_keys_cons. simpl. destruct (used p); simpl.
  - rewrite not_elem_of_cons, <- IH. destruct (streq (pair_key p) k) eqn:E.
    + apply streq_true in E. split; [done|naive_solver].
    + apply streq_false in E. rewrite fmap_None. naive_solver.
  - by rewrite fmap_None.
Qed.

Lemma kv_map_lookup ps k :
  kv_map (mkKv ps) !! k = i ← kv_find ps k; pair_value <$> ps !! i.
Proof.
  induction ps as [|p ps IH]; [done|]. rewrite kv_map_cons. simpl.
  destruct (used p); simpl.
  - destruct (streq (pair_key p) k) eqn:E; simpl.
    + apply streq_true in E as <-. by rewrite lookup_insert_eq.
    + apply streq_false in E. rewrite lookup_insert_ne by done. rewrite IH.
      by destruct (kv_find ps k).
  - rewrite IH. by destruct (kv_find ps k).
Qed.

Lemma kv_map_lookup_None ps k : kv_map (mkKv ps) !! k = None ↔ k ∉ live_keys ps.
Proof.
  rewrite <- kv_find_None, kv_map_lookup.
  destruct (kv_find ps k) as [i|] eqn:E; simpl; [|done].
  split; [|done]. rewrite fmap_None. intros Hn. exfalso. revert i E Hn.
  induction ps as [|p ps IH]; [done|]; intros i E Hn; simpl in E. case_match; simplify_eq/=.
  apply fmap_Some in E as (j & Hj & ->). by apply (IH j).
Qed.

Lemma kv_map_app_one ps p :
  used p = true → pair_key p ∉ live_keys ps →
  kv_map (mkKv (ps ++ [p])) = <[pair_key p := pair_value p]> (kv_map (mkKv ps)).
Proof.
  intros Hu. induction ps as [|q ps IH]; intros Hk; [simpl; by rewrite kv_map_cons, Hu|].
  rewrite live_keys_cons in Hk. simpl. rewrite !kv_map_cons.
  destruct (used q).
  - apply not_elem_of_cons in Hk as [Hne Hk]. rewrite IH by done.
    by rewrite insert_insert_ne.
  - by apply IH.
Qed.

Lemma kv_map_update ps k i v :
  NoDup (live_keys ps) → kv_find ps k = Some i →
  kv_map (mkKv (alter (λ p, p <| pair_value := v |>) i ps)) = <[k := v]> (kv_map (mkKv ps)).
Proof.
  revert i; induction ps as [|p ps IH]; intros i Hnd Hf; [done|].
  simpl in Hf. rewrite live_keys_cons in Hnd. destruct (used p) eqn:Hu; simpl in Hf.
  - apply NoDup_cons in Hnd as [Hni Hnd]. destruct (streq (pair_key p) k) eqn:E.
    + apply streq_true in E as <-. simplify_eq. autorewrite with raft. rewrite !kv_map_cons. rsimpl.
      rewrite Hu. by rewrite insert_insert_eq.
    + apply streq_false in E. apply fmap_Some in Hf as (j & Hj & ->). autorewrite with raft.
      rewrite !kv_map_cons, Hu. rewrite IH by done. by rewrite insert_insert_ne.
  - apply fmap_Some in Hf as (j & Hj & ->). autorewrite with raft. rewrite !kv_map_cons, Hu. by apply IH.
Qed.

Lemma kv_map_delete ps k i :
  NoDup (live_keys ps) → kv_find ps k = Some i →
  kv_map (mkKv (alter (λ p, p <| used := false |>) i ps)) = delete k (kv_map (mkKv ps)).
Proof.
  revert i; induction ps as [|p ps IH]; intros i Hnd Hf; [done|].
  simpl in Hf. rewrite live_keys_cons in Hnd. destruct (used p) eqn:Hu; simpl in Hf.
  - apply NoDup_cons in Hnd as [Hni Hnd]. destruct (streq (pair_key p) k) eqn:E.
    + apply streq_true in E as <-. simplify_eq. autorewrite with raft. rewrite !kv_map_cons. rsimpl. rewrite Hu.
      rewrite delete_insert_eq, delete_id; [done|].
      by apply kv_map_lookup_None.
    + apply streq_false in E. apply fmap_Some in Hf as (j & Hj & ->). autorewrite with raft.
      rewrite !kv_map_cons, Hu, IH by done. by rewrite delete_insert_ne.
  - apply fmap_Some in Hf as (j & Hj & ->). autorewrite with raft. rewrite !kv_map_cons, Hu. by apply IH.
Qed.

Lemma live_keys_update ps i v :
  live_keys (alter (λ p, p <| pair_value := v |>) i ps) = live_keys ps.
Proof.
  revert i; induction ps as [|p ps IH]; intros [|i]; [done..| |]; autorewrite with raft;
    rewrite !live_keys_cons; rsimpl; [done|]. by rewrite IH.
Qed.

Lemma live_keys_delete ps i :
  live_keys (alter (λ p, p <| used := false |>) i ps) `sublist_of` live_keys ps.
Proof.
  revert i; induction ps as [|p ps IH]; intros [|i]; [done..| |]; autorewrite with raft; rewrite !live_keys_cons; rsimpl.
  - destruct (used p); [by constructor|done].
  - destruct (used p); [constructor|]; apply IH.
Qed.

Lemma live_keys_app ps p :
  used p = true → live_keys (ps ++ [p]) = live_keys ps ++ [pair_key p].
Proof.
  intros Hu. induction ps as [|q ps IH]; simpl; rewrite !live_keys_cons; [by rewrite Hu|].
  rewrite IH. by destruct (used q).
Qed.

Lemma Forall_alter_update {A} (P : A → Prop) (f : A → A) (l : list A) i :
  Forall P l → (∀ x, P x → P (f x)) → Forall P (alter f i l).
Proof.
  intros Hl Hf. revert i; induction Hl as [|x l Hx Hl IH]; intros [|i]; autorewrite with raft;
    constructor; auto.
Qed.

(** ** Theorems *)

Lemma kv_apply_wf kv c : kv_wf kv → command_fits c = true → kv_wf (kv_apply kv c).
Proof.
  intros [Hnd Hc Hf] Hfit. unfold kv_apply, command_fits, kv_count in *. bools.
  repeat case_match; bools; (split; [|unfold kv_count; simpl|]); simpl; try done.
  - by rewrite live_keys_update.
  - by rewrite length_alter.
  - apply Forall_alter_update; [done|]. intros q [? ?]. rsimpl.
    split; [done|]. apply strncpy_length. unfold RAFT_MAX_VALUE. lia.
  - rewrite live_keys_app by done. simpl. rewrite strncpy_fits by done.
    apply NoDup_app. split_and!; [done| |apply NoDup_singleton].
    intros x Hx ->%list_elem_of_singleton. by eapply kv_find_None.
  - rewrite length_app. simpl. lia.
  - apply Forall_app. split; [done|]. constructor; [|done]. simpl.
    rewrite !strncpy_fits by done. done.
  - eapply sublist_NoDup; [exact Hnd|apply live_keys_delete].
  - by rewrite length_alter.
  - apply Forall_alter_update; [done|]. by intros q [? ?].
Qed.

Lemma kv_apply_map kv c :
  kv_wf kv → command_fits c = true →
  kv_map (kv_apply kv c) =
    kv_spec_apply (kv_count kv <? RAFT_KV_MAX_PAIRS)%nat (kv_map kv) c.
Proof.
  intros [Hnd Hc Hf] Hfit. unfold command_fits in Hfit. bools.
  destruct kv as [ps]. unfold kv_apply, kv_spec_apply, kv_count in *. simpl in *.
  destruct (kv_find ps (key c)) as [i|] eqn:E.
  - assert (is_Some (kv_map (mkKv ps) !! key c)) as [w Hw].
    { apply not_eq_None_Some. rewrite kv_map_lookup_None, <- kv_find_None. congruence. }
    rewrite Hw. case_match.
    + rewrite kv_map_update with (k := key c) by done. by rewrite strncpy_fits.
    + case_match; [|done]. by apply kv_map_delete.
  - apply kv_find_None in E as Hni. apply kv_map_lookup_None in Hni as HN.
    rewrite HN. case_match.
    + case_match; [|done]. rewrite !strncpy_fits by done.
      by rewrite kv_map_app_one.
    + case_match; [|done]. by rewrite delete_id.
Qed.

Lemma kv_get_map kv k : raft_kv_get kv k = default "" (kv_map kv !! k).
Proof.
  destruct kv as [ps]. unfold raft_kv_get. simpl. rewrite kv_map_lookup.
  destruct (kv_find ps k) as [i|]; simpl; [|done]. by destruct (ps !! i).
Qed.

Lemma kv_snapshot_loop_text n out ps :
  (String.length out + String.length (kv_text ps) < n)%nat →
  kv_snapshot_loop n out ps = out +:+ kv_text ps.
Proof.
  revert out; induction ps as [|p ps IH]; intros out H; simpl in *; [by rewrite str_app_nil_r|].
  destruct (used p); simpl; [|by apply IH].
  rewrite str_app_length in H.
  assert (0 < String.length (kv_line p))%nat as Hpos.
  { unfold kv_line. rewrite str_app_length. simpl. lia. }
  case_match; bools; [lia|]. case_match.
  - apply orb_true_iff in H1 as [?|?]; bools; lia.
  - rewrite IH, str_app_assoc; [done|]. rewrite str_app_length. lia.
Qed.

Lemma kv_text_cons_used p ps :
  used p = true →
  kv_text (p :: ps) =
    (pair_key p +:+ String "=" (pair_value p)) +:+ String newline (kv_text ps).
Proof.
  intros Hu. simpl. rewrite Hu. unfold kv_line.
  rewrite <- !str_app_assoc, str_app_cons, <- str_app_assoc. done.
Qed.

Lemma kv_restore_loop_text ps fuel acc :
  Forall (λ p, used p = true → printable_pair p = true ∧
               (String.length (pair_key p) < RAFT_MAX_KEY)%nat ∧
               (String.length (pair_value p) < RAFT_MAX_VALUE)%nat) ps →
  (length acc + length (filter (λ p, used p = true) ps) ≤ RAFT_KV_MAX_PAIRS)%nat →
  (String.length (kv_text ps) ≤ fuel)%nat →
  kv_restore_loop fuel (kv_text ps) acc = acc ++ filter (λ p, used p = true) ps.
Proof.
  revert fuel acc; induction ps as [|p ps IH]; intros fuel acc HF Hn Hfuel.
  { rewrite app_nil_r. by destruct fuel. }
  apply Forall_cons in HF as [Hp HF]. rewrite filter_cons in *.
  case_decide as Hu; [|assert (used p = false) as Hu' by (by destruct (used p));
    simpl in *; rewrite Hu' in *; by apply IH].
  destruct (Hp Hu) as (Hpr & Hk & Hv). unfold printable_pair in Hpr. bools.
  rewrite kv_text_cons_used in * by done. rewrite str_app_length in Hfuel. simpl in Hfuel, Hn.
  destruct fuel as [|fuel]; [lia|]. cbn [kv_restore_loop].
  assert (streq ((pair_key p +:+ String "=" (pair_value p)) +:+ String newline (kv_text ps)) ""
          || negb (length acc <? RAFT_KV_MAX_PAIRS)%nat = false) as ->.
  { apply orb_false_iff. split.
    - apply streq_false. intros E. apply (f_equal String.length) in E.
      rewrite str_app_length in E. simpl in E. lia.
    - apply negb_false_iff, Nat.ltb_lt. lia. }
  rewrite str_break_app; [|rewrite lacks_app; apply andb_true_iff; by split].
  rewrite str_break_app by done.
  assert ((String.length (pair_key p) =? 0)%nat || (RAFT_MAX_KEY <=? String.length (pair_key p))%nat
          || (RAFT_MAX_VALUE <=? String.length (pair_value p))%nat = false) as ->.
  { rewrite !orb_false_iff. split_and!; [|by apply Nat.leb_gt..].
    apply Nat.eqb_neq. intros E. destruct (pair_key p); [|done].
    by match goal with H : streq "" "" = false |- _ => apply streq_false in H end. }
  rewrite IH; [|done|rewrite length_app; simpl; lia|lia].
  rewrite <- app_assoc. simpl. by destruct p; simpl in *; subst.
Qed.

Lemma kv_map_filter ps : kv_map (mkKv (filter (λ p, used p = true) ps)) = kv_map (mkKv ps).
Proof.
  unfold kv_map. simpl. f_equal. f_equal.
  rewrite list_filter_filter. apply list_filter_iff. naive_solver.
Qed.

Lemma kv_restore_loop_bounds fuel p acc :
  Forall (λ q, used q = true ∧ (String.length (pair_key q) < RAFT_MAX_KEY)%nat ∧
               (String.length (pair_value q) < RAFT_MAX_VALUE)%nat) acc →
  (length acc ≤ RAFT_KV_MAX_PAIRS)%nat →
  let r := kv_restore_loop fuel p acc in
  (length r ≤ RAFT_KV_MAX_PAIRS)%nat ∧
  Forall (λ q, used q = true ∧ (String.length (pair_key q) < RAFT_MAX_KEY)%nat ∧
               (String.length (pair_value q) < RAFT_MAX_VALUE)%nat) r.
Proof.
  revert p acc; induction fuel as [|fuel IH]; intros p acc Ha Hl r; [done|].
  unfold r. cbn [kv_restore_loop]. destruct (streq p "" || _) eqn:E; [done|]. bools.
  destruct (str_break newline p) as [[line rest]|]; [|done].
  destruct (str_break "=" line) as [[k v]|]; [|done].
  destruct ((_ =? 0)%nat || _ || _) eqn:E2; bools; apply IH; try done.
  - apply Forall_app. split; [done|]. constructor; [by split_and!|constructor].
  - rewrite length_app. simpl. lia.
Qed.

(** C23: every command the application applies acts on the stored map as the
    specification says, and keeps the store well formed: [set] binds the key
    when it is present or a slot is left, [del] removes it, any other command
    changes nothing; [raft_kv_get] reads the map. *)
Theorem kv_apply_refines kv c :
  kv_wf kv → command_fits c = true →
  kv_wf (kv_apply kv c) ∧
  kv_map (kv_apply kv c) =
    kv_spec_apply (kv_count kv <? RAFT_KV_MAX_PAIRS)%nat (kv_map kv) c ∧
  ∀ k, raft_kv_get (kv_apply kv c) k =
    default "" (kv_spec_apply (kv_count kv <? RAFT_KV_MAX_PAIRS)%nat (kv_map kv) c !! k).
Proof.
  intros Hwf Hc. split; [by apply kv_apply_wf|].
  split; [by apply kv_apply_map|]. intros k. by rewrite kv_get_map, kv_apply_map.
Qed.

Example kv_apply_refines_witness :
  let kv := mkKv [mkPair "a" "1" true] in
  raft_kv_get (kv_apply kv (mkCommand "set" "a" "2")) "a" = "2".
Proof.
  simpl. destruct (kv_apply_refines (mkKv [mkPair "a" "1" true]) (mkCommand "set" "a" "2"))
    as (_ & _ & H).
  - split; [apply NoDup_singleton|unfold kv_count; simpl; unfold RAFT_KV_MAX_PAIRS; lia|].
    repeat constructor; simpl; unfold RAFT_MAX_KEY, RAFT_MAX_VALUE; lia.
  - reflexivity.
  - rewrite (H "a"). reflexivity.
Defined.



(** Whatever bytes a snapshot file holds, restoring it stays inside the
    arrays: at most [RAFT_KV_MAX_PAIRS] pairs, every key and value short enough
    for its buffer and its final NUL. *)
Theorem kv_restore_in_bounds kv buf :
  let kv' := kv_restore_snapshot kv buf in
  (kv_count kv' ≤ RAFT_KV_MAX_PAIRS)%nat ∧
  Forall (λ q, used q = true ∧ (String.length (pair_key q) < RAFT_MAX_KEY)%nat ∧
               (String.length (pair_value q) < RAFT_MAX_VALUE)%nat) (pairs kv').
Proof. apply kv_restore_loop_bounds; [constructor|simpl; unfold RAFT_KV_MAX_PAIRS; lia]. Qed.

Lemma kv_count_apply kv c : (kv_count kv ≤ kv_count (kv_apply kv c))%nat.
Proof.
  unfold kv_apply, kv_count. repeat case_match; simpl; rewrite ?length_alter, ?length_app; lia.
Qed.

(** A slot is never given back: once [RAFT_KV_MAX_PAIRS] distinct keys have
    been stored, and whatever is deleted afterwards, a [set] of a key that is
    not stored is silently dropped. *)
Theorem kv_slots_not_reused kv cs k v :
  (RAFT_KV_MAX_PAIRS ≤ kv_count kv)%nat →
  let kv' := fold_left kv_apply cs kv in
  kv_map kv' !! k = None →
  kv_apply kv' (mkCommand "set" k v) = kv'.
Proof.
  intros Hc kv' Hk.
  assert (kv_count kv ≤ kv_count kv')%nat as Hle.
  { unfold kv'. clear. revert kv; induction cs as [|c cs IH]; intros kv; simpl; [done|].
    etrans; [apply kv_count_apply|apply IH]. }
  unfold kv_apply. simpl. destruct (kv_find (pairs kv') k) eqn:E.
  - exfalso. destruct kv' as [ps]. apply kv_map_lookup_None, kv_find_None in Hk.
    simpl in E. congruence.
  - assert ((kv_count kv' <? RAFT_KV_MAX_PAIRS)%nat = false) as -> by (apply Nat.ltb_ge; lia). done.
Qed.

Example kv_slots_not_reused_witness :
  let kv := mkKv (replicate 128 (mkPair "a" "1" false)) in
  raft_kv_get (kv_apply kv (mkCommand "set" "k" "v")) "k" = "".
Proof.
  simpl. pose proof (kv_slots_not_reused (mkKv (replicate 128 (mkPair "a" "1" false))) [] "k" "v") as H.
  simpl fold_left in H. rewrite H; [reflexivity|unfold kv_count, RAFT_KV_MAX_PAIRS; simpl; lia|reflexivity].
Defined.
