(* ===== verification/Config.v ===== *)
(** Cluster configurations, [c/src/raft.c]: member lists, their normalisation,
    majorities, and the textual encoding the configuration entries carry. *)
From S2P Require Import Prelude CString Types.

Definition configuration_is_joint (c : raft_cluster_configuration_t) : bool :=
  (0 <? length (new_members c))%nat.

Definition member_list_contains (members : list string) (id : string) : bool :=
  existsb (λ m, streq m id) members.

(** The first loop of [normalize_members]: drop empty and repeated ids. *)
Fixpoint normalize_collect (capacity : nat) (members out : list string) : list string :=
  match members with
  | [] => out
  | m :: members =>
      if (length out <? capacity)%nat then
        if streq m "" then normalize_collect capacity members out
        else if member_list_contains out m then normalize_collect capacity members out
        else normalize_collect capacity members (out ++ [strncpy RAFT_MAX_ID m])
      else out
  end.

(** The inner loop of the insertion sort: [while (j > 0 && out\[j-1\] > out\[j\])]
    swap the two and step down. *)
Fixpoint normalize_sift (j : nat) (out : list string) : list string :=
  match j with
  | O => out
  | S j' =>
      match out !! j', out !! S j' with
      | Some a, Some b =>
          if strcmp_gt a b then normalize_sift j' (<[j' := b]> (<[S j' := a]> out)) else out
      | _, _ => out
      end
  end.

(** [for (i = 1; i < out_count; ++i)]. *)
Definition normalize_sort (out : list string) : list string :=
  fold_left (λ out i, normalize_sift i out) (seq 1 (length out - 1)) out.

Definition normalize_members (members : list string) (capacity : nat) : list string :=
  normalize_sort (normalize_collect capacity members []).

Definition configuration_set_stable (members : list string) (index : Z)
    : raft_cluster_configuration_t :=
  mkClusterConfig (normalize_members members RAFT_MAX_NODES) [] index.

Definition configuration_set_joint (old new : list string) (index : Z)
    : raft_cluster_configuration_t :=
  mkClusterConfig (normalize_members old RAFT_MAX_NODES)
    (normalize_members new RAFT_MAX_NODES) index.

Definition member_majority (member_count : nat) : nat := member_count / 2 + 1.

(** [encode_member_list]: the ids separated by commas, through [snprintf]. *)
Fixpoint encode_loop (out_size : nat) (first : bool) (out : string) (members : list string)
    : string :=
  match members with
  | [] => out
  | m :: members =>
      let remaining := (out_size - String.length out)%nat in
      let '(text, written) :=
        snprintf remaining ((if first then "" else ",") +:+ m) in
      if (remaining <=? written)%nat then out +:+ text
      else encode_loop out_size false (out +:+ text) members
  end.

Definition encode_member_list (members : list string) (out_size : nat) : string :=
  if (out_size =? 0)%nat then "" else encode_loop out_size true "" members.

Fixpoint decode_loop (capacity : nat) (tokens out : list string) : list string :=
  match tokens with
  | [] => out
  | token :: tokens =>
      if (length out <? capacity)%nat then
        if negb (streq token "") && negb (member_list_contains out token)
        then decode_loop capacity tokens (out ++ [strncpy RAFT_MAX_ID token])
        else decode_loop capacity tokens out
      else out
  end.

Definition decode_member_list (val : string) (capacity : nat) : list string :=
  if streq val "" then []
  else decode_loop capacity (strtok ","%char (strncpy RAFT_MAX_VALUE val)) [].

(** *** Specification *)

(** Ids the encoding can carry. *)
Definition encodable_id (s : string) : bool :=
  negb (streq s "") && lacks ","%char s && (String.length s <? RAFT_MAX_ID)%nat.

(** [voters] holds a majority of [members]. *)
Definition majority_of (voters : string → Prop) `{∀ x, Decision (voters x)}
    (members : list string) : Prop :=
  (member_majority (length members) ≤ length (filter voters members))%nat.

(** ** Lemmas *)

Lemma strcmp_gt_false a b : strcmp_gt a b = false ↔ String.le a b.
Proof.
  unfold strcmp_gt, String.le, String.leb. destruct (String.compare a b); simpl; naive_solver.
Qed.

Lemma strcmp_gt_true a b : strcmp_gt a b = true → String.le b a.
Proof.
  intros H. destruct (total String.le a b) as [Hl|Hl]; [|done].
  apply strcmp_gt_false in Hl. congruence.
Qed.

Lemma member_list_contains_elem members id :
  member_list_contains members id = true ↔ id ∈ members.
Proof.
  unfold member_list_contains. rewrite existsb_exists. split.
  - intros (x & Hx & E). apply streq_true in E as <-. by apply list_elem_of_In.
  - intros Hx. exists id. split; [by apply list_elem_of_In|apply streq_refl].
Qed.

Lemma member_list_contains_false members id :
  member_list_contains members id = false ↔ id ∉ members.
Proof. rewrite <- member_list_contains_elem. by destruct (member_list_contains members id). Qed.

Lemma configuration_is_joint_true c : configuration_is_joint c = true ↔ new_members c ≠ [].
Proof.
  unfold configuration_is_joint. rewrite Nat.ltb_lt. destruct (new_members c); simpl; [|naive_solver lia].
  split; [lia|done].
Qed.

Lemma majority_lt n : (n < 2 * member_majority n)%nat.
Proof. unfold member_majority. pose proof (Nat.div_mod_eq n 2). pose proof (Nat.mod_upper_bound n 2). lia. Qed.

Lemma majority_of_intersect (P Q : string → Prop)
    `{∀ x, Decision (P x)} `{∀ x, Decision (Q x)} members :
  majority_of P members → majority_of Q members → ∃ x, x ∈ members ∧ P x ∧ Q x.
Proof.
  unfold majority_of. intros HP HQ. pose proof (majority_lt (length members)).
  apply (majorities_intersect P Q members); lia.
Qed.

(** The insertion loop puts one element in its place. *)
Lemma normalize_sift_spec pre x post :
  StronglySorted String.le pre →
  ∃ pre', normalize_sift (length pre) (pre ++ x :: post) = pre' ++ post ∧
          pre' ≡ₚ x :: pre ∧ StronglySorted String.le pre'.
Proof.
  revert post; induction pre as [|a pre IH] using rev_ind; intros post Hs.
  { exists [x]. split_and!; [done|done|]. repeat constructor. }
  apply StronglySorted_app in Hs as (Hpa & Hpre & _).
  assert (∀ y, y ∈ pre → String.le y a) as Hle.
  { intros y Hy. apply Hpa; [done|]. by left. }
  rewrite length_app. simpl. rewrite Nat.add_1_r. cbn [normalize_sift].
  rewrite <- app_assoc. simpl.
  rewrite list_lookup_middle by done.
  rewrite (lookup_app_r pre _ (S (length pre))) by lia.
  replace (S (length pre) - length pre)%nat with 1%nat by lia. cbn [lookup list_lookup].
  destruct (strcmp_gt a x) eqn:E.
  - apply strcmp_gt_true in E.
    rewrite (insert_app_r_alt pre _ (S (length pre))) by lia.
    rewrite (insert_app_r_alt pre _ (length pre)) by lia.
    replace (S (length pre) - length pre)%nat with 1%nat by lia.
    rewrite Nat.sub_diag. cbn [insert list_insert].
    destruct (IH (a :: post) Hpre) as (pre' & -> & Hp & Hs').
    exists (pre' ++ [a]). split_and!.
    + by rewrite <- app_assoc.
    + rewrite Hp, <- Permutation_cons_append. simpl.
      rewrite (Permutation_app_comm pre [a]). apply Permutation_swap.
    + apply StronglySorted_app. split_and!; [|done|repeat constructor].
      intros y z Hy ->%list_elem_of_singleton. rewrite Hp in Hy.
      apply elem_of_cons in Hy as [-> |Hy]; [done|by apply Hle].
  - apply strcmp_gt_false in E. exists (pre ++ [a; x]). split_and!.
    + by rewrite <- app_assoc.
    + rewrite (Permutation_app_comm pre [a; x]), (Permutation_app_comm pre [a]). simpl.
      apply Permutation_swap.
    + apply StronglySorted_app. split_and!; [|done|repeat constructor; done].
      intros y z Hy Hz. pose proof (Hle _ Hy).
      apply elem_of_cons in Hz as [-> | ->%list_elem_of_singleton]; [done|].
      by transitivity a.
Qed.

Lemma normalize_sort_loop k pre post :
  StronglySorted String.le pre → (1 ≤ length pre)%nat → length post = k →
  let r := fold_left (λ out i, normalize_sift i out) (seq (length pre) k) (pre ++ post) in
  r ≡ₚ pre ++ post ∧ StronglySorted String.le r.
Proof.
  revert pre post; induction k as [|k IH]; intros pre post Hs Hl Hk; simpl.
  - destruct post; [|done]. by rewrite app_nil_r.
  - destruct post as [|x post]; [done|]. simplify_eq/=.
    destruct (normalize_sift_spec pre x post Hs) as (pre' & -> & Hp & Hs').
    assert (length pre' = S (length pre)) as Hl' by (by rewrite Hp).
    rewrite <- Hl'. destruct (IH pre' post) as [Hr1 Hr2]; [done|lia|done|].
    split; [|done]. rewrite Hr1, Hp. simpl. by rewrite <- Permutation_middle.
Qed.

Lemma normalize_sort_spec out :
  normalize_sort out ≡ₚ out ∧ StronglySorted String.le (normalize_sort out).
Proof.
  unfold normalize_sort. destruct out as [|x out]; [split; [done|constructor]|].
  simpl. rewrite Nat.sub_0_r.
  apply (normalize_sort_loop (length out) [x] out); [repeat constructor|simpl; lia|done].
Qed.

Definition id_fits (m : string) : Prop := (String.length m < RAFT_MAX_ID)%nat.

Lemma normalize_collect_good cap members out :
  Forall id_fits members → NoDup out → Forall (λ m, m ≠ "" ∧ id_fits m) out →
  NoDup (normalize_collect cap members out) ∧
  Forall (λ m, m ≠ "" ∧ id_fits m) (normalize_collect cap members out).
Proof.
  intros Hm. revert out; induction Hm as [|m members Hm _ IH]; intros out Hnd Hf;
    cbn [normalize_collect]; [done|].
  repeat case_match; [by apply IH..| |done].
  rewrite strncpy_fits by done.
  match goal with H : streq _ _ = false |- _ => apply streq_false in H end.
  match goal with H : member_list_contains _ _ = false |- _ => apply member_list_contains_false in H end.
  apply IH.
  - apply NoDup_app. split_and!; [done| |apply NoDup_singleton].
    by intros x Hx ->%list_elem_of_singleton.
  - apply Forall_app. split; [done|]. constructor; [by split|constructor].
Qed.

Lemma normalize_collect_elem cap members out x :
  Forall id_fits members → (length out + length members ≤ cap)%nat →
  x ∈ normalize_collect cap members out ↔ x ∈ out ∨ (x ∈ members ∧ x ≠ "").
Proof.
  intros Hm. revert out; induction Hm as [|m members Hm _ IH]; intros out Hl;
    cbn [normalize_collect]; simpl in Hl.
  { rewrite elem_of_nil. tauto. }
  rewrite (proj2 (Nat.ltb_lt (length out) cap)) by lia.
  destruct (streq m "") eqn:E1; [|destruct (member_list_contains out m) eqn:E2].
  - apply streq_true in E1 as ->. rewrite IH by lia. rewrite elem_of_cons. naive_solver.
  - apply member_list_contains_elem in E2. rewrite IH by lia. rewrite elem_of_cons. naive_solver.
  - apply streq_false in E1. rewrite strncpy_fits by done.
    rewrite IH by (rewrite length_app; simpl; lia).
    rewrite elem_of_app, list_elem_of_singleton, elem_of_cons. naive_solver.
Qed.

Lemma normalize_collect_length cap members out :
  (length out ≤ cap)%nat → (length (normalize_collect cap members out) ≤ cap)%nat.
Proof.
  revert out; induction members as [|m members IH]; intros out H; cbn [normalize_collect]; [done|].
  repeat case_match; bools; try apply IH; try lia. rewrite length_app. simpl. lia.
Qed.

Lemma StronglySorted_perm_unique l1 l2 :
  StronglySorted String.le l1 → StronglySorted String.le l2 → l1 ≡ₚ l2 → l1 = l2.
Proof. intros ???. by eapply (StronglySorted_unique String.le). Qed.

Lemma normalize_members_good members cap :
  Forall id_fits members →
  NoDup (normalize_members members cap) ∧
  Forall (λ m, m ≠ "" ∧ id_fits m) (normalize_members members cap) ∧
  StronglySorted String.le (normalize_members members cap).
Proof.
  intros Hm. unfold normalize_members.
  destruct (normalize_sort_spec (normalize_collect cap members [])) as [Hp Hs].
  destruct (normalize_collect_good cap members []) as [Hnd Hf]; [done|constructor|constructor|].
  split_and!; [by rewrite Hp|by rewrite Hp|done].
Qed.

Lemma normalize_members_length members cap : (length (normalize_members members cap) ≤ cap)%nat.
Proof.
  unfold normalize_members. destruct (normalize_sort_spec (normalize_collect cap members [])) as [Hp _].
  rewrite Hp. apply normalize_collect_length. simpl. lia.
Qed.

Lemma normalize_members_elem members cap x :
  Forall id_fits members → (length members ≤ cap)%nat →
  x ∈ normalize_members members cap ↔ x ∈ members ∧ x ≠ "".
Proof.
  intros Hm Hl. unfold normalize_members.
  destruct (normalize_sort_spec (normalize_collect cap members [])) as [Hp _]. rewrite Hp.
  rewrite normalize_collect_elem by done. rewrite elem_of_nil. tauto.
Qed.

(** The encoded text. *)
Fixpoint comma_join (first : bool) (members : list string) : string :=
  match members with
  | [] => ""
  | m :: members => ((if first then "" else ",") +:+ m) +:+ comma_join false members
  end.

Lemma encode_loop_join n first out members :
  (String.length out + String.length (comma_join first members) < n)%nat →
  encode_loop n first out members = out +:+ comma_join first members.
Proof.
  revert first out; induction members as [|m members IH]; intros first out H;
    cbn [encode_loop comma_join] in *; [by rewrite str_app_nil_r|].
  rewrite str_app_length in H. unfold snprintf.
  rewrite str_take_all by lia. rewrite (proj2 (Nat.leb_gt _ _)) by lia.
  rewrite IH by (rewrite str_app_length; lia). symmetry. apply str_app_assoc.
Qed.

Lemma comma_join_length first members :
  Forall id_fits members →
  (String.length (comma_join first members) ≤ 16 * length members - (if first then 1 else 0))%nat.
Proof.
  intros Hm. revert first; induction Hm as [|m members Hm _ IH]; intros first; [simpl; lia|].
  cbn [comma_join]. rewrite !str_app_length. specialize (IH false).
  unfold id_fits, RAFT_MAX_ID in Hm. destruct first; simpl in *; lia.
Qed.

Lemma strtok_join m members :
  Forall (λ m, encodable_id m = true) (m :: members) →
  strtok ","%char (m +:+ comma_join false members) = m :: members.
Proof.
  revert m; induction members as [|m' members IH]; intros m Hf;
    apply Forall_cons in Hf as [Hm Hf]; unfold encodable_id in Hm; bools;
    match goal with H : streq _ _ = false |- _ => apply streq_false in H end.
  - cbn [comma_join]. rewrite str_app_nil_r. by apply strtok_last.
  - cbn [comma_join]. rewrite <- str_app_assoc. change ("," +:+ ?s) with (String "," s).
    rewrite strtok_cons by done. by rewrite IH.
Qed.

Lemma decode_loop_fresh cap tokens out :
  Forall (λ m, encodable_id m = true) tokens → NoDup (out ++ tokens) →
  (length (out ++ tokens) ≤ cap)%nat →
  decode_loop cap tokens out = out ++ tokens.
Proof.
  intros Ht. revert out; induction Ht as [|t tokens Ht _ IH]; intros out Hnd Hl;
    cbn [decode_loop]; [by rewrite app_nil_r|].
  rewrite length_app in Hl. simpl in Hl.
  rewrite (proj2 (Nat.ltb_lt _ _)) by lia. unfold encodable_id in Ht. bools.
  match goal with H : streq _ _ = false |- _ => rewrite H end.
  assert (member_list_contains out t = false) as ->.
  { apply member_list_contains_false. intros Hin. apply NoDup_app in Hnd as (_ & Hd & _).
    apply (Hd t); [done|left]. }
  simpl. rewrite strncpy_fits by done.
  rewrite IH; rewrite <- ?app_assoc; simpl; [done..|]. rewrite length_app. simpl. lia.
Qed.

(** ** Theorems *)

(** C26: a normalised member list is sorted, free of repetitions and empty ids,
    no longer than its capacity, holds exactly the non-empty ids it was given,
    and depends only on which ids these are, not on their order. *)
Theorem normalize_members_canonical members members' :
  Forall id_fits members → Forall id_fits members' →
  (length members ≤ RAFT_MAX_NODES)%nat → (length members' ≤ RAFT_MAX_NODES)%nat →
  (∀ x, x ∈ members ↔ x ∈ members') →
  let r := normalize_members members RAFT_MAX_NODES in
  NoDup r ∧ StronglySorted String.le r ∧ (length r ≤ RAFT_MAX_NODES)%nat ∧
  (∀ x, x ∈ r ↔ x ∈ members ∧ x ≠ "") ∧
  normalize_members members' RAFT_MAX_NODES = r.
Proof.
  intros Hf Hf' Hl Hl' Heq r.
  destruct (normalize_members_good members RAFT_MAX_NODES Hf) as (Hnd & _ & Hs).
  destruct (normalize_members_good members' RAFT_MAX_NODES Hf') as (Hnd' & _ & Hs').
  split_and!; [done|done|apply normalize_members_length| |].
  - intros x. by apply normalize_members_elem.
  - apply StronglySorted_perm_unique; [done..|].
    apply NoDup_Permutation; [done..|]. intros x.
    unfold r. rewrite !normalize_members_elem by done. by rewrite Heq.
Qed.

Example normalize_members_canonical_witness :
  normalize_members ["n3"; ""; "n1"; "n3"] RAFT_MAX_NODES = ["n1"; "n3"] ∧
  normalize_members ["n1"; "n3"; ""] RAFT_MAX_NODES = ["n1"; "n3"].
Proof.
  destruct (normalize_members_canonical ["n1"; "n3"; ""] ["n3"; ""; "n1"; "n3"])
    as (_ & _ & _ & _ & H).
  - repeat constructor; unfold id_fits, RAFT_MAX_ID; simpl; lia.
  - repeat constructor; unfold id_fits, RAFT_MAX_ID; simpl; lia.
  - unfold RAFT_MAX_NODES. simpl. lia.
  - unfold RAFT_MAX_NODES. simpl. lia.
  - intros x. rewrite !elem_of_cons. tauto.
  - rewrite H. split; reflexivity.
Defined.

Lemma decode_encode_members members :
  NoDup members → (length members ≤ RAFT_MAX_NODES)%nat →
  Forall (λ m, encodable_id m = true) members →
  decode_member_list (strncpy RAFT_MAX_VALUE (encode_member_list members RAFT_MAX_VALUE))
    RAFT_MAX_NODES = members.
Proof.
  intros Hnd Hl Hf.
  assert (Forall id_fits members) as Hfit.
  { eapply Forall_impl; [exact Hf|]. intros m Hm. unfold encodable_id in Hm. by bools. }
  pose proof (comma_join_length true members Hfit) as Hj.
  unfold encode_member_list. rewrite (proj2 (Nat.eqb_neq _ _)) by done.
  assert (String.length (comma_join true members) < RAFT_MAX_VALUE)%nat as Hlen
    by (unfold RAFT_MAX_VALUE, RAFT_MAX_NODES in *; lia).
  rewrite encode_loop_join, str_app_nil_l by (simpl; lia).
  rewrite !strncpy_fits by done. unfold decode_member_list.
  destruct members as [|m members]; [done|].
  case_match.
  - exfalso. apply streq_true in H. apply (f_equal String.length) in H.
    cbn [comma_join] in H. rewrite !str_app_length in H. simpl in H.
    apply Forall_cons in Hf as [Hm _]. unfold encodable_id in Hm. bools.
    destruct m; [done|simpl in H; lia].
  - rewrite strncpy_fits by done. cbn [comma_join]. rewrite str_app_nil_l, strtok_join by done.
    rewrite decode_loop_fresh; done.
Qed.

(** A member list that fits a configuration survives the trip through a log
    entry: encoded in a [RAFT_MAX_VALUE] buffer it is never cut, and decoding
    the entry's value gives the list back. *)
Theorem member_list_roundtrip members :
  NoDup members → (length members ≤ RAFT_MAX_NODES)%nat →
  Forall (λ m, encodable_id m = true) members →
  decode_member_list (strncpy RAFT_MAX_VALUE (encode_member_list members RAFT_MAX_VALUE))
    RAFT_MAX_NODES = members.
Proof. apply decode_encode_members. Qed.

Example member_list_roundtrip_witness :
  decode_member_list (strncpy RAFT_MAX_VALUE (encode_member_list ["n1"; "n2"; "n3"] RAFT_MAX_VALUE))
    RAFT_MAX_NODES = ["n1"; "n2"; "n3"].
Proof.
  apply member_list_roundtrip.
  - apply (bool_decide_unpack _). reflexivity.
  - unfold RAFT_MAX_NODES. simpl. lia.
  - repeat constructor.
Defined.
