(* ===== verification/NodeLog.v ===== *)
(** The log of a node and its compaction-aware index arithmetic, the node's
    membership predicates and the election timeout: the helpers at the top of
    [c/src/raft.c].  Log indices are unbounded [Z]; a read of the array is
    checked against its size. *)
From S2P Require Import Prelude CString Types Config.

Section Helpers.
  Context {U : Type}.
  Implicit Types node : raft_node_t U.

Definition node_last_log_index node : Z :=
  (snapshot_last_included_index node + Z.of_nat (log_count node))%Z.

Definition node_physical_index node (index : Z) : Z :=
  (index - snapshot_last_included_index node - 1)%Z.

(** [node->log\[node_physical_index(node, index)\]]. *)
Definition node_log_at node (index : Z) : option raft_log_entry_t :=
  array_get (log node) (node_physical_index node index).

Definition node_last_log_term node : option Z :=
  if (log_count node =? 0)%nat then Some (snapshot_last_included_term node)
  else entry_term <$> array_get (log node) (Z.of_nat (log_count node) - 1).

Definition node_log_base_index node : Z := (snapshot_last_included_index node + 1)%Z.

Definition node_has_log_index node (index : Z) : bool :=
  (node_log_base_index node <=? index)%Z && (index <=? node_last_log_index node)%Z.

Definition node_term_at_index node (index : Z) : option Z :=
  if (index =? 0)%Z then Some 0%Z
  else if (index =? snapshot_last_included_index node)%Z
       then Some (snapshot_last_included_term node)
  else entry_term <$> node_log_at node index.

Definition node_leader_at_index node (index : Z) : option string :=
  if (index <=? 0)%Z || negb (node_has_log_index node index) then Some ""
  else entry_leader_id <$> node_log_at node index.

(** [node->log\[node->log_count++\] = entry]. *)
Definition node_log_push node (entry : raft_log_entry_t) : option (raft_node_t U) :=
  l ← array_set (log node) (log_count node) entry;
  Some (node <| log := l |> <| log_count := S (log_count node) |>).

Definition fnv_step (h x : Z) : Z := (Z.lxor h x * 16777619 mod 2 ^ 32)%Z.

Fixpoint fnv_string (h : Z) (s : string) : Z :=
  match s with
  | "" => h
  | String c s => fnv_string (fnv_step h (Z.of_N (Ascii.N_of_ascii c))) s
  end.

(** FNV-1a over the id, the term and the clock, on [uint32_t]. *)
Definition node_next_election_timeout node (clock : Z) : Z :=
  let base := election_timeout_ms (config node) in
  if (base <=? 1)%Z then base
  else
    let h := fnv_string 2166136261 (node_id (config node)) in
    let h := fnv_step h (current_term node mod 2 ^ 32) in
    let h := fnv_step h (Z.land clock 4294967295) in
    (base + h mod base)%Z.

Fixpoint refresh_new (self : string) (ms peers : list string) : list string :=
  match ms with
  | [] => peers
  | m :: ms =>
      if (length peers <? RAFT_MAX_PEERS)%nat then
        if negb (streq m self) && negb (member_list_contains peers m)
        then refresh_new self ms (peers ++ [strncpy RAFT_MAX_ID m])
        else refresh_new self ms peers
      else peers
  end.

Fixpoint refresh_old (self : string) (ms peers : list string) : list string :=
  match ms with
  | [] => peers
  | m :: ms =>
      if (length peers <? RAFT_MAX_PEERS)%nat then
        if negb (streq m self) then refresh_old self ms (peers ++ [strncpy RAFT_MAX_ID m])
        else refresh_old self ms peers
      else peers
  end.

Definition node_refresh_peers node : raft_node_t U :=
  let self := node_id (config node) in
  let ps := refresh_old self (old_members (config_state node)) [] in
  let ps := refresh_new self (new_members (config_state node)) ps in
  node <| config := config node <| peers := ps |> |>.

Definition node_self_is_member node : bool :=
  member_list_contains (old_members (config_state node)) (node_id (config node))
  || member_list_contains (new_members (config_state node)) (node_id (config node)).

Definition node_is_leader node : bool :=
  running node && node_self_is_member node
  && bool_decide (machine_state node = RAFT_ROLE_LEADER).

(** [-1] is [None]. *)
Fixpoint peer_index_from (i : nat) (ps : list string) (id : string) : option nat :=
  match ps with
  | [] => None
  | p :: ps => if streq p id then Some i else peer_index_from (S i) ps id
  end.
Definition node_peer_index node (peer_id : string) : option nat :=
  peer_index_from 0 (peers (config node)) peer_id.

Definition node_record_vote node (peer_id : string) : raft_node_t U :=
  if member_list_contains (votes_received node) peer_id then node
  else if (length (votes_received node) <? RAFT_MAX_PEERS + 1)%nat
  then node <| votes_received := votes_received node ++ [strncpy RAFT_MAX_ID peer_id] |>
  else node.

Definition node_has_vote_quorum node (members : list string) : bool :=
  (member_majority (length members)
   <=? length (filter (λ m, member_list_contains (votes_received node) m = true) members))%nat.

Definition node_queue_message node (message : raft_message_t) : raft_node_t U :=
  node <| outbox := queue_push RAFT_MAX_QUEUE (outbox node) message |>.

(** *** Well-formedness of the log *)

(** The log array has its size and the live entries are numbered from the
    snapshot on. *)
Record log_core node : Prop := {
  log_core_length : length (log node) = RAFT_MAX_LOG;
  log_core_count : (log_count node ≤ RAFT_MAX_LOG)%nat;
  log_core_snapshot : (0 ≤ snapshot_last_included_index node)%Z;
  log_core_index i e :
    (i < log_count node)%nat → log node !! i = Some e →
    entry_index e = (snapshot_last_included_index node + 1 + Z.of_nat i)%Z;
}.

(** Moreover nothing is applied or committed past the end of the log, and
    everything the snapshot covers is applied. *)
Record log_wf node : Prop := {
  log_wf_core :> log_core node;
  log_wf_commit : (commit_index node ≤ node_last_log_index node)%Z;
  log_wf_applied :
    (snapshot_last_included_index node ≤ last_applied node ≤ node_last_log_index node)%Z;
}.

(** The bookkeeping arrays have their sizes, and no [next_index] points further
    than one past the log array. *)
Record repl_wf node : Prop := {
  repl_wf_peers : (length (peers (config node)) ≤ RAFT_MAX_PEERS)%nat;
  repl_wf_next : length (next_index node) = RAFT_MAX_PEERS;
  repl_wf_match : length (match_index node) = RAFT_MAX_PEERS;
  repl_wf_bound :
    Forall (λ n, (n ≤ snapshot_last_included_index node + Z.of_nat RAFT_MAX_LOG + 1)%Z)
      (next_index node);
}.

(** ** Lemmas *)

(** The fields [log_wf] depends on; an update of any other field keeps it. *)
Lemma log_wf_ext node node' :
  log node' = log node → log_count node' = log_count node →
  snapshot_last_included_index node' = snapshot_last_included_index node →
  commit_index node' = commit_index node → last_applied node' = last_applied node →
  log_wf node → log_wf node'.
Proof.
  intros E1 E2 E3 E4 E5 [[H1 H2 H3 H4] H5 H6].
  split; [split|..]; unfold node_last_log_index in *; rewrite ?E1, ?E2, ?E3, ?E4, ?E5; done.
Qed.

Lemma log_core_ext node node' :
  log node' = log node → log_count node' = log_count node →
  snapshot_last_included_index node' = snapshot_last_included_index node →
  log_core node → log_core node'.
Proof. intros E1 E2 E3 [H1 H2 H3 H4]. split; rewrite ?E1, ?E2, ?E3; done. Qed.

Lemma repl_wf_ext node node' :
  peers (config node') = peers (config node) → next_index node' = next_index node →
  match_index node' = match_index node →
  snapshot_last_included_index node' = snapshot_last_included_index node →
  repl_wf node → repl_wf node'.
Proof. intros E1 E2 E3 E4 [H1 H2 H3 H4]. split; rewrite ?E1, ?E2, ?E3, ?E4; done. Qed.

Lemma node_log_at_defined node i :
  log_core node → (snapshot_last_included_index node < i)%Z →
  (i ≤ snapshot_last_included_index node + Z.of_nat RAFT_MAX_LOG)%Z →
  ∃ e, node_log_at node i = Some e.
Proof.
  intros Hwf H1 H2. unfold node_log_at, node_physical_index.
  apply array_get_Some. rewrite (log_core_length _ Hwf). lia.
Qed.

(** Inside the log, the entry read is the one with that index. *)
Lemma node_log_at_index node i :
  log_core node → node_has_log_index node i = true →
  ∃ e, node_log_at node i = Some e ∧ entry_index e = i.
Proof.
  intros Hwf Hi. unfold node_has_log_index, node_log_base_index, node_last_log_index in Hi. bools.
  pose proof (log_core_count _ Hwf).
  destruct (node_log_at_defined node i Hwf) as [e He]; [lia..|].
  exists e. split; [done|]. unfold node_log_at in He. apply array_get_inv in He as [Hb He].
  unfold node_physical_index in *. apply (log_core_index _ Hwf) in He; lia.
Qed.

Lemma node_term_at_defined node i :
  log_core node → (i = 0 ∨ snapshot_last_included_index node ≤ i)%Z →
  (i ≤ snapshot_last_included_index node + Z.of_nat RAFT_MAX_LOG)%Z →
  ∃ t, node_term_at_index node i = Some t.
Proof.
  intros Hwf H1 H2. unfold node_term_at_index. repeat case_match; bools; eauto.
  destruct (node_log_at_defined node i Hwf) as [e ->]; [lia..|]. simpl. eauto.
Qed.

Lemma node_leader_at_defined node i :
  log_core node → ∃ l, node_leader_at_index node i = Some l.
Proof.
  intros Hwf. unfold node_leader_at_index. case_match; [eauto|]. bools.
  destruct (node_log_at_index node i Hwf) as (e & -> & _); [done|]. simpl. eauto.
Qed.

Lemma node_last_log_term_defined node : log_core node → ∃ t, node_last_log_term node = Some t.
Proof.
  intros Hwf. unfold node_last_log_term. case_match; bools; [eauto|].
  destruct (array_get_Some (log node) (Z.of_nat (log_count node) - 1)) as [e ->].
  - rewrite (log_core_length _ Hwf). pose proof (log_core_count _ Hwf). lia.
  - simpl. eauto.
Qed.

Lemma node_log_push_defined node e :
  log_core node → (log_count node < RAFT_MAX_LOG)%nat → ∃ node', node_log_push node e = Some node'.
Proof.
  intros Hwf H. unfold node_log_push, array_set. rewrite (log_core_length _ Hwf).
  rewrite (proj2 (Nat.ltb_lt _ _)) by done. simpl. eauto.
Qed.

Lemma node_log_push_inv node e node' :
  node_log_push node e = Some node' →
  (log_count node < length (log node))%nat ∧
  node' = node <| log := <[log_count node := e]> (log node) |> <| log_count := S (log_count node) |>.
Proof. unfold node_log_push, array_set. intros H. opts. case_match; opts. by bools. Qed.

Lemma log_core_push node e node' :
  log_core node → entry_index e = (node_last_log_index node + 1)%Z →
  node_log_push node e = Some node' → log_core node'.
Proof.
  intros Hwf He (Hlt & ->)%node_log_push_inv. destruct Hwf as [H1 H2 H3 H4].
  unfold node_last_log_index in *. split; rsimpl.
  - by rewrite length_insert.
  - rewrite H1 in Hlt. lia.
  - done.
  - intros i e' Hi. destruct (decide (i = log_count node)) as [->|Hne].
    + rewrite list_lookup_insert_eq by done. intros [= <-]. lia.
    + rewrite list_lookup_insert_ne by done. intros ?. apply H4; [lia|done].
Qed.

Lemma log_wf_push node e node' :
  log_wf node → entry_index e = (node_last_log_index node + 1)%Z →
  node_log_push node e = Some node' → log_wf node'.
Proof.
  intros [Hc H5 H6] He Hp. pose proof (log_core_push _ _ _ Hc He Hp).
  apply node_log_push_inv in Hp as (_ & ->).
  unfold node_last_log_index in *. split; [done|..]; unfold node_last_log_index; rsimpl; lia.
Qed.

(** Truncating the log to its first [k] entries. *)
Lemma log_core_truncate node k :
  log_core node → (k ≤ log_count node)%nat → log_core (node <| log_count := k |>).
Proof.
  intros [H1 H2 H3 H4] Hk. split; rsimpl; try done; try lia.
  intros i e Hi. apply H4. lia.
Qed.

(** The election timeout lies in [\[base, 2 * base)]. *)
Lemma election_timeout_range node clock :
  let base := election_timeout_ms (config node) in
  (1 < base)%Z →
  (base ≤ node_next_election_timeout node clock < 2 * base)%Z.
Proof.
  intros base Hb. unfold node_next_election_timeout. fold base.
  case_match; bools; [lia|].
  match goal with |- context [(?h mod base)%Z] => pose proof (Z.mod_pos_bound h base ltac:(lia)) end.
  lia.
Qed.

Lemma refresh_old_length self ms ps :
  (length ps ≤ RAFT_MAX_PEERS)%nat → (length (refresh_old self ms ps) ≤ RAFT_MAX_PEERS)%nat.
Proof.
  revert ps; induction ms as [|m ms IH]; intros ps H; cbn [refresh_old]; [done|].
  repeat case_match; bools; try apply IH; try done. rewrite length_app. simpl. lia.
Qed.

Lemma refresh_new_length self ms ps :
  (length ps ≤ RAFT_MAX_PEERS)%nat → (length (refresh_new self ms ps) ≤ RAFT_MAX_PEERS)%nat.
Proof.
  revert ps; induction ms as [|m ms IH]; intros ps H; cbn [refresh_new]; [done|].
  repeat case_match; bools; try apply IH; try done. rewrite length_app. simpl. lia.
Qed.

Lemma node_refresh_peers_length node :
  (length (peers (config (node_refresh_peers node))) ≤ RAFT_MAX_PEERS)%nat.
Proof. apply refresh_new_length, refresh_old_length. simpl. lia. Qed.

Lemma peer_index_from_Some i ps id j :
  peer_index_from i ps id = Some j → (i ≤ j < i + length ps)%nat ∧ ps !! (j - i)%nat = Some id.
Proof.
  revert i; induction ps as [|p ps IH]; intros i H; simpl in H; [done|].
  case_match; simplify_eq.
  - apply streq_true in H0 as ->. rewrite Nat.sub_diag. simpl. split; [lia|done].
  - apply IH in H as [H1 H2]. simpl. split; [lia|].
    replace (j - i)%nat with (S (j - S i))%nat by lia. done.
Qed.

Lemma node_peer_index_lt node id i :
  repl_wf node → node_peer_index node id = Some i → (i < RAFT_MAX_PEERS)%nat.
Proof. intros Hr [H _]%peer_index_from_Some. pose proof (repl_wf_peers _ Hr). lia. Qed.

End Helpers.

#[export] Hint Resolve node_refresh_peers_length log_wf_push : raft.

(** An update of fields the log invariant does not mention. *)
Ltac keep_log_core n := apply (log_core_ext n); [reflexivity..|].
Ltac keep_log_wf n := apply (log_wf_ext n); [reflexivity..|].
Ltac keep_repl_wf n := apply (repl_wf_ext n); [reflexivity..|].
