(* ===== verification/Samples.v ===== *)
(** Concrete nodes, on which the witnesses evaluate the definitions, and the
    executable checks of the invariants they start from. *)
From S2P Require Import Prelude CString Types Config NodeLog.

Section Checks.
  Context {U : Type}.
  Implicit Types node : raft_node_t U.

Definition log_wfb node : bool :=
  (length (log node) =? RAFT_MAX_LOG)%nat && (log_count node <=? RAFT_MAX_LOG)%nat
  && (0 <=? snapshot_last_included_index node)%Z
  && forallb (λ i, match log node !! i with
                   | Some e => (entry_index e =? snapshot_last_included_index node + 1 + Z.of_nat i)%Z
                   | None => true
                   end) (seq 0 (log_count node))
  && (commit_index node <=? node_last_log_index node)%Z
  && (snapshot_last_included_index node <=? last_applied node)%Z
  && (last_applied node <=? node_last_log_index node)%Z.

Definition repl_wfb node : bool :=
  (length (peers (config node)) <=? RAFT_MAX_PEERS)%nat
  && (length (next_index node) =? RAFT_MAX_PEERS)%nat
  && (length (match_index node) =? RAFT_MAX_PEERS)%nat
  && forallb (λ n, (n <=? snapshot_last_included_index node + Z.of_nat RAFT_MAX_LOG + 1)%Z)
       (next_index node).

Lemma log_wfb_sound node : log_wfb node = true → log_wf node.
Proof.
  unfold log_wfb. intros H. bools. split; [split|..]; try done.
  intros i e Hi He. rewrite forallb_forall in H3. specialize (H3 i).
  rewrite He in H3. apply Z.eqb_eq, H3, in_seq. lia.
Qed.

Lemma repl_wfb_sound node : repl_wfb node = true → repl_wf node.
Proof.
  unfold repl_wfb. intros H. bools. split; try done.
  apply Forall_forall. intros x Hx. rewrite forallb_forall in H0.
  apply Z.leb_le, H0. by apply list_elem_of_In.
Qed.

End Checks.

Definition sample_config (id : string) (ps ms : list string) : raft_node_config_t :=
  mkConfig id ps ms false 150 50.

Definition sample_app : raft_application_t nat :=
  mkApplication (Some (λ n _, S n)) (Some (λ _, 0%nat)) None None 0%nat.

(** Node [id] of the cluster [ms] in the role [r] and the term [t], with the
    log entries [es] after an empty snapshot. *)
Definition sample_node (id : string) (ps ms : list string) (r : raft_role_t) (t : Z)
    (es : list raft_log_entry_t) : raft_node_t nat :=
  mkNode (sample_config id ps ms) (mkStorage id "data" "") sample_app r t "" 
    (es ++ replicate (RAFT_MAX_LOG - length es) zero_entry) (length es) 0 0 0 0 "" 128 true
    (mkClusterConfig ms [] 0) RAFT_MEMBERSHIP_STABLE [] false 0 0 []
    (replicate RAFT_MAX_PEERS 1%Z) (replicate RAFT_MAX_PEERS 0%Z) [] [] [] [] false 150 50.

Definition sample_entry (i t : Z) (leader : string) : raft_log_entry_t :=
  mkEntry i t leader (mkCommand "set" "x" "1").

(** A follower [b] of the cluster {a, b, c} with two entries of term 1. *)
Definition follower_b : raft_node_t nat :=
  sample_node "b" ["a"; "c"] ["a"; "b"; "c"] RAFT_ROLE_FOLLOWER 1
    [sample_entry 1 1 "a"; sample_entry 2 1 "a"].

(** The leader [a] of term 2, with an entry of its own term. *)
Definition leader_a : raft_node_t nat :=
  sample_node "a" ["b"; "c"] ["a"; "b"; "c"] RAFT_ROLE_LEADER 2
    [sample_entry 1 1 "a"; sample_entry 2 2 "a"].

(** [c] sends [b] an entry of term 2 that replaces [b]'s second one. *)
Definition append_from_c : raft_message_t :=
  mkMessage RAFT_MSG_APPEND_ENTRIES 2 "c" "b" false false 1 1 "a" 1 0 0 0
    [sample_entry 2 2 "c"; sample_entry 3 2 "c"].

(** A delayed message of [a] with an entry [b] already has. *)
Definition stale_from_a : raft_message_t :=
  mkMessage RAFT_MSG_APPEND_ENTRIES 1 "a" "b" false false 0 0 "" 0 0 0 0 [sample_entry 1 1 "a"].

Definition vote_request_from_c : raft_message_t :=
  mkMessage RAFT_MSG_REQUEST_VOTE 2 "c" "b" false false 0 0 "" 0 0 2 1 [].

Definition append_reply_from_b : raft_message_t :=
  mkMessage RAFT_MSG_APPEND_ENTRIES_RESPONSE 2 "b" "a" false true 0 0 "" 0 2 0 0 [].

Lemma follower_b_log_wf : log_wf follower_b.
Proof. apply log_wfb_sound. vm_compute. reflexivity. Qed.
Lemma follower_b_repl_wf : repl_wf follower_b.
Proof. apply repl_wfb_sound. vm_compute. reflexivity. Qed.
Lemma leader_a_log_wf : log_wf leader_a.
Proof. apply log_wfb_sound. vm_compute. reflexivity. Qed.
Lemma leader_a_repl_wf : repl_wf leader_a.
Proof. apply repl_wfb_sound. vm_compute. reflexivity. Qed.

#[export] Hint Resolve follower_b_log_wf follower_b_repl_wf leader_a_log_wf leader_a_repl_wf : raft.
