(* ===== verification/Replication.v ===== *)
(** Replication, [c/src/raft.c]: building and queueing [AppendEntries], and the
    leader's commit rule. *)
From S2P Require Import Prelude CString Types Config NodeLog.

Section Replication.
  Context {U : Type}.
  Implicit Types node : raft_node_t U.

(** The loop that copies entries [i ..] into the message; [count] entries may
    still be copied. *)
Fixpoint collect_entries node (count : nat) (i : Z) : option (list raft_log_entry_t) :=
  match count with
  | O => Some []
  | S count =>
      if (i <=? node_last_log_index node)%Z then
        e ← node_log_at node i;
        es ← collect_entries node count (i + 1)%Z;
        Some (e :: es)
      else Some []
  end.

Definition send_next_index node (peer_id : string) : option Z :=
  next_idx ← match node_peer_index node peer_id with
             | Some i => next_index node !! i
             | None => Some (node_last_log_index node + 1)%Z
             end;
  Some (if (next_idx <? node_log_base_index node)%Z then node_log_base_index node else next_idx).

Definition node_send_append_entries_to node (peer_id : string) : option (raft_node_t U) :=
  next_idx ← send_next_index node peer_id;
  let prev_index := (next_idx - 1)%Z in
  prev_term ← node_term_at_index node prev_index;
  prev_leader ← node_leader_at_index node prev_index;
  es ← collect_entries node RAFT_MAX_BATCH next_idx;
  Some (node_queue_message node
    (zero_message RAFT_MSG_APPEND_ENTRIES
       <| msg_term := current_term node |>
       <| prev_log_index := prev_index |>
       <| prev_log_term := prev_term |>
       <| prev_log_leader_id := strncpy RAFT_MAX_ID prev_leader |>
       <| leader_commit := commit_index node |>
       <| source := strncpy RAFT_MAX_ID (node_id (config node)) |>
       <| target := strncpy RAFT_MAX_ID peer_id |>
       <| entries := es |>)).

Definition node_broadcast_append_entries node : option (raft_node_t U) :=
  for_each node_send_append_entries_to (peers (config node)) node.

Definition node_candidate_is_up_to_date node (message : raft_message_t) : option bool :=
  my_term ← node_last_log_term node;
  let my_index := node_last_log_index node in
  Some (if negb (last_log_term message =? my_term)%Z
        then (my_term <? last_log_term message)%Z
        else (my_index <=? last_log_index message)%Z).

(** Whether member [m] is known to hold the log up to [candidate_index]. *)
Definition member_replicated node (candidate_index : Z) (m : string) : bool :=
  if streq m (node_id (config node))
  then (candidate_index <=? node_last_log_index node)%Z
  else match i ← node_peer_index node m; match_index node !! i with
       | Some k => (candidate_index <=? k)%Z
       | None => false
       end.

Definition node_replicated_on_members node (candidate_index : Z) (members : list string) : bool :=
  (member_majority (length members)
   <=? length (filter (λ m, member_replicated node candidate_index m = true) members))%nat.

Definition node_is_committed_under_current_configuration node (candidate_index : Z) : bool :=
  if negb (node_replicated_on_members node candidate_index (old_members (config_state node)))
  then false
  else if negb (configuration_is_joint (config_state node)) then true
  else node_replicated_on_members node candidate_index (new_members (config_state node)).

Definition node_joint_members_are_caught_up node : bool :=
  let target := node_last_log_index node in
  if negb (configuration_is_joint (config_state node)) then false
  else forallb (λ m,
         if streq m (node_id (config node)) then true
         else match i ← node_peer_index node m; match_index node !! i with
              | Some k => (target <=? k)%Z
              | None => false
              end) (new_members (config_state node)).

(** [for (idx = last; idx > commit_index; --idx)]; [fuel] iterations at most. *)
Fixpoint advance_commit_loop (fuel : nat) node (idx : Z) : option (raft_node_t U) :=
  match fuel with
  | O => Some node
  | S fuel =>
      if (commit_index node <? idx)%Z then
        t ← node_term_at_index node idx;
        if negb (t =? current_term node)%Z then advance_commit_loop fuel node (idx - 1)%Z
        else if node_is_committed_under_current_configuration node idx
        then Some (node <| commit_index := idx |> <| persist_dirty := true |>)
        else advance_commit_loop fuel node (idx - 1)%Z
      else Some node
  end.

Definition node_advance_commit_index node : option (raft_node_t U) :=
  let last := node_last_log_index node in
  advance_commit_loop (Z.to_nat (last - commit_index node)) node last.

(** ** Lemmas *)

(** What the handlers may leave changed when they only queue messages. *)
Record only_outbox node node' : Prop := {
  only_outbox_eq : node' = node <| outbox := outbox node' |>;
  only_outbox_len : (length (outbox node) ≤ RAFT_MAX_QUEUE)%nat →
                    (length (outbox node') ≤ RAFT_MAX_QUEUE)%nat;
}.

#[export] Instance only_outbox_preorder : PreOrder only_outbox.
Proof.
  split.
  - intros node. split; [by destruct node|done].
  - intros n1 n2 n3 [E1 L1] [E2 L2]. split; [|auto].
    rewrite E2, E1. by destruct n1.
Qed.

Lemma only_outbox_log_wf node node' : only_outbox node node' → log_wf node → log_wf node'.
Proof. intros [E _]. rewrite E. by keep_log_wf node. Qed.

Lemma only_outbox_repl_wf node node' : only_outbox node node' → repl_wf node → repl_wf node'.
Proof. intros [E _]. rewrite E. by keep_repl_wf node. Qed.

Lemma queue_message_only_outbox node m : only_outbox node (node_queue_message node m).
Proof. split; [by destruct node|]. unfold node_queue_message. rsimpl. apply queue_push_length. Qed.

Lemma send_only_outbox node id node' :
  node_send_append_entries_to node id = Some node' → only_outbox node node'.
Proof. unfold node_send_append_entries_to. intros H. opts. apply queue_message_only_outbox. Qed.

Lemma broadcast_only_outbox node node' :
  node_broadcast_append_entries node = Some node' → only_outbox node node'.
Proof.
  unfold node_broadcast_append_entries. intros H.
  apply (for_each_inv (only_outbox node)) in H; [done| |done].
  intros id n1 n2 _ H1 H2%send_only_outbox. by transitivity n1.
Qed.

Lemma collect_entries_defined node count i :
  log_core node → (snapshot_last_included_index node < i)%Z →
  ∃ es, collect_entries node count i = Some es.
Proof.
  intros Hwf. revert i; induction count as [|count IH]; intros i Hi; cbn [collect_entries]; [eauto|].
  case_match; bools; [|eauto].
  destruct (node_log_at_index node i Hwf) as (e & -> & _).
  { unfold node_has_log_index, node_log_base_index. apply andb_true_iff. split; apply Z.leb_le; lia. }
  destruct (IH (i + 1)%Z) as [es ->]; [lia|]. simpl. eauto.
Qed.

Lemma send_next_index_defined node id :
  log_wf node → repl_wf node →
  ∃ next, send_next_index node id = Some next ∧
    (snapshot_last_included_index node < next ≤
     snapshot_last_included_index node + Z.of_nat RAFT_MAX_LOG + 1)%Z.
Proof.
  intros Hwf Hr. unfold send_next_index.
  assert (∃ n, match node_peer_index node id with
               | Some i => next_index node !! i
               | None => Some (node_last_log_index node + 1)%Z
               end = Some n ∧
               (n ≤ snapshot_last_included_index node + Z.of_nat RAFT_MAX_LOG + 1)%Z) as (n & -> & Hn).
  { destruct (node_peer_index node id) as [i|] eqn:E.
    - apply node_peer_index_lt in E; [|done].
      destruct (lookup_lt_is_Some_2 (next_index node) i) as [n Hn]; [by rewrite repl_wf_next|].
      exists n. split; [done|]. eapply Forall_lookup_1 in Hn; [exact Hn|apply repl_wf_bound, Hr].
    - eexists. split; [done|]. unfold node_last_log_index. pose proof (log_core_count _ Hwf). lia. }
  simpl. eexists. split; [done|]. unfold node_log_base_index. case_match; bools; lia.
Qed.

(** A send never reads outside the log array. *)
Lemma send_defined node id :
  log_wf node → repl_wf node → ∃ node', node_send_append_entries_to node id = Some node'.
Proof.
  intros Hwf Hr. unfold node_send_append_entries_to.
  destruct (send_next_index_defined node id Hwf Hr) as (next & -> & Hn). bind_simpl.
  destruct (node_term_at_defined node (next - 1) Hwf) as [t ->]; [lia..|]. bind_simpl.
  destruct (node_leader_at_defined node (next - 1) Hwf) as [l ->]. bind_simpl.
  destruct (collect_entries_defined node RAFT_MAX_BATCH next Hwf) as [es ->]; [lia|]. bind_simpl. eauto.
Qed.

Lemma broadcast_defined node :
  log_wf node → repl_wf node →
  ∃ node', node_broadcast_append_entries node = Some node' ∧ only_outbox node node'.
Proof.
  intros Hwf Hr.
  apply (for_each_defined (only_outbox node)); [|done].
  intros id n1 _ H1.
  destruct (send_defined n1 id) as [n2 H2];
    [by eapply only_outbox_log_wf|by eapply only_outbox_repl_wf|].
  exists n2. split; [done|]. transitivity n1; [done|by eapply send_only_outbox].
Qed.

(** The entries a message carries are the log's, from the index it starts at. *)
Lemma collect_entries_spec node count i es :
  log_core node → (snapshot_last_included_index node < i)%Z →
  collect_entries node count i = Some es →
  (length es ≤ count)%nat ∧
  ∀ k e, es !! k = Some e →
    node_log_at node (i + Z.of_nat k) = Some e ∧ entry_index e = (i + Z.of_nat k)%Z ∧
    (i + Z.of_nat k ≤ node_last_log_index node)%Z.
Proof.
  intros Hwf. revert i es; induction count as [|count IH]; intros i es Hi H;
    cbn [collect_entries] in H.
  { simplify_eq. split; [done|]. intros k e Hk. by rewrite lookup_nil in Hk. }
  case_match; bools; opts; [|split; [simpl; lia|intros k e Hk; by rewrite lookup_nil in Hk]].
  apply IH in E0 as [Hl Hes]; [|lia]. split; [simpl; lia|].
  intros [|k] e Hk; simplify_eq/=.
  - rewrite Z.add_0_r.
    destruct (node_log_at_index node i Hwf) as (e' & He' & Hi').
    { unfold node_has_log_index, node_log_base_index. apply andb_true_iff.
      split; apply Z.leb_le; lia. }
    rewrite He' in *. by simplify_eq.
  - apply Hes in Hk. replace (i + Z.of_nat (S k))%Z with (i + 1 + Z.of_nat k)%Z by lia. done.
Qed.

(** The commit rule only moves the commit index, forward and within the log. *)
Lemma advance_commit_loop_spec fuel node idx node' :
  (idx ≤ node_last_log_index node)%Z →
  advance_commit_loop fuel node idx = Some node' →
  node' = node ∨
  (∃ i, node' = node <| commit_index := i |> <| persist_dirty := true |> ∧
     (commit_index node < i ≤ idx)%Z ∧
     node_term_at_index node i = Some (current_term node) ∧
     node_is_committed_under_current_configuration node i = true).
Proof.
  revert idx; induction fuel as [|fuel IH]; intros idx Hi H; cbn [advance_commit_loop] in H;
    [opts; by left|].
  case_match; bools; [|opts; by left]. opts.
  assert (advance_commit_loop fuel node (idx - 1) = Some node' → _ ∨ _) as IH' by
    (intros H1; apply IH in H1; [exact H1|lia]).
  case_match; [|case_match].
  - destruct (IH' H) as [->|(i & -> & ? & ? & ?)]; [by left|right]. exists i. split_and!; try done; lia.
  - bools. subst. opts. right. eexists. split_and!; [done|lia|lia|done|done].
  - destruct (IH' H) as [->|(i & -> & ? & ? & ?)]; [by left|right]. exists i. split_and!; try done; lia.
Qed.

(** An index the leader may commit: an entry of its own term on a majority of
    each member list in force. *)
Definition committable node (i : Z) : Prop :=
  node_term_at_index node i = Some (current_term node) ∧
  majority_of (λ m, member_replicated node i m = true) (old_members (config_state node)) ∧
  (new_members (config_state node) ≠ [] →
   majority_of (λ m, member_replicated node i m = true) (new_members (config_state node))).

Lemma committed_iff node i :
  node_is_committed_under_current_configuration node i = true ↔
  majority_of (λ m, member_replicated node i m = true) (old_members (config_state node)) ∧
  (new_members (config_state node) ≠ [] →
   majority_of (λ m, member_replicated node i m = true) (new_members (config_state node))).
Proof.
  unfold node_is_committed_under_current_configuration, node_replicated_on_members, majority_of.
  rewrite <- configuration_is_joint_true.
  rewrite <- !Nat.leb_le.
  destruct (_ <=? _)%nat; simpl; [|naive_solver].
  destruct (configuration_is_joint _); simpl; naive_solver.
Qed.

(** The loop finds the largest committable index. *)
Lemma advance_commit_loop_max fuel node idx node' :
  (idx - commit_index node ≤ Z.of_nat fuel)%Z →
  advance_commit_loop fuel node idx = Some node' →
  ∀ j, (commit_index node < j ≤ idx)%Z → (commit_index node' < j)%Z → ¬ committable node j.
Proof.
  revert idx; induction fuel as [|fuel IH]; intros idx Hf H j Hj Hn; cbn [advance_commit_loop] in H;
    [lia|].
  case_match; bools; [|lia]. opts.
  assert (advance_commit_loop fuel node (idx - 1) = Some node' → ¬ committable node idx →
          ¬ committable node j) as Hrec.
  { intros H1 H2. destruct (decide (j = idx)) as [->|]; [done|]. eapply IH; [|done|..]; lia. }
  case_match; [|case_match]; bools.
  - apply Hrec; [done|]. intros [? _]. congruence.
  - opts. rsimpl. lia.
  - apply Hrec; [done|]. intros [_ Hm]. apply committed_iff in Hm. congruence.
Qed.

Lemma advance_commit_loop_defined fuel node idx :
  log_wf node → (idx ≤ node_last_log_index node)%Z →
  (snapshot_last_included_index node ≤ commit_index node)%Z →
  ∃ node', advance_commit_loop fuel node idx = Some node'.
Proof.
  intros Hwf. revert idx; induction fuel as [|fuel IH]; intros idx Hi Hc;
    cbn [advance_commit_loop]; [eauto|].
  case_match; bools; [|eauto].
  destruct (node_term_at_defined node idx Hwf) as [t ->];
    [lia|unfold node_last_log_index in *; pose proof (log_core_count _ Hwf); lia|].
  simpl. repeat case_match; eauto; apply IH; lia.
Qed.

End Replication.
