(* ===== verification/Handlers.v ===== *)
(** The message handlers of a node, [c/src/raft.c]: term updates, votes and
    [AppendEntries] with its log repair. *)
From S2P Require Import Prelude CString Types Config NodeLog Replication.

Section Handlers.
  Context {U : Type}.
  Implicit Types node : raft_node_t U.
  Implicit Types message : raft_message_t.

Definition node_handle_term_update node message : raft_node_t U :=
  if (current_term node <? msg_term message)%Z then
    node <| current_term := msg_term message |> <| voted_for := "" |>
         <| leader_id := "" |> <| persist_dirty := true |>
  else node.

Definition vote_response node message (grant : bool) : raft_message_t :=
  zero_message RAFT_MSG_REQUEST_VOTE_RESPONSE
    <| msg_term := current_term node |>
    <| granted := grant |>
    <| source := strncpy RAFT_MAX_ID (node_id (config node)) |>
    <| target := strncpy RAFT_MAX_ID (source message) |>.

Definition node_handle_vote_request node message (clock : Z) : option (raft_node_t U) :=
  let node := node_handle_term_update node message in
  '(node, grant) ←
    (if node_self_is_member node && (msg_term message =? current_term node)%Z then
       grantable ← (if streq (voted_for node) "" || streq (voted_for node) (source message)
                    then node_candidate_is_up_to_date node message
                    else Some false);
       Some (if (grantable : bool)
             then let node := node <| voted_for := strncpy RAFT_MAX_ID (source message) |> in
                  (node <| election_deadline_ms := (clock + node_next_election_timeout node clock)%Z |>
                        <| persist_dirty := true |>, true)
             else (node, false))
     else Some (node, false));
  Some (node_queue_message node (vote_response node message grant)).

(** The tail of the loop body: append the entry when it is the next one. *)
Definition append_entry_tail node (entry : raft_log_entry_t) : option (raft_node_t U) :=
  if (entry_index entry =? node_last_log_index node + 1)%Z && (log_count node <? RAFT_MAX_LOG)%nat
  then node' ← node_log_push node entry; Some (node' <| persist_dirty := true |>)
  else Some node.

(** Whether the local entry at [entry]'s index is a different one. *)
Definition entry_conflicts node (entry : raft_log_entry_t) : option bool :=
  t ← node_term_at_index node (entry_index entry);
  if negb (t =? entry_term entry)%Z then Some true
  else if negb (streq (entry_leader_id entry) "") then
    l ← node_leader_at_index node (entry_index entry);
    Some (negb (streq l (entry_leader_id entry)))
  else Some false.

(** One iteration of the loop over the message's entries; the boolean is
    [rebuild_applied_state]. *)
Definition append_entry_step (st : raft_node_t U * bool) (entry : raft_log_entry_t)
    : option (raft_node_t U * bool) :=
  let '(node, rebuild) := st in
  if (entry_index entry <=? snapshot_last_included_index node)%Z then Some (node, rebuild)
  else if node_has_log_index node (entry_index entry) then
    conflict ← entry_conflicts node entry;
    if (conflict : bool) then
      let rebuild := rebuild || (entry_index entry <=? last_applied node)%Z in
      node ← append_entry_tail
        (node <| log_count := Z.to_nat (node_physical_index node (entry_index entry)) |>
              <| persist_dirty := true |>) entry;
      Some (node, rebuild)
    else Some (node, rebuild)
  else node ← append_entry_tail node entry; Some (node, rebuild).

Definition app_reload node : raft_node_t U :=
  match reload (application node) with
  | Some f => node <| application := application node <| user := f (user (application node)) |> |>
  | None => node
  end.

Definition app_restore_snapshot node : raft_node_t U :=
  match restore_snapshot (application node) with
  | Some f =>
      node <| application := application node
               <| user := f (user (application node)) (snapshot_buf (storage node)) |> |>
  | None => node
  end.

Definition node_clamped_commit node message : Z :=
  let last := node_last_log_index node in
  if (leader_commit message <? last)%Z then leader_commit message else last.

(** The end of [node_append_entries_from_leader]: commit index and applied state. *)
Definition append_entries_finish node message (rebuild : bool) : raft_node_t U :=
  if rebuild then
    let node := node <| commit_index := node_clamped_commit node message |> in
    let node :=
      if (0 <? snapshot_last_included_index node)%Z
         && (0 <? String.length (snapshot_buf (storage node)))%nat
      then app_restore_snapshot node
      else app_reload node in
    node <| last_applied := snapshot_last_included_index node |> <| persist_dirty := true |>
  else if (commit_index node <? leader_commit message)%Z then
    node <| commit_index := node_clamped_commit node message |> <| persist_dirty := true |>
  else if (node_last_log_index node <? commit_index node)%Z then
    node <| commit_index := node_last_log_index node |> <| persist_dirty := true |>
  else node.

(** The consistency checks on the entry before the new ones. *)
Definition append_entries_check node message : option bool :=
  if (prev_log_index message <? snapshot_last_included_index node)%Z then Some false
  else if (node_last_log_index node <? prev_log_index message)%Z then Some false
  else
    term_ok ← (if (0 <? prev_log_index message)%Z then
                 t ← node_term_at_index node (prev_log_index message);
                 Some (t =? prev_log_term message)%Z
               else Some true);
    if negb term_ok then Some false
    else if (0 <? prev_log_index message)%Z && negb (streq (prev_log_leader_id message) "")
            && node_has_log_index node (prev_log_index message) then
      l ← node_leader_at_index node (prev_log_index message);
      Some (streq l (prev_log_leader_id message))
    else Some true.

Definition node_append_entries_from_leader node message : option (raft_node_t U * bool) :=
  ok ← append_entries_check node message;
  if negb ok then Some (node, false)
  else
    '(node, rebuild) ← for_each append_entry_step (entries message) (node, false);
    Some (append_entries_finish node message rebuild, true).

Definition append_response node message (ok : bool) : raft_message_t :=
  zero_message RAFT_MSG_APPEND_ENTRIES_RESPONSE
    <| msg_term := current_term node |>
    <| success := ok |>
    <| msg_match_index := node_last_log_index node |>
    <| source := strncpy RAFT_MAX_ID (node_id (config node)) |>
    <| target := strncpy RAFT_MAX_ID (source message) |>.

Definition node_handle_append_entries node message (clock : Z) : option (raft_node_t U) :=
  let node := node_handle_term_update node message in
  '(node, ok) ←
    (if (msg_term message =? current_term node)%Z then
       let node := node <| leader_id := strncpy RAFT_MAX_ID (source message) |> in
       let node := node <| election_deadline_ms :=
                           (clock + node_next_election_timeout node clock)%Z |> in
       node_append_entries_from_leader node message
     else Some (node, false));
  Some (node_queue_message node (append_response node message ok)).

Definition node_handle_vote_response node message : raft_node_t U :=
  let node := node_handle_term_update node message in
  if negb (node_self_is_member node)
     || negb (bool_decide (machine_state node = RAFT_ROLE_CANDIDATE))
     || negb (msg_term message =? current_term node)%Z then node
  else if granted message then node_record_vote node (source message)
  else node.

Definition node_handle_append_entries_response node message : option (raft_node_t U) :=
  let node := node_handle_term_update node message in
  if negb (bool_decide (machine_state node = RAFT_ROLE_LEADER))
     || negb (msg_term message =? current_term node)%Z then Some node
  else
    match node_peer_index node (source message) with
    | None => Some node
    | Some peer_idx =>
        if success message then
          next ← int_incr (msg_match_index message);
          m ← array_set (match_index node) peer_idx (msg_match_index message);
          n ← array_set (next_index node) peer_idx next;
          node_advance_commit_index (node <| match_index := m |> <| next_index := n |>)
        else
          k ← next_index node !! peer_idx;
          n ← (if (node_log_base_index node <? k)%Z
               then array_set (next_index node) peer_idx (k - 1)%Z
               else Some (next_index node));
          node_send_append_entries_to (node <| next_index := n |>) (source message)
    end.

End Handlers.
