(* ===== verification/LogMerge.v ===== *)
(** The log repair of [node_append_entries_from_leader]: it is defined on every
    message, keeps the log well formed, and makes the follower's log agree with
    the leader's entries. *)
From S2P Require Import Prelude CString Types Config NodeLog Replication Handlers.

Section Merge.
  Context {U : Type}.
  Implicit Types node : raft_node_t U.
  Implicit Types message : raft_message_t.

(** The entry kept at an index stands for the leader's entry: same term, and
    same creator when the leader's entry names one. *)
Definition entry_agrees (kept sent : raft_log_entry_t) : Prop :=
  entry_term kept = entry_term sent ∧
  (entry_leader_id sent ≠ "" → entry_leader_id kept = entry_leader_id sent).

(** The loop over the entries changes the log and the dirty flag, nothing else. *)
Definition log_frame node node' : Prop :=
  node' = node <| log := log node' |> <| log_count := log_count node' |>
               <| persist_dirty := persist_dirty node' |>.

Record merge_ok node0 (st : raft_node_t U * bool) : Prop := {
  merge_ok_frame : log_frame node0 st.1;
  merge_ok_core : log_core st.1;
  merge_ok_applied : st.2 = false → (last_applied node0 ≤ node_last_log_index st.1)%Z;
  merge_ok_dirty : persist_dirty st.1 = false → st.1 = node0;
}.

(** What holds once the entries [es], numbered from [prev + 1], are processed. *)
Record merged node0 (prev : Z) (es : list raft_log_entry_t) (st : raft_node_t U * bool) : Prop := {
  merged_ok : merge_ok node0 st;
  merged_before i :
    (snapshot_last_included_index node0 < i ≤ prev)%Z → node_log_at st.1 i = node_log_at node0 i;
  merged_entries k e :
    es !! k = Some e →
    (prev + 1 + Z.of_nat k ≤ snapshot_last_included_index node0 + Z.of_nat RAFT_MAX_LOG)%Z →
    ∃ e', node_log_at st.1 (prev + 1 + Z.of_nat k) = Some e' ∧ entry_agrees e' e;
  merged_last :
    (Z.min (prev + Z.of_nat (length es))
           (snapshot_last_included_index node0 + Z.of_nat RAFT_MAX_LOG)
     ≤ node_last_log_index st.1)%Z;
}.

(** The entries of a message are numbered consecutively after [prev]. *)
Definition consecutive (prev : Z) (es : list raft_log_entry_t) : Prop :=
  ∀ k e, es !! k = Some e → entry_index e = (prev + 1 + Z.of_nat k)%Z.

(** ** Lemmas *)

#[export] Instance log_frame_preorder : PreOrder log_frame.
Proof.
  split.
  - intros node. by destruct node.
  - intros n1 n2 n3 H1 H2. unfold log_frame in *. rewrite H2, H1. by destruct n1.
Qed.

Lemma log_frame_snapshot node node' :
  log_frame node node' → snapshot_last_included_index node' = snapshot_last_included_index node.
Proof. intros H. rewrite H. done. Qed.

Lemma log_frame_applied node node' : log_frame node node' → last_applied node' = last_applied node.
Proof. intros H. rewrite H. done. Qed.

Lemma node_log_at_push node e node' i :
  node_log_push node e = Some node' → (i ≤ node_last_log_index node)%Z →
  node_log_at node' i = node_log_at node i.
Proof.
  intros (Hlt & ->)%node_log_push_inv Hi.
  unfold node_log_at, node_physical_index, array_get, node_last_log_index in *. rsimpl.
  case_match; [done|]. bools. apply list_lookup_insert_ne. lia.
Qed.

Lemma node_log_at_pushed node e node' :
  node_log_push node e = Some node' →
  node_log_at node' (node_last_log_index node + 1) = Some e.
Proof.
  intros (Hlt & ->)%node_log_push_inv.
  unfold node_log_at, node_physical_index, array_get, node_last_log_index in *. rsimpl.
  rewrite (proj2 (Z.ltb_ge _ _)) by lia.
  replace (Z.to_nat _) with (log_count node) by lia. by apply list_lookup_insert_eq.
Qed.

Lemma append_entry_tail_defined node e :
  log_core node → ∃ node', append_entry_tail node e = Some node'.
Proof.
  intros Hwf. unfold append_entry_tail. case_match; [|eauto]. bools.
  destruct (node_log_push_defined node e Hwf) as [n ->]; [done|]. bind_simpl. eauto.
Qed.

Lemma append_entry_tail_spec node e node' :
  log_core node → append_entry_tail node e = Some node' →
  log_frame node node' ∧ log_core node' ∧
  (persist_dirty node' = false → node' = node) ∧
  (∀ i, (i ≤ node_last_log_index node)%Z → node_log_at node' i = node_log_at node i) ∧
  (if (entry_index e =? node_last_log_index node + 1)%Z && (log_count node <? RAFT_MAX_LOG)%nat
   then node_log_at node' (entry_index e) = Some e ∧
        node_last_log_index node' = (node_last_log_index node + 1)%Z
   else node' = node).
Proof.
  intros Hwf. unfold append_entry_tail. case_match; intros Ht; opts; [|split_and!; done].
  bools. pose proof (node_log_push_inv _ _ _ E) as [Hlt Hx].
  split_and!.
  - rewrite Hx. unfold log_frame. by destruct node.
  - keep_log_core x. by eapply log_core_push.
  - done.
  - intros i Hi. change (node_log_at x i = node_log_at node i). by eapply node_log_at_push.
  - rewrite H. change (node_log_at x (node_last_log_index node + 1) = Some e).
    by eapply node_log_at_pushed.
  - rewrite Hx. unfold node_last_log_index. rsimpl. lia.
Qed.

Lemma entry_conflicts_defined node e :
  log_core node → node_has_log_index node (entry_index e) = true →
  ∃ c, entry_conflicts node e = Some c.
Proof.
  intros Hwf Hi. unfold entry_conflicts.
  destruct (node_term_at_defined node (entry_index e) Hwf) as [t ->].
  - unfold node_has_log_index, node_log_base_index in Hi. bools. lia.
  - unfold node_has_log_index, node_last_log_index in Hi. bools.
    pose proof (log_core_count _ Hwf). lia.
  - bind_simpl. repeat case_match; eauto.
    destruct (node_leader_at_defined node (entry_index e) Hwf) as [l ->]. bind_simpl. eauto.
Qed.

(** No conflict means the local entry agrees with the leader's. *)
Lemma entry_conflicts_false node e :
  log_core node → node_has_log_index node (entry_index e) = true →
  entry_conflicts node e = Some false →
  ∃ e', node_log_at node (entry_index e) = Some e' ∧ entry_agrees e' e.
Proof.
  intros Hwf Hi H. destruct (node_log_at_index node _ Hwf Hi) as (e' & He' & _).
  exists e'. split; [done|]. unfold entry_conflicts, node_term_at_index, node_leader_at_index in H.
  unfold node_has_log_index, node_log_base_index in Hi. bools.
  pose proof (log_core_snapshot _ Hwf).
  rewrite !(proj2 (Z.eqb_neq _ _)) in H by lia.
  assert ((entry_index e <=? 0)%Z || negb (node_has_log_index node (entry_index e)) = false) as E.
  { apply orb_false_iff. split; [apply Z.leb_gt; lia|]. apply negb_false_iff.
    unfold node_has_log_index, node_log_base_index. apply andb_true_iff. split; apply Z.leb_le; lia. }
  rewrite E, He' in H. cbn [fmap option_fmap option_map mbind option_bind] in H.
  split; repeat case_match; simplify_eq; bools; try done;
    match goal with H : streq _ _ = true |- _ => apply streq_true in H; congruence end.
Qed.

Lemma merge_truncate node e :
  log_core node → node_has_log_index node (entry_index e) = true →
  let n := node <| log_count := Z.to_nat (node_physical_index node (entry_index e)) |>
                <| persist_dirty := true |> in
  log_core n ∧ log_frame node n ∧ node_last_log_index n = (entry_index e - 1)%Z ∧
  (log_count n < RAFT_MAX_LOG)%nat.
Proof.
  intros Hwf Hi n. unfold node_has_log_index, node_log_base_index, node_last_log_index in Hi. bools.
  pose proof (log_core_count _ Hwf).
  assert (Z.to_nat (node_physical_index node (entry_index e)) < log_count node)%nat as Hlt
    by (unfold node_physical_index; lia).
  split_and!.
  - unfold n. keep_log_core (node <| log_count := Z.to_nat (node_physical_index node (entry_index e)) |>).
    apply log_core_truncate; [done|lia].
  - unfold n, log_frame. by destruct node.
  - unfold n, node_last_log_index, node_physical_index. rsimpl. lia.
  - unfold n. rsimpl. lia.
Qed.

(** One iteration on an arbitrary entry. *)
Lemma append_entry_step_ok node0 st e :
  log_wf node0 → merge_ok node0 st →
  ∃ st', append_entry_step st e = Some st' ∧ merge_ok node0 st'.
Proof.
  intros Hwf0 [Hf Hc Ha Hd]. destruct st as [node rb]. simpl in *. unfold append_entry_step.
  case_match; bools; [by exists (node, rb)|].
  case_match.
  - destruct (entry_conflicts_defined node e) as [c ->]; [done..|]. bind_simpl.
    destruct c; [|by exists (node, rb)].
    destruct (merge_truncate node e) as (Hc1 & Hf1 & Hl1 & _); [done..|].
    destruct (append_entry_tail_defined _ e Hc1) as [n2 Ht]. rewrite Ht. bind_simpl.
    destruct (append_entry_tail_spec _ _ _ Hc1 Ht) as (Hf2 & Hc2 & Hd2 & _ & Hl2).
    eexists. split; [done|]. split; simpl.
    + etrans; [exact Hf|]. by etrans.
    + done.
    + intros Hrb. bools. rewrite (log_frame_applied _ _ Hf) in *.
      case_match; [destruct Hl2 as [_ Hl2]; rewrite Hl2, Hl1; lia|subst n2; rewrite Hl1; lia].
    + intros Hd'. apply Hd2 in Hd' as Heq. rewrite Heq in Hd'. done.
  - destruct (append_entry_tail_defined _ e Hc) as [n2 Ht]. rewrite Ht. bind_simpl.
    destruct (append_entry_tail_spec _ _ _ Hc Ht) as (Hf2 & Hc2 & Hd2 & _ & Hl2).
    eexists. split; [done|]. split; simpl.
    + by etrans.
    + done.
    + intros Hrb. specialize (Ha Hrb). case_match; [destruct Hl2 as [_ ->]; lia|by subst].
    + intros Hd'. rewrite Hd2 by done. apply Hd. by rewrite <- Hd2.
Qed.

Lemma merge_ok_init node : log_wf node → merge_ok node (node, false).
Proof.
  intros Hwf. split; simpl; [done|apply Hwf| |done].
  intros _. apply (log_wf_applied _ Hwf).
Qed.

(** One iteration on the next entry of a numbered message. *)
Lemma append_entry_step_merged node0 prev es st e st' :
  log_wf node0 → (snapshot_last_included_index node0 ≤ prev)%Z →
  merged node0 prev es st →
  entry_index e = (prev + 1 + Z.of_nat (length es))%Z →
  append_entry_step st e = Some st' → merged node0 prev (es ++ [e]) st'.
Proof.
  intros Hwf0 Hprev [Hok Hb He Hl] Hidx Hs.
  pose proof (append_entry_step_ok node0 st e Hwf0 Hok) as (st2 & Hs2 & Hok'). simplify_eq.
  destruct Hok as [Hf Hc Ha Hd]. destruct st as [node rb]. simpl in *.
  pose proof (log_frame_snapshot _ _ Hf) as Hsnap. unfold append_entry_step in Hs.
  rewrite (proj2 (Z.leb_gt _ _)) in Hs by lia.
  (* what is left to show, from the entries below [entry_index e] being kept
     and the entry itself being there when it fits *)
  assert (∀ n2, (∀ i, (snapshot_last_included_index node0 < i < entry_index e)%Z →
                   node_log_at n2 i = node_log_at node i) →
                ((entry_index e ≤ snapshot_last_included_index node0 + Z.of_nat RAFT_MAX_LOG)%Z →
                 ∃ e', node_log_at n2 (entry_index e) = Some e' ∧ entry_agrees e' e) →
                (Z.min (entry_index e) (snapshot_last_included_index node0 + Z.of_nat RAFT_MAX_LOG)
                   ≤ node_last_log_index n2)%Z →
                st'.1 = n2 → merged node0 prev (es ++ [e]) st') as Hgoal.
  { intros n2 Hkeep Hent Hlast <-. split; [done|..].
    - intros i Hi. rewrite Hkeep by lia. by apply Hb.
    - intros k e1 Hk Hcap. apply lookup_app_Some in Hk as [Hk|[Hk1 Hk2]].
      + pose proof (lookup_lt_Some _ _ _ Hk). rewrite Hkeep by lia. by apply He.
      + apply list_lookup_singleton_Some in Hk2 as [Hk2 <-].
        replace (prev + 1 + Z.of_nat k)%Z with (entry_index e) in * by lia. by apply Hent.
    - rewrite length_app. simpl. lia. }
  case_match.
  - destruct (entry_conflicts node e) as [[]|] eqn:Econf; bind_simpl_in Hs; [| |done].
    + apply bind_Some in Hs as (n2 & Ht & [= <-]).
      destruct (merge_truncate node e) as (Hc1 & Hf1 & Hl1 & Hlt); [done..|].
      pose proof (append_entry_tail_spec _ _ _ Hc1 Ht) as (_ & _ & _ & Hk2 & Hl2).
      rewrite Hl1 in Hl2, Hk2.
      rewrite (proj2 (Z.eqb_eq _ _)), (proj2 (Nat.ltb_lt _ _)) in Hl2 by (done || lia).
      destruct Hl2 as [Hat Hlast].
      eapply Hgoal; [| |rewrite Hlast; lia|done].
      * intros i Hi. rewrite Hk2 by lia. done.
      * intros _. eexists. split; [done|]. by split.
    + injection Hs as <-. destruct (entry_conflicts_false node e) as (e' & Hat & Hag); [done..|].
      eapply (Hgoal node); [done|eauto| |done].
      unfold node_has_log_index in *. bools. lia.
  - apply bind_Some in Hs as (n2 & Ht & [= <-]).
    pose proof (append_entry_tail_spec _ _ _ Hc Ht) as (_ & _ & _ & Hk2 & Hl2).
    unfold node_has_log_index, node_log_base_index in H. rewrite Hsnap in H.
    rewrite (proj2 (Z.leb_le _ _)) in H by lia. simpl in H. bools.
    pose proof (log_core_count _ Hc) as Hcnt. unfold node_last_log_index in Hl, H, Hl2.
    apply (Hgoal n2); [| | |done].
    + intros i Hi. case_match; [|by subst]. bools. apply Hk2. unfold node_last_log_index.
      rewrite Hsnap in *. lia.
    + intros Hcap. rewrite Hsnap in *.
      rewrite (proj2 (Z.eqb_eq _ _)), (proj2 (Nat.ltb_lt _ _)) in Hl2 by lia.
      destruct Hl2 as [Hat _]. eexists. split; [done|]. by split.
    + unfold node_last_log_index.
      destruct ((entry_index e =? _)%Z && _) eqn:Hcond.
      * destruct Hl2 as [_ Hl2]. rewrite Hl2. bools. lia.
      * subst n2. apply andb_false_iff in Hcond as [?|?]; bools; lia.
Qed.

End Merge.
