(* ===== verification/HandlerFacts.v ===== *)
(** Properties of the message handlers: definedness, the log invariant, what a
    successful [AppendEntries] achieves, and the discipline of terms and votes. *)
From S2P Require Import Prelude CString Types Config NodeLog Replication Handlers LogMerge.

Section Facts.
  Context {U : Type}.
  Implicit Types node : raft_node_t U.
  Implicit Types message : raft_message_t.

(** The vote a message carries: [(term, candidate)], for a granted response the
    candidate it answers, for a request the candidate itself. *)
Definition ballot message : option (Z * string) :=
  match kind message with
  | RAFT_MSG_REQUEST_VOTE_RESPONSE =>
      if granted message then Some (msg_term message, target message) else None
  | RAFT_MSG_REQUEST_VOTE => Some (msg_term message, source message)
  | _ => None
  end.

(** The discipline of terms and votes: terms never decrease, a vote is kept as
    long as the term is, and a change raises the dirty flag. *)
Record vote_mono node node' : Prop := {
  vm_term : (current_term node ≤ current_term node')%Z;
  vm_vote : current_term node' = current_term node → voted_for node ≠ "" →
            voted_for node' = voted_for node;
  vm_dirty : persist_dirty node' = false →
             persist_dirty node = false ∧ current_term node' = current_term node ∧
             voted_for node' = voted_for node;
  vm_id : node_id (config node') = node_id (config node);
  vm_storage : storage_node_id (storage node') = storage_node_id (storage node) ∧
               root_dir (storage node') = root_dir (storage node);
}.

(** No vote is cast: what is added to the outbox carries none, and comes from
    this node. *)
Record quiet node node' : Prop := {
  quiet_mono :> vote_mono node node';
  quiet_outbox m : m ∈ outbox node' →
    m ∈ outbox node ∨ (ballot m = None ∧ source m = strncpy RAFT_MAX_ID (node_id (config node)));
}.

(** At most one vote is cast, for the candidate recorded as voted for. *)
Record voting node node' : Prop := {
  voting_mono :> vote_mono node node';
  voting_outbox m : m ∈ outbox node' →
    m ∈ outbox node ∨
    (source m = strncpy RAFT_MAX_ID (node_id (config node)) ∧
     ∀ t c, ballot m = Some (t, c) → t = current_term node' ∧ c = voted_for node' ∧ c ≠ "");
}.

#[export] Instance vote_mono_preorder : PreOrder vote_mono.
Proof.
  split.
  - intros node. split; try done; lia.
  - intros n1 n2 n3 [T1 V1 D1 I1 [S1 R1]] [T2 V2 D2 I2 [S2 R2]]. split; try congruence; try lia.
    + intros HT Hn. assert (current_term n2 = current_term n1) by lia.
      rewrite V2; [by apply V1|lia|rewrite V1; done].
    + intros HD. destruct (D2 HD) as (HD2 & ? & ?). destruct (D1 HD2) as (? & ? & ?).
      split_and!; congruence.
    + split; congruence.
Qed.

#[export] Instance quiet_preorder : PreOrder quiet.
Proof.
  split.
  - intros node. split; [done|]. by left.
  - intros n1 n2 n3 [M1 O1] [M2 O2]. split; [by etrans|].
    intros m [Hm|[? Hs]]%O2; [by apply O1|right]. by rewrite Hs, (vm_id _ _ M1).
Qed.

Lemma vote_mono_same node node' :
  current_term node' = current_term node → voted_for node' = voted_for node →
  (persist_dirty node' = false → persist_dirty node = false) →
  config node' = config node → storage node' = storage node →
  vote_mono node node'.
Proof.
  intros E1 E2 E3 E4 E5. split; rewrite ?E1, ?E2, ?E4, ?E5; try done; try lia. auto.
Qed.

(** Updates of fields unrelated to votes and to the outbox. *)
Lemma quiet_same node node' :
  current_term node' = current_term node → voted_for node' = voted_for node →
  (persist_dirty node' = false → persist_dirty node = false) →
  config node' = config node → storage node' = storage node → outbox node' = outbox node →
  quiet node node'.
Proof. intros. split; [by apply vote_mono_same|]. intros m. rewrite H4. by left. Qed.

(** The same, when only part of the configuration and of the storage is kept. *)
Lemma quiet_same' node node' :
  current_term node' = current_term node → voted_for node' = voted_for node →
  (persist_dirty node' = false → persist_dirty node = false) →
  node_id (config node') = node_id (config node) →
  storage_node_id (storage node') = storage_node_id (storage node) →
  root_dir (storage node') = root_dir (storage node) → outbox node' = outbox node →
  quiet node node'.
Proof.
  intros E1 E2 E3 E4 E5 E6 E7. split; [|intros m; rewrite E7; by left].
  split; rewrite ?E1, ?E2; try done; try lia. auto.
Qed.

Lemma queue_message_elem node m m' :
  m' ∈ outbox (node_queue_message node m) → m' ∈ outbox node ∨ m' = m.
Proof. apply queue_push_elem. Qed.

Lemma quiet_queue node m :
  ballot m = None → source m = strncpy RAFT_MAX_ID (node_id (config node)) →
  quiet node (node_queue_message node m).
Proof.
  intros Hb Hs. split; [by apply vote_mono_same|].
  intros m' [?| ->]%queue_message_elem; [by left|by right].
Qed.

Lemma term_update_quiet node message : quiet node (node_handle_term_update node message).
Proof.
  unfold node_handle_term_update. case_match; [|done]. bools.
  split; [split; rsimpl; try done; lia|]. intros m. by left.
Qed.

Lemma term_update_log_wf node message :
  log_wf node → log_wf (node_handle_term_update node message).
Proof. unfold node_handle_term_update. case_match; [|done]. by keep_log_wf node. Qed.

Lemma term_update_repl_wf node message :
  repl_wf node → repl_wf (node_handle_term_update node message).
Proof. unfold node_handle_term_update. case_match; [|done]. by keep_repl_wf node. Qed.

Lemma term_update_term node message :
  current_term (node_handle_term_update node message) =
    Z.max (current_term node) (msg_term message).
Proof. unfold node_handle_term_update. case_match; bools; rsimpl; lia. Qed.

Lemma term_update_outbox node message :
  outbox (node_handle_term_update node message) = outbox node.
Proof. unfold node_handle_term_update. by case_match. Qed.

Lemma send_quiet node id node' : node_send_append_entries_to node id = Some node' → quiet node node'.
Proof. unfold node_send_append_entries_to. intros H. opts. by apply quiet_queue. Qed.

Lemma broadcast_quiet node node' : node_broadcast_append_entries node = Some node' → quiet node node'.
Proof.
  unfold node_broadcast_append_entries. intros H.
  apply (for_each_inv (quiet node)) in H; [done| |done].
  intros id n1 n2 _ H1 H2%send_quiet. by etrans.
Qed.

Lemma advance_commit_quiet node node' : node_advance_commit_index node = Some node' → quiet node node'.
Proof.
  intros H. apply advance_commit_loop_spec in H; [|lia].
  destruct H as [->|(i & -> & _)]; [done|]. by apply quiet_same.
Qed.

Lemma advance_commit_wf node :
  log_wf node → (snapshot_last_included_index node ≤ commit_index node)%Z →
  ∃ node', node_advance_commit_index node = Some node' ∧ log_wf node' ∧
    (repl_wf node → repl_wf node') ∧ (commit_index node ≤ commit_index node')%Z ∧
    last_applied node' = last_applied node.
Proof.
  intros Hwf Hsc. unfold node_advance_commit_index.
  destruct (advance_commit_loop_defined (Z.to_nat (node_last_log_index node - commit_index node))
    node (node_last_log_index node) Hwf) as [node' H]; [lia|done|].
  exists node'. split; [done|]. apply advance_commit_loop_spec in H; [|lia].
  destruct H as [->|(i & -> & Hi & _)]; [done|]. split_and!; [|intros ?; by keep_repl_wf node|rsimpl; lia|done].
  split; [keep_log_core node; apply Hwf|..]; unfold node_last_log_index in *; rsimpl; [lia|apply Hwf].
Qed.

(** *** AppendEntries *)

Lemma append_entries_check_defined node message :
  log_core node → ∃ b, append_entries_check node message = Some b.
Proof.
  intros Hwf. unfold append_entries_check.
  case_match; [eauto|]. case_match; [eauto|]. bools.
  assert (∃ b, (if (0 <? prev_log_index message)%Z
                then t ← node_term_at_index node (prev_log_index message);
                     Some (t =? prev_log_term message)%Z
                else Some true) = Some b) as [b ->].
  { case_match; [|eauto]. bools.
    destruct (node_term_at_defined node (prev_log_index message) Hwf) as [t ->];
      [lia| |bind_simpl; eauto].
    unfold node_last_log_index in *. pose proof (log_core_count _ Hwf). lia. }
  bind_simpl. case_match; [eauto|]. case_match; [|eauto].
  destruct (node_leader_at_defined node (prev_log_index message) Hwf) as [l ->]. bind_simpl. eauto.
Qed.

Lemma append_entries_check_true node message :
  append_entries_check node message = Some true →
  (snapshot_last_included_index node ≤ prev_log_index message ≤ node_last_log_index node)%Z ∧
  ((0 < prev_log_index message)%Z →
   node_term_at_index node (prev_log_index message) = Some (prev_log_term message)).
Proof.
  unfold append_entries_check. intros H.
  case_match; [done|]. case_match; [done|]. bools. split; [done|]. intros Hp.
  rewrite (proj2 (Z.ltb_lt 0 (prev_log_index message))) in H by done.
  destruct (node_term_at_index node (prev_log_index message)) as [t|]; [|done].
  bind_simpl_in H. destruct (t =? prev_log_term message)%Z eqn:E; [|done]. bools. by subst.
Qed.

(** The last part of the handler: the log is the one the loop built, and the
    invariant is restored. *)
Lemma append_entries_finish_spec node0 st message :
  log_wf node0 → merge_ok node0 st →
  let node' := append_entries_finish st.1 message st.2 in
  log_wf node' ∧ log node' = log st.1 ∧ log_count node' = log_count st.1 ∧
  snapshot_last_included_index node' = snapshot_last_included_index st.1 ∧
  quiet node0 node'.
Proof.
  intros Hwf0 [Hf Hc Ha Hd] node'. destruct st as [node rb]. simpl in *.
  pose proof (log_frame_snapshot _ _ Hf) as Hsn. pose proof (log_frame_applied _ _ Hf) as Hap.
  pose proof (log_wf_applied _ Hwf0) as Hap0.
  assert (quiet node0 node) as Hq0.
  { apply quiet_same; try (rewrite Hf; done). intros HD. by rewrite <- Hd. }
  assert (log_wf node' ∧ quiet node node' ∧ log node' = log node ∧ log_count node' = log_count node ∧
          snapshot_last_included_index node' = snapshot_last_included_index node)
    as (? & Hq & ? & ? & ?); [|split_and!; try done; by etrans].
  unfold node', append_entries_finish, node_clamped_commit in *.
  destruct rb.
  - match goal with |- context [node <| commit_index := ?c |>] => set (cm := c) end.
    assert (∀ a, log_wf (node <| commit_index := cm |> <| application := a |>
                           <| last_applied := snapshot_last_included_index node |>
                           <| persist_dirty := true |>)) as Hw.
    { intros a. split; [by keep_log_core node|..]; unfold node_last_log_index in *; rsimpl; [|lia].
      unfold cm. unfold node_last_log_index in *. case_match; bools; lia. }
    unfold app_restore_snapshot, app_reload. rsimpl.
    repeat case_match; (split; [|split; [by apply quiet_same|done]]);
      first [apply Hw|apply (Hw (application node))].
  - specialize (Ha eq_refl).
    assert (∀ c d, (c ≤ node_last_log_index node)%Z →
                 log_wf (node <| commit_index := c |> <| persist_dirty := d |>)) as Hw.
    { intros c d Hcl. split; [by keep_log_core node|..]; unfold node_last_log_index in *; rsimpl; lia. }
    repeat case_match; bools; (split; [|split; [by apply quiet_same|done]]); try apply Hw; try lia.
    apply (log_wf_ext (node <| commit_index := commit_index node |> <| persist_dirty := true |>));
      try reflexivity. by apply Hw.
Qed.

Lemma append_entries_finish_commit node message rb :
  (commit_index (append_entries_finish node message rb)
   ≤ Z.max (commit_index node) (leader_commit message))%Z.
Proof.
  unfold append_entries_finish, node_clamped_commit, app_restore_snapshot, app_reload.
  repeat case_match; bools; rsimpl; lia.
Qed.

Lemma merge_loop_ok node es st :
  log_wf node → for_each append_entry_step es (node, false) = Some st → merge_ok node st.
Proof.
  intros Hwf. apply (for_each_inv (merge_ok node)); [|by apply merge_ok_init].
  intros e s1 s2 _ Hs Hs2. destruct (append_entry_step_ok node s1 e) as (? & ? & ?); [done..|].
  by simplify_eq.
Qed.

Lemma append_entries_from_leader_spec node message :
  log_wf node →
  ∃ node' ok, node_append_entries_from_leader node message = Some (node', ok) ∧
              log_wf node' ∧ quiet node node' ∧
              snapshot_last_included_index node' = snapshot_last_included_index node ∧
              (ok = false → node' = node).
Proof.
  intros Hwf. unfold node_append_entries_from_leader.
  destruct (append_entries_check_defined node message Hwf) as [b ->]. bind_simpl.
  destruct b; simpl; [|exists node, false; split_and!; done].
  destruct (for_each_defined (merge_ok node) append_entry_step (entries message) (node, false))
    as ([n rb] & -> & Hok).
  - intros e st _ Hst. by apply append_entry_step_ok.
  - by apply merge_ok_init.
  - bind_simpl.
    destruct (append_entries_finish_spec node (n, rb) message Hwf Hok) as (? & ? & ? & Hs & ?).
    eexists _, true. split_and!; try done. simpl in Hs. rewrite Hs.
    by apply log_frame_snapshot, Hok.
Qed.

Lemma merged_init node prev :
  log_wf node → (prev ≤ node_last_log_index node)%Z → merged node prev [] (node, false).
Proof.
  intros Hwf Hp. split; simpl; [by apply merge_ok_init|done| |lia].
  intros k e Hk. by rewrite lookup_nil in Hk.
Qed.

Lemma merged_loop node prev done es st st' :
  log_wf node → (snapshot_last_included_index node ≤ prev)%Z →
  consecutive prev (done ++ es) → merged node prev done st →
  for_each append_entry_step es st = Some st' → merged node prev (done ++ es) st'.
Proof.
  intros Hwf Hp. revert done st; induction es as [|e es IH]; intros d st Hc Hm H; simpl in H.
  { simplify_eq. by rewrite app_nil_r. }
  opts. replace (d ++ e :: es) with ((d ++ [e]) ++ es) in * by (by rewrite <- app_assoc).
  eapply IH; [done| |done].
  eapply append_entry_step_merged; [done..| |done].
  apply Hc. rewrite <- app_assoc. by apply list_lookup_middle.
Qed.

Lemma node_log_at_same node node' i :
  log node' = log node → snapshot_last_included_index node' = snapshot_last_included_index node →
  node_log_at node' i = node_log_at node i.
Proof. intros E1 E2. unfold node_log_at, node_physical_index. by rewrite E1, E2. Qed.

(** Entries that do not conflict never make the log shorter. *)
Lemma append_entry_step_keeps node0 st e st' :
  log_wf node0 → merge_ok node0 st →
  (∀ i, (snapshot_last_included_index node0 < i ≤ node_last_log_index node0)%Z →
        node_log_at st.1 i = node_log_at node0 i) →
  (node_last_log_index node0 ≤ node_last_log_index st.1)%Z →
  (node_has_log_index node0 (entry_index e) = true → entry_conflicts node0 e = Some false) →
  append_entry_step st e = Some st' →
  (∀ i, (snapshot_last_included_index node0 < i ≤ node_last_log_index node0)%Z →
        node_log_at st'.1 i = node_log_at node0 i) ∧
  (node_last_log_index node0 ≤ node_last_log_index st'.1)%Z.
Proof.
  intros Hwf0 [Hf Hc Ha Hd] Hk Hl Hconf Hs. destruct st as [node rb]. simpl in *.
  pose proof (log_frame_snapshot _ _ Hf) as Hsn.
  unfold append_entry_step in Hs. case_match; bools; [by simplify_eq|].
  assert (∀ n1 n2 : raft_node_t U, log_core n1 → append_entry_tail n1 e = Some n2 →
     (∀ i, (snapshot_last_included_index node0 < i ≤ node_last_log_index node0)%Z →
        node_log_at n1 i = node_log_at node0 i) →
     (node_last_log_index node0 ≤ node_last_log_index n1)%Z →
     (∀ i, (snapshot_last_included_index node0 < i ≤ node_last_log_index node0)%Z →
        node_log_at n2 i = node_log_at node0 i) ∧
     (node_last_log_index node0 ≤ node_last_log_index n2)%Z) as Htail.
  { intros n1 n2 Hc1 Ht Hk1 Hl1.
    destruct (append_entry_tail_spec _ _ _ Hc1 Ht) as (_ & _ & _ & Hkeep & Hlast).
    split; [intros i Hi; rewrite Hkeep by lia; by apply Hk1|].
    case_match; [destruct Hlast as [_ ->]; lia|by subst]. }
  case_match; [|apply bind_Some in Hs as (n2 & Ht & [= <-]); by eapply Htail].
  destruct (entry_conflicts node e) as [[]|] eqn:Ec; bind_simpl_in Hs; [| |done];
    [|by simplify_eq].
  destruct (decide (entry_index e ≤ node_last_log_index node0)%Z) as [Hle|Hgt].
  - exfalso. assert (node_has_log_index node0 (entry_index e) = true) as Hh.
    { unfold node_has_log_index, node_log_base_index in *. bools.
      apply andb_true_iff. split; apply Z.leb_le; lia. }
    specialize (Hconf Hh). revert Ec. unfold entry_conflicts in *.
    unfold node_term_at_index, node_leader_at_index in *.
    rewrite Hk, Hsn by lia.
    assert (snapshot_last_included_term node = snapshot_last_included_term node0) as ->
      by (rewrite Hf; done).
    assert (node_has_log_index node (entry_index e) = node_has_log_index node0 (entry_index e))
      as -> by congruence.
    rewrite Hconf. done.
  - destruct (merge_truncate node e) as (Hc1 & _ & Hl1 & _); [done..|].
    apply bind_Some in Hs as (n2 & Ht & [= <-]). eapply Htail; [exact Hc1|exact Ht| |lia].
    intros i Hi. rewrite <- Hk by lia. by apply node_log_at_same.
Qed.

(** What the message handler of the follower leaves alone. *)
Lemma append_entries_from_leader_frame node message node' ok :
  node_append_entries_from_leader node message = Some (node', ok) → log_wf node →
  current_term node' = current_term node ∧ outbox node' = outbox node ∧
  config node' = config node ∧ machine_state node' = machine_state node ∧
  voted_for node' = voted_for node ∧ leader_id node' = leader_id node ∧
  config_state node' = config_state node.
Proof.
  intros H Hwf. unfold node_append_entries_from_leader in H.
  apply bind_Some in H as (b & _ & H). destruct b; simpl in H; [|by simplify_eq].
  apply bind_Some in H as ([n rb] & Hl & H). simplify_eq.
  assert (merge_ok node (n, rb)) as [Hf _ _ _] by by eapply merge_loop_ok.
  simpl in Hf. unfold append_entries_finish, app_restore_snapshot, app_reload.
  repeat case_match; rewrite Hf; done.
Qed.

Lemma append_entries_from_leader_repl node message node' ok :
  node_append_entries_from_leader node message = Some (node', ok) →
  log_wf node → repl_wf node → repl_wf node'.
Proof.
  intros H Hwf Hr. unfold node_append_entries_from_leader in H.
  apply bind_Some in H as (b & _ & H). destruct b; simpl in H; [|by simplify_eq].
  apply bind_Some in H as ([n rb] & Hl & H). simplify_eq.
  assert (merge_ok node (n, rb)) as [Hf _ _ _] by by eapply merge_loop_ok.
  simpl in Hf. apply (repl_wf_ext node); try done;
    unfold append_entries_finish, app_restore_snapshot, app_reload;
    repeat case_match; rewrite Hf; done.
Qed.

Lemma handle_append_entries_spec node message clock :
  log_wf node →
  ∃ node', node_handle_append_entries node message clock = Some node' ∧
           log_wf node' ∧ quiet node node' ∧ (repl_wf node → repl_wf node').
Proof.
  intros Hwf. unfold node_handle_append_entries.
  set (n1 := node_handle_term_update node message).
  assert (log_wf n1) as Hw1 by by apply term_update_log_wf.
  assert (quiet node n1) as Hq1 by apply term_update_quiet.
  assert (∀ n2 ok, log_wf n2 → quiet node n2 → (repl_wf node → repl_wf n2) →
    ∃ node', Some (node_queue_message n2 (append_response n2 message ok)) = Some node' ∧
             log_wf node' ∧ quiet node node' ∧ (repl_wf node → repl_wf node')) as Hfin.
  { intros n2 ok Hw2 Hq2 Hr2. eexists. split; [done|]. split_and!.
    - by keep_log_wf n2.
    - etrans; [exact Hq2|]. by apply quiet_queue.
    - intros Hr. keep_repl_wf n2. by apply Hr2. }
  case_match; bind_simpl.
  - set (n2 := n1 <| leader_id := strncpy RAFT_MAX_ID (source message) |>).
    set (n3 := n2 <| election_deadline_ms := _ |>).
    assert (log_wf n3) as Hw3 by by keep_log_wf n1.
    assert (quiet node n3) as Hq3 by (etrans; [exact Hq1|]; by apply quiet_same).
    destruct (append_entries_from_leader_spec n3 message Hw3) as (n4 & ok & H4 & ? & ? & ? & ?).
    rewrite H4. bind_simpl. apply Hfin; [done|by etrans|].
    intros Hr. eapply append_entries_from_leader_repl; [exact H4|done|].
    keep_repl_wf n1. by apply term_update_repl_wf.
  - apply Hfin; [done..|]. apply term_update_repl_wf.
Qed.

(** When a vote may be granted, once the term is up to date. *)
Definition may_grant node message : Prop :=
  node_self_is_member node = true ∧ msg_term message = current_term node ∧
  (voted_for node = "" ∨ voted_for node = source message) ∧
  node_candidate_is_up_to_date node message = Some true.

Lemma candidate_is_up_to_date_defined node message :
  log_core node → ∃ b, node_candidate_is_up_to_date node message = Some b.
Proof.
  intros Hwf. unfold node_candidate_is_up_to_date.
  destruct (node_last_log_term_defined node Hwf) as [t ->]. bind_simpl. eauto.
Qed.

Lemma handle_vote_request_cases node message clock :
  log_core node →
  let node1 := node_handle_term_update node message in
  (may_grant node1 message ∧
   node_handle_vote_request node message clock =
     let node2 := node1 <| voted_for := strncpy RAFT_MAX_ID (source message) |> in
     let node2 := node2 <| election_deadline_ms :=
                             (clock + node_next_election_timeout node2 clock)%Z |>
                        <| persist_dirty := true |> in
     Some (node_queue_message node2 (vote_response node2 message true))) ∨
  (¬ may_grant node1 message ∧
   node_handle_vote_request node message clock =
     Some (node_queue_message node1 (vote_response node1 message false))).
Proof.
  intros Hwf node1. unfold node_handle_vote_request. fold node1.
  assert (log_core node1) as Hwf1.
  { unfold node1, node_handle_term_update. case_match; [by keep_log_core node|done]. }
  destruct (candidate_is_up_to_date_defined node1 message Hwf1) as [up Hup].
  unfold may_grant. rewrite Hup.
  destruct (node_self_is_member node1 && (msg_term message =? current_term node1)%Z) eqn:E1; simpl.
  - bools. destruct (streq (voted_for node1) "" || streq (voted_for node1) (source message)) eqn:E2.
    + bind_simpl. apply orb_true_iff in E2. rewrite !streq_true in E2.
      destruct up; bind_simpl; [left; split_and!; try done; tauto|right; split; [naive_solver|done]].
    + bind_simpl. bools. rewrite streq_false in *. right. split; [naive_solver|done].
  - right. split; [|done]. intros (H1 & H2 & _). rewrite H1, H2, Z.eqb_refl in E1. done.
Qed.

Lemma ballot_vote_response node message b :
  ballot (vote_response node message b) =
    if b then Some (current_term node, strncpy RAFT_MAX_ID (source message)) else None.
Proof. by destruct b. Qed.

Lemma handle_vote_request_spec node message clock :
  log_wf node → strncpy RAFT_MAX_ID (source message) = source message → source message ≠ "" →
  ∃ node', node_handle_vote_request node message clock = Some node' ∧
           log_wf node' ∧ voting node node' ∧ (repl_wf node → repl_wf node').
Proof.
  intros Hwf Hsrc Hne.
  destruct (handle_vote_request_cases node message clock) as [[Hg ->]|[Hg ->]]; [apply Hwf|..];
    (eexists; split; [reflexivity|]).
  - set (n1 := node_handle_term_update node message) in *.
    assert (log_wf n1) as Hw1 by by apply term_update_log_wf.
    assert (quiet node n1) as [Hq1 Ho1] by apply term_update_quiet.
    split_and!; [by keep_log_wf n1| |intros Hr; keep_repl_wf n1; by apply term_update_repl_wf].
    destruct Hg as (_ & Ht & Hv & _). rewrite Hsrc in *. split.
    + etrans; [exact Hq1|]. split; rsimpl; try done.
      intros _ Hn. destruct Hv as [Hv|Hv]; unfold node_queue_message; rsimpl; congruence.
    + intros m [Hm| ->]%queue_message_elem.
      * left. rsimpl. destruct (Ho1 m Hm) as [?|[? ?]]; [done|].
        unfold n1, node_handle_term_update in Hm. by case_match.
      * right. split; [by rewrite <- (vm_id _ _ Hq1)|].
        intros t c. rewrite ballot_vote_response, Hsrc. intros [= <- <-]. done.
  - set (n1 := node_handle_term_update node message) in *.
    assert (quiet node n1) as Hq1 by apply term_update_quiet.
    split_and!; [keep_log_wf n1; by apply term_update_log_wf| |
                 intros Hr; keep_repl_wf n1; by apply term_update_repl_wf].
    assert (quiet node (node_queue_message n1 (vote_response n1 message false))) as [Hq Ho].
    { etrans; [exact Hq1|]. by apply quiet_queue. }
    split; [done|]. intros m [?|[Hb ?]]%Ho; [by left|right]. split; [done|]. by rewrite Hb.
Qed.

Lemma handle_vote_response_spec node message :
  let node' := node_handle_vote_response node message in
  quiet node node' ∧ (log_wf node → log_wf node') ∧ (repl_wf node → repl_wf node').
Proof.
  unfold node_handle_vote_response. set (n1 := node_handle_term_update node message).
  assert (quiet node n1) as Hq1 by apply term_update_quiet.
  pose proof (term_update_log_wf node message) as Hw1.
  pose proof (term_update_repl_wf node message) as Hr1. fold n1 in Hw1, Hr1.
  case_match; [done|]. case_match; [|done]. unfold node_record_vote.
  case_match; [done|]. case_match; [|done]. split_and!.
  - etrans; [exact Hq1|]. by apply quiet_same.
  - intros ?. keep_log_wf n1. auto.
  - intros ?. keep_repl_wf n1. auto.
Qed.

Lemma handle_append_entries_response_spec node message :
  log_wf node → repl_wf node → (snapshot_last_included_index node ≤ commit_index node)%Z →
  (success message = true →
   msg_match_index message ≤ snapshot_last_included_index node + Z.of_nat RAFT_MAX_LOG ∧
   msg_match_index message < INT_MAX)%Z →
  ∃ node', node_handle_append_entries_response node message = Some node' ∧
           log_wf node' ∧ repl_wf node' ∧ quiet node node' ∧
           (snapshot_last_included_index node' ≤ commit_index node')%Z.
Proof.
  intros Hwf Hr Hsc Hm. unfold node_handle_append_entries_response.
  set (n1 := node_handle_term_update node message).
  assert (log_wf n1) as Hw1 by by apply term_update_log_wf.
  assert (repl_wf n1) as Hr1 by by apply term_update_repl_wf.
  assert (quiet node n1) as Hq1 by apply term_update_quiet.
  assert (snapshot_last_included_index n1 = snapshot_last_included_index node ∧
          commit_index n1 = commit_index node) as [Es Ec]
    by (unfold n1, node_handle_term_update; by case_match).
  rewrite <- Es, <- Ec in *.
  case_match; [by eauto 10|].
  destruct (node_peer_index n1 (source message)) as [p|] eqn:Ep; [|by eauto 10].
  apply node_peer_index_lt in Ep as Hp; [|done].
  destruct Hr1 as [Hp1 Hn1 Hm1 Hb1].
  case_match.
  - destruct (Hm eq_refl) as [Hm1' Hm2']. unfold int_incr.
    rewrite (proj2 (Z.ltb_lt _ _)) by done. bind_simpl. unfold array_set.
    rewrite Hn1, Hm1, (proj2 (Nat.ltb_lt _ _)) by done. bind_simpl.
    set (n2 := n1 <| match_index := _ |> <| next_index := _ |>).
    assert (log_wf n2) as Hw2 by by keep_log_wf n1.
    assert (repl_wf n2) as Hr2.
    { split; unfold n2; rsimpl; rewrite ?length_insert; try done.
      apply Forall_insert; [done|lia]. }
    unfold node_advance_commit_index.
    destruct (advance_commit_loop_defined
      (Z.to_nat (node_last_log_index n2 - commit_index n2)) n2 (node_last_log_index n2))
      as [n3 H3]; [done|lia|done|].
    rewrite H3. eexists. split; [done|].
    assert (quiet n2 n3) as Hq3 by by eapply advance_commit_quiet.
    assert (quiet node n3) by (etrans; [exact Hq1|]; etrans; [|exact Hq3]; by apply quiet_same).
    apply advance_commit_loop_spec in H3; [|lia].
    destruct H3 as [->|(i & -> & Hi & _)]; [done|]. split_and!; [|by keep_repl_wf n2|done|].
    + split; [keep_log_core n2; apply Hw2|..]; unfold node_last_log_index in *; rsimpl; [lia|].
      apply Hw2.
    + change (snapshot_last_included_index n1 ≤ i)%Z.
      assert (commit_index n2 = commit_index n1) by done. lia.
  - destruct (lookup_lt_is_Some_2 (next_index n1) p) as [k Hk]; [by rewrite Hn1|].
    rewrite Hk. bind_simpl.
    assert (k ≤ snapshot_last_included_index n1 + Z.of_nat RAFT_MAX_LOG + 1)%Z as Hkb
      by exact (Forall_lookup_1 _ _ _ _ Hb1 Hk).
    assert (∃ n, (if (node_log_base_index n1 <? k)%Z
                  then array_set (next_index n1) p (k - 1)%Z else Some (next_index n1)) = Some n ∧
                 length n = RAFT_MAX_PEERS ∧
                 Forall (λ n, (n ≤ snapshot_last_included_index n1 + Z.of_nat RAFT_MAX_LOG + 1)%Z) n)
      as (n & -> & Hnl & Hnb).
    { case_match; [|by eauto]. unfold array_set. rewrite Hn1, (proj2 (Nat.ltb_lt _ _)) by done.
      eexists. split_and!; [done|by rewrite length_insert|]. apply Forall_insert; [done|lia]. }
    bind_simpl. set (n2 := n1 <| next_index := n |>).
    assert (log_wf n2) as Hw2 by by keep_log_wf n1.
    assert (repl_wf n2) as Hr2 by (split; unfold n2; rsimpl; done).
    destruct (send_defined n2 (source message)) as [n3 H3]; [done..|].
    apply send_only_outbox in H3 as Ho. exists n3. split; [done|].
    split_and!; [by eapply only_outbox_log_wf|by eapply only_outbox_repl_wf| |].
    + etrans; [exact Hq1|]. etrans; [|by eapply send_quiet]. by apply quiet_same.
    + destruct Ho as [Ho _]. rewrite Ho. done.
Qed.

End Facts.
