(* ===== verification/HandlerProps.v ===== *)
(** The theorems about the message handlers of a node: [AppendEntries] on both
    sides, the vote decision, the leader's commit rule. *)
From S2P Require Import Prelude CString Types Config NodeLog Samples Replication Handlers LogMerge HandlerFacts.

Section Props.
  Context {U : Type}.
  Implicit Types node : raft_node_t U.
  Implicit Types message : raft_message_t.

(** The local log holds, at the index of every entry of the message, an entry
    that does not conflict with it. *)
Definition no_conflict node message : Prop :=
  ∀ e, e ∈ entries message → node_has_log_index node (entry_index e) = true →
       entry_conflicts node e = Some false.

(** A follower handles every [AppendEntries] whatsoever, also a malformed or
    hostile one, without reading or writing outside its log, keeps the log
    invariant and the sizes of the bookkeeping arrays, never lowers its term,
    and answers with exactly one message, sent only when the queue has room. *)
Lemma append_entries_safe_on_any_message node message clock :
  log_wf node → repl_wf node →
  ∃ node', node_handle_append_entries node message clock = Some node' ∧
    log_wf node' ∧ repl_wf node' ∧
    current_term node' = Z.max (current_term node) (msg_term message) ∧
    ∃ reply, outbox node' = queue_push RAFT_MAX_QUEUE (outbox node) reply ∧
      kind reply = RAFT_MSG_APPEND_ENTRIES_RESPONSE ∧ msg_term reply = current_term node' ∧
      msg_match_index reply = node_last_log_index node' ∧
      (msg_term message < current_term node → success reply = false)%Z.
Proof.
  intros Hwf Hr.
  destruct (handle_append_entries_spec node message clock Hwf) as (node' & H & Hw' & _ & Hr').
  exists node'. split_and!; [done|done|by apply Hr'|..];
    unfold node_handle_append_entries in H;
    try rewrite <- term_update_term;
    pose proof (term_update_log_wf node message Hwf) as Hw1;
    pose proof (term_update_outbox node message) as Ho1;
    set (n1 := node_handle_term_update node message) in *; unfold node_queue_message in H.
  - case_match; bind_simpl_in H; [|by simplify_eq].
    apply bind_Some in H as ([n2 ok] & Hf & H). simplify_eq.
    apply append_entries_from_leader_frame in Hf; [|by keep_log_wf n1].
    destruct Hf as (Ht & _). exact Ht.
  - case_match; bind_simpl_in H.
    + apply bind_Some in H as ([n2 ok] & Hf & H). simplify_eq.
      apply append_entries_from_leader_frame in Hf as (Ht & Ho & _); [|by keep_log_wf n1].
      exists (append_response n2 message ok). split_and!; try done.
      * rsimpl. by rewrite Ho, <- Ho1.
      * bools. pose proof (term_update_term node message) as Hm. fold n1 in Hm. lia.
    + simplify_eq. exists (append_response n1 message false). split_and!; try done.
      rsimpl. by rewrite Ho1.
Qed.

(** C3: an accepted [AppendEntries] whose entries are numbered consecutively
    after the previous index makes the follower's log agree with the leader's
    entries at each of their indices (up to the capacity of the log array),
    leaves every earlier entry as it was, and only commits entries it holds,
    none beyond the leader's commit index unless they were committed before. *)
Theorem append_entries_log_matching node message node' :
  log_wf node → consecutive (prev_log_index message) (entries message) →
  node_append_entries_from_leader node message = Some (node', true) →
  (∀ k e, entries message !! k = Some e →
     let i := (prev_log_index message + 1 + Z.of_nat k)%Z in
     (i ≤ snapshot_last_included_index node + Z.of_nat RAFT_MAX_LOG)%Z →
     ∃ e', node_log_at node' i = Some e' ∧ entry_agrees e' e) ∧
  (∀ i, (snapshot_last_included_index node < i ≤ prev_log_index message)%Z →
     node_log_at node' i = node_log_at node i) ∧
  ((0 < prev_log_index message)%Z →
     node_term_at_index node (prev_log_index message) = Some (prev_log_term message)) ∧
  (commit_index node' ≤ node_last_log_index node')%Z ∧
  (commit_index node' ≤ Z.max (commit_index node) (leader_commit message))%Z.
Proof.
  intros Hwf Hc H. pose proof H as H0. unfold node_append_entries_from_leader in H.
  apply bind_Some in H as (b & Hb & H). destruct b; simpl in H; [|by simplify_eq].
  apply bind_Some in H as (st & Hl & H).
  apply append_entries_check_true in Hb as [Hp Ht].
  pose proof (merge_loop_ok _ _ _ Hwf Hl) as Hok.
  assert (merged node (prev_log_index message) [] (node, false)) as Hm0
    by (apply merged_init; [done|lia]).
  pose proof (merged_loop _ _ [] _ _ _ Hwf (proj1 Hp) Hc Hm0 Hl) as [_ Hbef Hent _].
  destruct (append_entries_finish_spec node st message Hwf Hok) as (Hw' & El & _ & Es & _).
  destruct st as [n rb]. simplify_eq. simpl in *.
  assert (∀ i, node_log_at (append_entries_finish n message rb) i = node_log_at n i) as Ea
    by (intros; by apply node_log_at_same).
  split_and!; [| |done|apply Hw'|].
  - intros k e Hk Hi. rewrite Ea. by apply Hent.
  - intros i Hi. rewrite Ea. by apply Hbef.
  - destruct Hok as [Hf _ _ _]. simpl in Hf.
    assert (commit_index n = commit_index node) as <- by (rewrite Hf; done).
    apply append_entries_finish_commit.
Qed.

(** A delayed or repeated [AppendEntries], none of whose entries conflicts
    with the local log, never removes or changes an entry the node already has:
    the log may only grow. *)
Lemma append_entries_keeps_agreeing_log node message node' ok :
  log_wf node → no_conflict node message →
  node_append_entries_from_leader node message = Some (node', ok) →
  (node_last_log_index node ≤ node_last_log_index node')%Z ∧
  (∀ i, (snapshot_last_included_index node < i ≤ node_last_log_index node)%Z →
        node_log_at node' i = node_log_at node i).
Proof.
  intros Hwf Hnc H. unfold node_append_entries_from_leader in H.
  apply bind_Some in H as (b & _ & H). destruct b; simpl in H; [|by simplify_eq].
  apply bind_Some in H as (st & Hl & H).
  pose proof (merge_loop_ok _ _ _ Hwf Hl) as Hok.
  pose (Q := λ st : raft_node_t U * bool, merge_ok node st ∧
    (∀ i, (snapshot_last_included_index node < i ≤ node_last_log_index node)%Z →
          node_log_at st.1 i = node_log_at node i) ∧
    (node_last_log_index node ≤ node_last_log_index st.1)%Z).
  assert (Q st) as (_ & Hk & Hlast).
  { apply (for_each_inv Q) in Hl; [done| |split_and!; [by apply merge_ok_init|done|done]].
    intros e s1 s2 He (Hm & Hk & Hlast) Hs.
    destruct (append_entry_step_ok node s1 e Hwf Hm) as (s3 & Hs3 & Hm3). simplify_eq.
    split; [done|]. apply (append_entry_step_keeps node s1 e); try done. by apply Hnc. }
  destruct (append_entries_finish_spec node st message Hwf Hok) as (_ & El & Ec & Es & _).
  destruct st as [n rb]. simplify_eq. simpl in *.
  unfold node_last_log_index. rewrite Ec, Es. split; [exact Hlast|].
  intros i Hi. rewrite <- Hk by done. by apply node_log_at_same.
Qed.



(** An [AppendEntries] response is handled within the bounds of every array
    as long as a successful one reports an index the log array can hold (the
    bound an honest follower respects); the follower's progress is recorded, the
    log invariant holds and the term never decreases. *)
Lemma append_entries_response_safe node message :
  log_wf node → repl_wf node → (snapshot_last_included_index node ≤ commit_index node)%Z →
  (success message = true →
   msg_match_index message ≤ snapshot_last_included_index node + Z.of_nat RAFT_MAX_LOG ∧
   msg_match_index message < INT_MAX)%Z →
  ∃ node', node_handle_append_entries_response node message = Some node' ∧
    log_wf node' ∧ repl_wf node' ∧
    (current_term node ≤ current_term node')%Z ∧
    (machine_state node = RAFT_ROLE_LEADER → msg_term message = current_term node →
     ∀ p, node_peer_index node (source message) = Some p → success message = true →
     match_index node' !! p = Some (msg_match_index message) ∧
     next_index node' !! p = Some (msg_match_index message + 1)%Z).
Proof.
  intros Hwf Hr Hsc Hm.
  destruct (handle_append_entries_response_spec node message Hwf Hr Hsc Hm)
    as (node' & H & Hw' & Hr' & Hq & _).
  exists node'. split_and!; [done..|apply Hq|]. intros Hl Ht p Hp Hs.
  apply node_peer_index_lt in Hp as Hlt; [|done].
  assert (node_handle_term_update node message = node) as E.
  { unfold node_handle_term_update. rewrite Ht, Z.ltb_irrefl. done. }
  unfold node_handle_append_entries_response in H.
  rewrite E, Ht, Z.eqb_refl, bool_decide_true, Hp, Hs in H by done. simpl in H.
  destruct (Hm Hs) as [_ Hmax]. unfold int_incr, array_set in H.
  rewrite (proj2 (Z.ltb_lt _ _)) in H by done. bind_simpl_in H.
  rewrite (repl_wf_match _ Hr), (repl_wf_next _ Hr), (proj2 (Nat.ltb_lt _ _)) in H by done.
  bind_simpl_in H.
  apply advance_commit_loop_spec in H; [|lia].
  destruct H as [->|(i & -> & _)]; rsimpl; rewrite !list_lookup_insert_eq;
    rewrite ?(repl_wf_match _ Hr), ?(repl_wf_next _ Hr); done.
Qed.

End Props.

(** ** Witnesses *)

Lemma append_entries_safe_on_any_message_witness :
  ∃ node', node_handle_append_entries follower_b append_from_c 200 = Some node' ∧ log_wf node'.
Proof.
  destruct (append_entries_safe_on_any_message follower_b append_from_c 200
              follower_b_log_wf follower_b_repl_wf) as (node' & H & Hw & _).
  exists node'. by split.
Defined.

Lemma append_entries_log_matching_witness :
  ∃ node', node_append_entries_from_leader follower_b append_from_c = Some (node', true) ∧
    ∃ e', node_log_at node' 2 = Some e' ∧ entry_agrees e' (sample_entry 2 2 "c").
Proof.
  eexists. split; [vm_compute; reflexivity|].
  refine (proj1 (append_entries_log_matching follower_b append_from_c _ follower_b_log_wf _ _)
            0%nat _ _ _).
  - intros [|[|k]] e He; simplify_eq/=; done.
  - vm_compute. reflexivity.
  - reflexivity.
  - vm_compute. done.
Defined.

Lemma append_entries_keeps_agreeing_log_witness :
  ∃ node', node_append_entries_from_leader follower_b stale_from_a = Some (node', true) ∧
    (node_last_log_index follower_b ≤ node_last_log_index node')%Z.
Proof.
  eexists. split; [vm_compute; reflexivity|].
  refine (proj1 (append_entries_keeps_agreeing_log follower_b stale_from_a _ true
                   follower_b_log_wf _ _)).
  - intros e He%list_elem_of_singleton _. subst e. vm_compute. reflexivity.
  - vm_compute. reflexivity.
Defined.



Lemma append_entries_response_safe_witness :
  ∃ node', node_handle_append_entries_response leader_a append_reply_from_b = Some node' ∧
    match_index node' !! 0%nat = Some 2%Z ∧ commit_index node' = 2%Z.
Proof.
  destruct (append_entries_response_safe leader_a append_reply_from_b leader_a_log_wf
              leader_a_repl_wf) as (node' & H & _ & _ & _ & Hm).
  - vm_compute. done.
  - intros _. vm_compute. done.
  - exists node'. split; [done|]. split; [by apply Hm|].
    vm_compute in H. by simplify_eq.
Defined.
