(* ===== verification/Storage.v ===== *)
(** The file storage of a node, [c/src/raft_storage.c]: [meta.txt], [log.txt] and
    [snapshot.bin], each replaced by writing a temporary file and renaming it.

    A disk is the map from paths to file contents; the directories always exist
    ([storage_ensure_dirs]) and a failing [fopen] or [rename] ends the program in
    the code ([exit(1)]), so the operations below always succeed.  A save is the
    list of its disk operations, so that a crash can happen between any two. *)
From S2P Require Import Prelude CString Types NodeLog Handlers.

Abbreviation disk_t := (gmap string string).

Definition raft_file_storage_init (root id : string) : raft_file_storage_t :=
  mkStorage (strncpy RAFT_MAX_ID id) (strncpy 256 root) "".

Definition storage_node_dir (s : raft_file_storage_t) : string :=
  (snprintf 512 (root_dir s +:+ "/" +:+ storage_node_id s)).1.
Definition storage_meta_path (s : raft_file_storage_t) : string :=
  (snprintf 600 (storage_node_dir s +:+ "/meta.txt")).1.
Definition storage_log_path (s : raft_file_storage_t) : string :=
  (snprintf 600 (storage_node_dir s +:+ "/log.txt")).1.
Definition storage_snapshot_path (s : raft_file_storage_t) : string :=
  (snprintf 600 (storage_node_dir s +:+ "/snapshot.bin")).1.

(** [rename(a, b)]. *)
Definition disk_rename (a b : string) (d : disk_t) : disk_t :=
  match d !! a with
  | Some c => <[b := c]> (delete a d)
  | None => d
  end.

(** [atomic_replace_path]: create the temporary file, fill it, rename it. *)
Definition atomic_replace_path (path text : string) : list (disk_t → disk_t) :=
  let tmp := (snprintf 600 (path +:+ ".tmp")).1 in
  [<[tmp := ""]>; <[tmp := text]>; disk_rename tmp path].

Definition run_disk (ops : list (disk_t → disk_t)) (d : disk_t) : disk_t :=
  fold_left (λ d op, op d) ops d.

(** [fprintf(fp, "<key> <text>\n")]. *)
Definition meta_line (k text : string) : string :=
  k +:+ String " "%char (text +:+ String newline "").

Definition member_lines (k : string) (ms : list string) : string :=
  foldr (λ m acc, meta_line k m +:+ acc) "" ms.

Section Storage.
  Context {U : Type}.
  Implicit Types node : raft_node_t U.

Definition write_meta node : string :=
  meta_line "current_term" (print_int (current_term node)) +:+
  meta_line "voted_for" (if streq (voted_for node) "" then "-" else voted_for node) +:+
  meta_line "compaction_threshold" (print_int (compaction_threshold node)) +:+
  meta_line "commit_index" (print_int (commit_index node)) +:+
  meta_line "snapshot_last_included_index" (print_int (snapshot_last_included_index node)) +:+
  meta_line "snapshot_last_included_term" (print_int (snapshot_last_included_term node)) +:+
  meta_line "configuration_index" (print_int (config_index (config_state node))) +:+
  meta_line "old_count" (print_int (Z.of_nat (length (old_members (config_state node))))) +:+
  member_lines "old_member" (old_members (config_state node)) +:+
  meta_line "new_count" (print_int (Z.of_nat (length (new_members (config_state node))))) +:+
  member_lines "new_member" (new_members (config_state node)).

Definition bar : Ascii.ascii := "|"%char.

Definition log_line (e : raft_log_entry_t) : string :=
  print_int (entry_index e) +:+ String bar (print_int (entry_term e) +:+
  String bar (entry_leader_id e +:+ String bar (op (entry_command e) +:+
  String bar (key (entry_command e) +:+ String bar (value (entry_command e)))))).

Definition write_log node : string :=
  foldr (λ e acc, log_line e +:+ String newline acc) "" (take (log_count node) (log node)).

Definition write_snapshot (data : string) (index term : Z) : string :=
  fwrite_int32 index +:+ fwrite_int32 term +:+
  fwrite_int32 (Z.of_nat (String.length data)) +:+ data.

Definition raft_storage_node_save node : list (disk_t → disk_t) :=
  atomic_replace_path (storage_meta_path (storage node)) (write_meta node) ++
  atomic_replace_path (storage_log_path (storage node)) (write_log node).

Definition raft_storage_save_snapshot node (index term : Z) : list (disk_t → disk_t) :=
  atomic_replace_path (storage_snapshot_path (storage node))
    (write_snapshot (snapshot_buf (storage node)) index term).

End Storage.

(** *** Reading back *)

(** What the loop over [meta.txt] fills in: the member arrays have all their
    slots, next to their counts. *)
Record meta_t : Type := mkMeta {
  meta_term : Z;
  meta_voted : string;
  meta_threshold : Z;
  meta_commit : Z;
  meta_snap_index : Z;
  meta_snap_term : Z;
  meta_config_index : Z;
  meta_old_count : nat;
  meta_old : list string;
  meta_new_count : nat;
  meta_new : list string;
}.

#[export] Instance meta_eta : Eta meta_t := λ m,
  mkMeta (meta_term m) (meta_voted m) (meta_threshold m) (meta_commit m) (meta_snap_index m)
    (meta_snap_term m) (meta_config_index m) (meta_old_count m) (meta_old m)
    (meta_new_count m) (meta_new m).

Definition zero_meta : meta_t :=
  mkMeta 0 "" (Z.of_nat RAFT_MAX_LOG) 0 0 0 0 0 (replicate RAFT_MAX_NODES "") 0
    (replicate RAFT_MAX_NODES "").

(** [(size_t)atoi(text)], cut at the array size; a negative value is a huge one. *)
Definition read_count (text : string) : nat :=
  let n := atoi text in
  if (n <? 0)%Z then RAFT_MAX_NODES else Nat.min (Z.to_nat n) RAFT_MAX_NODES.

(** [while (idx < count && slots\[idx\]\[0\] != 0) idx++]. *)
Fixpoint free_slot (idx count : nat) (slots : list string) : nat :=
  match count, slots with
  | S count, s :: slots => if streq s "" then idx else free_slot (S idx) count slots
  | _, _ => idx
  end.

Definition read_member (count : nat) (slots : list string) (text : string) : list string :=
  let idx := free_slot 0 count slots in
  if (idx <? RAFT_MAX_NODES)%nat then
    match sscanf_s 15 text with
    | Some tok => <[idx := tok]> slots
    | None => slots
    end
  else slots.

Definition read_voted (old text : string) : string :=
  let v := default old (sscanf_s 15 text) in
  if streq v "-" then "" else v.

(** The chain of [strncmp] tests: each key with what its line does. *)
Definition meta_fields : list (string * (meta_t → string → meta_t)) :=
  [("current_term ", λ m v, m <| meta_term := atoi v |>);
   ("voted_for ", λ m v, m <| meta_voted := read_voted (meta_voted m) v |>);
   ("compaction_threshold ", λ m v, m <| meta_threshold := atoi v |>);
   ("commit_index ", λ m v, m <| meta_commit := atoi v |>);
   ("snapshot_last_included_index ", λ m v, m <| meta_snap_index := atoi v |>);
   ("snapshot_last_included_term ", λ m v, m <| meta_snap_term := atoi v |>);
   ("configuration_index ", λ m v, m <| meta_config_index := atoi v |>);
   ("old_count ", λ m v, m <| meta_old_count := read_count v |>);
   ("old_member ", λ m v, m <| meta_old := read_member (meta_old_count m) (meta_old m) v |>);
   ("new_count ", λ m v, m <| meta_new_count := read_count v |>);
   ("new_member ", λ m v, m <| meta_new := read_member (meta_new_count m) (meta_new m) v |>)].

Fixpoint read_meta_field (fields : list (string * (meta_t → string → meta_t)))
    (m : meta_t) (line : string) : meta_t :=
  match fields with
  | [] => m
  | (k, f) :: fields =>
      match strip_prefix k line with
      | Some v => f m v
      | None => read_meta_field fields m line
      end
  end.

Definition read_meta (text : string) : meta_t :=
  fold_left (read_meta_field meta_fields) (fgets_lines 512 text) zero_meta.

(** [split_log_fields(line, fields, n)]: the first [n - 1] fields end at a bar,
    the last one at the end of the line. *)
Fixpoint split_log_fields (n : nat) (line : string) : option (list string) :=
  match n with
  | O => None
  | S O => Some [match str_break newline line with Some (a, _) => a | None => line end]
  | S n =>
      '(field, rest) ← str_break bar line;
      fields ← split_log_fields n rest;
      Some (field :: fields)
  end.

Definition read_log_line (line : string) : option raft_log_entry_t :=
  match split_log_fields 6 line with
  | Some [i; t; l; o; k; v] =>
      Some (mkEntry (atoi i) (atoi t) (strncpy RAFT_MAX_ID l)
              (mkCommand (strncpy RAFT_MAX_OP o) (strncpy RAFT_MAX_KEY k) (strncpy RAFT_MAX_VALUE v)))
  | _ =>
      match split_log_fields 5 line with
      | Some [i; t; o; k; v] =>
          Some (mkEntry (atoi i) (atoi t) ""
                  (mkCommand (strncpy RAFT_MAX_OP o) (strncpy RAFT_MAX_KEY k)
                     (strncpy RAFT_MAX_VALUE v)))
      | _ => None
      end
  end.

(** The loop over the lines of [log.txt]. *)
Fixpoint read_log (snap : Z) (lines : list string) (es : list raft_log_entry_t)
    : list raft_log_entry_t :=
  match lines with
  | [] => es
  | line :: lines =>
      if (length es <? RAFT_MAX_LOG)%nat then
        match read_log_line line with
        | Some e => if (entry_index e <=? snap)%Z then read_log snap lines es
                    else read_log snap lines (es ++ [e])
        | None => read_log snap lines es
        end
      else es
  end.

(** The snapshot file, when its header matches [meta.txt]. *)
Definition read_snapshot (m : meta_t) (text : string) : option string :=
  '(index, text) ← fread_int32 text;
  '(term, text) ← fread_int32 text;
  '(size, text) ← fread_int32 text;
  if (index =? meta_snap_index m)%Z && (term =? meta_snap_term m)%Z
  then Some (if (0 <? size)%Z && (size <=? Z.of_nat RAFT_MAX_SNAPSHOT_SIZE)%Z
             then str_take (Z.to_nat size) text else "")
  else None.

(** What the three files hold for the node stored at [s]. *)
Definition loaded_meta (d : disk_t) (s : raft_file_storage_t) : meta_t :=
  match d !! storage_meta_path s with Some text => read_meta text | None => zero_meta end.

Definition loaded_log (d : disk_t) (s : raft_file_storage_t) : list raft_log_entry_t :=
  match d !! storage_log_path s with
  | Some text => read_log (meta_snap_index (loaded_meta d s)) (fgets_lines 512 text) []
  | None => []
  end.

Definition loaded_snapshot (d : disk_t) (s : raft_file_storage_t) : option string :=
  text ← d !! storage_snapshot_path s; read_snapshot (loaded_meta d s) text.

(** The assignments to the node, the clamping of the commit index and the
    restoration of the application included. *)
Definition node_fill {U} (m : meta_t) (snap : option string) (es : list raft_log_entry_t)
    (node : raft_node_t U) : raft_node_t U :=
  let actual_last := (meta_snap_index m + Z.of_nat (length es))%Z in
  let node :=
    node <| current_term := meta_term m |> <| voted_for := meta_voted m |>
         <| compaction_threshold := meta_threshold m |>
         <| commit_index := if (actual_last <? meta_commit m)%Z then actual_last else meta_commit m |>
         <| snapshot_last_included_index := meta_snap_index m |>
         <| snapshot_last_included_term := meta_snap_term m |>
         <| config_state := mkClusterConfig (take (meta_old_count m) (meta_old m))
                              (take (meta_new_count m) (meta_new m)) (meta_config_index m) |>
         <| log := es ++ replicate (RAFT_MAX_LOG - length es) zero_entry |>
         <| log_count := length es |>
         <| storage := storage node <| snapshot_buf := default "" snap |> |> in
  match snap with
  | Some _ => app_restore_snapshot node <| last_applied := meta_snap_index m |>
  | None => app_reload node <| last_applied := 0%Z |>
  end.

Definition raft_storage_node_load {U} (d : disk_t) (node : raft_node_t U) : raft_node_t U :=
  node_fill (loaded_meta d (storage node)) (loaded_snapshot d (storage node))
    (loaded_log d (storage node)) node.
