(* ===== verification/StorageFacts.v ===== *)
(** Properties of the file storage: what a save writes a load reads back, and
    what a crash during a save leaves behind. *)
From S2P Require Import Prelude CString Types NodeLog Handlers Samples Storage.

(** ** Paths *)

Lemma node_dir_length s : (String.length (storage_node_dir s) ≤ 511)%nat.
Proof. unfold storage_node_dir, snprintf. apply str_take_length. Qed.

(** The paths are never truncated, so they are the directory and a file name. *)
Lemma path_exact s f :
  (String.length f ≤ 80)%nat →
  (snprintf 600 (storage_node_dir s +:+ f)).1 = storage_node_dir s +:+ f.
Proof.
  intros Hf. unfold snprintf. cbn [fst]. apply str_take_all. rewrite str_app_length.
  pose proof (node_dir_length s). lia.
Qed.

Lemma tmp_path_exact s f :
  (String.length f ≤ 80)%nat →
  (snprintf 600 ((storage_node_dir s +:+ f) +:+ ".tmp")).1 = storage_node_dir s +:+ (f +:+ ".tmp").
Proof.
  intros Hf. rewrite <- str_app_assoc. unfold snprintf. cbn [fst]. apply str_take_all.
  rewrite !str_app_length. simpl. pose proof (node_dir_length s). lia.
Qed.

Lemma meta_path_eq s : storage_meta_path s = storage_node_dir s +:+ "/meta.txt".
Proof. apply path_exact. simpl. lia. Qed.
Lemma log_path_eq s : storage_log_path s = storage_node_dir s +:+ "/log.txt".
Proof. apply path_exact. simpl. lia. Qed.
Lemma snapshot_path_eq s : storage_snapshot_path s = storage_node_dir s +:+ "/snapshot.bin".
Proof. apply path_exact. simpl. lia. Qed.

(** The temporary file of a path. *)
Definition tmp_of (path : string) : string := (snprintf 600 (path +:+ ".tmp")).1.

Lemma meta_tmp_eq s : tmp_of (storage_meta_path s) = storage_node_dir s +:+ "/meta.txt.tmp".
Proof. unfold tmp_of. rewrite meta_path_eq. apply tmp_path_exact. simpl. lia. Qed.
Lemma log_tmp_eq s : tmp_of (storage_log_path s) = storage_node_dir s +:+ "/log.txt.tmp".
Proof. unfold tmp_of. rewrite log_path_eq. apply tmp_path_exact. simpl. lia. Qed.
Lemma snapshot_tmp_eq s : tmp_of (storage_snapshot_path s) = storage_node_dir s +:+ "/snapshot.bin.tmp".
Proof. unfold tmp_of. rewrite snapshot_path_eq. apply tmp_path_exact. simpl. lia. Qed.

(** The three files and their temporaries are pairwise distinct. *)
Ltac distinct_paths :=
  rewrite ?meta_tmp_eq, ?log_tmp_eq, ?snapshot_tmp_eq, ?meta_path_eq, ?log_path_eq,
    ?snapshot_path_eq; intros ?%str_app_inj; discriminate.

(* The paths are never computed from here on. *)
#[local] Opaque storage_meta_path storage_log_path storage_snapshot_path tmp_of.

(** A replacement writes the file and removes the temporary. *)
Lemma run_replace path text d :
  run_disk (atomic_replace_path path text) d = <[path := text]> (delete (tmp_of path) d).
Proof.
  unfold run_disk, atomic_replace_path. change ((snprintf 600 (path +:+ ".tmp")).1) with (tmp_of path). cbn [fold_left]. unfold disk_rename.
  rewrite lookup_insert_eq. f_equal. by rewrite insert_insert_eq, delete_insert_eq.
Qed.

Lemma run_disk_app ops1 ops2 d : run_disk (ops1 ++ ops2) d = run_disk ops2 (run_disk ops1 d).
Proof. apply fold_left_app. Qed.

(** At every point of a replacement the file has its old or its new content,
    and no file but the temporary is touched. *)
Lemma replace_prefix path text k d p :
  p ≠ tmp_of path →
  run_disk (take k (atomic_replace_path path text)) d !! p =
    if bool_decide (p = path ∧ (3 ≤ k)%nat) then Some text else d !! p.
Proof.
  intros Hp. unfold run_disk, atomic_replace_path. change ((snprintf 600 (path +:+ ".tmp")).1) with (tmp_of path).
  destruct k as [|[|[|k]]]; cbn [take fold_left].
  - rewrite bool_decide_false by lia. done.
  - rewrite bool_decide_false by lia. by rewrite lookup_insert_ne.
  - rewrite bool_decide_false by lia. by rewrite !lookup_insert_ne.
  - rewrite take_nil. cbn [fold_left]. unfold disk_rename. rewrite lookup_insert_eq.
    destruct (decide (p = path)) as [->|Hne].
    + rewrite bool_decide_true by (split; [done|lia]). by rewrite lookup_insert_eq.
    + rewrite bool_decide_false by naive_solver.
      rewrite lookup_insert_ne, lookup_delete_ne, !lookup_insert_ne by done. done.
Qed.

(** ** meta.txt *)

Definition read_meta_lines (m : meta_t) (text : string) : meta_t :=
  fold_left (read_meta_field meta_fields) (fgets_lines 512 text) m.

Lemma read_meta_cons m k text rest :
  lacks newline k = true → lacks newline text = true →
  (String.length k + String.length text < 500)%nat →
  read_meta_lines m (meta_line k text +:+ rest) =
    read_meta_lines (read_meta_field meta_fields m (meta_line k text)) rest.
Proof.
  intros Hk Ht Hl. unfold read_meta_lines, meta_line.
  set (l := k +:+ String " "%char text).
  assert (k +:+ String " "%char (text +:+ String newline "") = l +:+ String newline "") as ->.
  { unfold l. by rewrite <- str_app_assoc, str_app_cons. }
  rewrite <- str_app_assoc, str_app_cons, str_app_nil_l.
  rewrite fgets_lines_cons; [done| |].
  - unfold l. rewrite lacks_app, Hk. change (lacks newline text = true). done.
  - unfold l. rewrite str_app_length. simpl. lia.
Qed.

Lemma atoi_line z : atoi (print_int z +:+ String newline "") = z.
Proof. by apply atoi_print_int. Qed.

Lemma print_int_no_newline z : lacks newline (print_int z) = true.
Proof. by apply print_int_lacks. Qed.

Lemma valid_id_word s : valid_id s = true → is_word s = true ∧ (String.length s ≤ 15)%nat ∧ s ≠ "-".
Proof.
  unfold valid_id. intros H. bools. split_and!; [done|unfold RAFT_MAX_ID in *; lia|].
  by apply streq_false.
Qed.

Lemma word_no_newline s : is_word s = true → lacks newline s = true.
Proof. unfold is_word. intros H. bools. by apply word_lacks. Qed.

Lemma read_voted_line old s :
  s = "" ∨ valid_id s = true →
  read_voted old ((if streq s "" then "-" else s) +:+ String newline "") = s.
Proof.
  intros [->|Hs]; [done|].
  apply valid_id_word in Hs as (Hw & Hl & Hd).
  assert (streq s "" = false) as ->.
  { apply streq_false. intros ->. done. }
  unfold read_voted. rewrite sscanf_s_word by done. simpl.
  by rewrite (proj2 (streq_false s "-")).
Qed.

(** The slots of a member array after some of its members are read. *)
Definition slots (ms : list string) : list string :=
  ms ++ replicate (RAFT_MAX_NODES - length ms) "".

Lemma free_slot_slots i count ms rest :
  Forall (λ m, m ≠ "") ms → (length ms < count)%nat →
  free_slot i count (ms ++ "" :: rest) = (i + length ms)%nat.
Proof.
  intros Hm. revert i count; induction Hm as [|m ms Hm _ IH]; intros i count Hc;
    (destruct count as [|count]; [simpl in Hc; lia|]); cbn [app free_slot].
  - rewrite streq_refl. simpl. lia.
  - rewrite (proj2 (streq_false m "")) by done. simpl in *. rewrite IH by lia. lia.
Qed.

Lemma read_member_slots count ms m :
  Forall (λ m, valid_id m = true) (ms ++ [m]) →
  (length ms < count)%nat → (count ≤ RAFT_MAX_NODES)%nat →
  read_member count (slots ms) (m +:+ String newline "") = slots (ms ++ [m]).
Proof.
  intros [Hms [Hm _]%Forall_cons]%Forall_app Hc Hn.
  assert (slots ms = ms ++ "" :: replicate (RAFT_MAX_NODES - S (length ms)) "") as E.
  { unfold slots. replace (RAFT_MAX_NODES - length ms)%nat with (S (RAFT_MAX_NODES - S (length ms)))
      by lia. done. }
  unfold read_member. rewrite E, free_slot_slots; [|by eapply Forall_impl; [exact Hms|auto with raft]|done].
  simpl. rewrite (proj2 (Nat.ltb_lt _ _)) by lia.
  apply valid_id_word in Hm as (Hw & Hl & _). rewrite sscanf_s_word by done.
  rewrite insert_app_r_alt, Nat.sub_diag by lia. simpl. unfold slots.
  rewrite <- app_assoc, length_app. simpl. rewrite Nat.add_1_r. done.
Qed.

(** Reading the member lines of one of the two lists: [proj] and [upd] are its
    array, [count] its count. *)
Lemma read_old_members m ms ms' rest :
  Forall (λ m, valid_id m = true) (ms ++ ms') → (length (ms ++ ms') ≤ meta_old_count m)%nat →
  (meta_old_count m ≤ RAFT_MAX_NODES)%nat → meta_old m = slots ms →
  read_meta_lines m (member_lines "old_member" ms' +:+ rest) =
    read_meta_lines (m <| meta_old := slots (ms ++ ms') |>) rest.
Proof.
  revert m ms; induction ms' as [|x ms' IH]; intros m ms Hf Hl Hn Hs.
  { rewrite app_nil_r, <- Hs. destruct m; done. }
  cbn [member_lines foldr]. rewrite <- str_app_assoc.
  assert (valid_id x = true) as Hx by (apply Forall_app in Hf as [_ [Hx _]%Forall_cons]; done).
  apply valid_id_word in Hx as (Hw & Hxl & _).
  rewrite read_meta_cons; [|done|by apply word_no_newline|simpl; lia].
  change (ms ++ x :: ms') with (ms ++ [x] ++ ms') in *. rewrite app_assoc in *.
  change (read_meta_field meta_fields m (meta_line "old_member" x)) with
    (m <| meta_old := read_member (meta_old_count m) (meta_old m) (x +:+ String newline "") |>).
  rewrite Hs, read_member_slots;
    [|by apply Forall_app in Hf as [? _]|rewrite !length_app in Hl; simpl in Hl; lia|done].
  fold (member_lines "old_member" ms'). rewrite (IH _ (ms ++ [x])); done.
Qed.

Lemma read_new_members m ms ms' rest :
  Forall (λ m, valid_id m = true) (ms ++ ms') → (length (ms ++ ms') ≤ meta_new_count m)%nat →
  (meta_new_count m ≤ RAFT_MAX_NODES)%nat → meta_new m = slots ms →
  read_meta_lines m (member_lines "new_member" ms' +:+ rest) =
    read_meta_lines (m <| meta_new := slots (ms ++ ms') |>) rest.
Proof.
  revert m ms; induction ms' as [|x ms' IH]; intros m ms Hf Hl Hn Hs.
  { rewrite app_nil_r, <- Hs. destruct m; done. }
  cbn [member_lines foldr]. rewrite <- str_app_assoc.
  assert (valid_id x = true) as Hx by (apply Forall_app in Hf as [_ [Hx _]%Forall_cons]; done).
  apply valid_id_word in Hx as (Hw & Hxl & _).
  rewrite read_meta_cons; [|done|by apply word_no_newline|simpl; lia].
  change (ms ++ x :: ms') with (ms ++ [x] ++ ms') in *. rewrite app_assoc in *.
  change (read_meta_field meta_fields m (meta_line "new_member" x)) with
    (m <| meta_new := read_member (meta_new_count m) (meta_new m) (x +:+ String newline "") |>).
  rewrite Hs, read_member_slots;
    [|by apply Forall_app in Hf as [? _]|rewrite !length_app in Hl; simpl in Hl; lia|done].
  fold (member_lines "new_member" ms'). rewrite (IH _ (ms ++ [x])); done.
Qed.

Lemma read_count_length (ms : list string) :
  (length ms ≤ RAFT_MAX_NODES)%nat →
  read_count (print_int (Z.of_nat (length ms)) +:+ String newline "") = length ms.
Proof.
  intros H. unfold read_count. rewrite atoi_line.
  rewrite (proj2 (Z.ltb_ge _ _)), Nat2Z.id by lia. lia.
Qed.

(** ** log.txt *)

(** The entries the log file can carry. *)
Record loggable (e : raft_log_entry_t) : Prop := {
  loggable_index : in_int (entry_index e);
  loggable_term : in_int (entry_term e);
  loggable_leader : lacks bar (entry_leader_id e) = true ∧ lacks newline (entry_leader_id e) = true ∧
                    (String.length (entry_leader_id e) < RAFT_MAX_ID)%nat;
  loggable_op : lacks bar (op (entry_command e)) = true ∧ lacks newline (op (entry_command e)) = true ∧
                (String.length (op (entry_command e)) < RAFT_MAX_OP)%nat;
  loggable_key : lacks bar (key (entry_command e)) = true ∧ lacks newline (key (entry_command e)) = true ∧
                 (String.length (key (entry_command e)) < RAFT_MAX_KEY)%nat;
  loggable_value : lacks newline (value (entry_command e)) = true ∧
                   (String.length (value (entry_command e)) < RAFT_MAX_VALUE)%nat;
}.

Lemma lacks_cons c d s : lacks c (String d s) = negb (is_char c d) && lacks c s.
Proof. done. Qed.

Lemma split_field n a b rest :
  lacks bar a = true → split_log_fields (S n) b = Some rest →
  split_log_fields (S (S n)) (a +:+ String bar b) = Some (a :: rest).
Proof.
  intros Ha Hb. cbn [split_log_fields]. rewrite str_break_app by done. bind_simpl.
  cbn [split_log_fields] in Hb. by rewrite Hb.
Qed.

Lemma log_line_app_newline e :
  log_line e +:+ String newline "" =
  print_int (entry_index e) +:+ String bar (print_int (entry_term e) +:+
  String bar (entry_leader_id e +:+ String bar (op (entry_command e) +:+
  String bar (key (entry_command e) +:+ String bar (value (entry_command e) +:+ String newline ""))))).
Proof. unfold log_line. by repeat rewrite <- ?str_app_assoc, ?str_app_cons. Qed.

Lemma read_log_line_print e : loggable e → read_log_line (log_line e +:+ String newline "") = Some e.
Proof.
  intros [Hi Ht (Hl1 & _ & Hl2) (Ho1 & _ & Ho2) (Hk1 & _ & Hk2) (Hv1 & Hv2)].
  rewrite log_line_app_newline. unfold read_log_line.
  erewrite split_field; [|by apply print_int_lacks|].
  2:{ erewrite split_field; [done|by apply print_int_lacks|].
      erewrite split_field; [done..|]. erewrite split_field; [done..|].
      erewrite split_field; [done..|]. cbn [split_log_fields]. by rewrite str_break_app. }
  cbv beta iota. rewrite !strncpy_fits by done.
  pose proof (atoi_print_int (entry_index e) "" eq_refl) as E1.
  pose proof (atoi_print_int (entry_term e) "" eq_refl) as E2.
  rewrite str_app_nil_r in E1, E2. rewrite E1, E2. by destruct e as [? ? ? []].
Qed.

Lemma log_line_fits e :
  loggable e → lacks newline (log_line e) = true ∧ (S (String.length (log_line e)) < 512)%nat.
Proof.
  intros [Hi Ht (_ & Hl1 & Hl2) (_ & Ho1 & Ho2) (_ & Hk1 & Hk2) (Hv1 & Hv2)].
  apply print_int_length in Hi, Ht. unfold log_line.
  unfold RAFT_MAX_ID, RAFT_MAX_OP, RAFT_MAX_KEY, RAFT_MAX_VALUE in *. split.
  - repeat (rewrite ?lacks_app, ?lacks_cons). rewrite !print_int_no_newline, Hl1, Ho1, Hk1, Hv1. done.
  - repeat (rewrite ?str_app_length; cbn [String.length]). lia.
Qed.

(** The lines of the file are read back as the entries, up to the capacity. *)
Lemma read_log_write es acc snap :
  Forall loggable es → Forall (λ e, snap < entry_index e)%Z es →
  (length (acc ++ es) ≤ RAFT_MAX_LOG)%nat →
  read_log snap
    (fgets_lines 512 (foldr (λ e acc, log_line e +:+ String newline acc) "" es)) acc = acc ++ es.
Proof.
  intros Hf. revert acc; induction Hf as [|e es He _ IH]; intros acc Hs Hl; cbn [foldr].
  { by rewrite app_nil_r. }
  apply Forall_cons in Hs as [Hse Hs]. rewrite length_app in Hl. simpl in Hl.
  destruct (log_line_fits e He). rewrite fgets_lines_cons by done. cbn [read_log].
  rewrite (proj2 (Nat.ltb_lt _ _)) by lia. rewrite read_log_line_print by done.
  rewrite (proj2 (Z.leb_gt _ _)) by done.
  rewrite IH; [by rewrite <- app_assoc|done|]. rewrite !length_app. simpl. lia.
Qed.

(** ** Whole nodes *)

(** What the text files can carry. *)
Record storable {U} (node : raft_node_t U) : Prop := {
  storable_term : in_int (current_term node);
  storable_threshold : in_int (compaction_threshold node);
  storable_commit : in_int (commit_index node);
  storable_snap_index : in_int (snapshot_last_included_index node);
  storable_snap_term : in_int (snapshot_last_included_term node);
  storable_config_index : in_int (config_index (config_state node));
  storable_voted : voted_for node = "" ∨ valid_id (voted_for node) = true;
  storable_old : Forall (λ m, valid_id m = true) (old_members (config_state node)) ∧
                 (length (old_members (config_state node)) ≤ RAFT_MAX_NODES)%nat;
  storable_new : Forall (λ m, valid_id m = true) (new_members (config_state node)) ∧
                 (length (new_members (config_state node)) ≤ RAFT_MAX_NODES)%nat;
  storable_log : Forall loggable (take (log_count node) (log node));
}.

(** The fields of [meta.txt], as a reader's record. *)
Definition meta_of {U} (node : raft_node_t U) : meta_t :=
  mkMeta (current_term node) (voted_for node) (compaction_threshold node) (commit_index node)
    (snapshot_last_included_index node) (snapshot_last_included_term node)
    (config_index (config_state node))
    (length (old_members (config_state node))) (slots (old_members (config_state node)))
    (length (new_members (config_state node))) (slots (new_members (config_state node))).

(** One line of [meta.txt], for the lines that hold an integer. *)
Lemma read_int_line m k z rest (upd : meta_t → Z → meta_t) :
  lacks newline k = true → (String.length k < 400)%nat → in_int z →
  (∀ text, read_meta_field meta_fields m (meta_line k text) =
           upd m (atoi (text +:+ String newline ""))) →
  read_meta_lines m (meta_line k (print_int z) +:+ rest) = read_meta_lines (upd m z) rest.
Proof.
  intros Hk Hl Hz%print_int_length Hupd.
  rewrite read_meta_cons; [|done|apply print_int_no_newline|lia]. by rewrite Hupd, atoi_line.
Qed.

Lemma read_voted_meta m v rest :
  v = "" ∨ valid_id v = true →
  read_meta_lines m (meta_line "voted_for" (if streq v "" then "-" else v) +:+ rest) =
    read_meta_lines (m <| meta_voted := v |>) rest.
Proof.
  intros Hv. rewrite read_meta_cons; [|done|..].
  - change (read_meta_field meta_fields m (meta_line "voted_for" (if streq v "" then "-" else v)))
      with (m <| meta_voted := read_voted (meta_voted m)
                   ((if streq v "" then "-" else v) +:+ String newline "") |>).
    by rewrite read_voted_line.
  - destruct Hv as [->|Hv]; [done|]. apply valid_id_word in Hv as (Hw & _ & _).
    case_match; [done|by apply word_no_newline].
  - destruct Hv as [->|Hv]; [simpl; lia|]. apply valid_id_word in Hv as (_ & Hl & _).
    case_match; simpl; lia.
Qed.

Lemma count_in_int (ms : list string) :
  (length ms ≤ RAFT_MAX_NODES)%nat → in_int (Z.of_nat (length ms)).
Proof. unfold in_int, INT_MAX, RAFT_MAX_NODES. lia. Qed.

Lemma read_count_meta m k (ms : list string) rest (upd : meta_t → nat → meta_t) :
  lacks newline k = true → (String.length k < 400)%nat → (length ms ≤ RAFT_MAX_NODES)%nat →
  (∀ text, read_meta_field meta_fields m (meta_line k text) =
           upd m (read_count (text +:+ String newline ""))) →
  read_meta_lines m (meta_line k (print_int (Z.of_nat (length ms))) +:+ rest) =
    read_meta_lines (upd m (length ms)) rest.
Proof.
  intros Hk Hl Hms Hupd. pose proof (print_int_length _ (count_in_int ms Hms)).
  rewrite read_meta_cons; [|done|apply print_int_no_newline|lia].
  by rewrite Hupd, read_count_length.
Qed.

Lemma read_write_meta {U} (node : raft_node_t U) :
  storable node → read_meta (write_meta node) = meta_of node.
Proof.
  intros [H1 H2 H3 H4 H5 H6 Hv [Ho Hol] [Hn Hnl] _].
  change (read_meta (write_meta node)) with (read_meta_lines zero_meta (write_meta node)).
  unfold write_meta.
  rewrite (read_int_line _ _ _ _ (λ m z, m <| meta_term := z |>)) by (done || simpl; lia).
  rewrite read_voted_meta by done.
  rewrite (read_int_line _ _ _ _ (λ m z, m <| meta_threshold := z |>)) by (done || simpl; lia).
  rewrite (read_int_line _ _ _ _ (λ m z, m <| meta_commit := z |>)) by (done || simpl; lia).
  rewrite (read_int_line _ _ _ _ (λ m z, m <| meta_snap_index := z |>)) by (done || simpl; lia).
  rewrite (read_int_line _ _ _ _ (λ m z, m <| meta_snap_term := z |>)) by (done || simpl; lia).
  rewrite (read_int_line _ _ _ _ (λ m z, m <| meta_config_index := z |>)) by (done || simpl; lia).
  rewrite (read_count_meta _ _ _ _ (λ m n, m <| meta_old_count := n |>)) by (done || simpl; lia).
  rewrite (read_old_members _ []) by (done || simpl; lia).
  rewrite (read_count_meta _ _ _ _ (λ m n, m <| meta_new_count := n |>)) by (done || simpl; lia).
  rewrite <- (str_app_nil_r (member_lines _ _)).
  rewrite (read_new_members _ []) by (done || simpl; lia). done.
Qed.

Lemma load_fields {U} d (node : raft_node_t U) :
  let m := loaded_meta d (storage node) in
  let es := loaded_log d (storage node) in
  let node' := raft_storage_node_load d node in
  current_term node' = meta_term m ∧ voted_for node' = meta_voted m ∧
  compaction_threshold node' = meta_threshold m ∧
  commit_index node' = Z.min (meta_commit m) (meta_snap_index m + Z.of_nat (length es)) ∧
  snapshot_last_included_index node' = meta_snap_index m ∧
  snapshot_last_included_term node' = meta_snap_term m ∧
  config_state node' = mkClusterConfig (take (meta_old_count m) (meta_old m))
                         (take (meta_new_count m) (meta_new m)) (meta_config_index m) ∧
  log node' = es ++ replicate (RAFT_MAX_LOG - length es) zero_entry ∧
  log_count node' = length es ∧ config node' = config node ∧
  persist_dirty node' = persist_dirty node ∧ outbox node' = outbox node ∧
  storage_node_id (storage node') = storage_node_id (storage node) ∧
  root_dir (storage node') = root_dir (storage node) ∧
  machine_state node' = machine_state node.
Proof.
  intros m es node'. subst node'. unfold raft_storage_node_load. fold m es.
  generalize m es (loaded_snapshot d (storage node)). clear m es. intros m es snap.
  assert (∀ a b : Z, (if (a <? b)%Z then a else b) = Z.min b a) as Hmin
    by (intros; case_match; bools; lia).
  unfold node_fill, app_restore_snapshot, app_reload. rewrite Hmin.
  repeat case_match; split_and!; reflexivity.
Qed.

Lemma read_member_length count sl text : length (read_member count sl text) = length sl.
Proof. unfold read_member. repeat case_match; by rewrite ?length_insert. Qed.

Lemma loaded_slots d s :
  length (meta_old (loaded_meta d s)) = RAFT_MAX_NODES ∧
  length (meta_new (loaded_meta d s)) = RAFT_MAX_NODES.
Proof.
  unfold loaded_meta. case_match; [|done]. unfold read_meta.
  generalize (fgets_lines 512 s0). intros lines.
  assert (∀ m line, length (meta_old m) = RAFT_MAX_NODES ∧ length (meta_new m) = RAFT_MAX_NODES →
    length (meta_old (read_meta_field meta_fields m line)) = RAFT_MAX_NODES ∧
    length (meta_new (read_meta_field meta_fields m line)) = RAFT_MAX_NODES) as Hstep.
  { intros m line Hm. unfold meta_fields. cbn [read_meta_field].
    repeat case_match; rsimpl; rewrite ?read_member_length; done. }
  assert (length (meta_old zero_meta) = RAFT_MAX_NODES ∧
          length (meta_new zero_meta) = RAFT_MAX_NODES) as H0 by done.
  revert H0. generalize zero_meta. induction lines as [|l lines IH]; intros m Hm; [done|].
  cbn [fold_left]. by apply IH, Hstep.
Qed.

Lemma read_log_length snap lines acc :
  (length acc ≤ RAFT_MAX_LOG)%nat → (length (read_log snap lines acc) ≤ RAFT_MAX_LOG)%nat.
Proof.
  revert acc; induction lines as [|l lines IH]; intros acc H; cbn [read_log]; [done|].
  repeat case_match; bools; try apply IH; try done. rewrite length_app. simpl. lia.
Qed.

Lemma loaded_log_length d s : (length (loaded_log d s) ≤ RAFT_MAX_LOG)%nat.
Proof. unfold loaded_log. case_match; [apply read_log_length|]; simpl; lia. Qed.

Lemma saved_meta {U} (node : raft_node_t U) d s :
  storable node → d !! storage_meta_path s = Some (write_meta node) →
  loaded_meta d s = meta_of node.
Proof. intros Hs H. unfold loaded_meta. rewrite H. by apply read_write_meta. Qed.

Lemma saved_log {U} (node : raft_node_t U) d s :
  storable node → log_core node → d !! storage_meta_path s = Some (write_meta node) →
  d !! storage_log_path s = Some (write_log node) →
  loaded_log d s = take (log_count node) (log node).
Proof.
  intros Hs Hc Hm Hl. unfold loaded_log. rewrite (saved_meta node), Hl by done.
  unfold write_log. rewrite read_log_write; [done|apply Hs|..].
  - apply Forall_lookup. intros i e He. apply lookup_take_Some in He as [He Hi].
    apply (log_core_index _ Hc) in He; simpl; lia.
  - simpl. rewrite length_take. pose proof (log_core_count _ Hc). lia.
Qed.

Lemma save_files {U} (node : raft_node_t U) d :
  run_disk (raft_storage_node_save node) d !! storage_meta_path (storage node) =
    Some (write_meta node) ∧
  run_disk (raft_storage_node_save node) d !! storage_log_path (storage node) =
    Some (write_log node).
Proof.
  unfold raft_storage_node_save. rewrite run_disk_app, !run_replace. split.
  - rewrite lookup_insert_ne, lookup_delete_ne by distinct_paths. by rewrite lookup_insert_eq.
  - by rewrite lookup_insert_eq.
Qed.

Lemma take_slots (ms : list string) : take (length ms) (slots ms) = ms.
Proof. unfold slots. rewrite take_app_length. done. Qed.



(** The disk after a crash [k] operations into a save, as far as [meta.txt] is
    concerned: the old file before the first rename, the new one after it. *)
Lemma crash_meta {U} (node : raft_node_t U) d k :
  run_disk (take k (raft_storage_node_save node)) d !! storage_meta_path (storage node) =
    if bool_decide (3 ≤ k)%nat then Some (write_meta node) else d !! storage_meta_path (storage node).
Proof.
  unfold raft_storage_node_save. rewrite take_app, run_disk_app.
  change (length (atomic_replace_path _ _)) with 3%nat.
  rewrite replace_prefix by distinct_paths.
  rewrite bool_decide_false by (intros [H _]; revert H; distinct_paths).
  rewrite replace_prefix by distinct_paths.
  by rewrite (bool_decide_ext _ (3 ≤ k)%nat) by naive_solver.
Qed.

Lemma crash_log {U} (node : raft_node_t U) d k :
  run_disk (take k (raft_storage_node_save node)) d !! storage_log_path (storage node) =
    if bool_decide (6 ≤ k)%nat then Some (write_log node) else d !! storage_log_path (storage node).
Proof.
  unfold raft_storage_node_save. rewrite take_app, run_disk_app.
  change (length (atomic_replace_path _ _)) with 3%nat.
  rewrite replace_prefix by distinct_paths.
  rewrite (bool_decide_ext _ (6 ≤ k)%nat) by (split; [intros [_ ?]; lia|intros ?; split; [done|lia]]).
  case_match; [done|]. rewrite replace_prefix by distinct_paths.
  by rewrite bool_decide_false by (intros [H0 _]; revert H0; distinct_paths).
Qed.

Lemma crash_frame {U} (node : raft_node_t U) d k p :
  p ≠ storage_meta_path (storage node) → p ≠ storage_log_path (storage node) →
  p ≠ tmp_of (storage_meta_path (storage node)) → p ≠ tmp_of (storage_log_path (storage node)) →
  run_disk (take k (raft_storage_node_save node)) d !! p = d !! p.
Proof.
  intros H1 H2 H3 H4. unfold raft_storage_node_save. rewrite take_app, run_disk_app.
  rewrite replace_prefix, bool_decide_false by naive_solver.
  by rewrite replace_prefix, bool_decide_false by naive_solver.
Qed.

(** C11: a save is crash-atomic for the term and the vote.  If the process stops
    after any number of its disk operations, a load finds either the term and
    the vote stored before or the ones being saved, the latter from the rename of
    [meta.txt] on; the snapshot is untouched; and the loaded commit index never
    points past the loaded log, also when the new [meta.txt] meets the old log. *)
Theorem save_crash_atomic {U} d (node node0 : raft_node_t U) k :
  storable node → storage node0 = storage node →
  let old := raft_storage_node_load d node0 in
  let node' := raft_storage_node_load (run_disk (take k (raft_storage_node_save node)) d) node0 in
  (if bool_decide (3 ≤ k)%nat
   then current_term node' = current_term node ∧ voted_for node' = voted_for node ∧
        config_state node' = config_state node
   else current_term node' = current_term old ∧ voted_for node' = voted_for old ∧
        config_state node' = config_state old ∧ log node' = log old) ∧
  run_disk (take k (raft_storage_node_save node)) d !! storage_snapshot_path (storage node) =
    d !! storage_snapshot_path (storage node) ∧
  (commit_index node' ≤ node_last_log_index node')%Z.
Proof.
  intros Hs Est old node'.
  pose proof (load_fields d node0) as Hold. fold old in Hold.
  pose proof (load_fields (run_disk (take k (raft_storage_node_save node)) d) node0) as Hnew.
  fold node' in Hnew. cbv zeta in Hold, Hnew. rewrite Est in Hold, Hnew.
  destruct Hold as (Ot & Ov & _ & _ & _ & _ & Oc & Ol & _).
  destruct Hnew as (Nt & Nv & _ & Ni & Ns & _ & Nc & Nl & Nlc & _).
  split_and!.
  - pose proof (crash_meta node d k) as Hm. pose proof (crash_log node d k) as Hl.
    destruct (decide (3 ≤ k)%nat) as [Hk|Hk];
      [rewrite bool_decide_true in Hm |- * by done|rewrite bool_decide_false in Hm |- * by done].
    + rewrite (saved_meta node) in Nt, Nv, Nc by done. simpl in Nt, Nv, Nc.
      rewrite !take_slots in Nc. rewrite Nt, Nv, Nc. by destruct (config_state node).
    + rewrite bool_decide_false in Hl by lia.
      assert (loaded_meta (run_disk (take k (raft_storage_node_save node)) d) (storage node) =
              loaded_meta d (storage node)) as Em by (unfold loaded_meta; by rewrite Hm).
      assert (loaded_log (run_disk (take k (raft_storage_node_save node)) d) (storage node) =
              loaded_log d (storage node)) as El by (unfold loaded_log; by rewrite Em, Hl).
      rewrite Em in Nt, Nv, Nc. rewrite El in Nl. split_and!; congruence.
  - apply crash_frame; distinct_paths.
  - unfold node_last_log_index. rewrite Ni, Ns, Nlc. lia.
Qed.

(** ** Witnesses *)

Definition storableb {U} (node : raft_node_t U) : bool :=
  let int z := (- INT_MAX - 1 <=? z)%Z && (z <=? INT_MAX)%Z in
  let text n c s := (c : bool) && lacks newline s && (String.length s <? n)%nat in
  int (current_term node) && int (compaction_threshold node) && int (commit_index node)
  && int (snapshot_last_included_index node) && int (snapshot_last_included_term node)
  && int (config_index (config_state node))
  && (streq (voted_for node) "" || valid_id (voted_for node))
  && (forallb valid_id (old_members (config_state node))
      && (length (old_members (config_state node)) <=? RAFT_MAX_NODES)%nat)
  && (forallb valid_id (new_members (config_state node))
      && (length (new_members (config_state node)) <=? RAFT_MAX_NODES)%nat)
  && forallb (λ e, int (entry_index e) && int (entry_term e)
       && text RAFT_MAX_ID (lacks bar (entry_leader_id e)) (entry_leader_id e)
       && text RAFT_MAX_OP (lacks bar (op (entry_command e))) (op (entry_command e))
       && text RAFT_MAX_KEY (lacks bar (key (entry_command e))) (key (entry_command e))
       && text RAFT_MAX_VALUE true (value (entry_command e)))
     (take (log_count node) (log node)).

Lemma storableb_sound {U} (node : raft_node_t U) : storableb node = true → storable node.
Proof.
  unfold storableb. cbv zeta. intros H. bools.
  repeat match goal with H : forallb _ _ = true |- _ => apply forallb_Forall in H end.
  split; unfold in_int; try done.
  - match goal with H : _ || _ = true |- _ => apply orb_true_iff in H as [?%streq_true|?]; auto end.
  - eapply Forall_impl; [done|]. intros e He. cbv beta in He. bools. split; unfold in_int; split_and!; done.
Qed.

(** A node that voted for [c] in term 2 and has to save it. *)
Definition voter_b : raft_node_t nat :=
  follower_b <| current_term := 2%Z |> <| voted_for := "c" |>.

Lemma voter_b_storable : storable voter_b.
Proof. apply storableb_sound. vm_compute. reflexivity. Qed.


Lemma save_crash_atomic_witness :
  current_term (raft_storage_node_load
    (run_disk (take 4 (raft_storage_node_save voter_b)) ∅) follower_b) = 2%Z.
Proof.
  exact (proj1 (proj1 (save_crash_atomic ∅ voter_b follower_b 4 voter_b_storable eq_refl))).
Defined.
