(* ===== verification/MemTransport.v ===== *)
(** The in-memory transport, [c/src/raft_transport.c]: a message queue and a
    client-command queue per registered node, all of bounded capacity, and the
    operation table the nodes use it through. *)
From S2P Require Import Prelude CString Types.

Record raft_memory_transport_t : Type := mkMemTransport {
  node_ids : list string;
  queues : list (list raft_message_t);
  client_queues : list (list raft_command_t);
}.

#[export] Instance raft_memory_transport_eta : Eta raft_memory_transport_t := λ t,
  mkMemTransport (node_ids t) (queues t) (client_queues t).

Implicit Types t : raft_memory_transport_t.

(** [-1] is [None]. *)
Fixpoint find_node_from (i : nat) (ids : list string) (id : string) : option nat :=
  match ids with
  | [] => None
  | x :: ids => if streq x id then Some i else find_node_from (S i) ids id
  end.
Definition transport_find_node t (id : string) : option nat := find_node_from 0 (node_ids t) id.

Definition raft_memory_transport_init : raft_memory_transport_t :=
  mkMemTransport [] (replicate RAFT_MAX_NODES []) (replicate RAFT_MAX_NODES []).

Definition raft_memory_transport_register_node t (id : string) : raft_memory_transport_t * Z :=
  if (RAFT_MAX_NODES <=? length (node_ids t))%nat then (t, -1)%Z
  else (t <| node_ids := node_ids t ++ [strncpy RAFT_MAX_ID id] |>, 0%Z).

(** The queue of slot [i]; the arrays have all their slots. *)
Definition slot {A : Type} (qs : list (list A)) (i : nat) : list A := default [] (qs !! i).

Definition raft_memory_transport_send t (message : raft_message_t) : raft_memory_transport_t * Z :=
  match transport_find_node t (target message) with
  | None => (t, -1)%Z
  | Some i =>
      if (RAFT_MAX_QUEUE <=? length (slot (queues t) i))%nat then (t, -1)%Z
      else (t <| queues := <[i := slot (queues t) i ++ [message]]> (queues t) |>, 0%Z)
  end.

Definition raft_memory_transport_recv_for t (id : string) (capacity : nat)
    : raft_memory_transport_t * list raft_message_t :=
  match transport_find_node t id with
  | None => (t, [])
  | Some i => (t <| queues := <[i := []]> (queues t) |>, take capacity (slot (queues t) i))
  end.

Definition raft_memory_transport_submit_client_command t (id : string) (command : raft_command_t)
    : raft_memory_transport_t * Z :=
  match transport_find_node t id with
  | None => (t, -1)%Z
  | Some i =>
      if (RAFT_MAX_QUEUE <=? length (slot (client_queues t) i))%nat then (t, -1)%Z
      else (t <| client_queues := <[i := slot (client_queues t) i ++ [command]]> (client_queues t) |>,
            0%Z)
  end.

Definition raft_memory_transport_recv_client_commands t (id : string) (capacity : nat)
    : raft_memory_transport_t * list raft_command_t :=
  match transport_find_node t id with
  | None => (t, [])
  | Some i =>
      (t <| client_queues := <[i := []]> (client_queues t) |>, take capacity (slot (client_queues t) i))
  end.

(** [raft_mem_transport_make]: the operations of node [id] on the shared
    transport; there is no [set_enabled]. *)
Definition raft_mem_transport_make (id : string) : raft_transport_t raft_memory_transport_t :=
  mkTransport raft_memory_transport_send
    (λ t capacity, raft_memory_transport_recv_for t id capacity)
    (λ t command, raft_memory_transport_submit_client_command t id command)
    (λ t capacity, raft_memory_transport_recv_client_commands t id capacity)
    None.

(** ** Interface

    What a node may expect of its transport: the messages in flight to it, and
    that the operations move messages and never make them up. *)
Class TransportLaws {T : Type} (tr : raft_transport_t T) (inflight : T → raft_message_t → Prop) := {
  send_inflight c m m' : inflight (send tr c m).1 m' → inflight c m' ∨ m' = m;
  recv_inflight c n m : m ∈ (recv tr c n).2 → inflight c m;
  recv_keeps c n m : inflight (recv tr c n).1 m → inflight c m;
  recv_capacity c n : (length (recv tr c n).2 ≤ n)%nat;
  submit_keeps c x m : inflight (submit_command tr c x).1 m → inflight c m;
  recv_commands_keeps c n m : inflight (recv_commands tr c n).1 m → inflight c m;
  recv_commands_capacity c n : (length (recv_commands tr c n).2 ≤ n)%nat;
}.

(** A message is in flight when it sits in some queue. *)
Definition queued t (m : raft_message_t) : Prop := ∃ q, q ∈ queues t ∧ m ∈ q.

Record transport_wf t : Prop := {
  transport_wf_ids : (length (node_ids t) ≤ RAFT_MAX_NODES)%nat;
  transport_wf_queues : length (queues t) = RAFT_MAX_NODES;
  transport_wf_clients : length (client_queues t) = RAFT_MAX_NODES;
  transport_wf_bound : Forall (λ q, length q ≤ RAFT_MAX_QUEUE)%nat (queues t);
  transport_wf_client_bound : Forall (λ q, length q ≤ RAFT_MAX_QUEUE)%nat (client_queues t);
}.

(** ** Lemmas *)

Lemma find_node_from_lt i ids id j :
  find_node_from i ids id = Some j → (i ≤ j < i + length ids)%nat ∧ ids !! (j - i)%nat = Some id.
Proof.
  revert i; induction ids as [|x ids IH]; intros i H; simpl in H; [done|].
  case_match; simplify_eq.
  - match goal with E : streq _ _ = true |- _ => apply streq_true in E as -> end.
    rewrite Nat.sub_diag. simpl. split; [lia|done].
  - apply IH in H as [H1 H2]. simpl. split; [lia|].
    replace (j - i)%nat with (S (j - S i))%nat by lia. done.
Qed.

Lemma transport_find_node_lt t id i :
  transport_wf t → transport_find_node t id = Some i → (i < RAFT_MAX_NODES)%nat.
Proof. intros Hw [H _]%find_node_from_lt. pose proof (transport_wf_ids _ Hw). lia. Qed.

Lemma transport_find_node_inj t id1 id2 i :
  transport_find_node t id1 = Some i → transport_find_node t id2 = Some i → id1 = id2.
Proof.
  intros [_ H1]%find_node_from_lt [_ H2]%find_node_from_lt. rewrite H1 in H2. by simplify_eq.
Qed.

Lemma take_elem {A} n (l : list A) x : x ∈ take n l → x ∈ l.
Proof. intros H. rewrite <- (take_drop n l). apply elem_of_app. by left. Qed.

Lemma slot_elem {A} (qs : list (list A)) i x : x ∈ slot qs i → ∃ q, q ∈ qs ∧ x ∈ q.
Proof.
  unfold slot. destruct (qs !! i) as [q|] eqn:E; simpl; [|by intros ?%elem_of_nil].
  intros Hx. exists q. split; [by eapply list_elem_of_lookup_2|done].
Qed.

Lemma elem_insert_queue {A} (qs : list (list A)) i q' q :
  q ∈ <[i := q']> qs → q = q' ∨ q ∈ qs.
Proof.
  intros [k Hk]%list_elem_of_lookup_1. destruct (decide (k = i)) as [->|Hne].
  - destruct (decide (i < length qs)%nat).
    + rewrite list_lookup_insert_eq in Hk by done. simplify_eq. by left.
    + rewrite list_insert_ge in Hk by lia. right. by eapply list_elem_of_lookup_2.
  - rewrite list_lookup_insert_ne in Hk by done. right. by eapply list_elem_of_lookup_2.
Qed.

Lemma slot_insert_eq {A} (qs : list (list A)) i q : (i < length qs)%nat → slot (<[i := q]> qs) i = q.
Proof. intros H. unfold slot. by rewrite list_lookup_insert_eq. Qed.

Lemma slot_insert_ne {A} (qs : list (list A)) i j q : i ≠ j → slot (<[i := q]> qs) j = slot qs j.
Proof. intros H. unfold slot. by rewrite list_lookup_insert_ne. Qed.

(** The memory transport keeps the interface, for every node. *)
#[export] Instance mem_transport_laws id : TransportLaws (raft_mem_transport_make id) queued.
Proof.
  split; simpl.
  - intros t m m' (q & Hq & Hm). unfold raft_memory_transport_send in Hq.
    repeat case_match; simpl in *; [left; by exists q| |left; by exists q].
    apply elem_insert_queue in Hq as [->|Hq]; [|left; by exists q].
    apply elem_of_app in Hm as [Hm|Hm%list_elem_of_singleton]; [|by right].
    left. by apply slot_elem in Hm.
  - intros t n m. unfold raft_memory_transport_recv_for. case_match; simpl; [|by intros ?%elem_of_nil].
    intros Hm%take_elem. by apply slot_elem in Hm.
  - intros t n m (q & Hq & Hm). unfold raft_memory_transport_recv_for in Hq.
    case_match; simpl in *; [|by exists q].
    apply elem_insert_queue in Hq as [->|Hq]; [by apply elem_of_nil in Hm|by exists q].
  - intros t n. unfold raft_memory_transport_recv_for. case_match; simpl; [|lia].
    rewrite length_take. lia.
  - intros t x m (q & Hq & Hm). unfold raft_memory_transport_submit_client_command in Hq.
    repeat case_match; by exists q.
  - intros t n m (q & Hq & Hm). unfold raft_memory_transport_recv_client_commands in Hq.
    repeat case_match; by exists q.
  - intros t n. unfold raft_memory_transport_recv_client_commands. case_match; simpl; [|lia].
    rewrite length_take. lia.
Qed.

(** The calls the nodes make on the shared transport. *)
Inductive transport_step : raft_memory_transport_t → raft_memory_transport_t → Prop :=
| step_register t id : transport_step t (raft_memory_transport_register_node t id).1
| step_send t m : transport_step t (raft_memory_transport_send t m).1
| step_recv t id n : transport_step t (raft_memory_transport_recv_for t id n).1
| step_submit t id c : transport_step t (raft_memory_transport_submit_client_command t id c).1
| step_recv_commands t id n :
    transport_step t (raft_memory_transport_recv_client_commands t id n).1.

Lemma slot_length {A} n (qs : list (list A)) i :
  Forall (λ q, length q ≤ n)%nat qs → (length (slot qs i) ≤ n)%nat.
Proof.
  intros Hf. unfold slot. destruct (qs !! i) eqn:E; simpl; [|lia].
  exact (Forall_lookup_1 _ _ _ _ Hf E).
Qed.

Lemma transport_step_wf t t' : transport_step t t' → transport_wf t → transport_wf t'.
Proof.
  intros Hs [H1 H2 H3 H4 H5]; destruct Hs;
    unfold raft_memory_transport_register_node, raft_memory_transport_send,
      raft_memory_transport_recv_for, raft_memory_transport_submit_client_command,
      raft_memory_transport_recv_client_commands; repeat case_match; simpl; bools;
    (split; rsimpl; rewrite ?length_insert; try done).
  - rewrite length_app. simpl. lia.
  - apply Forall_insert; [done|]. rewrite length_app. simpl. lia.
  - apply Forall_insert; [done|]. simpl. lia.
  - apply Forall_insert; [done|]. rewrite length_app. simpl. lia.
  - apply Forall_insert; [done|]. simpl. lia.
Qed.

Definition send_all t (ms : list raft_message_t) : raft_memory_transport_t :=
  fold_left (λ t m, (raft_memory_transport_send t m).1) ms t.

Lemma take_app_full {A} n (l k : list A) : (n ≤ length l)%nat → take n (l ++ k) = take n l.
Proof. intros H. apply take_app_le. lia. Qed.

Lemma send_slot t m id i :
  transport_wf t → transport_find_node t id = Some i →
  slot (queues (raft_memory_transport_send t m).1) i =
    take RAFT_MAX_QUEUE (slot (queues t) i ++ (if streq (target m) id then [m] else [])).
Proof.
  intros Hw Hi. pose proof (transport_find_node_lt _ _ _ Hw Hi) as Hlt.
  pose proof (slot_length _ _ i (transport_wf_bound _ Hw)) as Hb.
  unfold raft_memory_transport_send. destruct (streq (target m) id) eqn:E.
  - apply streq_true in E as ->. rewrite Hi. case_match; bools; simpl.
    + rewrite take_app_full by lia. by rewrite take_ge.
    + rsimpl. rewrite slot_insert_eq by (by rewrite transport_wf_queues).
      rewrite take_ge; [done|]. rewrite length_app. simpl. lia.
  - apply streq_false in E. rewrite app_nil_r, take_ge by done.
    destruct (transport_find_node t (target m)) as [j|] eqn:Ej; [|done].
    case_match; simpl; [done|]. rsimpl. apply slot_insert_ne. intros ->.
    by apply E, (transport_find_node_inj t _ _ i).
Qed.

Lemma send_find t m id :
  transport_find_node (raft_memory_transport_send t m).1 id = transport_find_node t id.
Proof. unfold raft_memory_transport_send. by repeat case_match. Qed.

Lemma send_all_slot t ms id i :
  transport_wf t → transport_find_node t id = Some i →
  slot (queues (send_all t ms)) i =
    take RAFT_MAX_QUEUE (slot (queues t) i ++ filter (λ m, target m = id) ms) ∧
  transport_find_node (send_all t ms) id = Some i ∧ transport_wf (send_all t ms).
Proof.
  revert t; induction ms as [|m ms IH]; intros t Hw Hi.
  { split_and!; [|done|done]. rewrite filter_nil, app_nil_r.
    symmetry. apply take_ge. apply (slot_length _ _ i (transport_wf_bound _ Hw)). }
  cbn [send_all fold_left]. fold (send_all (raft_memory_transport_send t m).1 ms).
  destruct (IH (raft_memory_transport_send t m).1) as (-> & ? & ?).
  { eapply transport_step_wf; [apply step_send|done]. }
  { by rewrite send_find. }
  split_and!; [|done|done]. rewrite (send_slot _ _ id) by done. rewrite filter_cons.
  set (q := slot (queues t) i).
  assert (∀ l k : list raft_message_t, take RAFT_MAX_QUEUE (take RAFT_MAX_QUEUE l ++ k) =
                 take RAFT_MAX_QUEUE (l ++ k)) as Htake.
  { intros l k. destruct (decide (length l ≤ RAFT_MAX_QUEUE)%nat).
    - by rewrite (take_ge l).
    - rewrite !take_app_full by (rewrite ?length_take; lia). by rewrite take_take, Nat.min_id. }
  rewrite Htake, <- app_assoc. f_equal. f_equal.
  unfold streq. repeat case_bool_decide; repeat case_decide; done.
Qed.

(** C25: the memory transport delivers in order and loses messages only to a full
    queue.  After any sequence of sends to any targets, a registered node
    receives the messages that were already queued for it and then those sent
    to it, in the order they were sent, cut at the queue's capacity; and a
    second call receives nothing. *)
Theorem mem_transport_fifo t ms id i :
  transport_wf t → transport_find_node t id = Some i →
  let '(t', received) := raft_memory_transport_recv_for (send_all t ms) id RAFT_MAX_QUEUE in
  received = take RAFT_MAX_QUEUE (slot (queues t) i ++ filter (λ m, target m = id) ms) ∧
  (raft_memory_transport_recv_for t' id RAFT_MAX_QUEUE).2 = [] ∧
  (∀ id' j, transport_find_node t id' = Some j → id' ≠ id →
     slot (queues t') j = take RAFT_MAX_QUEUE (slot (queues t) j ++ filter (λ m, target m = id') ms)).
Proof.
  intros Hw Hi. destruct (send_all_slot t ms id i Hw Hi) as (Hs & Hf & Hw').
  unfold raft_memory_transport_recv_for at 1. rewrite Hf. split_and!.
  - rewrite Hs, take_take, Nat.min_id. done.
  - unfold raft_memory_transport_recv_for.
    match goal with |- context [transport_find_node ?u id] =>
      change (transport_find_node u id) with (transport_find_node (send_all t ms) id) end.
    rewrite Hf. rsimpl. rewrite slot_insert_eq; [done|].
    rewrite transport_wf_queues by done. by eapply transport_find_node_lt.
  - intros id' j Hj Hne. rsimpl. rewrite slot_insert_ne.
    + by destruct (send_all_slot t ms id' j Hw Hj) as (-> & _ & _).
    + intros ->. by apply Hne, (transport_find_node_inj t _ _ j).
Qed.

(** No sequence of calls on the transport ever makes a queue longer than its
    array, registers more nodes than there are slots or changes the number of
    queues. *)
Lemma mem_transport_bounds t :
  rtc transport_step raft_memory_transport_init t → transport_wf t.
Proof.
  intros H. remember raft_memory_transport_init as t0 eqn:E.
  assert (transport_wf t0) as H0.
  { subst. split; simpl; try done; [lia|..]; repeat constructor; simpl; lia. }
  clear E. induction H as [|t1 t2 t3 Hs _ IH]; [done|]. by eapply IH, transport_step_wf.
Qed.

Definition sample_transport : raft_memory_transport_t :=
  (raft_memory_transport_register_node
     (raft_memory_transport_register_node raft_memory_transport_init "a").1 "b").1.

Lemma mem_transport_bounds_witness : transport_wf sample_transport.
Proof.
  apply mem_transport_bounds. eapply rtc_l; [apply (step_register _ "a")|].
  eapply rtc_l; [apply (step_register _ "b")|]. apply rtc_refl.
Defined.

Lemma mem_transport_fifo_witness :
  let to_b := zero_message RAFT_MSG_REQUEST_VOTE <| target := "b" |> in
  let to_a := zero_message RAFT_MSG_REQUEST_VOTE <| target := "a" |> in
  (raft_memory_transport_recv_for
     (send_all sample_transport [to_b; to_a; to_b]) "b" RAFT_MAX_QUEUE).2 = [to_b; to_b].
Proof.
  intros to_b to_a.
  refine (proj1 (mem_transport_fifo sample_transport [to_b; to_a; to_b] "b" 1 _ _)).
  - split; simpl; try lia; repeat constructor; simpl; lia.
  - reflexivity.
Defined.
