(* ===== verification/Membership.v ===== *)
(** Committed entries and the configuration changes they carry, log compaction,
    and the leader's membership driver, [c/src/raft.c]. *)
From S2P Require Import Prelude CString Types Config NodeLog Replication Handlers Storage.

Section Membership.
  Context {U : Type}.
  Implicit Types node : raft_node_t U.

(** A new entry of this leader at the end of the log. *)
Definition new_entry node (command : raft_command_t) : raft_log_entry_t :=
  mkEntry (node_last_log_index node + 1) (current_term node)
    (strncpy RAFT_MAX_ID (node_id (config node))) command.

(** Append an entry, mark the node dirty and replicate. *)
Definition node_append_entry node (command : raft_command_t) : option (raft_node_t U) :=
  node' ← node_log_push node (new_entry node command);
  node_broadcast_append_entries (node' <| persist_dirty := true |>).

(** The new node and the index of the entry, or [-1]. *)
Definition node_append_internal_command node (o k v : string) : option (raft_node_t U * Z) :=
  if negb (node_is_leader node) || (RAFT_MAX_LOG <=? log_count node)%nat then Some (node, -1)%Z
  else
    node' ← node_append_entry node
      (mkCommand (strncpy RAFT_MAX_OP o) (strncpy RAFT_MAX_KEY k) (strncpy RAFT_MAX_VALUE v));
    Some (node', node_last_log_index node + 1)%Z.

Definition apply_set_maxlog node (command : raft_command_t) : raft_node_t U :=
  let threshold := atoi (value command) in
  if (0 <? threshold)%Z
  then node <| compaction_threshold := threshold |> <| persist_dirty := true |>
  else node.

Definition apply_enter_joint node (command : raft_command_t) : raft_node_t U :=
  let new := decode_member_list (value command) RAFT_MAX_NODES in
  if (last_applied node <=? config_index (config_state node))%Z then node
  else if (0 <? length new)%nat then
    let node :=
      node <| config_state := configuration_set_joint (old_members (config_state node)) new
                                (last_applied node) |>
           <| membership_state := RAFT_MEMBERSHIP_JOINT |>
           <| joint_config_index := last_applied node |>
           <| requested_membership := new |>
           <| requested_membership_pending := true |> in
    node_refresh_peers node <| persist_dirty := true |>
  else node.

(** The end of the leave_joint case: a participating node that is expelled stops. *)
Definition stop_if_expelled (was_member : bool) node : raft_node_t U :=
  if was_member && negb (node_self_is_member node)
  then node <| running := false |> <| leader_id := "" |> <| votes_received := [] |>
            <| machine_state := RAFT_ROLE_FOLLOWER |>
  else node.

Definition apply_leave_joint node (command : raft_command_t) : raft_node_t U :=
  let members := decode_member_list (value command) RAFT_MAX_NODES in
  if (last_applied node <=? config_index (config_state node))%Z then node
  else if (0 <? length members)%nat then
    let was_member := node_self_is_member node in
    let node :=
      node <| config_state := configuration_set_stable members (last_applied node) |>
           <| membership_state := RAFT_MEMBERSHIP_STABLE |>
           <| final_config_index := last_applied node |>
           <| joint_config_index := 0%Z |>
           <| requested_membership_pending := false |>
           <| requested_membership := [] |> in
    stop_if_expelled was_member (node_refresh_peers node <| persist_dirty := true |>)
  else node.

Definition node_apply_internal_command node (command : raft_command_t) : raft_node_t U :=
  if streq (op command) "cluster.set_maxlog" then apply_set_maxlog node command
  else if streq (op command) "cluster.enter_joint" then apply_enter_joint node command
  else if streq (op command) "cluster.leave_joint" then apply_leave_joint node command
  else node.

Definition node_apply_command node (command : raft_command_t) : raft_node_t U :=
  if streq (op command) "cluster.set_maxlog" || streq (op command) "cluster.enter_joint"
     || streq (op command) "cluster.leave_joint"
  then node_apply_internal_command node command
  else
    match apply (application node) with
    | Some f =>
        node <| application := application node
                 <| user := f (user (application node)) command |> |>
    | None => node
    end.

(** [while (last_applied < commit_index)]: [fuel] iterations at most. *)
Fixpoint apply_loop (fuel : nat) node : option (raft_node_t U) :=
  match fuel with
  | O => Some node
  | S fuel =>
      if (last_applied node <? commit_index node)%Z then
        let node := node <| last_applied := (last_applied node + 1)%Z |> in
        e ← node_log_at node (last_applied node);
        apply_loop fuel (node_apply_command node (entry_command e) <| persist_dirty := true |>)
      else Some node
  end.

Definition node_apply_committed node : option (raft_node_t U) :=
  apply_loop (Z.to_nat (commit_index node - last_applied node)) node.

(** *** Compaction *)

Fixpoint min_match (i count : nat) (matches : list Z) (min_idx : Z) : option Z :=
  match count with
  | O => Some min_idx
  | S count =>
      m ← matches !! i;
      min_match (S i) count matches (if (m <? min_idx)%Z then m else min_idx)
  end.

Definition node_compactible_index node : option Z :=
  if bool_decide (machine_state node = RAFT_ROLE_LEADER)
  then min_match 0 (length (peers (config node))) (match_index node) (last_applied node)
  else Some (last_applied node).

Definition node_should_compact node : option bool :=
  compactible ← node_compactible_index node;
  Some ((0 <? compaction_threshold node)%Z
        && (compaction_threshold node
            <=? compactible - snapshot_last_included_index node)%Z).

(** [memmove(log, log + k, n)]: the first [n] slots get the [n] entries from [k]
    on, the others keep their contents. *)
Definition memmove_down {A : Type} (l : list A) (k n : nat) : list A :=
  take n (drop k l) ++ drop n l.

Definition app_snapshot node : string :=
  match snapshot (application node) with
  | Some f => f (user (application node)) RAFT_MAX_SNAPSHOT_SIZE
  | None => ""
  end.

(** The node after the compaction and the disk operations it performs. *)
Definition node_do_compact node : option (raft_node_t U * list (disk_t → disk_t)) :=
  target_index ← node_compactible_index node;
  if (target_index <=? snapshot_last_included_index node)%Z then Some (node, [])
  else if (node_last_log_index node <? target_index)%Z then Some (node, [])
  else
    target_term ← node_term_at_index node target_index;
    let buf := app_snapshot node in
    let node := node <| storage := storage node <| snapshot_buf := buf |> |> in
    let ops := raft_storage_save_snapshot node target_index target_term in
    let keep_from := Z.to_nat (target_index - snapshot_last_included_index node) in
    let node :=
      if (log_count node <=? keep_from)%nat then node <| log_count := 0%nat |>
      else let n := (log_count node - keep_from)%nat in
           node <| log := memmove_down (log node) keep_from n |> <| log_count := n |> in
    Some (node <| snapshot_last_included_index := target_index |>
               <| snapshot_last_included_term := target_term |>
               <| persist_dirty := true |>, ops).

(** *** The membership driver *)

Definition node_maybe_drive_membership node : option (raft_node_t U) :=
  if negb (node_is_leader node) || negb (running node) then Some node
  else if bool_decide (membership_state node = RAFT_MEMBERSHIP_STABLE)
          && requested_membership_pending node
          && negb (configuration_is_joint (config_state node)) then
    '(node, i) ← node_append_internal_command node "cluster.enter_joint" "members"
                   (encode_member_list (requested_membership node) RAFT_MAX_VALUE);
    let node := node <| joint_config_index := i |> in
    Some (if (0 <? i)%Z then node <| membership_state := RAFT_MEMBERSHIP_JOINT_PENDING |> else node)
  else if bool_decide (membership_state node = RAFT_MEMBERSHIP_JOINT_PENDING)
          && configuration_is_joint (config_state node)
          && (config_index (config_state node) =? joint_config_index node)%Z then
    Some (node <| membership_state := RAFT_MEMBERSHIP_JOINT |>)
  else if bool_decide (membership_state node = RAFT_MEMBERSHIP_JOINT)
          && configuration_is_joint (config_state node)
          && node_joint_members_are_caught_up node then
    '(node, i) ← node_append_internal_command node "cluster.leave_joint" "members"
                   (encode_member_list (requested_membership node) RAFT_MAX_VALUE);
    let node := node <| final_config_index := i |> in
    Some (if (0 <? i)%Z then node <| membership_state := RAFT_MEMBERSHIP_FINALIZING |> else node)
  else if bool_decide (membership_state node = RAFT_MEMBERSHIP_FINALIZING)
          && negb (configuration_is_joint (config_state node))
          && (config_index (config_state node) =? final_config_index node)%Z then
    Some (node <| membership_state := RAFT_MEMBERSHIP_STABLE |>)
  else Some node.

(** The new node and the returned status. *)
Definition raft_node_request_membership_change node (members : list string) : raft_node_t U * Z :=
  if negb (node_is_leader node) then (node, -1)%Z
  else
    let node := node <| requested_membership := normalize_members members RAFT_MAX_NODES |> in
    if (length (requested_membership node) =? 0)%nat then (node, -1)%Z
    else (node <| requested_membership_pending := true |>, 0%Z).

End Membership.
