(* ===== verification/MembershipFacts.v ===== *)
(** Properties of the application of committed entries, of configuration changes
    and of log compaction. *)
From S2P Require Import Prelude CString Types Config NodeLog Samples Replication Handlers LogMerge HandlerFacts Storage Membership.

Section Facts.
  Context {U : Type}.
  Implicit Types node : raft_node_t U.

(** ** Applying committed entries *)

(** The fields a committed command may change. *)
Record apply_frame node node' : Prop := {
  af_log : log node' = log node;
  af_count : log_count node' = log_count node;
  af_snap : snapshot_last_included_index node' = snapshot_last_included_index node;
  af_commit : commit_index node' = commit_index node;
  af_applied : last_applied node' = last_applied node;
  af_term : current_term node' = current_term node;
  af_voted : voted_for node' = voted_for node;
  af_outbox : outbox node' = outbox node;
  af_id : node_id (config node') = node_id (config node);
  af_storage : storage node' = storage node;
  af_next : next_index node' = next_index node;
  af_match : match_index node' = match_index node;
}.

Lemma apply_command_frame node c : apply_frame node (node_apply_command node c).
Proof.
  unfold node_apply_command, node_apply_internal_command, apply_set_maxlog, apply_enter_joint,
    apply_leave_joint, stop_if_expelled. cbv zeta. repeat case_match; split; reflexivity.
Qed.

Lemma apply_command_peers node c :
  (length (peers (config node)) ≤ RAFT_MAX_PEERS)%nat →
  (length (peers (config (node_apply_command node c))) ≤ RAFT_MAX_PEERS)%nat.
Proof.
  unfold node_apply_command, node_apply_internal_command, apply_set_maxlog, apply_enter_joint,
    apply_leave_joint, stop_if_expelled. cbv zeta. intros H.
  repeat case_match; first
    [ exact H
    | match goal with |- context [node_refresh_peers ?n] =>
        pattern (node_refresh_peers n);
        match goal with |- ?P _ =>
          assert (∀ n1, (length (peers (config n1)) ≤ RAFT_MAX_PEERS)%nat → P n1) as Hp
            by (intros n1 Hn1; exact Hn1);
          exact (Hp _ (node_refresh_peers_length n)) end end ].
Qed.

Lemma apply_command_dirty node c :
  persist_dirty (node_apply_command node c) = false → persist_dirty node = false.
Proof.
  unfold node_apply_command, node_apply_internal_command, apply_set_maxlog, apply_enter_joint,
    apply_leave_joint, stop_if_expelled. cbv zeta. repeat case_match; intros H'; first [exact H'|discriminate H'].
Qed.

(** Whether the command is for the cluster rather than for the application. *)
Definition is_internal (c : raft_command_t) : bool :=
  streq (op c) "cluster.set_maxlog" || streq (op c) "cluster.enter_joint"
  || streq (op c) "cluster.leave_joint".

(** What the application sees of a command. *)
Definition app_step (app : raft_application_t U) (u : U) (c : raft_command_t) : U :=
  if is_internal c then u
  else match apply app with Some f => f u c | None => u end.

Lemma apply_command_app node c :
  apply (application (node_apply_command node c)) = apply (application node) ∧
  user (application (node_apply_command node c)) =
    app_step (application node) (user (application node)) c.
Proof.
  unfold app_step. fold (is_internal c). unfold node_apply_command. fold (is_internal c).
  destruct (is_internal c).
  - unfold node_apply_internal_command, apply_set_maxlog, apply_enter_joint, apply_leave_joint,
      stop_if_expelled. cbv zeta. repeat case_match; done.
  - case_match; done.
Qed.

(** The commands committed at the indices [i + 1, ..., i + n]. *)
Fixpoint commands_from node (i : Z) (n : nat) : list raft_command_t :=
  match n with
  | O => []
  | S n => match node_log_at node (i + 1) with
           | Some e => entry_command e :: commands_from node (i + 1) n
           | None => []
           end
  end.

Lemma commands_from_ext node node' i n :
  log node' = log node → snapshot_last_included_index node' = snapshot_last_included_index node →
  commands_from node' i n = commands_from node i n.
Proof.
  intros E1 E2. revert i; induction n as [|n IH]; intros i; [done|]. cbn [commands_from].
  rewrite (node_log_at_same node node') by done. case_match; [|done]. by rewrite IH.
Qed.

Lemma app_step_ext app app' u c : apply app' = apply app → app_step app' u c = app_step app u c.
Proof. unfold app_step. by intros ->. Qed.

Lemma fold_app_step_ext app app' cs u :
  apply app' = apply app → fold_left (app_step app') cs u = fold_left (app_step app) cs u.
Proof.
  intros E. revert u; induction cs as [|c cs IH]; intros u; [done|]. cbn [fold_left].
  by rewrite (app_step_ext app app'), IH.
Qed.

(** What the loop achieves. *)
Record applied node node' : Prop := {
  applied_to : last_applied node' = Z.max (last_applied node) (commit_index node);
  applied_user : user (application node') =
    fold_left (app_step (application node))
      (commands_from node (last_applied node) (Z.to_nat (commit_index node - last_applied node)))
      (user (application node));
  applied_wf : log_wf node';
  applied_repl : repl_wf node → repl_wf node';
  applied_quiet : quiet node node';
  applied_log : log node' = log node ∧ log_count node' = log_count node ∧
    snapshot_last_included_index node' = snapshot_last_included_index node ∧
    commit_index node' = commit_index node;
}.

Lemma apply_loop_applied n node :
  log_wf node → Z.to_nat (commit_index node - last_applied node) = n →
  ∃ node', apply_loop n node = Some node' ∧ applied node node'.
Proof.
  revert node; induction n as [|n IH]; intros node Hwf Hn; cbn [apply_loop].
  { exists node. split; [done|]. split; try done; [lia|]. by rewrite Hn. }
  rewrite (proj2 (Z.ltb_lt _ _)) by lia. cbv zeta.
  set (n1 := node <| last_applied := (last_applied node + 1)%Z |>).
  change (last_applied n1) with (last_applied node + 1)%Z.
  pose proof (log_wf_applied _ Hwf) as Ha. pose proof (log_wf_commit _ Hwf) as Hc.
  pose proof (log_core_count _ Hwf) as Hcount.
  destruct (node_log_at_defined node (last_applied node + 1) Hwf) as [e He];
    [lia|unfold node_last_log_index in *; lia|].
  change (node_log_at n1 (last_applied node + 1)) with (node_log_at node (last_applied node + 1)).
  rewrite He. bind_simpl.
  set (n2 := node_apply_command n1 (entry_command e) <| persist_dirty := true |>).
  pose proof (apply_command_frame n1 (entry_command e)) as [F1 F2 F3 F4 F5 F6 F7 F8 F9 F10 F11 F12].
  pose proof (apply_command_app n1 (entry_command e)) as [Happ Hu].
  assert (log_wf n2) as Hwf2.
  { split; [by apply (log_core_ext node); [..|apply Hwf]|..]; unfold node_last_log_index in *;
      unfold n2; rsimpl; rewrite ?F1, ?F2, ?F3, ?F4, ?F5; unfold n1; rsimpl; lia. }
  assert (quiet node n2) as Hq2 by (apply quiet_same'; unfold n2; rsimpl; rewrite ?F6, ?F7, ?F8, ?F9, ?F10; done).
  destruct (IH n2) as (node' & H' & [G1 G2 G3 G4 G5 (G6 & G7 & G8 & G9)]); [done|..].
  { unfold n2. rsimpl. rewrite F4, F5. unfold n1. rsimpl. lia. }
  exists node'. split; [exact H'|].
  assert (commit_index n2 = commit_index node ∧ last_applied n2 = last_applied node + 1)%Z
    as [Ec2 Ea2] by (unfold n2; rsimpl; rewrite F4, F5; done).
  split; [rewrite G1, Ec2, Ea2; lia| |done| |by etrans|].
  - rewrite G2, Ec2, Ea2, Hn. replace (Z.to_nat (commit_index node - (last_applied node + 1))) with n
      by lia. cbn [commands_from]. rewrite He. cbn [fold_left].
    rewrite (fold_app_step_ext (application node) (application n2)) by exact Happ.
    rewrite (commands_from_ext node n2) by (unfold n2; rsimpl; by rewrite ?F1, ?F3).
    f_equal. exact Hu.
  - intros [R1 R2 R3 R4]. apply G4. unfold n2. split; rsimpl.
    + by apply apply_command_peers.
    + by rewrite F11.
    + by rewrite F12.
    + rewrite F3, F11. done.
  - rewrite G6, G7, G8, G9. unfold n2. rsimpl. by rewrite F1, F2, F3, F4.
Qed.

(** C9: the committed entries are applied exactly once each, in index order.  From
    any well-formed node the loop terminates without leaving the log array, the
    applied index ends at the commit index (or stays where it was beyond it),
    the application has received precisely the commands between the two, the
    configuration commands excepted, and the log, the term and the vote are
    what they were. *)
Theorem committed_entries_applied_in_order node :
  log_wf node →
  ∃ node', node_apply_committed node = Some node' ∧ log_wf node' ∧
    last_applied node' = Z.max (last_applied node) (commit_index node) ∧
    user (application node') =
      fold_left (app_step (application node))
        (commands_from node (last_applied node) (Z.to_nat (commit_index node - last_applied node)))
        (user (application node)) ∧
    log node' = log node ∧ log_count node' = log_count node ∧
    commit_index node' = commit_index node ∧ vote_mono node node'.
Proof.
  intros Hwf. unfold node_apply_committed.
  destruct (apply_loop_applied _ node Hwf eq_refl) as (node' & H & [? ? ? _ [? _] (? & ? & _ & ?)]).
  by exists node'.
Qed.

(** ** Compaction *)

Lemma min_match_spec i n ms k :
  (i + n ≤ length ms)%nat →
  ∃ r, min_match i n ms k = Some r ∧ (r ≤ k)%Z ∧
       ∀ j m, (i ≤ j < i + n)%nat → ms !! j = Some m → (r ≤ m)%Z.
Proof.
  revert i k; induction n as [|n IH]; intros i k Hl; cbn [min_match].
  { exists k. split_and!; [done|lia|intros; lia]. }
  destruct (lookup_lt_is_Some_2 ms i) as [m Hm]; [lia|]. rewrite Hm. bind_simpl.
  destruct (IH (S i) (if (m <? k)%Z then m else k)) as (r & -> & Hr & Hall); [lia|].
  exists r. split_and!; [done|destruct (m <? k)%Z eqn:E; bools; lia|].
  intros j m' Hj Hm'. destruct (decide (j = i)) as [->|]; [|apply (Hall j m'); [lia|done]].
  simplify_eq. destruct (m <? k)%Z eqn:E; bools; lia.
Qed.

(** A leader compacts nothing some peer has not acknowledged, and no node
    anything it has not applied. *)
Lemma compactible_spec node :
  repl_wf node →
  ∃ k, node_compactible_index node = Some k ∧ (k ≤ last_applied node)%Z ∧
    (machine_state node = RAFT_ROLE_LEADER →
     ∀ j m, (j < length (peers (config node)))%nat → match_index node !! j = Some m → (k ≤ m)%Z).
Proof.
  intros Hr. unfold node_compactible_index. case_bool_decide as Hl.
  - destruct (min_match_spec 0 (length (peers (config node))) (match_index node) (last_applied node))
      as (k & -> & Hk & Hall).
    { rewrite repl_wf_match by done. pose proof (repl_wf_peers _ Hr). lia. }
    exists k. split_and!; [done..|]. intros _ j m Hj. apply Hall. lia.
  - eexists. split_and!; [done|lia|done].
Qed.

Lemma memmove_down_lookup {A} (l : list A) k n i :
  (k + n ≤ length l)%nat → (i < n)%nat → memmove_down l k n !! i = l !! (k + i)%nat.
Proof.
  intros H Hi. unfold memmove_down. rewrite lookup_app_l by (rewrite length_take, length_drop; lia).
  rewrite lookup_take_lt by done. by rewrite lookup_drop.
Qed.

Lemma memmove_down_length {A} (l : list A) k n :
  (k + n ≤ length l)%nat → length (memmove_down l k n) = length l.
Proof. intros H. unfold memmove_down. rewrite length_app, length_take, !length_drop. lia. Qed.

(** The log of a node after its prefix up to [target] is dropped. *)
Lemma compacted_log node target l n :
  log_core node → (snapshot_last_included_index node ≤ target ≤ node_last_log_index node)%Z →
  n = Z.to_nat (node_last_log_index node - target) → length l = RAFT_MAX_LOG →
  (∀ i, (i < n)%nat → l !! i =
     log node !! (Z.to_nat (target - snapshot_last_included_index node) + i)%nat) →
  ∀ node', log node' = l → log_count node' = n → snapshot_last_included_index node' = target →
  log_core node' ∧ node_last_log_index node' = node_last_log_index node ∧
  ∀ i, (target < i ≤ node_last_log_index node)%Z → node_log_at node' i = node_log_at node i.
Proof.
  intros [H1 H2 H3 H4] Ht -> Hl Hlook node' El Ec Es. unfold node_last_log_index in *.
  split_and!.
  - split; rewrite ?El, ?Ec, ?Es; [done|lia|lia|].
    intros i e Hi. rewrite Hlook by done. intros He. apply H4 in He; lia.
  - rewrite Ec, Es. lia.
  - intros i Hi. unfold node_log_at, node_physical_index, array_get. rewrite El, Es.
    repeat (case_match; bools; try lia). rewrite Hlook by lia. f_equal. lia.
Qed.

Lemma do_compact_spec node :
  log_wf node → repl_wf node → node_should_compact node = Some true →
  ∃ target term node' ops, node_do_compact node = Some (node', ops) ∧
    snapshot_last_included_index node' = target ∧ snapshot_last_included_term node' = term ∧
    node_term_at_index node target = Some term ∧
    (snapshot_last_included_index node < target ≤ last_applied node)%Z ∧
    (machine_state node = RAFT_ROLE_LEADER →
     ∀ j m, (j < length (peers (config node)))%nat → match_index node !! j = Some m →
     (target ≤ m)%Z) ∧
    log_wf node' ∧ repl_wf node' ∧ node_last_log_index node' = node_last_log_index node ∧
    (∀ i, (target < i ≤ node_last_log_index node)%Z → node_log_at node' i = node_log_at node i) ∧
    commit_index node' = commit_index node ∧ last_applied node' = last_applied node ∧
    user (application node') = user (application node) ∧ quiet node node' ∧
    ops = atomic_replace_path (storage_snapshot_path (storage node'))
            (write_snapshot (snapshot_buf (storage node')) target term).
Proof.
  intros Hwf Hr Hsc.
  destruct (compactible_spec node Hr) as (k & Hk & Hka & Hkm).
  unfold node_should_compact in Hsc. rewrite Hk in Hsc. bind_simpl_in Hsc.
  injection Hsc as Hsc. bools.
  pose proof (log_wf_applied _ Hwf) as Ha. pose proof (log_core_count _ Hwf) as Hcount.
  destruct (node_term_at_defined node k Hwf) as [tm Htm];
    [lia|unfold node_last_log_index in *; lia|].
  unfold node_do_compact. rewrite Hk. bind_simpl.
  rewrite (proj2 (Z.leb_gt _ _)), (proj2 (Z.ltb_ge _ _)) by lia. rewrite Htm. bind_simpl. cbv zeta.
  generalize (app_snapshot node). intros buf. rsimpl.
  set (kf := Z.to_nat (k - snapshot_last_included_index node)).
  eexists k, tm, _, _. split; [reflexivity|]. split; [done|]. split; [done|]. split; [done|].
  split; [lia|]. split; [done|].
  match goal with |- log_wf ?n ∧ _ => set (node' := n) end.
  assert (log_core node' ∧ node_last_log_index node' = node_last_log_index node ∧
    ∀ i, (k < i ≤ node_last_log_index node)%Z → node_log_at node' i = node_log_at node i)
    as (Hc' & Hl' & Hat).
  { unfold node'. unfold node_last_log_index in Ha.
    destruct (log_count node <=? kf)%nat eqn:E; bools; unfold kf in *.
    - eapply (compacted_log node k (log node) 0); [apply Hwf|unfold node_last_log_index; lia| |
        apply Hwf|intros; lia|done..]. unfold node_last_log_index. lia.
    - eapply (compacted_log node k (memmove_down (log node) kf (log_count node - kf)));
        [apply Hwf|unfold node_last_log_index; lia|reflexivity| |..|done| |done].
      + rewrite memmove_down_length; [apply Hwf|]. rewrite (log_core_length _ Hwf). unfold kf. lia.
      + intros i Hi. unfold node_last_log_index in Hi.
        rewrite memmove_down_lookup; [done|rewrite (log_core_length _ Hwf)|]; unfold kf; lia.
      + unfold node_last_log_index, kf. rsimpl. lia. }
  split_and!; try done.
  - split; [done|..]; rewrite Hl'; unfold node'; rsimpl; case_match; rsimpl; try apply Hwf; lia.
  - destruct Hr as [R1 R2 R3 R4]. split; unfold node'; case_match; rsimpl; try done;
      (eapply Forall_impl; [exact R4|]; intros x Hx; cbv beta in *; lia).
  - unfold node'. by case_match.
  - unfold node'. by case_match.
  - unfold node'. by case_match.
  - apply quiet_same'; unfold node'; case_match; done.
  - unfold node', raft_storage_save_snapshot. by case_match.
Qed.


(** ** Appending an entry of this leader *)

(** What appending changes: the log, the dirty flag and the outbox. *)
Record appended node (c : raft_command_t) node' : Prop := {
  appended_wf : log_wf node → log_wf node';
  appended_repl : repl_wf node → repl_wf node';
  appended_quiet : quiet node node';
  appended_last : node_last_log_index node' = (node_last_log_index node + 1)%Z;
  appended_entry : node_log_at node' (node_last_log_index node') = Some (new_entry node c);
  appended_before i :
    (snapshot_last_included_index node < i ≤ node_last_log_index node)%Z →
    node_log_at node' i = node_log_at node i;
  appended_rest : node' = node <| log := log node' |> <| log_count := log_count node' |>
                               <| persist_dirty := true |> <| outbox := outbox node' |>;
}.

Lemma append_entry_appended node c :
  log_wf node → repl_wf node → (log_count node < RAFT_MAX_LOG)%nat →
  ∃ node', node_append_entry node c = Some node' ∧ appended node c node'.
Proof.
  intros Hwf Hr Hlt. unfold node_append_entry.
  destruct (node_log_push_defined node (new_entry node c) Hwf Hlt) as [n1 H1].
  rewrite H1. bind_simpl. apply node_log_push_inv in H1 as H1'. destruct H1' as [Hcap E1].
  assert (log_wf n1) as Hwf1 by (apply (log_wf_push node (new_entry node c)); done).
  set (n2 := n1 <| persist_dirty := true |>).
  assert (log_wf n2) as Hwf2 by by keep_log_wf n1.
  assert (repl_wf n2) as Hr2 by (unfold n2; rewrite E1; by keep_repl_wf node).
  destruct (broadcast_defined n2 Hwf2 Hr2) as (node' & H' & Ho).
  exists node'. split; [done|].
  assert (log node' = log n1 ∧ log_count node' = log_count n1 ∧
          snapshot_last_included_index node' = snapshot_last_included_index node) as (F1 & F2 & F3)
    by (destruct Ho as [-> _]; unfold n2; rewrite E1; done).
  assert (node_last_log_index node' = node_last_log_index node + 1)%Z as Hlast.
  { unfold node_last_log_index. rewrite F2, F3, E1. rsimpl. lia. }
  pose proof (log_core_snapshot _ Hwf) as Hs0.
  split; try done.
  - intros _. by eapply only_outbox_log_wf.
  - intros _. by eapply only_outbox_repl_wf.
  - etrans; [|by eapply broadcast_quiet]. apply quiet_same; unfold n2; by rewrite E1.
  - rewrite Hlast. rewrite (node_log_at_same n1 node') by (rewrite ?F1, ?F3; by rewrite ?E1).
    rewrite (node_log_at_pushed node (new_entry node c)); [|done..]. done.
  - intros i Hi. rewrite (node_log_at_same n1 node') by (rewrite ?F1, ?F3; by rewrite ?E1).
    eapply node_log_at_push; [done..|lia].
  - destruct Ho as [-> _]. unfold n2. rewrite E1. by destruct node.
Qed.

Definition internal_command (o k v : string) : raft_command_t :=
  mkCommand (strncpy RAFT_MAX_OP o) (strncpy RAFT_MAX_KEY k) (strncpy RAFT_MAX_VALUE v).

Lemma append_internal_cases node o k v :
  log_wf node → repl_wf node →
  (node_append_internal_command node o k v = Some (node, -1)%Z ∧
   (node_is_leader node = false ∨ log_count node = RAFT_MAX_LOG)) ∨
  (∃ node', node_append_internal_command node o k v = Some (node', node_last_log_index node')%Z ∧
     (0 < node_last_log_index node')%Z ∧ appended node (internal_command o k v) node').
Proof.
  intros Hwf Hr. unfold node_append_internal_command.
  pose proof (log_core_count _ Hwf). pose proof (log_core_snapshot _ Hwf).
  destruct (node_is_leader node); simpl; [|left; split; [done|by left]].
  destruct (RAFT_MAX_LOG <=? log_count node)%nat eqn:E; bools; [left; split; [done|right; lia]|right].
  destruct (append_entry_appended node (internal_command o k v)) as (node' & H' & Ha); [done..|].
  unfold internal_command in *. rewrite H'. bind_simpl. exists node'.
  rewrite (appended_last _ _ _ Ha). split_and!; [done| |done]. unfold node_last_log_index. lia.
Qed.

Lemma appended_then node c n1 n2 :
  appended node c n1 → log_wf node → repl_wf node →
  (log_wf n1 → log_wf n2) → (repl_wf n1 → repl_wf n2) → quiet n1 n2 →
  config_state n2 = config_state n1 → commit_index n2 = commit_index n1 →
  last_applied n2 = last_applied n1 →
  log_wf n2 ∧ repl_wf n2 ∧ quiet node n2 ∧ config_state n2 = config_state node ∧
  commit_index n2 = commit_index node ∧ last_applied n2 = last_applied node.
Proof.
  intros Ha Hw Hr F1 F2 F3 F4 F5 F6. split_and!; [by apply F1, Ha|by apply F2, Ha|..].
  - etrans; [apply Ha|done].
  - rewrite F4, (appended_rest _ _ _ Ha). done.
  - rewrite F5, (appended_rest _ _ _ Ha). done.
  - rewrite F6, (appended_rest _ _ _ Ha). done.
Qed.

(** One step of the membership driver on a leader, and what licenses it. *)
Inductive driver_step node node' : raft_membership_state_t → raft_membership_state_t → Prop :=
| driver_idle s :
    node_last_log_index node' = node_last_log_index node → driver_step node node' s s
| driver_enter :
    requested_membership_pending node = true → new_members (config_state node) = [] →
    node_log_at node' (node_last_log_index node') = Some (new_entry node
      (internal_command "cluster.enter_joint" "members"
         (encode_member_list (requested_membership node) RAFT_MAX_VALUE))) →
    node_last_log_index node' = (node_last_log_index node + 1)%Z →
    joint_config_index node' = node_last_log_index node' →
    driver_step node node' RAFT_MEMBERSHIP_STABLE RAFT_MEMBERSHIP_JOINT_PENDING
| driver_joint :
    new_members (config_state node) ≠ [] →
    config_index (config_state node) = joint_config_index node →
    node_last_log_index node' = node_last_log_index node →
    driver_step node node' RAFT_MEMBERSHIP_JOINT_PENDING RAFT_MEMBERSHIP_JOINT
| driver_leave :
    new_members (config_state node) ≠ [] →
    (∀ m, m ∈ new_members (config_state node) → m ≠ node_id (config node) →
       ∃ p k, node_peer_index node m = Some p ∧ match_index node !! p = Some k ∧
              (node_last_log_index node ≤ k)%Z) →
    node_log_at node' (node_last_log_index node') = Some (new_entry node
      (internal_command "cluster.leave_joint" "members"
         (encode_member_list (requested_membership node) RAFT_MAX_VALUE))) →
    node_last_log_index node' = (node_last_log_index node + 1)%Z →
    final_config_index node' = node_last_log_index node' →
    driver_step node node' RAFT_MEMBERSHIP_JOINT RAFT_MEMBERSHIP_FINALIZING
| driver_done :
    new_members (config_state node) = [] →
    config_index (config_state node) = final_config_index node →
    node_last_log_index node' = node_last_log_index node →
    driver_step node node' RAFT_MEMBERSHIP_FINALIZING RAFT_MEMBERSHIP_STABLE.

Lemma not_joint_nil c : configuration_is_joint c = false → new_members c = [].
Proof. unfold configuration_is_joint. intros H. bools. destruct (new_members c); [done|simpl in *; lia]. Qed.

Lemma caught_up_members node :
  node_joint_members_are_caught_up node = true →
  ∀ m, m ∈ new_members (config_state node) → m ≠ node_id (config node) →
    ∃ p k, node_peer_index node m = Some p ∧ match_index node !! p = Some k ∧
           (node_last_log_index node ≤ k)%Z.
Proof.
  unfold node_joint_members_are_caught_up. intros H m Hm Hne.
  destruct (configuration_is_joint (config_state node)); [|done]. simpl in H.
  rewrite forallb_forall in H. specialize (H m (proj1 (list_elem_of_In _ _) Hm)).
  rewrite (proj2 (streq_false _ _) Hne) in H.
  destruct (node_peer_index node m) as [p|]; [|done]. bind_simpl_in H.
  destruct (match_index node !! p) as [k|] eqn:Ek; [|done]. apply Z.leb_le in H.
  by exists p, k.
Qed.

Lemma drive_membership_spec node :
  log_wf node → repl_wf node →
  ∃ node', node_maybe_drive_membership node = Some node' ∧
    log_wf node' ∧ repl_wf node' ∧ quiet node node' ∧ config_state node' = config_state node ∧
    commit_index node' = commit_index node ∧ last_applied node' = last_applied node ∧
    driver_step node node' (membership_state node) (membership_state node') ∧
    (node_is_leader node = false → node' = node).
Proof.
  intros Hwf Hr. unfold node_maybe_drive_membership.
  destruct (node_is_leader node) eqn:El; simpl;
    [|exists node; split_and!; try done; by constructor].
  assert (running node = true) as -> by (unfold node_is_leader in El; by bools). simpl.
  destruct (bool_decide (membership_state node = RAFT_MEMBERSHIP_STABLE)
            && requested_membership_pending node
            && negb (configuration_is_joint (config_state node))) eqn:E1.
  { bools. destruct (append_internal_cases node "cluster.enter_joint" "members"
      (encode_member_list (requested_membership node) RAFT_MAX_VALUE) Hwf Hr)
      as [[-> _]|(n1 & -> & Hpos & Ha)]; bind_simpl.
    - eexists. split; [done|]. simpl. split_and!;
        [by keep_log_wf node|by keep_repl_wf node|by apply quiet_same|done..|by constructor|done].
    - eexists. split; [done|]. cbv zeta. rewrite (proj2 (Z.ltb_lt _ _)) by done.
      match goal with |- log_wf ?n ∧ _ => destruct (appended_then node _ n1 n Ha) as (? & ? & ? & ? & ? & ?) end;
        [done|done|intros ?; by keep_log_wf n1|intros ?; by keep_repl_wf n1|by apply quiet_same|done..|].
      split_and!; try done. rewrite H. destruct Ha as [_ _ _ Hl He _ _].
      apply driver_enter; try done. by apply not_joint_nil. }
  case_match eqn:E2; [|case_match eqn:E3; [|case_match eqn:E4]].
  - bools. eexists. split; [done|]. split_and!;
      [by keep_log_wf node|by keep_repl_wf node|by apply quiet_same|done..| |done].
    match goal with H : membership_state _ = _ |- _ => rewrite H end.
    apply driver_joint; [by apply configuration_is_joint_true|done..].
  - bools. destruct (append_internal_cases node "cluster.leave_joint" "members"
      (encode_member_list (requested_membership node) RAFT_MAX_VALUE) Hwf Hr)
      as [[-> _]|(n1 & -> & Hpos & Ha)]; bind_simpl.
    + eexists. split; [done|]. simpl. split_and!;
        [by keep_log_wf node|by keep_repl_wf node|by apply quiet_same|done..|by constructor|done].
    + eexists. split; [done|]. cbv zeta. rewrite (proj2 (Z.ltb_lt _ _)) by done.
      match goal with |- log_wf ?n ∧ _ => destruct (appended_then node _ n1 n Ha) as (? & ? & ? & ? & ? & ?) end;
        [done|done|intros ?; by keep_log_wf n1|intros ?; by keep_repl_wf n1|by apply quiet_same|done..|].
      split_and!; try done.
      match goal with H : membership_state _ = _ |- _ => rewrite H end.
      destruct Ha as [_ _ _ Hl He _ _].
      apply driver_leave; try done; [by apply configuration_is_joint_true|by apply caught_up_members].
  - bools. eexists. split; [done|]. split_and!;
      [by keep_log_wf node|by keep_repl_wf node|by apply quiet_same|done..| |done].
    match goal with H : membership_state _ = _ |- _ => rewrite H end.
    apply driver_done; [by apply not_joint_nil|done..].
  - exists node. split_and!; try done. by constructor.
Qed.

(** C18: the leader drives a membership change through its four states and no
    other way: it enters the joint configuration only on a pending request
    outside a joint one, appends the leaving entry only when every other new
    member is known to hold its whole log, and returns to rest only when the
    leaving entry is the configuration in force.  Each step appends at most one
    entry, which carries the requested members; the configuration itself is
    never changed here; a node that is not leader does nothing. *)
Theorem membership_driver_protocol node :
  log_wf node → repl_wf node →
  ∃ node', node_maybe_drive_membership node = Some node' ∧
    log_wf node' ∧ repl_wf node' ∧ quiet node node' ∧ config_state node' = config_state node ∧
    commit_index node' = commit_index node ∧ last_applied node' = last_applied node ∧
    driver_step node node' (membership_state node) (membership_state node') ∧
    (node_is_leader node = false → node' = node).
Proof. apply drive_membership_spec. Qed.

(** ** Applying configuration entries *)

(** What applying a configuration entry installs. *)
Lemma enter_joint_installs node c ms :
  decode_member_list (value c) RAFT_MAX_NODES = ms → ms ≠ [] →
  (config_index (config_state node) < last_applied node)%Z →
  let node' := apply_enter_joint node c in
  config_state node' =
    configuration_set_joint (old_members (config_state node)) ms (last_applied node) ∧
  membership_state node' = RAFT_MEMBERSHIP_JOINT ∧ running node' = running node ∧
  last_applied node' = last_applied node.
Proof.
  intros Hd Hne Hi. unfold apply_enter_joint. rewrite Hd, (proj2 (Z.leb_gt _ _) Hi).
  rewrite (proj2 (Nat.ltb_lt _ _)) by (destruct ms; [done|simpl; lia]). done.
Qed.

Lemma stop_if_expelled_spec was node :
  let node' := stop_if_expelled was node in
  config_state node' = config_state node ∧ membership_state node' = membership_state node ∧
  running node' = running node && (negb was || node_self_is_member node) ∧
  last_applied node' = last_applied node.
Proof.
  unfold stop_if_expelled.
  destruct was, (node_self_is_member node) eqn:E; simpl; split_and!; try done;
    rsimpl; destruct (running node); done.
Qed.

Lemma leave_joint_installs node c ms :
  decode_member_list (value c) RAFT_MAX_NODES = ms → ms ≠ [] →
  normalize_members ms RAFT_MAX_NODES = ms →
  (config_index (config_state node) < last_applied node)%Z →
  let node' := apply_leave_joint node c in
  config_state node' = mkClusterConfig ms [] (last_applied node) ∧
  membership_state node' = RAFT_MEMBERSHIP_STABLE ∧
  running node' = running node &&
    (negb (node_self_is_member node) || member_list_contains ms (node_id (config node))) ∧
  last_applied node' = last_applied node.
Proof.
  intros Hd Hne Hnorm Hi. unfold apply_leave_joint. rewrite Hd, (proj2 (Z.leb_gt _ _) Hi).
  rewrite (proj2 (Nat.ltb_lt _ _)) by (destruct ms; [done|simpl; lia]).
  unfold configuration_set_stable. rewrite Hnorm. cbv zeta.
  match goal with |- context [stop_if_expelled _ ?n] =>
    destruct (stop_if_expelled_spec (node_self_is_member node) n) as (-> & -> & -> & ->) end.
  split_and!; [reflexivity|reflexivity| |reflexivity].
  transitivity (running node && (negb (node_self_is_member node) ||
    (member_list_contains ms (node_id (config node)) ||
     member_list_contains [] (node_id (config node))))); [reflexivity|].
  by rewrite (orb_false_r (member_list_contains ms _)).
Qed.

(** C19: the configuration entries a leader writes are the configurations every
    node installs.  Applying the encoded entry of a canonical member list at a
    new index installs exactly that list (next to the old one when entering the
    joint configuration), leaving it stops a member that is not in the list and
    only such a node, and applying the same entry again, as a restarted node
    replaying its log does, changes nothing. *)
Theorem configuration_entries_install node ms joint :
  let o := if joint : bool then "cluster.enter_joint" else "cluster.leave_joint" in
  let c := internal_command o "members" (encode_member_list ms RAFT_MAX_VALUE) in
  NoDup ms → ms ≠ [] → (length ms ≤ RAFT_MAX_NODES)%nat →
  Forall (λ m, encodable_id m = true) ms → normalize_members ms RAFT_MAX_NODES = ms →
  (config_index (config_state node) < last_applied node)%Z →
  let node' := node_apply_command node c in
  config_state node' =
    mkClusterConfig
      (if joint then normalize_members (old_members (config_state node)) RAFT_MAX_NODES else ms)
      (if joint then ms else []) (last_applied node) ∧
  membership_state node' = (if joint then RAFT_MEMBERSHIP_JOINT else RAFT_MEMBERSHIP_STABLE) ∧
  running node' = running node &&
    (joint || negb (node_self_is_member node) || member_list_contains ms (node_id (config node))) ∧
  node_apply_command node' c = node'.
Proof.
  intros o c Hnd Hne Hl Hf Hnorm Hi node'. subst node'.
  assert (decode_member_list (value c) RAFT_MAX_NODES = ms) as Hd by by apply decode_encode_members.
  assert (∀ n : raft_node_t U, node_apply_command n c =
            if joint then apply_enter_joint n c else apply_leave_joint n c) as Hcmd
    by (intros n; unfold node_apply_command, node_apply_internal_command; by destruct joint).
  assert (∀ n : raft_node_t U, (config_index (config_state n) = last_applied n)%Z →
            node_apply_command n c = n) as Hidem.
  { intros n Hn. rewrite Hcmd. unfold apply_enter_joint, apply_leave_joint.
    rewrite Hn, Z.leb_refl. by destruct joint. }
  rewrite (Hcmd node). destruct joint; simpl.
  - destruct (enter_joint_installs node c ms Hd Hne Hi) as (Ec & Em & Er & El).
    split_and!; [|done|by rewrite andb_true_r|apply Hidem; by rewrite Ec, El].
    rewrite Ec. unfold configuration_set_joint. by rewrite Hnorm.
  - destruct (leave_joint_installs node c ms Hd Hne Hnorm Hi) as (Ec & Em & Er & El).
    split_and!; [done..|apply Hidem; by rewrite Ec, El].
Qed.

End Facts.

(** ** Witnesses *)

Lemma committed_entries_applied_in_order_witness :
  ∃ node', node_apply_committed (follower_b <| commit_index := 2%Z |>) = Some node' ∧
    last_applied node' = 2%Z ∧ user (application node') = 2%nat.
Proof.
  destruct (committed_entries_applied_in_order (follower_b <| commit_index := 2%Z |>))
    as (node' & H & _ & Hl & Hu & _).
  - apply log_wfb_sound. vm_compute. reflexivity.
  - exists node'. split; [done|]. split; [exact Hl|]. rewrite Hu. vm_compute. reflexivity.
Defined.

(** A follower that has applied its two entries, and compacts from one on. *)
Definition compacting_b : raft_node_t nat :=
  follower_b <| commit_index := 2%Z |> <| last_applied := 2%Z |> <| compaction_threshold := 1%Z |>.


Lemma membership_driver_protocol_witness :
  ∃ node', node_maybe_drive_membership
      (leader_a <| requested_membership := ["a"; "b"] |> <| requested_membership_pending := true |>)
      = Some node' ∧ log_wf node'.
Proof.
  destruct (membership_driver_protocol
    (leader_a <| requested_membership := ["a"; "b"] |> <| requested_membership_pending := true |>))
    as (node' & H & Hw & _).
  - apply log_wfb_sound. vm_compute. reflexivity.
  - apply repl_wfb_sound. vm_compute. reflexivity.
  - by exists node'.
Defined.

Lemma configuration_entries_install_witness :
  config_state (node_apply_command (follower_b <| last_applied := 1%Z |>)
    (internal_command "cluster.enter_joint" "members"
       (encode_member_list ["a"; "b"; "d"] RAFT_MAX_VALUE))) =
  mkClusterConfig ["a"; "b"; "c"] ["a"; "b"; "d"] 1.
Proof.
  refine (proj1 (configuration_entries_install (follower_b <| last_applied := 1%Z |>)
                   ["a"; "b"; "d"] true _ _ _ _ _ _)).
  - apply (bool_decide_unpack _). reflexivity.
  - discriminate.
  - vm_compute. lia.
  - repeat constructor.
  - reflexivity.
  - reflexivity.
Defined.
