(* ===== verification/Fsm.v ===== *)
(** The role machine of a node, [c/src/raft.c]: guards, actions, transition
    table, and the two phase callbacks around them.

    The [rxnet] runtime that evaluates the table is not part of the repository:
    it is the parameter [evaluate], a function that picks a transition.  *)
From S2P Require Import Prelude CString Types Config NodeLog Replication Handlers Storage Membership.

Section Machine.
  Context {U : Type}.
  Implicit Types node : raft_node_t U.

(** *** Guards *)

Definition guard_timeout_expired node (clock : Z) : bool :=
  running node && node_self_is_member node && (election_deadline_ms node <=? clock)%Z.

Definition guard_has_append_entries node (clock : Z) : bool :=
  (0 <? length (pending_append_entries node))%nat.

Definition guard_has_vote_request node (clock : Z) : bool :=
  (0 <? length (pending_vote_requests node))%nat.

Definition guard_has_higher_term_vote_request node (clock : Z) : bool :=
  match pending_vote_requests node with
  | m :: _ => (current_term node <? msg_term m)%Z
  | [] => false
  end.

Definition guard_has_vote node (clock : Z) : bool := (0 <? length (pending_votes node))%nat.

Definition guard_received_majority_votes node (clock : Z) : bool :=
  if negb (node_has_vote_quorum node (old_members (config_state node))) then false
  else if negb (configuration_is_joint (config_state node)) then true
  else node_has_vote_quorum node (new_members (config_state node)).

Definition guard_time_for_heartbeat node (clock : Z) : bool :=
  (heartbeat_deadline_ms node <=? clock)%Z.

(** *** Actions *)

Definition vote_request node (last_term : Z) (peer : string) : raft_message_t :=
  zero_message RAFT_MSG_REQUEST_VOTE
    <| msg_term := current_term node |>
    <| last_log_index := node_last_log_index node |>
    <| last_log_term := last_term |>
    <| source := strncpy RAFT_MAX_ID (node_id (config node)) |>
    <| target := strncpy RAFT_MAX_ID peer |>.

Definition action_become_candidate node (clock : Z) : option (raft_node_t U) :=
  term ← int_incr (current_term node);
  let node := node <| current_term := term |>
                   <| voted_for := strncpy RAFT_MAX_ID (node_id (config node)) |>
                   <| votes_received := [] |> in
  let node := node_record_vote node (node_id (config node)) in
  let node := node <| leader_id := "" |> <| persist_dirty := true |> in
  let node := node <| election_deadline_ms :=
                      (clock + node_next_election_timeout node clock)%Z |> in
  for_each (λ node peer,
    t ← node_last_log_term node;
    Some (node_queue_message node (vote_request node t peer))) (peers (config node)) node.

Definition action_handle_append_entries node (clock : Z) : option (raft_node_t U) :=
  match pending_append_entries node with
  | [] => Some node
  | m :: ms => node_handle_append_entries (node <| pending_append_entries := ms |>) m clock
  end.

Definition action_handle_vote_request node (clock : Z) : option (raft_node_t U) :=
  match pending_vote_requests node with
  | [] => Some node
  | m :: ms => node_handle_vote_request (node <| pending_vote_requests := ms |>) m clock
  end.

Definition action_ignore_vote node (clock : Z) : option (raft_node_t U) :=
  Some (node <| pending_votes := tail (pending_votes node) |>).

Definition action_back_to_follower_due_to_timeout node (clock : Z) : option (raft_node_t U) :=
  let node := node <| votes_received := [] |> <| leader_id := "" |> in
  Some (node <| election_deadline_ms := (clock + node_next_election_timeout node clock)%Z |>).

Definition action_become_leader node (clock : Z) : option (raft_node_t U) :=
  let node := node <| leader_id := strncpy RAFT_MAX_ID (node_id (config node)) |> in
  node ← for_each (λ node i,
    n ← array_set (next_index node) i (node_last_log_index node + 1)%Z;
    m ← array_set (match_index node) i 0%Z;
    n ← (if (node_last_log_index node + 1 <? node_log_base_index node)%Z
         then array_set n i (node_log_base_index node) else Some n);
    Some (node <| next_index := n |> <| match_index := m |>))
    (seq 0 (length (peers (config node)))) node;
  node ← node_broadcast_append_entries node;
  Some (node <| heartbeat_deadline_ms := (clock + heartbeat_interval_ms (config node))%Z |>).

Definition action_handle_vote node (clock : Z) : option (raft_node_t U) :=
  match pending_votes node with
  | [] => Some node
  | m :: ms => Some (node_handle_vote_response (node <| pending_votes := ms |>) m)
  end.

Definition action_ignore_vote_request node (clock : Z) : option (raft_node_t U) :=
  Some (node <| pending_vote_requests := tail (pending_vote_requests node) |>).

Definition action_send_heartbeat node (clock : Z) : option (raft_node_t U) :=
  node ← node_broadcast_append_entries node;
  Some (node <| heartbeat_deadline_ms := (clock + heartbeat_interval_ms (config node))%Z |>).

(** *** The transition table *)

Record transition : Type := mkTransition {
  from_role : raft_role_t;
  to_role : raft_role_t;
  guard : raft_node_t U → Z → bool;
  action : raft_node_t U → Z → option (raft_node_t U);
}.

Definition RAFT_TRANSITIONS : list transition :=
  [mkTransition RAFT_ROLE_FOLLOWER RAFT_ROLE_CANDIDATE guard_timeout_expired action_become_candidate;
   mkTransition RAFT_ROLE_FOLLOWER RAFT_ROLE_FOLLOWER guard_has_append_entries
     action_handle_append_entries;
   mkTransition RAFT_ROLE_FOLLOWER RAFT_ROLE_FOLLOWER guard_has_vote_request
     action_handle_vote_request;
   mkTransition RAFT_ROLE_FOLLOWER RAFT_ROLE_FOLLOWER guard_has_vote action_ignore_vote;
   mkTransition RAFT_ROLE_CANDIDATE RAFT_ROLE_FOLLOWER guard_timeout_expired
     action_back_to_follower_due_to_timeout;
   mkTransition RAFT_ROLE_CANDIDATE RAFT_ROLE_LEADER guard_received_majority_votes
     action_become_leader;
   mkTransition RAFT_ROLE_CANDIDATE RAFT_ROLE_FOLLOWER guard_has_append_entries
     action_handle_append_entries;
   mkTransition RAFT_ROLE_CANDIDATE RAFT_ROLE_FOLLOWER guard_has_higher_term_vote_request
     action_handle_vote_request;
   mkTransition RAFT_ROLE_CANDIDATE RAFT_ROLE_CANDIDATE guard_has_vote_request
     action_handle_vote_request;
   mkTransition RAFT_ROLE_CANDIDATE RAFT_ROLE_CANDIDATE guard_has_vote action_handle_vote;
   mkTransition RAFT_ROLE_LEADER RAFT_ROLE_FOLLOWER guard_has_append_entries
     action_handle_append_entries;
   mkTransition RAFT_ROLE_LEADER RAFT_ROLE_FOLLOWER guard_has_higher_term_vote_request
     action_handle_vote_request;
   mkTransition RAFT_ROLE_LEADER RAFT_ROLE_LEADER guard_has_vote_request action_ignore_vote_request;
   mkTransition RAFT_ROLE_LEADER RAFT_ROLE_LEADER guard_has_vote action_ignore_vote;
   mkTransition RAFT_ROLE_LEADER RAFT_ROLE_LEADER guard_time_for_heartbeat action_send_heartbeat].

Definition enabled node (clock : Z) (t : transition) : bool :=
  bool_decide (from_role t = machine_state node) && guard t node clock.

(** What the design document says of the runtime: it takes the first enabled
    transition of the table, publishes the role and runs the action. *)
Class RuntimeLaws (evaluate : list transition → raft_node_t U → Z → option transition) := {
  evaluate_some ts node clock t :
    evaluate ts node clock = Some t →
    ∃ pre post, ts = pre ++ t :: post ∧ enabled node clock t = true ∧
                ∀ t', t' ∈ pre → enabled node clock t' = false;
  evaluate_none ts node clock t :
    evaluate ts node clock = None → t ∈ ts → enabled node clock t = false;
}.

Definition commit_transition (t : option transition) node (clock : Z) : option (raft_node_t U) :=
  match t with
  | Some t => action t (node <| machine_state := to_role t |>) clock
  | None => Some node
  end.

(** *** Latching the inputs *)

(** One iteration of the loop over the received messages. *)
Definition latch_message node (m : raft_message_t) : option (raft_node_t U) :=
  match kind m with
  | RAFT_MSG_APPEND_ENTRIES =>
      Some (node <| pending_append_entries := queue_push RAFT_MAX_QUEUE (pending_append_entries node) m |>)
  | RAFT_MSG_REQUEST_VOTE =>
      Some (node <| pending_vote_requests := queue_push RAFT_MAX_QUEUE (pending_vote_requests node) m |>)
  | RAFT_MSG_REQUEST_VOTE_RESPONSE =>
      Some (node <| pending_votes := queue_push RAFT_MAX_QUEUE (pending_votes node) m |>)
  | RAFT_MSG_APPEND_ENTRIES_RESPONSE => node_handle_append_entries_response node m
  end.

(** The loop over the client commands; it stops when the log is full. *)
Fixpoint latch_commands (cs : list raft_command_t) node : option (raft_node_t U) :=
  match cs with
  | [] => Some node
  | c :: cs =>
      if (log_count node <? RAFT_MAX_LOG)%nat
      then node ← node_append_entry node c; latch_commands cs node
      else Some node
  end.

Definition raft_node_latch_inputs {T} (tr : raft_transport_t T) node (ctx : T)
    : option (raft_node_t U * T) :=
  let node := node <| pending_append_entries := [] |> <| pending_vote_requests := [] |>
                   <| pending_votes := [] |> in
  if negb (running node) then Some (node <| outbox := [] |>, ctx)
  else
    let '(ctx, messages) := recv tr ctx RAFT_MAX_QUEUE in
    node ← for_each latch_message messages node;
    let '(ctx, commands) := recv_commands tr ctx RAFT_MAX_QUEUE in
    if node_is_leader node
    then node ← latch_commands commands node; Some (node, ctx)
    else Some (node, ctx).

(** *** Dumping the outputs *)

(** Everything up to the sends: the new node and the disk operations, in order. *)
Definition dump_prepare node : option (raft_node_t U * list (disk_t → disk_t)) :=
  node ← (if node_is_leader node then node_advance_commit_index node else Some node);
  node ← node_apply_committed node;
  node ← node_maybe_drive_membership node;
  compact ← node_should_compact node;
  '(node, ops) ← (if (compact : bool) then node_do_compact node else Some (node, []));
  Some (if persist_dirty node
        then (node <| persist_dirty := false |>, ops ++ raft_storage_node_save node)
        else (node, ops)).

Definition send_messages {T} (tr : raft_transport_t T) (ms : list raft_message_t) (ctx : T) : T :=
  fold_left (λ ctx m, (send tr ctx m).1) ms ctx.

Definition raft_node_dump_outputs {T} (tr : raft_transport_t T) node (ctx : T) (disk : disk_t)
    : option (raft_node_t U * T * disk_t) :=
  if negb (running node) then Some (node <| outbox := [] |>, ctx, disk)
  else
    '(node, ops) ← dump_prepare node;
    Some (node <| outbox := [] |>, send_messages tr (outbox node) ctx, run_disk ops disk).

(** One tick of the runtime on the machine of a node. *)
Definition node_tick {T} (tr : raft_transport_t T)
    (evaluate : list transition → raft_node_t U → Z → option transition)
    (clock : Z) node (ctx : T) (disk : disk_t) : option (raft_node_t U * T * disk_t) :=
  '(node, ctx) ← raft_node_latch_inputs tr node ctx;
  node ← commit_transition (evaluate RAFT_TRANSITIONS node clock) node clock;
  raft_node_dump_outputs tr node ctx disk.

End Machine.
