(* ===== verification/FsmFacts.v ===== *)
(** Properties of the role machine: a tick never leaves the arrays, keeps the
    node's invariant, casts votes by the rules and stores before it sends. *)
From S2P Require Import Prelude CString Types Config NodeLog Samples Replication Handlers LogMerge HandlerFacts Storage StorageFacts MemTransport Membership MembershipFacts Fsm.

Section Facts.
  Context {U : Type}.
  Implicit Types node : raft_node_t U.
  Implicit Types message : raft_message_t.

(** The invariant of a running node. *)
Record node_inv node : Prop := {
  node_inv_log : log_wf node;
  node_inv_repl : repl_wf node;
  node_inv_commit : (last_applied node ≤ commit_index node)%Z;
  node_inv_id : valid_id (node_id (config node)) = true;
}.

(** What an honest peer's messages satisfy, seen from this node: a successful
    response reports an index the log can hold, and the entries of an
    [AppendEntries] never contradict an entry already applied. *)
Record benign node message : Prop := {
  benign_response :
    kind message = RAFT_MSG_APPEND_ENTRIES_RESPONSE → success message = true →
    (msg_match_index message ≤ snapshot_last_included_index node + Z.of_nat RAFT_MAX_LOG ∧
     msg_match_index message < INT_MAX)%Z;
  benign_entries e :
    kind message = RAFT_MSG_APPEND_ENTRIES → e ∈ entries message →
    (snapshot_last_included_index node < entry_index e ≤ last_applied node)%Z →
    entry_conflicts node e = Some false;
  benign_source : strncpy RAFT_MAX_ID (source message) = source message ∧ source message ≠ "";
  benign_term : (msg_term message < INT_MAX)%Z;
}.

(** The applied part of the log is kept. *)
Record applied_kept node node' : Prop := {
  ak_snap : snapshot_last_included_index node' = snapshot_last_included_index node;
  ak_snap_term : snapshot_last_included_term node' = snapshot_last_included_term node;
  ak_applied : last_applied node' = last_applied node;
  ak_last : (last_applied node ≤ node_last_log_index node)%Z →
            (last_applied node' ≤ node_last_log_index node')%Z;
  ak_at i : (snapshot_last_included_index node < i ≤ last_applied node)%Z →
            node_log_at node' i = node_log_at node i;
}.

#[export] Instance applied_kept_preorder : PreOrder applied_kept.
Proof.
  split; [by split|]. intros n1 n2 n3 [S1 T1 A1 L1 K1] [S2 T2 A2 L2 K2].
  split; [congruence..|auto|]. intros i Hi. rewrite K2 by (rewrite S1, A1; lia). by apply K1.
Qed.

Lemma applied_kept_same node node' :
  log node' = log node → log_count node' = log_count node →
  snapshot_last_included_index node' = snapshot_last_included_index node →
  snapshot_last_included_term node' = snapshot_last_included_term node →
  last_applied node' = last_applied node → applied_kept node node'.
Proof.
  intros E1 E2 E3 E4 E5. split; try done.
  - unfold node_last_log_index. by rewrite E2, E3, E5.
  - intros i _. by apply node_log_at_same.
Qed.

Lemma benign_kept node node' message :
  log_wf node → applied_kept node node' → benign node message → benign node' message.
Proof.
  intros Hwf [S T A L K] [B1 B2 B3 B4]. pose proof (log_wf_applied _ Hwf) as Hap.
  specialize (L ltac:(lia)). split; [by rewrite S| |done..].
  intros e Hk He Hi. rewrite S, A in Hi. specialize (B2 e Hk He Hi). revert B2.
  unfold entry_conflicts, node_term_at_index, node_leader_at_index. rewrite K, S, T by done.
  assert (node_has_log_index node (entry_index e) = true ∧
          node_has_log_index node' (entry_index e) = true) as [-> ->]; [|done].
  unfold node_has_log_index, node_log_base_index. rewrite !andb_true_iff, !Z.leb_le. lia.
Qed.

(** ** AppendEntries without a rebuild *)

(** The loop leaves the applied prefix alone when no entry contradicts it. *)
Record prefix_kept node0 (st : raft_node_t U * bool) : Prop := {
  pk_ok : merge_ok node0 st;
  pk_rebuild : st.2 = false;
  pk_at i : (snapshot_last_included_index node0 < i ≤ last_applied node0)%Z →
            node_log_at st.1 i = node_log_at node0 i;
}.

Lemma append_step_prefix node0 st e st' :
  log_wf node0 → prefix_kept node0 st →
  ((snapshot_last_included_index node0 < entry_index e ≤ last_applied node0)%Z →
   entry_conflicts node0 e = Some false) →
  append_entry_step st e = Some st' → prefix_kept node0 st'.
Proof.
  intros Hwf0 [Hm Hrb Hk] Hconf Hs.
  destruct (append_entry_step_ok node0 st e Hwf0 Hm) as (st2 & Hs2 & Hm2). simplify_eq.
  pose proof Hm as [Hf Hc Ha _]. specialize (Ha Hrb).
  destruct st as [node rb]. simpl in *. subst rb.
  pose proof (log_frame_snapshot _ _ Hf) as Hsn. pose proof (log_frame_applied _ _ Hf) as Hap.
  pose proof (log_wf_applied _ Hwf0) as Hap0.
  assert (∀ n1 n2 : raft_node_t U, log_core n1 → append_entry_tail n1 e = Some n2 →
    (last_applied node0 ≤ node_last_log_index n1)%Z →
    (∀ i, (snapshot_last_included_index node0 < i ≤ last_applied node0)%Z →
       node_log_at n1 i = node_log_at node0 i) →
    ∀ i, (snapshot_last_included_index node0 < i ≤ last_applied node0)%Z →
       node_log_at n2 i = node_log_at node0 i) as Htail.
  { intros n1 n2 Hc1 Ht Hl1 Hk1 i Hi.
    destruct (append_entry_tail_spec _ _ _ Hc1 Ht) as (_ & _ & _ & Hkeep & _).
    rewrite Hkeep by lia. by apply Hk1. }
  unfold append_entry_step in Hs. case_match; bools; [by simplify_eq|].
  case_match; [|apply bind_Some in Hs as (n2 & Ht & [= <-]); split; [done|done|by eapply Htail]].
  destruct (entry_conflicts node e) as [[]|] eqn:Ec; bind_simpl_in Hs; [| |done]; [|by simplify_eq].
  destruct (decide (entry_index e ≤ last_applied node0)%Z) as [Hle|Hgt].
  - exfalso. rewrite Hsn in *. specialize (Hconf ltac:(lia)). revert Ec Hconf.
    unfold entry_conflicts, node_term_at_index, node_leader_at_index. rewrite Hk, Hsn by lia.
    assert (snapshot_last_included_term node = snapshot_last_included_term node0) as ->
      by (rewrite Hf; done).
    assert (node_has_log_index node0 (entry_index e) = true) as Hh
      by (unfold node_has_log_index, node_log_base_index; apply andb_true_iff; split;
          apply Z.leb_le; lia).
    rewrite H0, Hh. intros Ec Hconf. congruence.
  - destruct (merge_truncate node e) as (Hc1 & _ & Hl1 & _); [done..|].
    apply bind_Some in Hs as (n2 & Ht & [= <-]). split; [done|..]; simpl.
    + rewrite Hap. by apply Z.leb_gt; lia.
    + eapply Htail; [exact Hc1|exact Ht|lia|]. intros i Hi. rewrite <- Hk by done.
      by apply node_log_at_same.
Qed.

Lemma append_entries_commit node message node' ok :
  log_wf node → (last_applied node ≤ commit_index node)%Z →
  (∀ e, e ∈ entries message →
    (snapshot_last_included_index node < entry_index e ≤ last_applied node)%Z →
    entry_conflicts node e = Some false) →
  node_append_entries_from_leader node message = Some (node', ok) →
  (last_applied node' ≤ commit_index node')%Z.
Proof.
  intros Hwf Hsc Hb H. unfold node_append_entries_from_leader in H.
  apply bind_Some in H as (b & _ & H). destruct b; simpl in H; [|by simplify_eq].
  apply bind_Some in H as ([n rb] & Hl & H). simplify_eq.
  assert (prefix_kept node (n, rb)) as [Hm Hrb _].
  { apply (for_each_inv (prefix_kept node)) in Hl;
      [done| |split; [by apply merge_ok_init|done|done]].
    intros e s1 s2 He Hs1 Hs. eapply append_step_prefix; [done|exact Hs1|by apply Hb|exact Hs]. }
  simpl in Hrb. subst rb. destruct Hm as [Hf _ Ha _]. simpl in *.
  specialize (Ha eq_refl). pose proof (log_wf_applied _ Hwf) as Hap.
  assert (commit_index n = commit_index node ∧ last_applied n = last_applied node) as [Ec Es]
    by (rewrite Hf; done).
  unfold append_entries_finish, node_clamped_commit. repeat case_match; bools; rsimpl; lia.
Qed.

(** ** The phases of a tick *)

Lemma term_update_kept node message : applied_kept node (node_handle_term_update node message).
Proof. unfold node_handle_term_update. case_match; by apply applied_kept_same. Qed.

Lemma only_outbox_kept node node' : only_outbox node node' → applied_kept node node'.
Proof. intros [E _]. rewrite E. by apply applied_kept_same. Qed.

Lemma term_update_frame node message :
  let n1 := node_handle_term_update node message in
  machine_state n1 = machine_state node ∧ running n1 = running node ∧
  pending_append_entries n1 = pending_append_entries node ∧
  pending_vote_requests n1 = pending_vote_requests node ∧
  pending_votes n1 = pending_votes node ∧ commit_index n1 = commit_index node.
Proof. unfold node_handle_term_update. by case_match. Qed.

Lemma append_response_kept node message node' :
  node_handle_append_entries_response node message = Some node' → applied_kept node node'.
Proof.
  unfold node_handle_append_entries_response. intros H.
  transitivity (node_handle_term_update node message); [apply term_update_kept|].
  set (n1 := node_handle_term_update node message) in *.
  case_match; [by simplify_eq|]. destruct (node_peer_index n1 (source message)) as [p|]; [|by simplify_eq].
  destruct (success message); opts.
  - apply advance_commit_loop_spec in H; [|lia].
    destruct H as [->|(i & -> & _)]; by apply applied_kept_same.
  - apply send_only_outbox, only_outbox_kept in H. etrans; [|exact H]. by apply applied_kept_same.
Qed.

Lemma append_response_commit node message node' :
  node_handle_append_entries_response node message = Some node' →
  (commit_index node ≤ commit_index node')%Z.
Proof.
  unfold node_handle_append_entries_response. intros H.
  destruct (term_update_frame node message) as (_ & _ & _ & _ & _ & <-).
  set (n1 := node_handle_term_update node message) in *.
  case_match; [by simplify_eq|]. destruct (node_peer_index n1 (source message)) as [p|]; [|by simplify_eq].
  destruct (success message); opts.
  - apply advance_commit_loop_spec in H; [|lia].
    destruct H as [->|(i & -> & ? & _)]; rsimpl; lia.
  - apply send_only_outbox in H as [-> _]. rsimpl. lia.
Qed.

Lemma append_response_role node message node' :
  node_handle_append_entries_response node message = Some node' →
  machine_state node' = machine_state node ∧ running node' = running node ∧
  pending_append_entries node' = pending_append_entries node ∧
  pending_vote_requests node' = pending_vote_requests node ∧
  pending_votes node' = pending_votes node ∧
  current_term node' = Z.max (current_term node) (msg_term message).
Proof.
  unfold node_handle_append_entries_response. intros H. rewrite <- term_update_term.
  set (n1 := node_handle_term_update node message) in *.
  destruct (term_update_frame node message) as (<- & <- & <- & <- & <- & _). fold n1.
  case_match; [by simplify_eq|]. destruct (node_peer_index n1 (source message)) as [p|]; [|by simplify_eq].
  destruct (success message); opts.
  - apply advance_commit_loop_spec in H; [|lia]. by destruct H as [->|(i & -> & _)].
  - apply send_only_outbox in H as [-> _]. done.
Qed.

(** The pending messages of a node are among [ms]. *)
Definition pending_from node (ms : list raft_message_t) : Prop :=
  ∀ m, m ∈ pending_append_entries node ∨ m ∈ pending_vote_requests node ∨ m ∈ pending_votes node →
       m ∈ ms.

(** What holds of the node while its inputs are latched. *)
Record latched node0 (ms : list raft_message_t) node : Prop := {
  latched_inv : node_inv node;
  latched_kept : applied_kept node0 node;
  latched_quiet : quiet node0 node;
  latched_pending : pending_from node ms;
  latched_append m : m ∈ pending_append_entries node → kind m = RAFT_MSG_APPEND_ENTRIES;
  latched_role : machine_state node = machine_state node0;
  latched_term : (current_term node0 < INT_MAX → current_term node < INT_MAX)%Z;
}.

Lemma latch_message_latched node0 ms node m :
  log_wf node0 → latched node0 ms node → m ∈ ms → benign node0 m →
  ∃ node', latch_message node m = Some node' ∧ latched node0 ms node'.
Proof.
  intros Hwf0 [[Hw Hr Hc Hid] Hk Hq Hp Ha Hs Ht] Hm Hb. unfold latch_message.
  assert (∀ f : raft_node_t U → raft_node_t U,
    log_wf (f node) → repl_wf (f node) → quiet node (f node) → applied_kept node (f node) →
    commit_index (f node) = commit_index node → machine_state (f node) = machine_state node →
    current_term (f node) = current_term node → pending_from (f node) ms →
    (∀ x, x ∈ pending_append_entries (f node) → kind x = RAFT_MSG_APPEND_ENTRIES) →
    ∃ node', Some (f node) = Some node' ∧ latched node0 ms node') as Hup.
  { intros f F1 F2 F3 F4 F5 F6 F7 F8 F9. exists (f node). split; [done|]. split; try done.
    - split; try done; [by rewrite F5, (ak_applied _ _ F4)|by rewrite (vm_id _ _ F3)].
    - by etrans.
    - by etrans.
    - by rewrite F6.
    - by rewrite F7. }
  destruct (kind m) eqn:Ek.
  - apply (Hup (λ n, n <| pending_vote_requests := queue_push RAFT_MAX_QUEUE (pending_vote_requests n) m |>));
      [by keep_log_wf node|by keep_repl_wf node|by apply quiet_same|by apply applied_kept_same|done..| |done].
    intros x Hx. rsimpl. destruct Hx as [Hx|[[Hx| ->]%queue_push_elem|Hx]]; [|..|]; try (apply Hp; tauto); done.
  - apply (Hup (λ n, n <| pending_votes := queue_push RAFT_MAX_QUEUE (pending_votes n) m |>));
      [by keep_log_wf node|by keep_repl_wf node|by apply quiet_same|by apply applied_kept_same|done..| |done].
    intros x Hx. rsimpl. destruct Hx as [Hx|[Hx|[Hx| ->]%queue_push_elem]]; try (apply Hp; tauto); done.
  - apply (Hup (λ n, n <| pending_append_entries := queue_push RAFT_MAX_QUEUE (pending_append_entries n) m |>));
      [by keep_log_wf node|by keep_repl_wf node|by apply quiet_same|by apply applied_kept_same|done..| |].
    + intros x Hx. rsimpl. destruct Hx as [[Hx| ->]%queue_push_elem|Hx]; try (apply Hp; tauto); done.
    + rsimpl. intros x [Hx| ->]%queue_push_elem; [by apply Ha|done].
  - pose proof (benign_kept _ _ _ Hwf0 Hk Hb) as [B1 _ _ B4].
    pose proof (log_wf_applied _ Hw) as Hap.
    destruct (handle_append_entries_response_spec node m Hw Hr) as (node' & H & Hw' & Hr' & Hq' & _);
      [lia|by apply B1|].
    exists node'. split; [done|].
    pose proof (append_response_kept _ _ _ H) as Hk'.
    pose proof (append_response_commit _ _ _ H) as Hcm.
    destruct (append_response_role _ _ _ H) as (R1 & R2 & R3 & R4 & R5 & R6).
    split; [split; [done|done| |by rewrite (vm_id _ _ Hq')]|by etrans|by etrans| | |by rewrite R1|].
    + rewrite (ak_applied _ _ Hk'). lia.
    + intros x. rewrite R3, R4, R5. apply Hp.
    + intros x. rewrite R3. apply Ha.
    + rewrite R6. lia.
Qed.

Lemma appended_kept node c node' : log_wf node → appended node c node' → applied_kept node node'.
Proof.
  intros Hw [_ _ _ Hl _ Hb Hrest]. pose proof (log_wf_applied _ Hw) as Hap.
  split; try (rewrite Hrest; done).
  - rewrite Hl. replace (last_applied node') with (last_applied node) by (rewrite Hrest; done). lia.
  - intros i Hi. apply Hb. lia.
Qed.

Lemma appended_same node c node' :
  appended node c node' →
  machine_state node' = machine_state node ∧ current_term node' = current_term node ∧
  commit_index node' = commit_index node ∧ last_applied node' = last_applied node ∧
  pending_append_entries node' = pending_append_entries node ∧
  pending_vote_requests node' = pending_vote_requests node ∧ pending_votes node' = pending_votes node.
Proof. intros [_ _ _ _ _ _ Hrest]. rewrite Hrest. done. Qed.

Lemma latch_commands_latched node0 ms cs node :
  latched node0 ms node → ∃ node', latch_commands cs node = Some node' ∧ latched node0 ms node'.
Proof.
  revert node; induction cs as [|c cs IH]; intros node Hl; cbn [latch_commands]; [eauto|].
  case_match; [|eauto]. bools. pose proof Hl as [[Hw Hr Hc Hid] Hk Hq Hp Ha Hs Ht].
  destruct (append_entry_appended node c) as (n1 & -> & Hap); [done..|]. bind_simpl. apply IH.
  pose proof (appended_same _ _ _ Hap) as (E1 & E2 & E3 & E4 & E5 & E6 & E7).
  split; [split; [by apply Hap|by apply Hap|lia|by rewrite (vm_id _ _ (appended_quiet _ _ _ Hap))]|..].
  - etrans; [done|]. by eapply appended_kept.
  - etrans; [done|]. apply Hap.
  - intros m. rewrite E5, E6, E7. apply Hp.
  - intros m. rewrite E5. apply Ha.
  - by rewrite E1.
  - by rewrite E2.
Qed.

Lemma latch_inputs_latched {T} (tr : raft_transport_t T) node ctx :
  node_inv node → (∀ m, m ∈ (recv tr ctx RAFT_MAX_QUEUE).2 → benign node m) →
  ∃ node' ctx', raft_node_latch_inputs tr node ctx = Some (node', ctx') ∧
    latched node (recv tr ctx RAFT_MAX_QUEUE).2 node'.
Proof.
  intros [Hw Hr Hc Hid] Hb. unfold raft_node_latch_inputs.
  set (n0 := node <| pending_append_entries := [] |> <| pending_vote_requests := [] |>
                  <| pending_votes := [] |>).
  assert (∀ o, (∀ m, m ∈ o → m ∈ outbox node) →
    latched node (recv tr ctx RAFT_MAX_QUEUE).2 (n0 <| outbox := o |>)) as Hl.
  { intros o Ho. split; [split; [by keep_log_wf node|by keep_repl_wf node|done|done]|..]; try done.
    - split; [by apply vote_mono_same|]. intros m Hm. left. by apply Ho.
    - intros m [Hm|[Hm|Hm]]; by apply elem_of_nil in Hm.
    - intros m Hm. by apply elem_of_nil in Hm. }
  destruct (running n0); simpl; [|eexists _, _; split; [done|]; apply Hl; by intros m ?%elem_of_nil].
  destruct (recv tr ctx RAFT_MAX_QUEUE) as [ctx1 messages] eqn:E. simpl in *.
  destruct (for_each_defined (latched node messages) latch_message messages n0)
    as (n1 & H1 & Hl1).
  { intros m n Hm Hn. apply (latch_message_latched node); [done|done|done|by apply Hb]. }
  { specialize (Hl (outbox node)). by apply Hl. }
  rewrite H1. bind_simpl. destruct (recv_commands tr ctx1 RAFT_MAX_QUEUE) as [ctx2 commands].
  case_match; [|by eauto].
  destruct (latch_commands_latched node messages commands n1 Hl1) as (n2 & -> & Hl2).
  bind_simpl. eauto.
Qed.

(** ** Actions *)

Lemma quiet_voting (n1 n2 n3 : raft_node_t U) : quiet n1 n2 → voting n2 n3 → voting n1 n3.
Proof.
  intros [M1 O1] [M2 O2]. split; [by etrans|]. rewrite <- (vm_id _ _ M1).
  intros m [[?|[Hb Hs]]%O1|?]%O2; [by left|right|by right].
  rewrite (vm_id _ _ M1). split; [done|]. by rewrite Hb.
Qed.

Lemma voting_of_quiet (n1 n2 : raft_node_t U) : quiet n1 n2 → voting n1 n2.
Proof.
  intros [M O]. split; [done|]. intros m [?|[Hb Hs]]%O; [by left|right].
  split; [done|]. by rewrite Hb.
Qed.

Lemma record_vote_frame node id :
  let n := node_record_vote node id in
  n = node <| votes_received := votes_received n |>.
Proof. unfold node_record_vote. repeat case_match; by destruct node. Qed.

Lemma queue_requests node (mk : raft_node_t U → string → option raft_message_t) ps :
  (∀ n p, only_outbox node n → ∃ m, mk n p = Some m) →
  ∃ node', for_each (λ n p, m ← mk n p; Some (node_queue_message n m)) ps node = Some node' ∧
    only_outbox node node' ∧
    ∀ m, m ∈ outbox node' → m ∈ outbox node ∨ ∃ n p, only_outbox node n ∧ mk n p = Some m.
Proof.
  intros Hmk.
  destruct (for_each_defined (λ n, only_outbox node n ∧
      ∀ m, m ∈ outbox n → m ∈ outbox node ∨ ∃ n p, only_outbox node n ∧ mk n p = Some m)
    (λ n p, m ← mk n p; Some (node_queue_message n m)) ps node) as (node' & H & H1 & H2).
  - intros p n _ [Ho Hm]. destruct (Hmk n p Ho) as [m Em]. rewrite Em. bind_simpl.
    eexists. split; [done|]. split; [etrans; [done|apply queue_message_only_outbox]|].
    intros m' [?| ->]%queue_message_elem; [by apply Hm|right; eauto].
  - split; [done|]. by left.
  - by exists node'.
Qed.

Lemma become_candidate_spec node clock :
  node_inv node → (current_term node < INT_MAX)%Z →
  ∃ node', action_become_candidate node clock = Some node' ∧ node_inv node' ∧ voting node node' ∧
    current_term node' = (current_term node + 1)%Z.
Proof.
  intros [Hw Hr Hc Hid] Ht. unfold action_become_candidate, int_incr.
  rewrite (proj2 (Z.ltb_lt _ _)) by done. bind_simpl. cbv zeta.
  set (n1 := node <| current_term := _ |> <| voted_for := _ |> <| votes_received := [] |>).
  pose proof (record_vote_frame n1 (node_id (config n1))) as Hrec. cbv zeta in Hrec.
  set (n2 := node_record_vote n1 (node_id (config n1))) in *. clearbody n2.
  set (n3 := n2 <| leader_id := "" |> <| persist_dirty := true |>).
  set (n4 := n3 <| election_deadline_ms := _ |>).
  assert (log_wf n4) as Hw4 by (unfold n4, n3; rewrite Hrec; by keep_log_wf node).
  assert (repl_wf n4) as Hr4 by (unfold n4, n3; rewrite Hrec; by keep_repl_wf node).
  assert (last_applied n4 = last_applied node ∧ commit_index n4 = commit_index node ∧
    current_term n4 = (current_term node + 1)%Z ∧ persist_dirty n4 = true ∧
    voted_for n4 = strncpy RAFT_MAX_ID (node_id (config node)) ∧
    config n4 = config node ∧ storage n4 = storage node ∧ outbox n4 = outbox node)
    as (E1 & E2 & E3 & E4 & E5 & E6 & E7 & E8) by (unfold n4, n3; rewrite Hrec; done).
  clearbody n4. clear n3.
  destruct (queue_requests n4
    (λ n p, t ← node_last_log_term n; Some (vote_request n t p)) (peers (config n4)))
    as (node' & H' & Ho & Hm).
  { intros n p Hon. destruct (node_last_log_term_defined n) as [t ->]; [|bind_simpl; eauto].
    apply (only_outbox_log_wf n4 n Hon Hw4). }
  exists node'. split.
  { rewrite <- H'. clear. induction (peers (config n4)) as [|p ps IH] in n4 |- *; [done|].
    cbn [for_each]. destruct (node_last_log_term n4); bind_simpl; [apply IH|done]. }
  assert (node' = n4 <| outbox := outbox node' |>) as Eo by apply Ho.
  assert (current_term node' = current_term n4 ∧ voted_for node' = voted_for n4 ∧
          last_applied node' = last_applied n4 ∧ commit_index node' = commit_index n4 ∧
          persist_dirty node' = true ∧ config node' = config node ∧ storage node' = storage node)
    as (F1 & F2 & F3 & F4 & F5 & F6 & F7) by (rewrite Eo; rsimpl; done).
  split_and!; [split|split|lia].
  - by eapply only_outbox_log_wf.
  - by eapply only_outbox_repl_wf.
  - lia.
  - by rewrite F6.
  - split; [lia|lia|congruence|by rewrite F6|by rewrite F7].
  - intros m [?|(n & p & Hon & Hmk)]%Hm; [left; by rewrite <- E8|right].
    apply bind_Some in Hmk as (t & _ & [= <-]).
    assert (config n = config n4 ∧ current_term n = current_term n4) as [G1 G2]
      by (rewrite (only_outbox_eq _ _ Hon); done).
    unfold vote_request. rsimpl. rewrite G1, E6. split; [done|].
    unfold ballot. rsimpl. intros t' c [= <- <-]. rewrite F1, F2, E5, G2, (valid_id_strncpy _ Hid).
    split_and!; [done|done|by apply valid_id_nonempty].
Qed.

Lemma vote_response_indices node message :
  commit_index (node_handle_vote_response node message) = commit_index node ∧
  last_applied (node_handle_vote_response node message) = last_applied node.
Proof.
  unfold node_handle_vote_response, node_record_vote, node_handle_term_update.
  repeat case_match; done.
Qed.

Lemma broadcast_spec node :
  node_inv node →
  ∃ node', node_broadcast_append_entries node = Some node' ∧ node_inv node' ∧ voting node node' ∧
    only_outbox node node'.
Proof.
  intros [Hw Hr Hc Hid]. destruct (broadcast_defined node Hw Hr) as (node' & H & Ho).
  exists node'. split_and!; [done| |by apply voting_of_quiet, broadcast_quiet|done].
  split; [by eapply only_outbox_log_wf|by eapply only_outbox_repl_wf|..];
    rewrite (only_outbox_eq _ _ Ho); done.
Qed.

Lemma node_inv_ext node node' :
  log node' = log node → log_count node' = log_count node →
  snapshot_last_included_index node' = snapshot_last_included_index node →
  commit_index node' = commit_index node → last_applied node' = last_applied node →
  peers (config node') = peers (config node) → next_index node' = next_index node →
  match_index node' = match_index node → node_id (config node') = node_id (config node) →
  node_inv node → node_inv node'.
Proof.
  intros E1 E2 E3 E4 E5 E6 E7 E8 E9 [Hw Hr Hc Hid].
  split; [by eapply log_wf_ext|by eapply repl_wf_ext|by rewrite E4, E5|by rewrite E9].
Qed.

(** The pass over the peers that resets the replication progress. *)
Lemma reset_progress node ps :
  log_wf node → repl_wf node → (∀ i, i ∈ ps → (i < RAFT_MAX_PEERS)%nat) →
  ∃ node', for_each (λ node i,
    n ← array_set (next_index node) i (node_last_log_index node + 1)%Z;
    m ← array_set (match_index node) i 0%Z;
    n ← (if (node_last_log_index node + 1 <? node_log_base_index node)%Z
         then array_set n i (node_log_base_index node) else Some n);
    Some (node <| next_index := n |> <| match_index := m |>)) ps node = Some node' ∧
    repl_wf node' ∧ node' = node <| next_index := next_index node' |> <| match_index := match_index node' |>.
Proof.
  intros Hw Hr Hps.
  apply (for_each_defined (λ n, repl_wf n ∧
    n = node <| next_index := next_index n |> <| match_index := match_index n |>));
    [|split; [done|by destruct node]].
  intros i n Hi [[R1 R2 R3 R4] En]. specialize (Hps i Hi).
  assert (node_last_log_index n = node_last_log_index node ∧
          node_log_base_index n = node_log_base_index node) as [-> ->] by (rewrite En; done).
  unfold array_set. rewrite R2, R3, (proj2 (Nat.ltb_lt _ _)) by done. bind_simpl.
  pose proof (log_core_count _ Hw) as Hcount.
  assert (snapshot_last_included_index n = snapshot_last_included_index node) as Es by (rewrite En; done).
  rewrite (proj2 (Z.ltb_ge _ _)) by (unfold node_last_log_index, node_log_base_index; lia). bind_simpl.
  eexists. split; [done|]. split; [split; rsimpl; rewrite ?length_insert; try done|].
  - apply Forall_insert; [done|]. rewrite Es. unfold node_last_log_index. lia.
  - rewrite En at 1. by destruct node.
Qed.

Lemma become_leader_spec node clock :
  node_inv node →
  ∃ node', action_become_leader node clock = Some node' ∧ node_inv node' ∧ voting node node'.
Proof.
  intros [Hw Hr Hc Hid]. unfold action_become_leader.
  set (n1 := node <| leader_id := _ |>).
  assert (log_wf n1) as Hw1 by by keep_log_wf node.
  assert (repl_wf n1) as Hr1 by by keep_repl_wf node.
  destruct (reset_progress n1 (seq 0 (length (peers (config n1)))) Hw1 Hr1) as (n2 & -> & Hr2 & E2).
  { intros i Hi%elem_of_seq. pose proof (repl_wf_peers _ Hr1). lia. }
  bind_simpl. destruct (broadcast_spec n2) as (n3 & -> & Hi3 & Hv3 & _).
  { split; [rewrite E2; by keep_log_wf n1|done|rewrite E2; exact Hc|rewrite E2; exact Hid]. }
  bind_simpl. eexists. split; [done|]. split; [by apply (node_inv_ext n3)|].
  assert (quiet node n2) as Hq by (rewrite E2; by apply quiet_same).
  assert (voting node n3) as [M O] by by eapply quiet_voting.
  split; [|exact O]. etrans; [exact M|]. by apply vote_mono_same.
Qed.

Lemma handle_append_inv node message clock :
  node_inv node → kind message = RAFT_MSG_APPEND_ENTRIES → benign node message →
  ∃ node', node_handle_append_entries node message clock = Some node' ∧ node_inv node' ∧ quiet node node'.
Proof.
  intros [Hw Hr Hc Hid] Hk Hb.
  destruct (handle_append_entries_spec node message clock Hw) as (node' & H & Hw' & Hq & Hr').
  exists node'. split_and!; [done| |done]. split; [done|by apply Hr'| |by rewrite (vm_id _ _ Hq)].
  unfold node_handle_append_entries in H.
  set (n1 := node_handle_term_update node message) in *.
  assert (applied_kept node n1) as Hk1 by apply term_update_kept.
  assert (commit_index n1 = commit_index node) as Ec by apply term_update_frame.
  assert (log_wf n1) as Hw1 by by apply term_update_log_wf.
  case_match; bind_simpl_in H.
  - apply bind_Some in H as ([n2 ok] & Hf & [= <-]).
    change (last_applied n2 ≤ commit_index n2)%Z.
    eapply append_entries_commit in Hf; [exact Hf|by keep_log_wf n1| |].
    + rsimpl. rewrite Ec, (ak_applied _ _ Hk1). done.
    + intros e He Hi. eapply (benign_entries _ message); [|done|done|done].
      eapply benign_kept; [exact Hw| |exact Hb]. etrans; [exact Hk1|]. by apply applied_kept_same.
  - simplify_eq. unfold node_queue_message. rsimpl. rewrite Ec, (ak_applied _ _ Hk1). done.
Qed.

Lemma handle_vote_request_inv node message clock :
  node_inv node → benign node message →
  ∃ node', node_handle_vote_request node message clock = Some node' ∧ node_inv node' ∧ voting node node'.
Proof.
  intros [Hw Hr Hc Hid] [_ _ [Hs Hne] _].
  destruct (handle_vote_request_spec node message clock Hw Hs Hne) as (node' & H & Hw' & Hv & Hr').
  exists node'. split_and!; [done| |done]. split; [done|by apply Hr'| |by rewrite (vm_id _ _ Hv)].
  assert (commit_index (node_handle_term_update node message) = commit_index node) as Ec
    by apply term_update_frame.
  pose proof (ak_applied _ _ (term_update_kept node message)) as Ea.
  destruct (handle_vote_request_cases node message clock) as [[_ E]|[_ E]]; [apply Hw|..];
    rewrite E in H; injection H as <-; generalize dependent (node_handle_term_update node message);
    intros n1 ? ? ? ?; unfold node_queue_message; cbv zeta; rsimpl; lia.
Qed.

(** An action is defined, keeps the invariant and casts votes by the rules. *)
Definition acts node (r : option (raft_node_t U)) : Prop :=
  ∃ n, r = Some n ∧ node_inv n ∧ voting node n.

Lemma acts_quiet node n : node_inv n → quiet node n → acts node (Some n).
Proof. intros. exists n. split_and!; [done..|]. by apply voting_of_quiet. Qed.

Lemma acts_after node n r : quiet node n → acts n r → acts node r.
Proof. intros Hq (n' & -> & Hi & Hv). exists n'. split_and!; [done..|]. by eapply quiet_voting. Qed.

Lemma handle_append_acts node clock :
  node_inv node → (∀ m, m ∈ pending_append_entries node →
    kind m = RAFT_MSG_APPEND_ENTRIES ∧ benign node m) →
  acts node (action_handle_append_entries node clock).
Proof.
  intros Hi Hp. unfold action_handle_append_entries.
  destruct (pending_append_entries node) as [|m l]; [by apply acts_quiet|].
  destruct (Hp m) as [Hk Hb]; [by left|].
  apply (acts_after _ (node <| pending_append_entries := l |>)); [by apply quiet_same|].
  destruct (handle_append_inv (node <| pending_append_entries := l |>) m clock) as (n & -> & ? & Hq).
  - by apply (node_inv_ext node).
  - done.
  - apply (benign_kept node); [apply Hi|by apply applied_kept_same|done].
  - by apply acts_quiet.
Qed.

Lemma handle_vote_request_acts node clock :
  node_inv node → (∀ m, m ∈ pending_vote_requests node → benign node m) →
  acts node (action_handle_vote_request node clock).
Proof.
  intros Hi Hp. unfold action_handle_vote_request.
  destruct (pending_vote_requests node) as [|m l]; [by apply acts_quiet|].
  apply (acts_after _ (node <| pending_vote_requests := l |>)); [by apply quiet_same|].
  apply handle_vote_request_inv; [by apply (node_inv_ext node)|].
  apply (benign_kept node); [apply Hi|by apply applied_kept_same|]. apply Hp. by left.
Qed.

Lemma handle_vote_acts node clock : node_inv node → acts node (action_handle_vote node clock).
Proof.
  intros Hi. unfold action_handle_vote. destruct (pending_votes node) as [|m l]; [by apply acts_quiet|].
  apply (acts_after _ (node <| pending_votes := l |>)); [by apply quiet_same|].
  set (n1 := node <| pending_votes := l |>).
  assert (node_inv n1) as [Hw1 Hr1 Hc1 Hid1] by by apply (node_inv_ext node).
  destruct (handle_vote_response_spec n1 m) as (Hq & Hlw & Hrw). apply acts_quiet; [|done].
  split; [by apply Hlw|by apply Hrw| |by rewrite (vm_id _ _ Hq)].
  by destruct (vote_response_indices n1 m) as [-> ->].
Qed.

Lemma send_heartbeat_acts node clock : node_inv node → acts node (action_send_heartbeat node clock).
Proof.
  intros Hi. unfold action_send_heartbeat.
  destruct (broadcast_spec node Hi) as (n & -> & Hin & [M O] & _). bind_simpl.
  eexists. split; [done|]. split; [by apply (node_inv_ext n)|].
  split; [|exact O]. etrans; [exact M|]. by apply vote_mono_same.
Qed.

(** Every transition of the table. *)
Lemma action_spec t node clock :
  t ∈ RAFT_TRANSITIONS → node_inv node → (current_term node < INT_MAX)%Z →
  (∀ m, m ∈ pending_append_entries node → kind m = RAFT_MSG_APPEND_ENTRIES ∧ benign node m) →
  (∀ m, m ∈ pending_vote_requests node → benign node m) →
  acts node (action t node clock).
Proof.
  intros Ht Hi Hterm Ha Hv.
  assert (acts node (action_become_candidate node clock)) as H1.
  { destruct (become_candidate_spec node clock Hi Hterm) as (n & ? & ? & ? & _). by exists n. }
  pose proof (handle_append_acts node clock Hi Ha) as H2.
  pose proof (handle_vote_request_acts node clock Hi Hv) as H3.
  pose proof (handle_vote_acts node clock Hi) as H4.
  pose proof (send_heartbeat_acts node clock Hi) as H5.
  pose proof (become_leader_spec node clock Hi) as H6.
  assert (acts node (action_ignore_vote node clock)) as H7
    by (apply acts_quiet; [by apply (node_inv_ext node)|by apply quiet_same]).
  assert (acts node (action_ignore_vote_request node clock)) as H8
    by (apply acts_quiet; [by apply (node_inv_ext node)|by apply quiet_same]).
  assert (acts node (action_back_to_follower_due_to_timeout node clock)) as H9
    by (apply acts_quiet; [by apply (node_inv_ext node)|by apply quiet_same]).
  unfold RAFT_TRANSITIONS in Ht.
  repeat (apply elem_of_cons in Ht as [->|Ht]; [assumption|]). by apply elem_of_nil in Ht.
Qed.

(** ** Dumping the outputs *)

(** The node as it is saved, the disk operations of the compaction before the
    save, and the result. *)
Definition dumped node node' (ops : list (disk_t → disk_t)) : Prop :=
  ∃ n ops1, node_inv n ∧ quiet node n ∧
    (ops1 = [] ∨ ∃ text, ops1 = atomic_replace_path (storage_snapshot_path (storage n)) text) ∧
    ((persist_dirty n = true ∧ node' = n <| persist_dirty := false |> ∧
      ops = ops1 ++ raft_storage_node_save n) ∨
     (persist_dirty n = false ∧ node' = n ∧ ops = ops1)).

Lemma dump_prepare_spec node :
  node_inv node → ∃ node' ops, dump_prepare node = Some (node', ops) ∧ dumped node node' ops.
Proof.
  intros [Hw Hr Hc Hid]. unfold dump_prepare.
  pose proof (log_wf_applied _ Hw) as Hap.
  assert (∃ n1, (if node_is_leader node then node_advance_commit_index node else Some node) = Some n1 ∧
    log_wf n1 ∧ repl_wf n1 ∧ quiet node n1 ∧ (last_applied n1 ≤ commit_index n1)%Z)
    as (n1 & -> & Hw1 & Hr1 & Hq1 & Hc1).
  { case_match; [|by exists node].
    destruct (advance_commit_wf node Hw) as (n1 & H1 & Hw1 & Hr1 & ? & ?); [lia|].
    exists n1. split_and!; [done|done|by apply Hr1|by eapply advance_commit_quiet|lia]. }
  bind_simpl. unfold node_apply_committed.
  destruct (apply_loop_applied _ n1 Hw1 eq_refl) as (n2 & -> & [A1 _ Hw2 Hr2 Hq2 (_ & _ & _ & A4)]).
  bind_simpl. specialize (Hr2 Hr1).
  destruct (drive_membership_spec n2 Hw2 Hr2) as (n3 & -> & Hw3 & Hr3 & Hq3 & _ & C3 & A3 & _).
  bind_simpl.
  assert (quiet node n3) as Hq by (etrans; [exact Hq1|]; etrans; [exact Hq2|exact Hq3]).
  assert (node_inv n3) as Hi3 by (split; [done|done|lia|by rewrite (vm_id _ _ Hq)]).
  destruct (compactible_spec n3 Hr3) as (k & Hk & _).
  destruct (node_should_compact n3) as [b|] eqn:Eb;
    [|unfold node_should_compact in Eb; by rewrite Hk in Eb].
  bind_simpl. destruct b.
  - destruct (do_compact_spec n3 Hw3 Hr3 Eb)
      as (target & tm & n4 & ops & -> & _ & _ & _ & _ & _ & Hw4 & Hr4 & _ & _ & C4 & A4' & _ & Hq4 & Hops).
    bind_simpl. assert (node_inv n4) as Hi4
      by (split; [done|done|lia|by rewrite (vm_id _ _ Hq4), (vm_id _ _ Hq)]).
    destruct (persist_dirty n4) eqn:Ed; (eexists _, _; split; [reflexivity|]); exists n4, ops;
      (split_and!; [done|by etrans|right; by eexists|]); [by left|by right].
  - bind_simpl.
    destruct (persist_dirty n3) eqn:Ed; (eexists _, _; split; [reflexivity|]); exists n3, [];
      (split_and!; [done|done|by left|]); [by left|by right].
Qed.

End Facts.
