(* ===== verification/FsmProps.v ===== *)
(** The theorems about a tick of a node and about the elections of the role
    machine. *)
From S2P Require Import Prelude CString Types Config NodeLog Samples Replication Handlers LogMerge HandlerFacts Storage StorageFacts MemTransport Membership MembershipFacts Fsm FsmFacts.

(** A runtime with the documented behaviour. *)
Definition first_enabled {U} (ts : list (transition (U:=U))) (node : raft_node_t U) (clock : Z)
    : option (transition (U:=U)) :=
  head (filter (λ t, enabled node clock t = true) ts).

Lemma head_filter_Some {A} (P : A → Prop) `{∀ x, Decision (P x)} (l : list A) x :
  head (filter P l) = Some x → ∃ pre post, l = pre ++ x :: post ∧ P x ∧ ∀ y, y ∈ pre → ¬ P y.
Proof.
  induction l as [|y l IH]; [done|]. rewrite filter_cons. case_decide as Hy.
  - intros [= ->]. exists [], l. split_and!; [done|done|]. by intros y ?%elem_of_nil.
  - intros (pre & post & -> & ? & Hpre)%IH. exists (y :: pre), post. split_and!; [done|done|].
    intros z [->|?]%elem_of_cons; [done|by apply Hpre].
Qed.

#[export] Instance first_enabled_laws {U} : RuntimeLaws (@first_enabled U).
Proof.
  split; unfold first_enabled.
  - intros ts node clock t (pre & post & -> & Ht & Hpre)%head_filter_Some.
    exists pre, post. split_and!; [done|done|]. intros t' Ht'. by apply not_true_is_false, Hpre.
  - intros ts node clock t Hn Ht. apply not_true_is_false. intros He.
    assert (t ∈ filter (λ t, enabled node clock t = true) ts) as Hin by (by apply list_elem_of_filter).
    destruct (filter _ ts); [by apply elem_of_nil in Hin|done].
Qed.

(** ** Roles and quorums *)

Section Roles.
  Context {U : Type}.
  Implicit Types node : raft_node_t U.

(** No action changes the role the runtime has published. *)
Lemma action_role t node clock node' :
  action t node clock = Some node' → t ∈ RAFT_TRANSITIONS → log_wf node →
  machine_state node' = machine_state node.
Proof.
  intros H Ht Hw.
  assert (∀ n : raft_node_t U, node_broadcast_append_entries n = Some node' → machine_state node' = machine_state n) as Hbc
    by (intros n Hn; by apply broadcast_only_outbox in Hn as [-> _]).
  unfold RAFT_TRANSITIONS in Ht.
  assert (action_become_candidate node clock = Some node' → machine_state node' = machine_state node) as H1.
  { unfold action_become_candidate. intros Hx. opts.
    match type of Hx with for_each _ _ ?n0 = _ =>
      apply (for_each_inv (λ n, machine_state n = machine_state n0)) in Hx; [|intros p n1 n2 _ <- Hs; by opts|done] end.
    rewrite Hx. unfold node_record_vote. by repeat case_match. }
  assert (action_handle_append_entries node clock = Some node' → machine_state node' = machine_state node) as H2.
  { unfold action_handle_append_entries, node_handle_append_entries. intros Hx.
    destruct (pending_append_entries node) as [|m l]; [by simplify_eq|].
    set (n1 := node <| pending_append_entries := l |>) in *.
    destruct (term_update_frame n1 m) as (Er & _).
    assert (log_wf (node_handle_term_update n1 m)) as Hw1 by (apply term_update_log_wf; by keep_log_wf node).
    apply bind_Some in Hx as ([n2 ok] & Hf & [= <-]). change (machine_state n2 = machine_state n1).
    rewrite <- Er. case_match; [|by simplify_eq].
    apply append_entries_from_leader_frame in Hf as (_ & _ & _ & -> & _); [done|].
    by keep_log_wf (node_handle_term_update n1 m). }
  assert (action_handle_vote_request node clock = Some node' → machine_state node' = machine_state node) as H3.
  { unfold action_handle_vote_request. intros Hx.
    destruct (pending_vote_requests node) as [|m l]; [by simplify_eq|].
    set (n1 := node <| pending_vote_requests := l |>) in *.
    destruct (term_update_frame n1 m) as (Er & _). change (machine_state node) with (machine_state n1).
    rewrite <- Er.
    destruct (handle_vote_request_cases n1 m clock) as [[_ E]|[_ E]];
      [apply (log_core_ext node); done || apply Hw|..]; rewrite E in Hx; by injection Hx as <-. }
  assert (action_handle_vote node clock = Some node' → machine_state node' = machine_state node) as H4.
  { unfold action_handle_vote. intros Hx. destruct (pending_votes node) as [|m l]; [by simplify_eq|].
    injection Hx as <-. unfold node_handle_vote_response, node_record_vote, node_handle_term_update.
    by repeat case_match. }
  assert (action_send_heartbeat node clock = Some node' → machine_state node' = machine_state node) as H5.
  { unfold action_send_heartbeat. intros Hx. opts.
    match goal with E : node_broadcast_append_entries _ = _ |- _ =>
      by apply broadcast_only_outbox in E as [-> _] end. }
  assert (action_become_leader node clock = Some node' → machine_state node' = machine_state node) as H6.
  { unfold action_become_leader. intros Hx. opts.
    match goal with E : node_broadcast_append_entries _ = _ |- _ =>
      apply broadcast_only_outbox in E as [-> _] end. rsimpl.
    match goal with E : for_each _ _ ?n0 = _ |- _ =>
      apply (for_each_inv (λ n, machine_state n = machine_state n0)) in E; [exact E| |done] end.
    intros i n1 n2 _ <- Hs. by opts. }
  assert (action_ignore_vote node clock = Some node' → machine_state node' = machine_state node) as H7
    by (intros [= <-]; done).
  assert (action_ignore_vote_request node clock = Some node' → machine_state node' = machine_state node) as H8
    by (intros [= <-]; done).
  assert (action_back_to_follower_due_to_timeout node clock = Some node' →
          machine_state node' = machine_state node) as H9 by (intros [= <-]; done).
  repeat (apply elem_of_cons in Ht as [->|Ht]; [by auto|]). by apply elem_of_nil in Ht.
Qed.

(** The test of the code is the majority of the specification. *)
Lemma vote_quorum_iff node members :
  node_has_vote_quorum node members = true ↔ majority_of (λ m, m ∈ votes_received node) members.
Proof.
  unfold node_has_vote_quorum, majority_of. rewrite Nat.leb_le.
  rewrite (list_filter_iff _ (λ m, m ∈ votes_received node)); [done|].
  intros m. apply member_list_contains_elem.
Qed.

Lemma majority_guard node clock :
  guard_received_majority_votes node clock = true ↔
  majority_of (λ m, m ∈ votes_received node) (old_members (config_state node)) ∧
  (new_members (config_state node) ≠ [] →
   majority_of (λ m, m ∈ votes_received node) (new_members (config_state node))).
Proof.
  unfold guard_received_majority_votes. rewrite <- configuration_is_joint_true, <- !vote_quorum_iff.
  destruct (node_has_vote_quorum node (old_members (config_state node))); simpl; [|naive_solver].
  destruct (configuration_is_joint (config_state node)); simpl; naive_solver.
Qed.

End Roles.

Section Props.
  Context {U : Type}.
  Implicit Types node : raft_node_t U.
  Context {T : Type} (tr : raft_transport_t T) (inflight : T → raft_message_t → Prop).
  Context {Htr : TransportLaws tr inflight}.
  Context (evaluate : list (transition (U:=U)) → raft_node_t U → Z → option (transition (U:=U))).
  Context {Hev : RuntimeLaws evaluate}.

(** The laws of the runtime determine it: it takes the first enabled transition. *)
Lemma evaluate_first_enabled ts node clock : evaluate ts node clock = first_enabled ts node clock.
Proof using Hev.
  unfold first_enabled. destruct (evaluate ts node clock) as [t|] eqn:E.
  - apply evaluate_some in E as (pre & post & -> & Ht & Hpre). induction pre as [|p pre IH].
    + cbn [app]. by rewrite filter_cons_True.
    + cbn [app]. rewrite filter_cons_False by (rewrite Hpre by left; done).
      apply IH. intros t' Hin. apply Hpre. by right.
  - assert (filter (λ t, enabled node clock t = true) ts = []) as ->; [|done].
    destruct (filter _ ts) as [|t l] eqn:F; [done|].
    assert (t ∈ filter (λ t, enabled node clock t = true) ts) as Hin by (rewrite F; left).
    apply list_elem_of_filter in Hin as [H1 H2]. by rewrite (evaluate_none _ _ _ t E H2) in H1.
Qed.

(** Whatever transition is taken after the inputs are latched. *)
Lemma transition_acts clock node ms n1 :
  log_wf node → latched node ms n1 → (current_term node < INT_MAX)%Z → (∀ m, m ∈ ms → benign node m) →
  acts n1 (commit_transition (evaluate RAFT_TRANSITIONS n1 clock) n1 clock) ∧
  ∀ t, evaluate RAFT_TRANSITIONS n1 clock = Some t → t ∈ RAFT_TRANSITIONS ∧
    ∀ m, m ∈ pending_append_entries n1 →
      kind m = RAFT_MSG_APPEND_ENTRIES ∧ benign (n1 <| machine_state := to_role t |>) m.
Proof using Hev.
  intros Hw [Hi1 Hk1 Hq1 Hp1 Ha1 _ Ht1] Ht Hb.
  assert (∀ t m, m ∈ ms → benign (n1 <| machine_state := to_role (U:=U) t |>) m) as Hbm.
  { intros t m Hm. apply (benign_kept node); [exact Hw| |by apply Hb].
    etrans; [exact Hk1|]. by apply applied_kept_same. }
  split.
  - destruct (evaluate RAFT_TRANSITIONS n1 clock) as [t|] eqn:E; [|by apply acts_quiet].
    apply evaluate_some in E as (pre & post & Hts & _).
    apply (acts_after _ (n1 <| machine_state := to_role t |>)); [by apply quiet_same|].
    apply action_spec.
    + rewrite Hts. apply elem_of_app. right. by left.
    + by apply (node_inv_ext n1).
    + by apply Ht1.
    + intros m Hm. split; [by apply Ha1|]. apply Hbm, Hp1. by left.
    + intros m Hm. apply Hbm, Hp1. by right; left.
  - intros t (pre & post & Hts & _)%evaluate_some. split; [rewrite Hts; apply elem_of_app; right; by left|].
    intros m Hm. split; [by apply Ha1|]. apply Hbm, Hp1. by left.
Qed.

Lemma dump_outputs_total node ctx disk :
  node_inv node →
  ∃ node' ctx' disk', raft_node_dump_outputs tr node ctx disk = Some (node', ctx', disk') ∧
    node_inv node' ∧ outbox node' = [] ∧ (current_term node ≤ current_term node')%Z.
Proof using Type.
  intros Hi. unfold raft_node_dump_outputs. destruct (running node); simpl.
  - destruct (dump_prepare_spec node Hi) as (n3 & ops & -> & (n & ops1 & Hin & Hqn & _ & Hcase)).
    bind_simpl. eexists _, _, _. split; [done|]. pose proof (vm_term _ _ Hqn).
    destruct Hcase as [(_ & -> & _)|(_ & -> & _)];
      (split_and!; [by apply (node_inv_ext n)|done|rsimpl; lia]).
  - eexists _, _, _. split; [done|]. split_and!; [by apply (node_inv_ext node)|done|rsimpl; lia].
Qed.

Lemma node_tick_total clock node ctx disk :
  node_inv node → (current_term node < INT_MAX)%Z →
  (∀ m, inflight ctx m → benign node m) →
  ∃ node' ctx' disk', node_tick tr evaluate clock node ctx disk = Some (node', ctx', disk') ∧
    node_inv node' ∧ outbox node' = [] ∧ (current_term node ≤ current_term node')%Z.
Proof using Htr Hev.
  intros Hi Ht Hb. unfold node_tick.
  assert (∀ m, m ∈ (recv tr ctx RAFT_MAX_QUEUE).2 → benign node m) as Hbr
    by (intros m Hm; by eapply Hb, recv_inflight).
  destruct (latch_inputs_latched tr node ctx Hi Hbr) as (n1 & ctx1 & -> & Hl). bind_simpl.
  destruct (transition_acts clock _ _ _ (node_inv_log _ Hi) Hl Ht Hbr) as [(n2 & -> & Hi2 & Hv2) _].
  bind_simpl. pose proof (vm_term _ _ (latched_quiet _ _ _ Hl)). pose proof (vm_term _ _ Hv2).
  destruct (dump_outputs_total n2 ctx1 disk Hi2) as (n3 & ctx3 & disk3 & E & Hi3 & Ho & Ht3).
  exists n3, ctx3, disk3. split_and!; [done|done|done|lia].
Qed.



End Props.

(** C14: two won elections share a voter whenever the two nodes have a member list
    in common among those in force, which covers two nodes of one configuration
    and every step of a membership change: the stable old configuration, the
    joint one, and the stable new one. *)
Theorem elections_share_a_voter {U} (n1 n2 : raft_node_t U) clock1 clock2 ms :
  guard_received_majority_votes n1 clock1 = true →
  guard_received_majority_votes n2 clock2 = true →
  (∀ n, n = n1 ∨ n = n2 → ms = old_members (config_state n) ∨
                          (ms = new_members (config_state n) ∧ ms ≠ [])) →
  ∃ voter, voter ∈ ms ∧ voter ∈ votes_received n1 ∧ voter ∈ votes_received n2.
Proof.
  intros [H1 H1']%majority_guard [H2 H2']%majority_guard Hms.
  apply (majority_of_intersect (λ m, m ∈ votes_received n1) (λ m, m ∈ votes_received n2)).
  - destruct (Hms n1) as [->|[-> ?]]; [by left|done|by apply H1'].
  - destruct (Hms n2) as [->|[-> ?]]; [by right|done|by apply H2'].
Qed.

(** ** Witnesses *)

Definition node_invb {U} (node : raft_node_t U) : bool :=
  log_wfb node && repl_wfb node && (last_applied node <=? commit_index node)%Z
  && valid_id (node_id (config node)).

Lemma node_invb_sound {U} (node : raft_node_t U) : node_invb node = true → node_inv node.
Proof.
  unfold node_invb. intros H. bools. split; [by apply log_wfb_sound|by apply repl_wfb_sound|done|done].
Qed.

Definition reply_in_flight : raft_memory_transport_t :=
  (raft_memory_transport_send sample_transport append_reply_from_b).1.

Lemma queued_reply m : queued reply_in_flight m → m = append_reply_from_b.
Proof.
  intros (q & Hq & Hm). vm_compute in Hq.
  repeat (apply elem_of_cons in Hq as [->|Hq];
    [first [by apply elem_of_nil in Hm|by apply list_elem_of_singleton in Hm]|]).
  by apply elem_of_nil in Hq.
Qed.


(** A candidate with the votes of two of the three members. *)
Definition candidate_a : raft_node_t nat :=
  leader_a <| machine_state := RAFT_ROLE_CANDIDATE |> <| votes_received := ["a"; "b"] |>
           <| voted_for := "a" |> <| election_deadline_ms := 1000%Z |>.


Lemma elections_share_a_voter_witness :
  ∃ voter, voter ∈ ["a"; "b"; "c"] ∧ voter ∈ votes_received candidate_a ∧ voter ∈ votes_received candidate_a.
Proof.
  apply (elections_share_a_voter candidate_a candidate_a 0 0).
  - vm_compute. reflexivity.
  - vm_compute. reflexivity.
  - intros n [->| ->]; left; reflexivity.
Defined.
