(* ===== verification/Progress.v ===== *)
(** Progress: a node does not only stay safe.  A member whose election deadline has
    passed starts an election at its next tick, and a cluster of one member elects
    it and applies what its clients submit, in three ticks. *)
From S2P Require Import Prelude CString Types Config NodeLog Samples Replication Handlers HandlerFacts Storage MemTransport Membership MembershipFacts Fsm FsmFacts FsmProps.

Section Progress.
  Context {U : Type}.
  Implicit Types node : raft_node_t U.
  Context {T : Type} (tr : raft_transport_t T) (inflight : T → raft_message_t → Prop).
  Context {Htr : TransportLaws tr inflight}.
  Context (evaluate : list (transition (U:=U)) → raft_node_t U → Z → option (transition (U:=U))).
  Context {Hev : RuntimeLaws evaluate}.

Lemma first_enabled_cons t ts node clock :
  first_enabled (t :: ts) node clock =
    if enabled node clock t then Some t else first_enabled ts node clock.
Proof.
  unfold first_enabled. rewrite filter_cons. destruct (enabled node clock t); by case_decide.
Qed.

(** *** Dumping when there is nothing to do *)

(** The state a tick leaves behind. *)
Record idle node : Prop := {
  idle_applied : last_applied node = commit_index node;
  idle_compact : node_should_compact node = Some false;
  idle_leader : node_is_leader node = true →
    commit_index node = node_last_log_index node ∧
    membership_state node = RAFT_MEMBERSHIP_STABLE ∧ requested_membership_pending node = false;
}.

Definition saved node : raft_node_t U * list (disk_t → disk_t) :=
  if persist_dirty node then (node <| persist_dirty := false |>, raft_storage_node_save node) else (node, []).

Lemma dump_idle node : idle node → dump_prepare node = Some (saved node).
Proof.
  intros [H1 H2 H3]. unfold dump_prepare.
  assert ((if node_is_leader node then node_advance_commit_index node else Some node) = Some node) as ->.
  { destruct (node_is_leader node); [|done]. unfold node_advance_commit_index.
    rewrite (proj1 (H3 eq_refl)). by rewrite Z.sub_diag. }
  bind_simpl. unfold node_apply_committed. rewrite H1, Z.sub_diag.
  change (apply_loop (Z.to_nat 0) node) with (Some node). bind_simpl.
  assert (node_maybe_drive_membership node = Some node) as ->.
  { unfold node_maybe_drive_membership. destruct (node_is_leader node) eqn:El; [|done].
    destruct (H3 eq_refl) as (_ & -> & ->). by destruct (running node). }
  bind_simpl. rewrite H2. bind_simpl. unfold saved. by destruct (persist_dirty node).
Qed.

(** The send at the end of a tick. *)
Lemma dump_outputs_idle node (ctx : T) disk :
  running node = true → idle node →
  raft_node_dump_outputs tr node ctx disk =
    Some ((saved node).1 <| outbox := [] |>, send_messages tr (outbox node) ctx, run_disk (saved node).2 disk).
Proof.
  intros Hr Hi. unfold raft_node_dump_outputs. rewrite Hr, dump_idle by done. cbn [negb]. bind_simpl.
  unfold saved. by destruct (persist_dirty node).
Qed.

(** *** Latching a follower's inputs *)

(** What latching leaves alone on a node that does not lead. *)
Record unled node node' : Prop := {
  unled_role : machine_state node' = machine_state node;
  unled_running : running node' = running node;
  unled_config : config node' = config node;
  unled_members : config_state node' = config_state node;
  unled_deadline : election_deadline_ms node' = election_deadline_ms node;
  unled_outbox : outbox node' = outbox node;
  unled_log : log node' = log node ∧ log_count node' = log_count node;
  unled_snapshot : snapshot_last_included_index node' = snapshot_last_included_index node ∧
                   snapshot_last_included_term node' = snapshot_last_included_term node;
  unled_commit : commit_index node' = commit_index node ∧ last_applied node' = last_applied node;
  unled_threshold : compaction_threshold node' = compaction_threshold node;
  unled_membership : membership_state node' = membership_state node ∧
                     requested_membership_pending node' = requested_membership_pending node;
  unled_application : application node' = application node;
}.

#[export] Instance unled_preorder : PreOrder unled.
Proof. split; [by split|]. intros n1 n2 n3 H1 H2.
  destruct H1 as [A1 A2 A3 A4 A5 A6 [A7 A8] [A9 A10] [A11 A12] A13 [A14 A15] A16].
  destruct H2 as [B1 B2 B3 B4 B5 B6 [B7 B8] [B9 B10] [B11 B12] B13 [B14 B15] B16].
  split; split_and?; congruence.
Qed.

Lemma latch_message_unled node m node' :
  machine_state node ≠ RAFT_ROLE_LEADER → latch_message node m = Some node' → unled node node'.
Proof.
  intros Hr H. unfold latch_message in H. destruct (kind m); [injection H as <-; by split..|].
  unfold node_handle_append_entries_response in H.
  assert (unled node (node_handle_term_update node m)) as Hu
    by (unfold node_handle_term_update; destruct (current_term node <? msg_term m)%Z; by split).
  rewrite (unled_role _ _ Hu), bool_decide_eq_false_2 in H by done. cbn [negb orb] in H. by simplify_eq.
Qed.

Lemma latch_inputs_unled node ctx node' ctx' :
  running node = true → machine_state node ≠ RAFT_ROLE_LEADER →
  raft_node_latch_inputs tr node ctx = Some (node', ctx') → unled node node'.
Proof.
  intros Hrun Hr H. unfold raft_node_latch_inputs in H. cbv zeta in H.
  set (n0 := node <| pending_append_entries := [] |> <| pending_vote_requests := [] |>
                  <| pending_votes := [] |>) in *.
  assert (unled node n0) as H0 by by split.
  rewrite (unled_running _ _ H0), Hrun in H. cbn [negb] in H.
  destruct (recv tr ctx RAFT_MAX_QUEUE) as [ctx1 ms].
  apply bind_Some in H as (n1 & H1 & H).
  assert (unled node n1) as Hu.
  { apply (for_each_inv (unled node)) in H1; [done| |done].
    intros m a b _ Ha Hb. etrans; [exact Ha|]. eapply latch_message_unled; [|exact Hb].
    by rewrite (unled_role _ _ Ha). }
  destruct (recv_commands tr ctx1 RAFT_MAX_QUEUE) as [ctx2 cs].
  assert (node_is_leader n1 = false) as Hnl.
  { unfold node_is_leader. rewrite (unled_role _ _ Hu). rewrite bool_decide_eq_false_2 by done.
    by rewrite andb_false_r. }
  rewrite Hnl in H. by simplify_eq.
Qed.

(** The fields a quiet dump depends on. *)
Lemma idle_unled node node' :
  machine_state node ≠ RAFT_ROLE_LEADER → unled node node' → idle node → idle node'.
Proof.
  intros Hr Hu [H1 H2 H3]. destruct Hu as [A1 A2 A3 A4 A5 A6 [A7 A8] [A9 A10] [A11 A12] A13 [A14 A15] A16].
  split; [congruence|..].
  - revert H2. unfold node_should_compact, node_compactible_index.
    by rewrite A1, A9, A12, A13, bool_decide_eq_false_2 by done.
  - unfold node_is_leader. rewrite A1, bool_decide_eq_false_2 by done. by rewrite andb_false_r.
Qed.

(** *** The election a timeout starts *)

Lemma outbox_outbox node a b : node <| outbox := a |> <| outbox := b |> = node <| outbox := b |>.
Proof. reflexivity. Qed.

Lemma outbox_same node o : outbox node = o → node <| outbox := o |> = node.
Proof. intros <-. by destruct node. Qed.

Lemma queue_vote_requests node t ps o :
  node_last_log_term node = Some t → (length o + length ps ≤ RAFT_MAX_QUEUE)%nat →
  for_each (λ node peer, t ← node_last_log_term node;
                         Some (node_queue_message node (vote_request node t peer))) ps (node <| outbox := o |>) =
    Some (node <| outbox := o ++ (vote_request node t <$> ps) |>).
Proof.
  intros Ht. revert o; induction ps as [|p ps IH]; intros o Hl; cbn [for_each fmap list_fmap].
  { by rewrite app_nil_r. }
  change (node_last_log_term (node <| outbox := o |>)) with (node_last_log_term node). rewrite Ht. bind_simpl.
  change (vote_request (node <| outbox := o |>) t p) with (vote_request node t p).
  unfold node_queue_message, queue_push. change (outbox (node <| outbox := o |>)) with o.
  simpl in Hl. rewrite (proj2 (Nat.ltb_lt _ _)) by lia.
  rewrite outbox_outbox.
  rewrite IH by (rewrite length_app; simpl; lia). by rewrite <- app_assoc.
Qed.

(** A candidate of the next term that has voted for itself, with its requests
    ready to be sent. *)
Record candidate_of node (clock : Z) node' : Prop := {
  cand_unled : unled node (node' <| election_deadline_ms := election_deadline_ms node |> <| outbox := outbox node |>);
  cand_term : current_term node' = (current_term node + 1)%Z;
  cand_vote : voted_for node' = strncpy RAFT_MAX_ID (node_id (config node));
  cand_votes : votes_received node' = [strncpy RAFT_MAX_ID (node_id (config node))];
  cand_deadline : ∃ n : raft_node_t U, config n = config node ∧
    election_deadline_ms node' = (clock + node_next_election_timeout n clock)%Z;
  cand_requests : ∃ t, outbox node' = vote_request node' t <$> peers (config node);
}.

Lemma become_candidate_exact node clock :
  node_inv node → (current_term node < INT_MAX)%Z → outbox node = [] →
  ∃ node', action_become_candidate node clock = Some node' ∧ candidate_of node clock node'.
Proof.
  intros [Hw Hr Hc Hid] Ht Ho. unfold action_become_candidate, int_incr.
  rewrite (proj2 (Z.ltb_lt _ _)) by done. bind_simpl. cbv zeta.
  set (n1 := node <| current_term := _ |> <| voted_for := _ |> <| votes_received := [] |>).
  assert (node_record_vote n1 (node_id (config n1)) =
          n1 <| votes_received := [strncpy RAFT_MAX_ID (node_id (config node))] |>) as -> by done.
  set (n2 := n1 <| votes_received := _ |> <| leader_id := "" |> <| persist_dirty := true |>).
  set (n3 := n2 <| election_deadline_ms := _ |>).
  assert (log_wf n3) as Hw3 by by keep_log_wf node.
  destruct (node_last_log_term_defined n3 Hw3) as [t Hlt].
  pose proof (repl_wf_peers _ Hr) as Hp.
  pose proof (queue_vote_requests n3 t (peers (config node)) [] Hlt
    ltac:(etrans; [exact Hp|by apply Nat.leb_le])) as Hq.
  rewrite (outbox_same n3) in Hq by done. change (peers (config n3)) with (peers (config node)). rewrite Hq.
  eexists. split; [done|]. split; [by split|done|done|done| |].
  - exists n2. by split.
  - exists t. done.
Qed.

Lemma idle_sending node d o : idle (node <| election_deadline_ms := d |> <| outbox := o |>) → idle node.
Proof. intros [H1 H2 H3]. split; [exact H1|exact H2|exact H3]. Qed.

Lemma idle_candidate node : idle node → idle (node <| machine_state := RAFT_ROLE_CANDIDATE |>) ∨
  machine_state node = RAFT_ROLE_LEADER.
Proof.
  intros [H1 H2 H3]. destruct (decide (machine_state node = RAFT_ROLE_LEADER)) as [|Hr]; [by right|left].
  split; [exact H1|..].
  - revert H2. unfold node_should_compact, node_compactible_index. rsimpl.
    by rewrite !bool_decide_eq_false_2 by done.
  - unfold node_is_leader. rsimpl. rewrite bool_decide_eq_false_2 by done. by rewrite andb_false_r.
Qed.

(** The tick of a follower whose deadline has passed. *)
Lemma timeout_tick clock node ctx disk :
  node_inv node → idle node → outbox node = [] → running node = true →
  machine_state node = RAFT_ROLE_FOLLOWER → node_self_is_member node = true →
  (election_deadline_ms node <= clock)%Z → (current_term node < INT_MAX)%Z →
  (∀ m, m ∈ (recv tr ctx RAFT_MAX_QUEUE).2 → benign node m) →
  ∃ n1 ctx1 n2, raft_node_latch_inputs tr node ctx = Some (n1, ctx1) ∧
    latched node (recv tr ctx RAFT_MAX_QUEUE).2 n1 ∧ unled node n1 ∧
    candidate_of (n1 <| machine_state := RAFT_ROLE_CANDIDATE |>) clock n2 ∧ idle n2 ∧ node_inv n2 ∧ running n2 = true ∧
    node_tick tr evaluate clock node ctx disk =
      Some ((saved n2).1 <| outbox := [] |>, send_messages tr (outbox n2) ctx1, run_disk (saved n2).2 disk).
Proof using Hev.
  intros Hi Hidle Ho Hrun Hrole Hself Hdl Ht Hb. unfold node_tick.
  destruct (latch_inputs_latched tr node ctx Hi) as (n1 & ctx1 & Hlatch & Hl); [done|].
  pose proof (latch_inputs_unled node ctx n1 ctx1 Hrun ltac:(by rewrite Hrole) Hlatch) as Hu.
  rewrite Hlatch. bind_simpl. rewrite (evaluate_first_enabled evaluate). unfold RAFT_TRANSITIONS.
  rewrite first_enabled_cons.
  assert (enabled n1 clock (mkTransition RAFT_ROLE_FOLLOWER RAFT_ROLE_CANDIDATE guard_timeout_expired
            action_become_candidate) = true) as ->.
  { unfold enabled. cbn [from_role guard]. unfold guard_timeout_expired, node_self_is_member in *.
    rewrite (unled_role _ _ Hu), (unled_running _ _ Hu), (unled_members _ _ Hu), (unled_config _ _ Hu),
      (unled_deadline _ _ Hu), Hrole, Hrun, Hself, bool_decide_eq_true_2 by done. by apply Z.leb_le. }
  cbn [commit_transition action to_role].
  set (n1c := n1 <| machine_state := RAFT_ROLE_CANDIDATE |>).
  destruct (become_candidate_exact n1c clock) as (n2 & H2 & Hcand).
  { apply (node_inv_ext n1); [done..|apply Hl]. }
  { change (current_term n1 < INT_MAX)%Z. by apply Hl. }
  { change (outbox n1 = []). by rewrite (unled_outbox _ _ Hu). }
  assert (node_inv n2) as Hinv2.
  { destruct (become_candidate_spec n1c clock) as (n2' & H2' & Hinv & _); [| |congruence].
    - apply (node_inv_ext n1); [done..|apply Hl].
    - change (current_term n1 < INT_MAX)%Z. by apply Hl. }
  rewrite H2. bind_simpl.
  assert (idle n2) as Hi2.
  { assert (idle n1) as Hi1 by (eapply idle_unled; [|exact Hu|done]; by rewrite Hrole).
    destruct (idle_candidate n1 Hi1) as [Hic|Hlead]; [|by rewrite (unled_role _ _ Hu), Hrole in Hlead].
    eapply idle_sending, idle_unled; [|apply Hcand|exact Hic]. done. }
  assert (running n2 = true) as Hr2.
  { pose proof (unled_running _ _ (cand_unled _ _ _ Hcand)) as E. rsimpl. rewrite E.
    change (running n1 = true). by rewrite (unled_running _ _ Hu). }
  rewrite dump_outputs_idle by done. exists n1, ctx1, n2. by split_and!.
Qed.


(** *** A cluster of one *)

(** The node is the only member. *)
Record sole node : Prop := {
  sole_members : old_members (config_state node) = [node_id (config node)];
  sole_stable : new_members (config_state node) = [];
  sole_peers : peers (config node) = [];
  sole_running : running node = true;
}.

Lemma contains_self (id : string) : member_list_contains [id] id = true.
Proof. apply member_list_contains_elem. by left. Qed.

Lemma sole_is_member node : sole node → node_self_is_member node = true.
Proof. intros [H1 _ _ _]. unfold node_self_is_member. by rewrite H1, contains_self. Qed.

Lemma sole_broadcast node : sole node → node_broadcast_append_entries node = Some node.
Proof. intros [_ _ H _]. unfold node_broadcast_append_entries. by rewrite H. Qed.

(** It has the majority as soon as it has its own vote. *)
Lemma sole_quorum node clock :
  sole node → votes_received node = [node_id (config node)] → guard_received_majority_votes node clock = true.
Proof.
  intros [H1 H2 _ _] Hv. unfold guard_received_majority_votes, configuration_is_joint, node_has_vote_quorum.
  rewrite H1, H2, Hv. rewrite filter_cons_True by apply contains_self. done.
Qed.

(** It commits what it has. *)
Lemma sole_commits node :
  sole node →
  (commit_index node = node_last_log_index node ∨
   (commit_index node < node_last_log_index node)%Z ∧
   node_term_at_index node (node_last_log_index node) = Some (current_term node)) →
  ∃ d, node_advance_commit_index node =
         Some (node <| commit_index := node_last_log_index node |> <| persist_dirty := d |>).
Proof.
  intros [H1 H2 _ _] Hc. unfold node_advance_commit_index. destruct Hc as [Hc|[Hlt Ht]].
  - exists (persist_dirty node). rewrite <- Hc, Z.sub_diag. change (Z.to_nat 0) with 0%nat.
    cbn [advance_commit_loop]. by destruct node.
  - exists true. destruct (Z.to_nat (node_last_log_index node - commit_index node)) as [|fuel] eqn:Ef; [lia|].
    cbn [advance_commit_loop]. rewrite (proj2 (Z.ltb_lt _ _)) by done. rewrite Ht. bind_simpl.
    rewrite Z.eqb_refl. cbn [negb].
    assert (node_is_committed_under_current_configuration node (node_last_log_index node) = true) as ->; [|done].
    unfold node_is_committed_under_current_configuration, configuration_is_joint, node_replicated_on_members.
    rewrite H1, H2. rewrite filter_cons_True; [done|].
    unfold member_replicated. rewrite streq_refl. apply Z.leb_le. lia.
Qed.

(** The driver does not touch the application. *)
Lemma append_internal_application node o k v n i :
  node_append_internal_command node o k v = Some (n, i) → application n = application node.
Proof.
  unfold node_append_internal_command, node_append_entry. case_match; [by intros [= <- _]|]. intros Hx.
  apply bind_Some in Hx as (n1 & Hx & [= <- _]). apply bind_Some in Hx as (n2 & Hp & Hb).
  apply node_log_push_inv in Hp as [_ ->]. by apply broadcast_only_outbox in Hb as [-> _].
Qed.

Lemma drive_application node n : node_maybe_drive_membership node = Some n → application n = application node.
Proof.
  unfold node_maybe_drive_membership. repeat (case_match; [by intros [= <-]|]).
  repeat case_match; intros Hx; try (by simplify_eq);
    apply bind_Some in Hx as ([n1 i] & Hx & [= <-]); apply append_internal_application in Hx; by case_match.
Qed.

(** What latching commands does on a leader with room for them. *)
Record latched_all node (cs : list raft_command_t) node' : Prop := {
  la_inv : node_inv node';
  la_last : node_last_log_index node' = (node_last_log_index node + Z.of_nat (length cs))%Z;
  la_commands : commands_from node' (node_last_log_index node) (length cs) = cs;
  la_term : cs ≠ [] → node_term_at_index node' (node_last_log_index node') = Some (current_term node);
  la_before i : (snapshot_last_included_index node < i ≤ node_last_log_index node)%Z →
    node_log_at node' i = node_log_at node i;
  la_rest : node' = node <| log := log node' |> <| log_count := log_count node' |>
                         <| persist_dirty := persist_dirty node' |> <| outbox := outbox node' |>;
}.

Lemma latch_commands_all node cs :
  node_inv node → (log_count node + length cs ≤ RAFT_MAX_LOG)%nat →
  ∃ node', latch_commands cs node = Some node' ∧ latched_all node cs node'.
Proof.
  revert node; induction cs as [|c cs IH]; intros node Hi Hroom.
  { exists node. split; [done|]. split; try done; [simpl; lia|by destruct node]. }
  simpl in Hroom. cbn [latch_commands]. rewrite (proj2 (Nat.ltb_lt _ _)) by lia.
  destruct (append_entry_appended node c) as (n1 & -> & [A1 A2 A3 A4 A5 A6 A7]); [apply Hi|apply Hi|lia|].
  bind_simpl.
  assert (node_inv n1) as Hi1.
  { split; [by apply A1, Hi|by apply A2, Hi| |by rewrite (vm_id _ _ A3); apply Hi].
    rewrite A7. rsimpl. apply Hi. }
  assert (snapshot_last_included_index n1 = snapshot_last_included_index node ∧
          current_term n1 = current_term node) as [Es Et] by (rewrite A7; done).
  assert (log_count n1 = S (log_count node)) as Elc
    by (revert A4; unfold node_last_log_index; rewrite Es; lia).
  destruct (IH n1 Hi1 ltac:(lia)) as (n2 & -> & [L1 L2 L3 L4 L5 L6]).
  exists n2. split; [done|].
  pose proof (log_wf_applied _ (node_inv_log _ Hi)) as Hap.
  assert (node_log_at n2 (node_last_log_index node + 1) = Some (new_entry node c)) as He.
  { rewrite <- A4. rewrite L5 by (rewrite Es, A4; lia). exact A5. }
  split; [done|simpl; rewrite L2, A4; lia| | | |].
  - cbn [length commands_from]. rewrite He. cbn [entry_command new_entry]. by rewrite <- A4, L3.
  - intros _. destruct cs as [|c' cs]; [|rewrite <- Et; by apply L4].
    rewrite L2, A4. cbn [length]. rewrite Z.add_0_r.
    assert (snapshot_last_included_index n2 = snapshot_last_included_index node) as Es2
      by (rewrite L6; rsimpl; exact Es).
    pose proof (log_core_snapshot _ (node_inv_log _ Hi)).
    unfold node_term_at_index. rewrite He, Es2, !(proj2 (Z.eqb_neq _ _)) by lia. done.
  - intros i Hrange. rewrite L5 by (rewrite Es, A4; lia). by apply A6.
  - rewrite L6, A7. by destruct node.
Qed.

Definition clear_pending node : raft_node_t U :=
  node <| pending_append_entries := [] |> <| pending_vote_requests := [] |> <| pending_votes := [] |>.

Lemma clear_pending_inv node : node_inv node → node_inv (clear_pending node).
Proof. by apply node_inv_ext. Qed.

Lemma clear_pending_idle node : idle node → idle (clear_pending node).
Proof. intros [H1 H2 H3]. split; [exact H1|exact H2|exact H3]. Qed.

(** Latching when no message has come. *)
Lemma latch_silence node ctx :
  running node = true → (recv tr ctx RAFT_MAX_QUEUE).2 = [] →
  let '(ctx2, cs) := recv_commands tr (recv tr ctx RAFT_MAX_QUEUE).1 RAFT_MAX_QUEUE in
  raft_node_latch_inputs tr node ctx =
    if node_is_leader node then n ← latch_commands cs (clear_pending node); Some (n, ctx2)
    else Some (clear_pending node, ctx2).
Proof.
  intros Hr Hm. unfold raft_node_latch_inputs. cbv zeta. fold (clear_pending node).
  change (running (clear_pending node)) with (running node). rewrite Hr. cbn [negb].
  destruct (recv tr ctx RAFT_MAX_QUEUE) as [ctx1 ms]. cbn [fst snd] in *. subst ms. cbn [for_each]. bind_simpl.
  by destruct (recv_commands tr ctx1 RAFT_MAX_QUEUE).
Qed.

(** The tick of a candidate that is its own majority. *)
Lemma sole_candidate_tick clock node ctx disk :
  node_inv node → idle node → sole node → outbox node = [] →
  machine_state node = RAFT_ROLE_CANDIDATE → votes_received node = [node_id (config node)] →
  (clock < election_deadline_ms node)%Z → (recv tr ctx RAFT_MAX_QUEUE).2 = [] →
  commit_index node = node_last_log_index node →
  membership_state node = RAFT_MEMBERSHIP_STABLE → requested_membership_pending node = false →
  ∃ node' ctx' disk', node_tick tr evaluate clock node ctx disk = Some (node', ctx', disk') ∧
    node_inv node' ∧ idle node' ∧ sole node' ∧ outbox node' = [] ∧ machine_state node' = RAFT_ROLE_LEADER ∧
    unled node (node' <| machine_state := machine_state node |>) ∧ current_term node' = current_term node.
Proof using Hev.
  intros Hi Hidle Hs Ho Hrole Hv Hdl Hm Hc Hst Hrq. unfold node_tick.
  pose proof (latch_silence node ctx (sole_running _ Hs) Hm) as Hl.
  destruct (recv_commands tr _ RAFT_MAX_QUEUE) as [ctx2 cs]. rewrite Hl.
  assert (node_is_leader node = false) as ->
    by (unfold node_is_leader; by rewrite Hrole, andb_false_r).
  bind_simpl. pose proof (clear_pending_inv _ Hi) as Hi1. clear Hl.
  assert (sole (clear_pending node)) as Hs1 by (by destruct Hs).
  set (n1 := clear_pending node) in *.
  rewrite (evaluate_first_enabled evaluate). unfold RAFT_TRANSITIONS. rewrite !first_enabled_cons.
  assert (∀ to g a, enabled n1 clock (mkTransition RAFT_ROLE_FOLLOWER to g a) = false) as Hf
    by (intros; unfold enabled; cbn [from_role]; change (machine_state n1) with (machine_state node);
        by rewrite Hrole).
  rewrite !Hf.
  assert (enabled n1 clock (mkTransition RAFT_ROLE_CANDIDATE RAFT_ROLE_FOLLOWER guard_timeout_expired
            action_back_to_follower_due_to_timeout) = false) as ->.
  { unfold enabled. cbn [guard from_role]. unfold guard_timeout_expired.
    change (election_deadline_ms n1) with (election_deadline_ms node).
    rewrite (proj2 (Z.leb_gt _ _)) by lia. by rewrite !andb_false_r. }
  assert (enabled n1 clock (mkTransition RAFT_ROLE_CANDIDATE RAFT_ROLE_LEADER guard_received_majority_votes
            action_become_leader) = true) as ->.
  { unfold enabled. cbn [guard from_role]. rewrite sole_quorum by done.
    change (machine_state n1) with (machine_state node). by rewrite Hrole. }
  cbn [commit_transition action to_role]. unfold action_become_leader. cbv zeta.
  set (n2 := n1 <| machine_state := RAFT_ROLE_LEADER |> <| leader_id := _ |>).
  change (peers (config n2)) with (peers (config node)). rewrite (sole_peers _ Hs). cbn [length seq for_each].
  bind_simpl. rewrite sole_broadcast by (by destruct Hs). bind_simpl.
  set (n3 := n2 <| heartbeat_deadline_ms := _ |>).
  assert (idle n3) as Hi3.
  { destruct Hidle as [I1 I2 I3]. split; [exact I1| |done].
    revert I2. unfold node_should_compact, node_compactible_index.
    change (machine_state n3) with RAFT_ROLE_LEADER. change (peers (config n3)) with (peers (config node)).
    rewrite Hrole, (sole_peers _ Hs). done. }
  assert (node_inv n3) as Hinv3 by (by apply (node_inv_ext n1)).
  rewrite dump_outputs_idle by (exact (sole_running _ Hs) || exact Hi3).
  eexists _, _, _. split; [done|]. unfold saved.
  destruct (persist_dirty n3); cbn [fst];
    (split_and!; [by apply (node_inv_ext n3)|by destruct Hi3|by destruct Hs|done|done|by split|done]).
Qed.

(** The tick of the leader of a cluster of one. *)
Lemma sole_leader_tick clock node ctx disk cs :
  node_inv node → idle node → sole node → machine_state node = RAFT_ROLE_LEADER →
  (recv tr ctx RAFT_MAX_QUEUE).2 = [] →
  (recv_commands tr (recv tr ctx RAFT_MAX_QUEUE).1 RAFT_MAX_QUEUE).2 = cs →
  (log_count node + length cs ≤ RAFT_MAX_LOG)%nat →
  ∃ node' ctx' disk', node_tick tr evaluate clock node ctx disk = Some (node', ctx', disk') ∧
    last_applied node' = (last_applied node + Z.of_nat (length cs))%Z ∧
    commit_index node' = last_applied node' ∧
    user (application node') = fold_left (app_step (application node)) cs (user (application node)).
Proof using Hev.
  intros Hi Hidle Hs Hrole Hm Hcs Hroom. unfold node_tick.
  assert (node_is_leader node = true) as Hlead.
  { unfold node_is_leader. by rewrite (sole_running _ Hs), sole_is_member, Hrole by done. }
  pose proof (latch_silence node ctx (sole_running _ Hs) Hm) as Hl.
  destruct (recv_commands tr _ RAFT_MAX_QUEUE) as [ctx2 cs']. cbn [snd] in Hcs. subst cs'. rewrite Hl, Hlead.
  destruct (latch_commands_all (clear_pending node) cs (clear_pending_inv _ Hi) Hroom)
    as (n1 & -> & [L1 L2 L3 L4 _ L6]).
  bind_simpl. clear Hl.
  change (node_last_log_index (clear_pending node)) with (node_last_log_index node) in *.
  change (current_term (clear_pending node)) with (current_term node) in *.
  destruct (idle_leader _ Hidle Hlead) as (Hcom & Hst & Hrq). pose proof (idle_applied _ Hidle) as Happ.
  assert (machine_state n1 = RAFT_ROLE_LEADER ∧ sole n1 ∧ commit_index n1 = commit_index node ∧
    last_applied n1 = last_applied node ∧ application n1 = application node ∧ current_term n1 = current_term node ∧
    pending_append_entries n1 = [] ∧ pending_vote_requests n1 = [] ∧ pending_votes n1 = [] ∧
    membership_state n1 = RAFT_MEMBERSHIP_STABLE ∧ requested_membership_pending n1 = false)
    as (R1 & R2 & R3 & R4 & R5 & R6 & R7 & R8 & R9 & R10 & R11)
    by (rewrite L6; destruct Hs; split_and!; done).
  clear L6.
  assert (∃ h, commit_transition (evaluate RAFT_TRANSITIONS n1 clock) n1 clock =
    Some (n1 <| heartbeat_deadline_ms := h |>)) as [h ->].
  { rewrite (evaluate_first_enabled evaluate). unfold RAFT_TRANSITIONS. rewrite !first_enabled_cons.
    unfold enabled. cbn [from_role guard]. rewrite R1.
    unfold guard_has_append_entries, guard_has_higher_term_vote_request, guard_has_vote_request, guard_has_vote.
    rewrite R7, R8, R9.
    change (first_enabled [] n1 clock) with (@None (transition (U:=U))).
    rewrite !(bool_decide_eq_false_2 (RAFT_ROLE_FOLLOWER = RAFT_ROLE_LEADER)),
      !(bool_decide_eq_false_2 (RAFT_ROLE_CANDIDATE = RAFT_ROLE_LEADER)),
      !(bool_decide_eq_true_2 (RAFT_ROLE_LEADER = RAFT_ROLE_LEADER)) by done.
    change (0 <? length (@nil raft_message_t))%nat with false. cbn [andb].
    destruct (guard_time_for_heartbeat n1 clock); cbn [commit_transition action to_role].
    - unfold action_send_heartbeat. rewrite sole_broadcast by (by destruct R2). bind_simpl.
      eexists. rewrite <- R1. by destruct n1.
    - exists (heartbeat_deadline_ms n1). by destruct n1. }
  bind_simpl. set (n2 := n1 <| heartbeat_deadline_ms := h |>).
  assert (node_inv n2) as Hi2 by (by apply (node_inv_ext n1)).
  assert (sole n2) as Hs2 by by destruct R2.
  assert (node_is_leader n2 = true) as Hlead2.
  { unfold node_is_leader. rewrite (sole_running _ Hs2), sole_is_member by done.
    change (machine_state n2) with (machine_state n1). by rewrite R1. }
  unfold raft_node_dump_outputs. rewrite (sole_running _ Hs2). cbn [negb]. unfold dump_prepare. rewrite Hlead2.
  change (node_last_log_index n1) with (node_last_log_index n2) in *.
  change (commit_index n1) with (commit_index n2) in *.
  destruct (sole_commits n2 Hs2) as [d ->].
  { destruct cs as [|c cs]; [left; simpl in L2; lia|right].
    split; [simpl in L2; lia|]. change (current_term n2) with (current_term n1). rewrite R6.
    by apply L4. }
  bind_simpl. set (n3 := n2 <| commit_index := _ |> <| persist_dirty := d |>).
  assert (log_wf n3) as Hw3.
  { pose proof (node_inv_log _ Hi2) as Hw. split; [by apply (log_core_ext n2); [..|apply Hw]|done|apply Hw]. }
  assert (repl_wf n3) as Hr3 by (by apply (repl_wf_ext n2); [..|apply Hi2]).
  unfold node_apply_committed.
  destruct (apply_loop_applied _ n3 Hw3 eq_refl) as (n4 & -> & [A1 A2 Hw4 Hr4 _ (_ & _ & _ & A4)]).
  bind_simpl. specialize (Hr4 Hr3).
  change (commit_index n3) with (node_last_log_index n2) in *.
  change (last_applied n3) with (last_applied n1) in *. change (application n3) with (application n1) in *.
  rewrite R4, R5 in *.
  destruct (drive_membership_spec n4 Hw4 Hr4) as (n5 & Hd & Hw5 & Hr5 & _ & _ & C5 & A5 & _).
  pose proof (drive_application _ _ Hd) as U5. rewrite Hd. bind_simpl.
  assert (user (application n5) = fold_left (app_step (application node)) cs (user (application node))) as Hu5.
  { rewrite U5, A2. replace (Z.to_nat (node_last_log_index n2 - last_applied node)) with (length cs) by lia.
    rewrite Happ, Hcom. f_equal. etrans; [|exact L3]. by apply commands_from_ext. }
  assert (last_applied n5 = (last_applied node + Z.of_nat (length cs))%Z ∧ commit_index n5 = last_applied n5)
    as [Hl5 Hc5] by (rewrite A5, C5, A1, A4; lia).
  destruct (node_should_compact n5) as [b|] eqn:Eb.
  2: { exfalso. destruct (compactible_spec n5 Hr5) as (k & Hk & _). unfold node_should_compact in Eb.
       by rewrite Hk in Eb. }
  bind_simpl. destruct b; bind_simpl.
  - destruct (do_compact_spec n5 Hw5 Hr5 Eb)
      as (tgt & tm & n6 & ops & -> & _ & _ & _ & _ & _ & _ & _ & _ & _ & C6 & A6 & U6 & _).
    bind_simpl. destruct (persist_dirty n6); bind_simpl; (eexists _, _, _; split; [done|]); rsimpl;
      rewrite ?U6; split_and!; (done || congruence).
  - destruct (persist_dirty n5); bind_simpl; (eexists _, _, _; split; [done|]); rsimpl; split_and!; done.
Qed.

(** The node that tick leaves behind. *)
Lemma timeout_tick_result clock node ctx disk :
  node_inv node → idle node → outbox node = [] → running node = true →
  machine_state node = RAFT_ROLE_FOLLOWER → node_self_is_member node = true →
  (election_deadline_ms node <= clock)%Z → (current_term node < INT_MAX)%Z →
  (∀ m, m ∈ (recv tr ctx RAFT_MAX_QUEUE).2 → benign node m) → (1 < election_timeout_ms (config node))%Z →
  ∃ node' ctx' disk', node_tick tr evaluate clock node ctx disk = Some (node', ctx', disk') ∧
    unled (node <| machine_state := RAFT_ROLE_CANDIDATE |>
                <| election_deadline_ms := election_deadline_ms node' |>) node' ∧
    node_inv node' ∧ idle node' ∧ votes_received node' = [node_id (config node)] ∧
    (current_term node < current_term node')%Z ∧
    (clock + election_timeout_ms (config node) ≤ election_deadline_ms node')%Z.
Proof using Hev.
  intros Hi Hidle Ho Hrun Hrole Hself Hdl Ht Hb Hto.
  destruct (timeout_tick clock node ctx disk Hi Hidle Ho Hrun Hrole Hself Hdl Ht Hb)
    as (n0 & ctx0 & nc & _ & Hl & Hu0 & [C1 C2 _ C4 [nt [Ent C5]] _] & Hic & Hinvc & Hrc & Htick1).
  pose proof (valid_id_strncpy _ (node_inv_id _ Hi)) as Hid.
  pose proof (vm_term _ _ (latched_quiet _ _ _ Hl)) as Hterm.
  pose proof (election_timeout_range nt clock) as Hrange. cbv zeta in Hrange.
  destruct Hu0 as [A1 A2 A3 A4 A5 A6 [A7 A8] [A9 A10] [A11 A12] A13 [A14 A15] A16].
  destruct C1 as [B1 B2 B3 B4 B5 B6 [B7 B8] [B9 B10] [B11 B12] B13 [B14 B15] B16]. rsimpl.
  rewrite Ent, A3 in Hrange. specialize (Hrange Hto). rewrite A3, Hid in C4.
  eexists _, _, _. split; [exact Htick1|].
  assert (unled (node <| machine_state := RAFT_ROLE_CANDIDATE |>
                      <| election_deadline_ms := election_deadline_ms nc |>) (nc <| outbox := [] |>)) as Hunc
    by (split; rsimpl; split_and?; congruence).
  clear - Hunc Hinvc Hic C2 C4 C5 Hterm Hrange.
  unfold saved. destruct (persist_dirty nc); cbn [fst]; rsimpl;
    (split_and!; [by destruct Hunc|by apply (node_inv_ext nc)|by destruct Hic|done|lia|lia]).
Qed.


End Progress.

(** ** Witnesses *)

Definition idleb {U} (node : raft_node_t U) : bool :=
  (last_applied node =? commit_index node)%Z && bool_decide (node_should_compact node = Some false)
  && negb (node_is_leader node).

Lemma idleb_sound {U} (node : raft_node_t U) : idleb node = true → idle node.
Proof. unfold idleb. intros H. bools. split; [done|done|congruence]. Qed.

(** A follower whose deadline has passed, with a late reply in its queue. *)
Definition waiting_a : raft_node_t nat :=
  leader_a <| machine_state := RAFT_ROLE_FOLLOWER |> <| last_applied := commit_index leader_a |>
           <| outbox := [] |> <| election_deadline_ms := 5%Z |>.


(** The clients of a node without peers. *)
Definition clients_only : raft_transport_t (list raft_command_t) :=
  mkTransport (λ c _, (c, 0%Z)) (λ c _, (c, [])) (λ c cmd, (c ++ [cmd], 0%Z)) (λ c n, ([], take n c)) None.

(** A node alone in its cluster, just started. *)
Definition alone_a : raft_node_t nat :=
  leader_a <| machine_state := RAFT_ROLE_FOLLOWER |> <| election_deadline_ms := 5%Z |> <| outbox := [] |>
           <| log_count := 0%nat |> <| commit_index := 0%Z |> <| last_applied := 0%Z |>
           <| config := config leader_a <| peers := [] |> |>
           <| config_state := mkClusterConfig ["a"] [] 0 |>
           <| membership_state := RAFT_MEMBERSHIP_STABLE |> <| requested_membership_pending := false |>.

