(* ===== verification/Lifecycle.v ===== *)
(** The life of a node and the cluster API, [c/src/raft.c]: initialisation,
    start, stop, reset before a join, command submission, the clock. *)
From S2P Require Import Prelude CString Types Config NodeLog Replication Handlers Storage MemTransport Membership Fsm.

Section Lifecycle.
  Context {U : Type}.
  Implicit Types node : raft_node_t U.

(** [strncpy(dst, src, RAFT_MAX_ID - 1)] into an array that is not initialised:
    an id of [RAFT_MAX_ID - 1] bytes is left without its final NUL. *)
Definition strncpy_uninit (src : string) : option string :=
  if (String.length src <? RAFT_MAX_ID - 1)%nat then Some src else None.

(** The configuration a node falls back to: its initial members, or itself and
    its peers. *)
Definition fallback_members (c : raft_node_config_t) : option (list string) :=
  if (0 <? length (initial_members c))%nat then Some (initial_members c)
  else mapM strncpy_uninit (node_id c :: take (RAFT_MAX_NODES - 1) (peers c)).

Definition needs_fallback node : bool :=
  (length (old_members (config_state node)) =? 0)%nat && negb (learner (config node))
  && (log_count node =? 0)%nat.

(** [memset(node, 0, sizeof( *node))] and the assignments before the load. *)
Definition fresh_node (c : raft_node_config_t) (root : string) (app : raft_application_t U)
    : raft_node_t U :=
  mkNode c (raft_file_storage_init root (node_id c)) app RAFT_ROLE_FOLLOWER 0 ""
    (replicate RAFT_MAX_LOG zero_entry) 0 0 0 0 0 "" (Z.of_nat RAFT_MAX_LOG) true
    zero_configuration RAFT_MEMBERSHIP_STABLE [] false 0 0 []
    (replicate RAFT_MAX_PEERS 0%Z) (replicate RAFT_MAX_PEERS 0%Z) [] [] [] [] false 0 0.

(** What a learner forgets of an earlier run. *)
Definition discard_stale node : raft_node_t U :=
  node <| config_state := zero_configuration |> <| log_count := 0%nat |> <| commit_index := 0%Z |>
       <| last_applied := 0%Z |> <| snapshot_last_included_index := 0%Z |>
       <| snapshot_last_included_term := 0%Z |> <| current_term := 0%Z |> <| voted_for := "" |>
       <| persist_dirty := true |>.

Definition raft_node_init (c : raft_node_config_t) (clock : Z) (root : string)
    (app : raft_application_t U) (disk : disk_t) : option (raft_node_t U) :=
  let node := raft_storage_node_load disk (fresh_node c root app) in
  let node := if (compaction_threshold node <=? 0)%Z
              then node <| compaction_threshold := Z.of_nat RAFT_MAX_LOG |> else node in
  let node := if learner c then discard_stale node else node in
  node ← (if needs_fallback node then
            ms ← fallback_members c;
            Some (node <| config_state := configuration_set_stable ms 0 |>)
          else Some node);
  let node := node <| membership_state := if configuration_is_joint (config_state node)
                                          then RAFT_MEMBERSHIP_JOINT else RAFT_MEMBERSHIP_STABLE |> in
  let node := node_refresh_peers node in
  let node := node <| election_deadline_ms :=
    (clock + node_next_election_timeout node clock
     + (if 0 <? current_term node then 2 * election_timeout_ms c else 0))%Z |> in
  Some (node <| heartbeat_deadline_ms := (clock + heartbeat_interval_ms c)%Z |>
             <| machine_state := RAFT_ROLE_FOLLOWER |>).

Definition enable {T} (tr : raft_transport_t T) (ctx : T) (enabled : bool) : T :=
  match set_enabled tr with Some f => f ctx enabled | None => ctx end.

Definition raft_node_submit_command {T} (tr : raft_transport_t T) node (ctx : T)
    (command : raft_command_t) : T * Z :=
  if negb (running node) || negb (node_self_is_member node) then (ctx, -1)%Z
  else submit_command tr ctx command.

Definition raft_node_stop {T} (tr : raft_transport_t T) node (ctx : T) : raft_node_t U * T :=
  (node <| running := false |> <| outbox := [] |> <| pending_append_entries := [] |>
        <| pending_vote_requests := [] |> <| pending_votes := [] |>
        <| machine_state := RAFT_ROLE_FOLLOWER |>, enable tr ctx false).

Definition raft_node_start {T} (tr : raft_transport_t T) node (ctx : T) (disk : disk_t)
    (clock : Z) : option (raft_node_t U * T) :=
  let ctx := enable tr ctx true in
  let node := raft_storage_node_load disk node in
  node ← (if needs_fallback node then
            ms ← fallback_members (config node);
            Some (node_refresh_peers (node <| config_state := configuration_set_stable ms 0 |>))
          else Some node);
  let node := node <| running := true |> <| machine_state := RAFT_ROLE_FOLLOWER |> in
  Some (node <| election_deadline_ms :=
          (clock + node_next_election_timeout node clock + 2 * election_timeout_ms (config node))%Z |>,
        ctx).

(** The assignments of [raft_node_reset_for_join]. *)
Definition reset_state node (clock : Z) : raft_node_t U :=
  let node :=
    node <| config_state := zero_configuration |> <| log := replicate RAFT_MAX_LOG zero_entry |>
         <| log_count := 0%nat |> <| commit_index := 0%Z |> <| last_applied := 0%Z |>
         <| snapshot_last_included_index := 0%Z |> <| snapshot_last_included_term := 0%Z |>
         <| current_term := 0%Z |> <| voted_for := "" |> <| leader_id := "" |>
         <| votes_received := [] |> <| pending_append_entries := [] |>
         <| pending_vote_requests := [] |> <| pending_votes := [] |> <| outbox := [] |>
         <| config := config node <| learner := true |> |>
         <| membership_state := RAFT_MEMBERSHIP_STABLE |> in
  let node := node_refresh_peers node <| running := true |> <| machine_state := RAFT_ROLE_FOLLOWER |> in
  node <| election_deadline_ms :=
            (clock + node_next_election_timeout node clock + 2 * election_timeout_ms (config node))%Z |>
       <| heartbeat_deadline_ms := (clock + heartbeat_interval_ms (config node))%Z |>
       <| persist_dirty := true |>.

Definition raft_node_reset_for_join node (clock : Z) (disk : disk_t) : raft_node_t U * disk_t :=
  let node := reset_state node clock in
  (node <| persist_dirty := false |>, run_disk (raft_storage_node_save node) disk).

(** *** The cluster *)

Record raft_cluster_t : Type := mkCluster {
  realtime_clock : bool;
  clock_ms : Z;
  transport : raft_memory_transport_t;
  nodes : list (raft_node_t U);
}.

Definition raft_cluster_init : raft_cluster_t := mkCluster false 0 raft_memory_transport_init [].

(** [now] is the reading of [CLOCK_MONOTONIC], in milliseconds. *)
Definition raft_cluster_enable_realtime_clock (cluster : raft_cluster_t) (now : Z) : raft_cluster_t :=
  mkCluster true now (transport cluster) (nodes cluster).

(** The new cluster, or [None] inside the result for [NULL]; the registration
    of the machine with the runtime is taken to succeed. *)
Definition raft_cluster_add_node (cluster : raft_cluster_t) (c : raft_node_config_t) (root : string)
    (app : raft_application_t U) (disk : disk_t) : option (raft_cluster_t * bool) :=
  if (RAFT_MAX_NODES <=? length (nodes cluster))%nat then Some (cluster, false)
  else
    let t := (raft_memory_transport_register_node (transport cluster) (node_id c)).1 in
    node ← raft_node_init c (clock_ms cluster) root app disk;
    Some (mkCluster (realtime_clock cluster) (clock_ms cluster) t (nodes cluster ++ [node]), true).

Definition raft_cluster_leader (cluster : raft_cluster_t) : option (raft_node_t U) :=
  head (filter (λ n, node_is_leader n = true) (nodes cluster)).

(** [raft_cluster_tick]: the clock advances, then the runtime runs its machines;
    [rx_fsm_tick] is the runtime's. *)
Definition raft_cluster_tick {R} (rx_fsm_tick : raft_cluster_t → R) (cluster : raft_cluster_t)
    (advance_ms : Z) : R :=
  rx_fsm_tick (mkCluster (realtime_clock cluster) (clock_ms cluster + advance_ms)
                 (transport cluster) (nodes cluster)).

End Lifecycle.

#[export] Instance raft_cluster_eta {U} : Eta (raft_cluster_t (U:=U)) := λ c,
  mkCluster (realtime_clock c) (clock_ms c) (transport c) (nodes c).
