(* ===== verification/LifecycleProps.v ===== *)
(** Starting, restarting and resetting a node. *)
From S2P Require Import Prelude CString Types Config NodeLog Samples Replication Handlers LogMerge HandlerFacts Storage StorageFacts MemTransport Membership MembershipFacts Fsm FsmFacts FsmProps Lifecycle.

Lemma str_take_length_id s : str_take (String.length s) s = s.
Proof. by apply str_take_all. Qed.

(** The snapshot file is read back under the header it was written with. *)
Lemma read_write_snapshot m buf :
  in_int (meta_snap_index m) → in_int (meta_snap_term m) →
  (String.length buf ≤ RAFT_MAX_SNAPSHOT_SIZE)%nat →
  read_snapshot m (write_snapshot buf (meta_snap_index m) (meta_snap_term m)) = Some buf.
Proof.
  intros Hi Ht Hl. unfold read_snapshot, write_snapshot.
  assert (in_int (Z.of_nat (String.length buf))) as Hs
    by (unfold in_int, INT_MAX, RAFT_MAX_SNAPSHOT_SIZE in *; lia).
  rewrite fread_fwrite_int32 by done. bind_simpl.
  rewrite fread_fwrite_int32 by done. bind_simpl.
  rewrite fread_fwrite_int32 by done. bind_simpl.
  rewrite !Z.eqb_refl. cbn [andb]. f_equal. rewrite Nat2Z.id, str_take_length_id.
  destruct buf as [|c s]; [done|].
  rewrite (proj2 (Z.ltb_lt _ _)), (proj2 (Z.leb_le _ _)); [done|lia|]. simpl. lia.
Qed.

(** What [node_fill] does to the fields the log does not decide. *)
Lemma fill_fields {U} m snap es (node : raft_node_t U) :
  last_applied (node_fill m snap es node) =
    match snap with Some _ => meta_snap_index m | None => 0%Z end ∧
  snapshot_buf (storage (node_fill m snap es node)) = default "" snap ∧
  next_index (node_fill m snap es node) = next_index node ∧
  match_index (node_fill m snap es node) = match_index node.
Proof.
  unfold node_fill, app_restore_snapshot, app_reload.
  destruct snap; [destruct (restore_snapshot _)|destruct (reload _)]; split_and!; reflexivity.
Qed.

(** The snapshot the disk holds for a node that has one, or none at all. *)
Definition snapshot_on_disk {U} (d : disk_t) (node : raft_node_t U) : Prop :=
  (snapshot_last_included_index node = 0%Z ∧ d !! storage_snapshot_path (storage node) = None) ∨
  (d !! storage_snapshot_path (storage node) =
     Some (write_snapshot (snapshot_buf (storage node)) (snapshot_last_included_index node)
             (snapshot_last_included_term node)) ∧
   (String.length (snapshot_buf (storage node)) ≤ RAFT_MAX_SNAPSHOT_SIZE)%nat).

Lemma save_keeps_snapshot {U} d (node : raft_node_t U) :
  run_disk (raft_storage_node_save node) d !! storage_snapshot_path (storage node) =
  d !! storage_snapshot_path (storage node).
Proof. rewrite <- (firstn_all (raft_storage_node_save node)). apply crash_frame; distinct_paths. Qed.

(** A saved node restarts well formed.  When a well-formed node has been
    saved and the snapshot its log starts from is on the disk, loading it again
    gives a node that satisfies the invariant, applies again from the snapshot
    on, with the same live log and the same commit index, and with the snapshot
    back in memory. *)
Lemma saved_node_restarts {U} d (node : raft_node_t U) :
  node_inv node → storable node → snapshot_on_disk d node →
  let node' := raft_storage_node_load (run_disk (raft_storage_node_save node) d) node in
  node_inv node' ∧ last_applied node' = snapshot_last_included_index node ∧
  commit_index node' = commit_index node ∧ node_last_log_index node' = node_last_log_index node ∧
  (∀ i, (i < log_count node)%nat → log node' !! i = log node !! i) ∧
  (0 < snapshot_last_included_index node →
   snapshot_buf (storage node') = snapshot_buf (storage node))%Z.
Proof.
  intros [Hw Hr Hc Hid] Hs Hsnap node'.
  pose proof (log_wf_applied _ Hw) as Hap. pose proof (log_core_snapshot _ Hw) as Hs0.
  pose proof (log_core_count _ Hw) as Hcount.
  destruct (save_files node d) as [Hm Hl].
  set (d' := run_disk (raft_storage_node_save node) d) in *.
  pose proof (save_keeps_snapshot d node : d' !! _ = _) as Hd.
  assert (snapshot_last_included_index node = 0%Z ∧ loaded_snapshot d' (storage node) = None ∨
          loaded_snapshot d' (storage node) = Some (snapshot_buf (storage node))) as Hls.
  { unfold loaded_snapshot. rewrite Hd, (saved_meta node) by done.
    destruct Hsnap as [[? ->]|[-> ?]]; [by left|right]. bind_simpl.
    apply (read_write_snapshot (meta_of node)); [|exact (storable_snap_term _ Hs)|done].
    exact (storable_snap_index _ Hs). }
  pose proof (load_fields d' node) as Hf. cbv zeta in Hf. fold node' in Hf.
  rewrite (saved_meta node) in Hf by done.
  rewrite (saved_log node) in Hf by (done || apply log_wf_core, Hw). simpl in Hf.
  assert (length (take (log_count node) (log node)) = log_count node) as Hlen
    by (rewrite length_take, (log_core_length _ Hw); lia).
  rewrite Hlen in Hf. destruct Hf as (_ & _ & _ & Ec & Es & _ & _ & El & Elc & Econf & _).
  assert (last_applied node' = snapshot_last_included_index node ∧
    (0 < snapshot_last_included_index node → snapshot_buf (storage node') = snapshot_buf (storage node))%Z ∧
    next_index node' = next_index node ∧ match_index node' = match_index node) as (Ea & Eb & En & Em).
  { unfold node', raft_storage_node_load. rewrite (saved_meta node) by done.
    destruct (fill_fields (meta_of node) (loaded_snapshot d' (storage node))
                (loaded_log d' (storage node)) node) as (-> & -> & -> & ->).
    destruct Hls as [[E0 ->]| ->]; split_and!; try done; simpl; lia. }
  clearbody node'. pose proof (log_wf_commit _ Hw) as Hcl. unfold node_last_log_index in *.
  assert (∀ i, (i < log_count node)%nat → log node' !! i = log node !! i) as Hlog.
  { intros i Hi. rewrite El, lookup_app_l by lia. by rewrite lookup_take_lt. }
  rewrite Ec, Es, Elc, Ea. split_and!; try done; [|lia].
  split; [split; [split|..]|..]; unfold node_last_log_index; rewrite ?Ec, ?Es, ?Elc, ?Ea, ?Econf;
    try done; try lia.
  - rewrite El, length_app, length_replicate, Hlen. lia.
  - intros i e Hi. rewrite Hlog by done. by apply (log_core_index _ Hw).
  - destruct Hr as [R1 R2 R3 R4]. split; [by rewrite Econf|by rewrite En|by rewrite Em|by rewrite En, Es].
Qed.

(** The end of [raft_node_init]: the peers, the deadlines and the role. *)
Lemma init_finish_inv {U} (node : raft_node_t U) st d h :
  log_wf node → next_index node = replicate RAFT_MAX_PEERS 0%Z →
  match_index node = replicate RAFT_MAX_PEERS 0%Z → snapshot_last_included_index node = 0%Z →
  last_applied node = 0%Z → commit_index node = 0%Z → valid_id (node_id (config node)) = true →
  node_inv (node_refresh_peers (node <| membership_state := st |>) <| election_deadline_ms := d |>
              <| heartbeat_deadline_ms := h |> <| machine_state := RAFT_ROLE_FOLLOWER |>).
Proof.
  intros Hw Hn Hm Hs Ha Hc Hid.
  pose proof (node_refresh_peers_length (node <| membership_state := st |>)) as Hp.
  unfold node_refresh_peers in *. cbv zeta in *. revert Hp.
  generalize (refresh_new (node_id (config (node <| membership_state := st |>)))
    (new_members (config_state (node <| membership_state := st |>)))
    (refresh_old (node_id (config (node <| membership_state := st |>)))
       (old_members (config_state (node <| membership_state := st |>))) [])).
  intros ps Hp. split; [by keep_log_wf node| |rsimpl; lia|done].
  split; rsimpl; rewrite ?Hn, ?Hm; [exact Hp|done..|].
  rewrite Hs. apply Forall_replicate. unfold RAFT_MAX_LOG. lia.
Qed.

Definition reloaded {U} (app : raft_application_t U) : raft_application_t U :=
  match reload app with Some f => app <| user := f (user app) |> | None => app end.

Lemma load_nothing {U} cfg root (app : raft_application_t U) :
  raft_storage_node_load ∅ (fresh_node cfg root app) = fresh_node cfg root (reloaded app).
Proof.
  unfold raft_storage_node_load, loaded_snapshot, loaded_log, loaded_meta.
  rewrite !lookup_empty. bind_simpl.
  unfold fresh_node, raft_file_storage_init. generalize (strncpy 256 root) (strncpy RAFT_MAX_ID (node_id cfg)).
  intros r i. destruct app as [fa rl fs fr u]. unfold node_fill, app_reload, reloaded. cbn [reload application].
  destruct rl; vm_compute; reflexivity.
Qed.

(** A node started for the first time is ready.  On a disk without files, a
    voting node with ids that fit comes up as a well-formed follower of term 0
    with an empty log, in the stable configuration of its initial members, or of
    itself and its peers. *)
Lemma first_start_is_ready {U} cfg clock root (app : raft_application_t U) ms :
  valid_id (node_id cfg) = true → learner cfg = false → fallback_members cfg = Some ms →
  normalize_members ms RAFT_MAX_NODES ≠ [] →
  ∃ node, raft_node_init cfg clock root app ∅ = Some node ∧ node_inv node ∧
    config_state node = mkClusterConfig (normalize_members ms RAFT_MAX_NODES) [] 0 ∧
    machine_state node = RAFT_ROLE_FOLLOWER ∧ running node = true ∧
    membership_state node = RAFT_MEMBERSHIP_STABLE ∧
    current_term node = 0%Z ∧ voted_for node = "" ∧ node_last_log_index node = 0%Z.
Proof.
  intros Hid Hl Hms Hne. unfold raft_node_init. rewrite Hl.
  rewrite load_nothing. generalize (reloaded app). intros a.
  cbv zeta. simpl. rsimpl.
  assert (needs_fallback (fresh_node cfg root a) = true) as Hfb
    by (unfold needs_fallback, fresh_node; simpl; by rewrite Hl).
  rewrite Hfb, Hms. bind_simpl. eexists. split; [reflexivity|].
  set (n1 := fresh_node cfg root a
               <| config_state := configuration_set_stable ms 0 |>).
  assert (log_wf n1) as Hw1.
  { split; [split|..]; unfold node_last_log_index; simpl; try done; try lia. }
  split_and!; try done. by apply init_finish_inv.
Qed.

(** A node without state. *)
Record blank {U} (node : raft_node_t U) : Prop := {
  blank_term : current_term node = 0%Z;
  blank_voted : voted_for node = "";
  blank_count : log_count node = 0%nat;
  blank_commit : commit_index node = 0%Z;
  blank_snap_index : snapshot_last_included_index node = 0%Z;
  blank_snap_term : snapshot_last_included_term node = 0%Z;
  blank_config : config_state node = zero_configuration;
}.

Lemma blank_reload {U} (node node' : raft_node_t U) d :
  blank node → in_int (compaction_threshold node) → storage node' = storage node →
  blank (raft_storage_node_load (run_disk (raft_storage_node_save node) d) node').
Proof.
  intros [H1 H2 H3 H4 H5 H6 H7] Hth Hst.
  assert (storable node) as Hs.
  { split; rewrite ?H1, ?H2, ?H3, ?H4, ?H5, ?H6, ?H7; try done; [by left|..];
      (split; [constructor|simpl; lia]) || constructor. }
  destruct (save_files node d) as [Hm Hl]. rewrite <- Hst in Hm, Hl.
  pose proof (load_fields (run_disk (raft_storage_node_save node) d) node') as Hf.
  cbv zeta in Hf. rewrite (saved_meta node) in Hf by done.
  assert (loaded_log (run_disk (raft_storage_node_save node) d) (storage node') = []) as He.
  { unfold loaded_log. rewrite (saved_meta node), Hl by done. unfold write_log. by rewrite H3. }
  rewrite He in Hf. unfold meta_of in Hf. rewrite ?H1, ?H2, ?H3, ?H4, ?H5, ?H6, ?H7 in Hf. simpl in Hf.
  destruct Hf as (E1 & E2 & _ & E3 & E4 & E5 & E6 & _ & E7 & _). by split.
Qed.

Lemma reset_state_blank {U} (node : raft_node_t U) clock :
  let n := reset_state node clock in
  blank n ∧ compaction_threshold n = compaction_threshold node ∧ learner (config n) = true ∧
  node_self_is_member n = false ∧ peers (config n) = [] ∧ outbox n = [] ∧ pending_votes n = [] ∧
  application n = application node.
Proof. split; [by split|]. split_and!; reflexivity. Qed.

(** Resetting a node for a join forgets the whole consensus state, also on
    the disk: the node is a learner without term, vote, log, snapshot bound or
    configuration, and so is what any later load from the disk it has written
    gives.  The state of the application is left as it was. *)
Lemma reset_for_join_forgets {U} (node : raft_node_t U) clock disk :
  in_int (compaction_threshold node) →
  let '(node', disk') := raft_node_reset_for_join node clock disk in
  blank node' ∧ blank (raft_storage_node_load disk' node') ∧
  learner (config node') = true ∧ node_self_is_member node' = false ∧ peers (config node') = [] ∧
  outbox node' = [] ∧ pending_votes node' = [] ∧ persist_dirty node' = false ∧
  application node' = application node.
Proof.
  intros Hth. unfold raft_node_reset_for_join.
  destruct (reset_state_blank node clock) as (Hb & E1 & E2 & E3 & E4 & E5 & E6 & E7).
  revert Hb E1 E2 E3 E4 E5 E6 E7. generalize (reset_state node clock). intros n Hb E1 E2 E3 E4 E5 E6 E7.
  split; [by destruct Hb; split|]. split; [apply blank_reload; [done|by rewrite E1|done]|].
  split; [exact E2|]. split; [exact E3|]. repeat split; assumption.
Qed.

Lemma saved_node_restarts_witness :
  let node' := raft_storage_node_load (run_disk (raft_storage_node_save voter_b) ∅) voter_b in
  node_inv node' ∧ node_last_log_index node' = 2%Z.
Proof.
  assert (node_inv voter_b) as Hi.
  { split; [apply log_wfb_sound|apply repl_wfb_sound| |]; vm_compute; done. }
  assert (snapshot_on_disk ∅ voter_b) as Hsn by (left; split; [reflexivity|apply lookup_empty]).
  destruct (saved_node_restarts ∅ voter_b Hi voter_b_storable Hsn)
    as (H1 & _ & _ & H2 & _).
  split; [exact H1|exact H2].
Defined.

Lemma first_start_is_ready_witness :
  ∃ node, raft_node_init (sample_config "a" ["b"; "c"] ["a"; "b"; "c"]) 0 "data" sample_app ∅ = Some node ∧
    node_inv node ∧ old_members (config_state node) = ["a"; "b"; "c"].
Proof.
  destruct (first_start_is_ready (sample_config "a" ["b"; "c"] ["a"; "b"; "c"]) 0 "data" sample_app
    ["a"; "b"; "c"] eq_refl eq_refl eq_refl) as (n & H1 & H2 & H3 & _); [vm_compute; discriminate|].
  exists n. split; [exact H1|]. split; [exact H2|]. rewrite H3. reflexivity.
Defined.

Lemma reset_for_join_forgets_witness :
  let '(node', disk') := raft_node_reset_for_join leader_a 0 ∅ in
  blank (raft_storage_node_load disk' node') ∧ learner (config node') = true.
Proof.
  assert (in_int (compaction_threshold leader_a)) as H by (unfold in_int; vm_compute; split; congruence).
  pose proof (reset_for_join_forgets leader_a 0 ∅ H) as Hr.
  destruct (raft_node_reset_for_join leader_a 0 ∅) as [n d].
  destruct Hr as (_ & Hb & Hl & _). exact (conj Hb Hl).
Defined.
