(* ===== verification/Cluster.v ===== *)
(** A cluster whose machines one runtime runs, over the shared memory transport
    ([raft_cluster_tick] of [c/src/raft.c]).

    The runtime runs the machines in the order in which they were added, either phase
    by phase, as its documentation says of the executors ([lockstep]), or each machine
    through all its phases ([in_turn]); [ClusterRuntime] is what is assumed of it. *)
From S2P Require Import Prelude CString Types Config NodeLog Samples Replication Handlers LogMerge HandlerFacts Storage StorageFacts MemTransport Membership MembershipFacts Fsm FsmFacts FsmProps Lifecycle.

Section Schedules.
  Context {U : Type}.
  Implicit Types cluster : raft_cluster_t (U:=U).
  Context (evaluate : list (transition (U:=U)) → raft_node_t U → Z → option (transition (U:=U))).

Definition transport_of (node : raft_node_t U) : raft_transport_t raft_memory_transport_t :=
  raft_mem_transport_make (node_id (config node)).

Fixpoint latch_phase (ns : list (raft_node_t U)) (t : raft_memory_transport_t)
    : option (list (raft_node_t U) * raft_memory_transport_t) :=
  match ns with
  | [] => Some ([], t)
  | node :: ns =>
      '(node, t) ← raft_node_latch_inputs (transport_of node) node t;
      '(ns, t) ← latch_phase ns t;
      Some (node :: ns, t)
  end.

Definition commit_phase (clock : Z) (ns : list (raft_node_t U)) : option (list (raft_node_t U)) :=
  mapM (λ node, commit_transition (evaluate RAFT_TRANSITIONS node clock) node clock) ns.

(** [step] on every node in turn, with the transport and the disk. *)
Fixpoint each_node
    (step : raft_node_t U → raft_memory_transport_t → disk_t →
            option (raft_node_t U * raft_memory_transport_t * disk_t))
    (ns : list (raft_node_t U)) (t : raft_memory_transport_t) (disk : disk_t)
    : option (list (raft_node_t U) * raft_memory_transport_t * disk_t) :=
  match ns with
  | [] => Some ([], t, disk)
  | node :: ns =>
      '(node, t, disk) ← step node t disk;
      '(ns, t, disk) ← each_node step ns t disk;
      Some (node :: ns, t, disk)
  end.

Definition dump_phase := each_node (λ node, raft_node_dump_outputs (transport_of node) node).

Definition lockstep (disk : disk_t) cluster : option (raft_cluster_t (U:=U) * disk_t) :=
  '(ns, t) ← latch_phase (nodes cluster) (transport cluster);
  ns ← commit_phase (clock_ms cluster) ns;
  '(ns, t, disk) ← dump_phase ns t disk;
  Some (cluster <| transport := t |> <| nodes := ns |>, disk).

Definition in_turn (disk : disk_t) cluster : option (raft_cluster_t (U:=U) * disk_t) :=
  '(ns, t, disk) ← each_node (λ node, node_tick (transport_of node) evaluate (clock_ms cluster) node)
                     (nodes cluster) (transport cluster) disk;
  Some (cluster <| transport := t |> <| nodes := ns |>, disk).

End Schedules.

(** What is assumed of [rx_fsm_tick]. *)
Class ClusterRuntime {U}
    (rx_fsm_tick : disk_t → raft_cluster_t (U:=U) → option (raft_cluster_t (U:=U) * disk_t)) : Prop :=
  cluster_runtime : ∃ evaluate, RuntimeLaws evaluate ∧
    ((∀ disk cluster, rx_fsm_tick disk cluster = lockstep evaluate disk cluster) ∨
     (∀ disk cluster, rx_fsm_tick disk cluster = in_turn evaluate disk cluster)).

#[export] Instance lockstep_runtime {U} : ClusterRuntime (lockstep (@first_enabled U)).
Proof. exists first_enabled. split; [apply _|by left]. Qed.
#[export] Instance in_turn_runtime {U} : ClusterRuntime (in_turn (@first_enabled U)).
Proof. exists first_enabled. split; [apply _|by right]. Qed.

(** ** The choice of the runtime is determined *)

Section Choice.
  Context {U : Type}.
  Implicit Types cluster : raft_cluster_t (U:=U).
  Context (evaluate : list (transition (U:=U)) → raft_node_t U → Z → option (transition (U:=U))).
  Context {Hev : RuntimeLaws evaluate}.

Lemma each_node_ext step step' (ns : list (raft_node_t U)) t disk :
  (∀ node t disk, step node t disk = step' node t disk) → each_node step ns t disk = each_node step' ns t disk.
Proof using Type.
  intros H. revert t disk; induction ns as [|n ns IH]; intros t disk; cbn [each_node]; [done|].
  rewrite H. destruct (step' n t disk) as [[[? ?] ?]|]; bind_simpl; [|done]. by rewrite IH.
Qed.

Lemma lockstep_first_enabled disk cluster : lockstep evaluate disk cluster = lockstep first_enabled disk cluster.
Proof using Hev.
  unfold lockstep. destruct (latch_phase _ _) as [[ns t]|]; bind_simpl; [|done].
  assert (commit_phase evaluate (clock_ms cluster) ns = commit_phase first_enabled (clock_ms cluster) ns) as ->;
    [|done].
  unfold commit_phase. induction ns as [|n ns IH]; cbn; [done|]. by rewrite (evaluate_first_enabled evaluate), IH.
Qed.

Lemma in_turn_first_enabled disk cluster : in_turn evaluate disk cluster = in_turn first_enabled disk cluster.
Proof using Hev.
  unfold in_turn. erewrite each_node_ext; [done|]. intros n t d. unfold node_tick.
  destruct (raft_node_latch_inputs _ _ _) as [[n1 t1]|]; bind_simpl; [|done]. by rewrite (evaluate_first_enabled evaluate).
Qed.

End Choice.

(** ** A tick of the cluster *)

(** What waits in the queue of node [id]. *)
Definition queued_for (t : raft_memory_transport_t) (id : string) (m : raft_message_t) : Prop :=
  ∃ i, transport_find_node t id = Some i ∧ m ∈ slot (queues t) i.

Record cluster_inv {U} (cluster : raft_cluster_t (U:=U)) : Prop := {
  cluster_nodes : Forall node_inv (nodes cluster);
  cluster_terms : Forall (λ n, current_term n < INT_MAX)%Z (nodes cluster);
  cluster_benign : Forall (λ n, ∀ m, queued_for (transport cluster) (node_id (config n)) m → benign n m)
                     (nodes cluster);
}.

Section Tick.
  Context {U : Type}.
  Implicit Types cluster : raft_cluster_t (U:=U).
  Implicit Types node n : raft_node_t U.
  Context (evaluate : list (transition (U:=U)) → raft_node_t U → Z → option (transition (U:=U))).
  Context {Hev : RuntimeLaws evaluate}.

Lemma slot_cleared {A} (qs : list (list A)) i j x : x ∈ slot (<[i := []]> qs) j → x ∈ slot qs j.
Proof using Type.
  unfold slot. destruct (decide (i = j)) as [->|Hne]; [|by rewrite list_lookup_insert_ne].
  destruct (decide (j < length qs)%nat) as [Hl|Hl].
  - rewrite list_lookup_insert_eq by done. by intros ?%elem_of_nil.
  - by rewrite list_insert_ge by lia.
Qed.

(** Latching takes messages out of the queues and puts none in. *)
Lemma latch_queued node t node' t' id m :
  raft_node_latch_inputs (transport_of node) node t = Some (node', t') → queued_for t' id m → queued_for t id m.
Proof using Type.
  intros H (i & Hi & Hm). unfold raft_node_latch_inputs in H. cbv zeta in H.
  case_match; [simplify_eq; by exists i|]. cbn [recv recv_commands transport_of raft_mem_transport_make] in H.
  unfold raft_memory_transport_recv_for, raft_memory_transport_recv_client_commands in H.
  destruct (transport_find_node t _) as [k|] eqn:Ek.
  - apply bind_Some in H as (n1 & _ & H).
    change (transport_find_node (t <| queues := <[k:=[]]> (queues t) |>) (node_id (config node)))
      with (transport_find_node t (node_id (config node))) in H. rewrite Ek in H.
    assert (t' = t <| queues := <[k:=[]]> (queues t) |>
                   <| client_queues := <[k:=[]]> (client_queues t) |>) as ->.
    { case_match; [apply bind_Some in H as (? & _ & H)|]; by simplify_eq. }
    exists i. split; [exact Hi|]. by apply slot_cleared in Hm.
  - apply bind_Some in H as (n1 & _ & H). rewrite Ek in H.
    assert (t' = t) as -> by (case_match; [apply bind_Some in H as (? & _ & H)|]; by simplify_eq).
    by exists i.
Qed.

Definition received node node1 : Prop := ∃ ms, latched node ms node1 ∧ ∀ m, m ∈ ms → benign node m.

Lemma latch_phase_received ns t :
  Forall node_inv ns → Forall (λ n, ∀ m, queued_for t (node_id (config n)) m → benign n m) ns →
  ∃ ns' t', latch_phase ns t = Some (ns', t') ∧ Forall2 received ns ns'.
Proof using Type.
  revert t; induction ns as [|n ns IH]; intros t Hi Hb; cbn [latch_phase].
  { exists [], t. by split. }
  apply Forall_cons in Hi as [Hi His]. apply Forall_cons in Hb as [Hb Hbs].
  assert (∀ m, m ∈ (recv (transport_of n) t RAFT_MAX_QUEUE).2 → benign n m) as Hbr.
  { intros m Hm. apply Hb. cbn [recv transport_of raft_mem_transport_make] in Hm.
    unfold raft_memory_transport_recv_for in Hm.
    destruct (transport_find_node t _) as [i|] eqn:E; [|by apply elem_of_nil in Hm].
    exists i. split; [exact E|]. by eapply take_elem. }
  destruct (latch_inputs_latched (transport_of n) n t Hi Hbr) as (n1 & t1 & E & Hl). rewrite E. bind_simpl.
  destruct (IH t1 His) as (ns' & t' & -> & H2).
  { eapply Forall_impl; [exact Hbs|]. intros x Hx m Hm. by eapply Hx, latch_queued. }
  bind_simpl. exists (n1 :: ns'), t'. split; [done|]. constructor; [|done]. by eexists.
Qed.

Lemma commit_phase_acts clock ns ns1 :
  Forall2 received ns ns1 → Forall node_inv ns → Forall (λ n, current_term n < INT_MAX)%Z ns →
  ∃ ns2, commit_phase evaluate clock ns1 = Some ns2 ∧ Forall node_inv ns2 ∧
    Forall2 (λ n n2, current_term n ≤ current_term n2)%Z ns ns2.
Proof using Hev.
  intros H. induction H as [|n n1 ns ns1 (ms & Hl & Hb) _ IH]; intros Hi Ht.
  { exists []. by split_and!. }
  apply Forall_cons in Hi as [Hi His]. apply Forall_cons in Ht as [Ht Hts].
  destruct (IH His Hts) as (ns2 & E2 & H2 & H3).
  destruct (transition_acts evaluate clock n ms n1 (node_inv_log _ Hi) Hl Ht Hb) as [(n2 & E & Hin & Hv) _].
  exists (n2 :: ns2). unfold commit_phase in *. cbn. rewrite E, E2. cbn. split_and!; [done|by constructor|].
  constructor; [|done]. pose proof (vm_term _ _ (latched_quiet _ _ _ Hl)). pose proof (vm_term _ _ Hv). lia.
Qed.

Lemma dump_phase_total ns t disk :
  Forall node_inv ns → ∃ ns' t' disk', dump_phase ns t disk = Some (ns', t', disk') ∧
    Forall node_inv ns' ∧ Forall (λ n, outbox n = []) ns' ∧
    Forall2 (λ n n', current_term n ≤ current_term n')%Z ns ns'.
Proof using Type.
  unfold dump_phase. revert t disk; induction ns as [|n ns IH]; intros t disk Hi; cbn [each_node].
  { exists [], t, disk. by split_and!. }
  apply Forall_cons in Hi as [Hi His].
  destruct (dump_outputs_total (transport_of n) n t disk Hi) as (n' & t1 & d1 & -> & H1 & H2 & H3). bind_simpl.
  destruct (IH t1 d1 His) as (ns' & t' & d' & -> & H4 & H5 & H6). bind_simpl.
  exists (n' :: ns'), t', d'. split_and!; [done|by constructor..].
Qed.


End Tick.

(** ** Witness *)

Definition sample_cluster : raft_cluster_t (U:=nat) := mkCluster false 0 reply_in_flight [leader_a; follower_b].

Lemma sample_cluster_inv : cluster_inv sample_cluster.
Proof.
  split; (apply Forall_cons; split; [|apply Forall_cons; split; [|by apply Forall_nil]]).
  - apply node_invb_sound. vm_compute. reflexivity.
  - apply node_invb_sound. vm_compute. reflexivity.
  - vm_compute. reflexivity.
  - vm_compute. reflexivity.
  - intros m (i & Hi & Hm). vm_compute in Hi. injection Hi as <-. vm_compute in Hm.
    apply list_elem_of_singleton in Hm as ->.
    split; [intros _ _; vm_compute; done|discriminate|done|vm_compute; done].
  - intros m (i & Hi & Hm). vm_compute in Hi. injection Hi as <-. by apply elem_of_nil in Hm.
Qed.

