(* ===== verification/KvCluster.v ===== *)
(** The two programs that run a cluster of key-value nodes in one process:
    [c/examples/kv_cluster.c] and [c/examples/kv_cluster_trace.c].  Three nodes elect
    a leader, commands are submitted to it, a fourth node joins, and the state of all
    four is printed.

    The runtime's [rx_fsm_tick] is an argument; the pointer to the leader is its
    index among the nodes of the cluster.  [calloc], [mkdtemp] and the initialisation
    of the runtime are taken to succeed, [root] is the new and empty directory. *)
From S2P Require Import Prelude CString Types KvApp Config NodeLog Handlers Storage MemTransport Membership Fsm FsmProps Lifecycle Cluster.

Abbreviation kv_cluster_t := (raft_cluster_t (U:=raft_kv_state_t)).

(** *** Configurations *)

Definition make_config (id peer_a peer_b : string) (election_timeout : Z) : raft_node_config_t :=
  let s := strncpy RAFT_MAX_ID in
  mkConfig (s id) [s peer_a; s peer_b] [s id; s peer_a; s peer_b] false election_timeout 50.

Definition make_joiner_config (id peer_a peer_b peer_c : string) (election_timeout : Z) : raft_node_config_t :=
  let s := strncpy RAFT_MAX_ID in
  mkConfig (s id) [s peer_a; s peer_b; s peer_c] [s peer_a; s peer_b; s peer_c] false election_timeout 50.

Definition n1 : raft_node_config_t := make_config "n1" "n2" "n3" 150.
Definition n2 : raft_node_config_t := make_config "n2" "n1" "n3" 250.
Definition n3 : raft_node_config_t := make_config "n3" "n1" "n2" 350.
Definition n4 : raft_node_config_t := make_joiner_config "n4" "n1" "n2" "n3" 450.
Definition add_members : list string := ["n1"; "n2"; "n3"; "n4"].

(** *** Running the cluster *)

Definition role_number (r : raft_role_t) : Z :=
  match r with RAFT_ROLE_FOLLOWER => 0 | RAFT_ROLE_CANDIDATE => 1 | RAFT_ROLE_LEADER => 2 end.

(** Each node has a store of its own. *)
Definition add_node (root : string) (c : raft_node_config_t) (cluster : kv_cluster_t) (disk : disk_t)
    : option kv_cluster_t :=
  fst <$> raft_cluster_add_node cluster c root (raft_kv_make_application raft_kv_state_init) disk.

Definition leader_index (cluster : kv_cluster_t) : option nat :=
  fst <$> list_find (λ n, node_is_leader n = true) (nodes cluster).

Definition submit_to (leader : nat) (command : raft_command_t) (cluster : kv_cluster_t) : kv_cluster_t :=
  match nodes cluster !! leader with
  | Some node => cluster <| transport :=
      (raft_node_submit_command (transport_of node) node (transport cluster) command).1 |>
  | None => cluster
  end.

Definition request_members (leader : nat) (members : list string) (cluster : kv_cluster_t) : kv_cluster_t :=
  cluster <| nodes := alter (λ n, (raft_node_request_membership_change n members).1) leader (nodes cluster) |>.

(** [fprintf] of the last loop: the state of each node and its values of [keys]. *)
Definition node_line (keys : list string) (node : raft_node_t raft_kv_state_t) : string :=
  node_id (config node) +:+ " role=" +:+ print_int (role_number (machine_state node))
  +:+ " term=" +:+ print_int (current_term node)
  +:+ " cfg_members=" +:+ print_int (Z.of_nat (length (old_members (config_state node))))
  +:+ String.concat "" ((λ k, " " +:+ k +:+ "=" +:+ raft_kv_get (user (application node)) k) <$> keys)
  +:+ String newline "".

Section Programs.
  Context (rx_fsm_tick : disk_t → kv_cluster_t → option (kv_cluster_t * disk_t)).

Fixpoint run (n : nat) (cluster : kv_cluster_t) (disk : disk_t) : option (kv_cluster_t * disk_t) :=
  match n with
  | O => Some (cluster, disk)
  | S n => '(cluster, disk) ← raft_cluster_tick (rx_fsm_tick disk) cluster 10; run n cluster disk
  end.

(** The part the programs share: the cluster in the end, or [None] inside the result
    when no leader was elected. *)
Definition run_cluster (root : string) (commands : list raft_command_t) (last_ticks : nat)
    : option (option kv_cluster_t) :=
  cluster ← add_node root n1 raft_cluster_init ∅;
  cluster ← add_node root n2 cluster ∅;
  cluster ← add_node root n3 cluster ∅;
  '(cluster, disk) ← run 80 cluster ∅;
  match leader_index cluster with
  | None => Some None
  | Some leader =>
      let cluster := fold_left (λ cluster command, submit_to leader command cluster) commands cluster in
      '(cluster, disk) ← run 80 cluster disk;
      cluster ← add_node root n4 cluster disk;
      let cluster := request_members leader add_members cluster in
      '(cluster, _) ← run last_ticks cluster disk;
      Some (Some cluster)
  end.

Definition set_color : raft_command_t := mkCommand "set" "color" "blue".
Definition set_mode : raft_command_t := mkCommand "set" "mode" "active".

(** [main] of [kv_cluster.c]: the exit code, the standard output and the standard
    error. *)
Definition kv_cluster_main (root : string) : option (Z * list string * list string) :=
  r ← run_cluster root [set_color] 120;
  match r with
  | None => Some (1%Z, [], ["no leader elected" +:+ String newline ""])
  | Some cluster => Some (0%Z, node_line ["color"] <$> nodes cluster, [])
  end.

(** [main] of [kv_cluster_trace.c]; [attached] and [exported] are whether the trace
    could be attached to the runtime and written to its file. *)
Definition kv_cluster_trace_main (attached exported : bool) (root : string)
    : option (Z * list string * list string) :=
  if negb attached then Some (1%Z, [], [])
  else
    r ← run_cluster root [set_color; set_mode] 160;
    match r with
    | None => Some (1%Z, [], ["no leader elected" +:+ String newline ""])
    | Some cluster =>
        let lines := node_line ["color"; "mode"] <$> nodes cluster in
        if exported
        then Some (0%Z, lines ++ ["trace=" +:+ strncpy 256 (root +:+ "/trace.bin") +:+ String newline ""], [])
        else Some (1%Z, lines, ["could not export trace" +:+ String newline ""])
    end.

End Programs.

(** ** Lemmas *)

(** The index is that of the node the C function returns. *)
Lemma leader_index_leader (cluster : kv_cluster_t) :
  raft_cluster_leader cluster = leader_index cluster ≫= λ i, nodes cluster !! i.
Proof.
  unfold raft_cluster_leader, leader_index. induction (nodes cluster) as [|n ns IH]; [done|].
  rewrite filter_cons. cbn [list_find]. case_decide; [done|]. rewrite IH.
  by destruct (list_find _ ns) as [[i m]|].
Qed.

Section Runtimes.
  Context (tick tick' : disk_t → kv_cluster_t → option (kv_cluster_t * disk_t)).
  Context (Htick : ∀ disk cluster, tick disk cluster = tick' disk cluster).

Lemma run_ext n cluster disk : run tick n cluster disk = run tick' n cluster disk.
Proof using Htick.
  revert cluster disk; induction n as [|n IH]; intros cluster disk; cbn [run]; [done|].
  unfold raft_cluster_tick. rewrite Htick. destruct (tick' _ _) as [[c d]|]; bind_simpl; [apply IH|done].
Qed.

Lemma run_cluster_ext root commands n : run_cluster tick root commands n = run_cluster tick' root commands n.
Proof using Htick.
  unfold run_cluster. destruct (add_node _ n1 _ _); bind_simpl; [|done].
  destruct (add_node _ n2 _ _); bind_simpl; [|done]. destruct (add_node _ n3 _ _); bind_simpl; [|done].
  rewrite run_ext. destruct (run tick' _ _ _) as [[c d]|]; bind_simpl; [|done].
  destruct (leader_index c); [|done]. rewrite run_ext. destruct (run tick' _ _ _) as [[c2 d2]|]; bind_simpl; [|done].
  destruct (add_node _ n4 _ _); bind_simpl; [|done]. by rewrite run_ext.
Qed.

End Runtimes.

(** Any runtime runs the cluster in one of two ways. *)
Lemma runtime_cases (tick : disk_t → kv_cluster_t → option (kv_cluster_t * disk_t)) :
  ClusterRuntime tick →
  (∀ disk cluster, tick disk cluster = lockstep first_enabled disk cluster) ∨
  (∀ disk cluster, tick disk cluster = in_turn first_enabled disk cluster).
Proof.
  intros (evaluate & Hev & [H|H]); [left|right]; intros disk cluster; rewrite H;
    [by apply lockstep_first_enabled|by apply in_turn_first_enabled].
Qed.

(** ** The run *)

Definition new_directory : string := "/tmp/raft-c-example-Xa9Qz1".


