(* ===== verification/Voter.v ===== *)
(** Voting across crashes: a node, its disk and the messages it has ever sent,
    with ticks, crashes at any point of the output phase, stops and restarts.
    A node never votes for two candidates in one term. *)
From S2P Require Import Prelude CString Types Config NodeLog Samples Replication Handlers LogMerge HandlerFacts Storage StorageFacts MemTransport Membership MembershipFacts Fsm FsmFacts FsmProps Lifecycle.

Section DumpVote.
  Context {U : Type}.
  Implicit Types node : raft_node_t U.

(** The output phase changes neither the term nor the vote, and queues no vote. *)
Record same_vote node node' : Prop := {
  sv_term : current_term node' = current_term node;
  sv_voted : voted_for node' = voted_for node;
  sv_storage : root_dir (storage node') = root_dir (storage node) ∧
               storage_node_id (storage node') = storage_node_id (storage node);
  sv_id : node_id (config node') = node_id (config node);
  sv_dirty : persist_dirty node' = false → persist_dirty node = false;
  sv_outbox m : m ∈ outbox node' → m ∈ outbox node ∨ ballot m = None;
}.

#[export] Instance same_vote_preorder : PreOrder same_vote.
Proof.
  split; [split; try done; by left|].
  intros n1 n2 n3 [T1 V1 [R1 I1] C1 D1 O1] [T2 V2 [R2 I2] C2 D2 O2]. split; try congruence; [|auto|].
  - split; congruence.
  - intros m [Hm|?]%O2; [by apply O1|by right].
Qed.

Lemma same_vote_of_quiet node node' :
  quiet node node' → current_term node' = current_term node → voted_for node' = voted_for node →
  same_vote node node'.
Proof.
  intros [[_ _ D I [S1 S2]] O] ET EV. split; try done.
  - intros HD. by apply D.
  - intros m [?|[? _]]%O; [by left|by right].
Qed.

Lemma advance_same_vote node node' : node_advance_commit_index node = Some node' → same_vote node node'.
Proof.
  intros H. apply advance_commit_loop_spec in H; [|lia].
  destruct H as [->|(i & -> & _)]; [done|by apply same_vote_of_quiet; [apply quiet_same|..]].
Qed.

Lemma apply_loop_same_vote fuel node node' : apply_loop fuel node = Some node' → same_vote node node'.
Proof.
  revert node; induction fuel as [|fuel IH]; intros node H; cbn [apply_loop] in H; [by simplify_eq|].
  destruct (_ <? _)%Z; [|by simplify_eq]. apply bind_Some in H as (e & _ & H). apply IH in H.
  etrans; [|exact H]. set (n1 := node <| last_applied := _ |>).
  destruct (apply_command_frame n1 (entry_command e)) as [_ _ _ _ _ E1 E2 E3 E4 E5 _ _].
  split; rsimpl; [by rewrite E1|by rewrite E2|by rewrite E5|by rewrite E4|done|].
  intros m. rewrite E3. by left.
Qed.

Lemma append_internal_same_vote node o k v node' i :
  node_append_internal_command node o k v = Some (node', i) → same_vote node node'.
Proof.
  unfold node_append_internal_command. destruct (_ || _); [by intros [= <- <-]|].
  intros H. apply bind_Some in H as (n1 & H & [= <- <-]). unfold node_append_entry in H.
  apply bind_Some in H as (n2 & (_ & ->)%node_log_push_inv & H).
  pose proof (broadcast_only_outbox _ _ H) as [E _]. apply broadcast_quiet in H.
  apply same_vote_of_quiet; [|by rewrite E..]. etrans; [|exact H]. by apply quiet_same.
Qed.

(** An update of fields the vote does not depend on. *)
Lemma same_vote_ext node node' :
  current_term node' = current_term node → voted_for node' = voted_for node →
  (persist_dirty node' = false → persist_dirty node = false) → config node' = config node →
  storage node' = storage node → outbox node' = outbox node → same_vote node node'.
Proof. intros. apply same_vote_of_quiet; [|done..]. by apply quiet_same. Qed.

Lemma drive_same_vote node node' : node_maybe_drive_membership node = Some node' → same_vote node node'.
Proof.
  unfold node_maybe_drive_membership. intros H.
  destruct (_ || _); [by simplify_eq|].
  destruct (bool_decide _ && _ && _).
  { apply bind_Some in H as ([n i] & Ha%append_internal_same_vote & H). etrans; [exact Ha|].
    destruct (0 <? i)%Z; injection H as <-; by apply same_vote_ext. }
  destruct (bool_decide _ && _ && _); [injection H as <-; by apply same_vote_ext|].
  destruct (bool_decide _ && _ && _).
  { apply bind_Some in H as ([n i] & Ha%append_internal_same_vote & H). etrans; [exact Ha|].
    destruct (0 <? i)%Z; injection H as <-; by apply same_vote_ext. }
  destruct (bool_decide _ && _ && _); injection H as <-; [by apply same_vote_ext|done].
Qed.

Lemma compact_same_vote node node' ops :
  node_do_compact node = Some (node', ops) →
  same_vote node node' ∧
  (ops = [] ∨ ∃ text, ops = atomic_replace_path (storage_snapshot_path (storage node)) text).
Proof.
  unfold node_do_compact. intros H. apply bind_Some in H as (k & _ & H).
  case_match; [injection H as <- <-; split; [done|by left]|].
  case_match; [injection H as <- <-; split; [done|by left]|].
  apply bind_Some in H as (t & _ & H). cbv zeta in H. injection H as <- <-.
  split; [|right; by eexists].
  destruct (_ <=? _)%nat; apply same_vote_of_quiet; try done; by apply quiet_same'.
Qed.

(** The output phase: the disk operations of a compaction, then the save of the
    node reached, when it is dirty. *)
Lemma dump_same_vote node node' ops :
  dump_prepare node = Some (node', ops) →
  ∃ n ops1, same_vote node n ∧
    (ops1 = [] ∨ ∃ text, ops1 = atomic_replace_path (storage_snapshot_path (storage node)) text) ∧
    ((node' = n <| persist_dirty := false |> ∧ ops = ops1 ++ raft_storage_node_save n) ∨
     (persist_dirty n = false ∧ node' = n ∧ ops = ops1)).
Proof.
  unfold dump_prepare. intros H.
  apply bind_Some in H as (n1 & H1 & H). apply bind_Some in H as (n2 & H2 & H).
  apply bind_Some in H as (n3 & H3 & H). apply bind_Some in H as (b & _ & H).
  apply bind_Some in H as ([n4 ops1] & H4 & H).
  assert (same_vote node n3) as Hs3.
  { transitivity n1; [destruct (node_is_leader node); [by apply advance_same_vote|by simplify_eq]|].
    transitivity n2; [by eapply apply_loop_same_vote|by apply drive_same_vote]. }
  exists n4, ops1. split; [|split].
  - destruct b; [|by injection H4 as <- <-]. apply compact_same_vote in H4 as [Hs _]. by etrans.
  - destruct b; [|injection H4 as <- <-; by left].
    apply compact_same_vote in H4 as [_ [->|[text ->]]]; [by left|right]. exists text.
    rewrite !snapshot_path_eq. unfold storage_node_dir. by destruct (sv_storage _ _ Hs3) as [-> ->].
  - destruct (persist_dirty n4) eqn:Ed; injection H as <- <-; [by left|by right].
Qed.

End DumpVote.

(** ** Votes on every execution, well-formed or not *)

Section Discipline.
  Context {U : Type}.
  Implicit Types node : raft_node_t U.
  Implicit Types message : raft_message_t.

Lemma append_response_quiet node message node' :
  node_handle_append_entries_response node message = Some node' → quiet node node'.
Proof.
  unfold node_handle_append_entries_response. intros H.
  transitivity (node_handle_term_update node message); [apply term_update_quiet|].
  set (n1 := node_handle_term_update node message) in *.
  destruct (_ || _); [by simplify_eq|].
  destruct (node_peer_index n1 (source message)) as [p|]; [|by simplify_eq].
  destruct (success message); opts.
  - etrans; [|by eapply advance_commit_quiet]. by apply quiet_same.
  - etrans; [|by eapply send_quiet]. by apply quiet_same.
Qed.

Lemma append_entry_quiet node c node' : node_append_entry node c = Some node' → quiet node node'.
Proof.
  unfold node_append_entry. intros H. apply bind_Some in H as (n1 & (_ & ->)%node_log_push_inv & H).
  etrans; [|by eapply broadcast_quiet]. by apply quiet_same.
Qed.

Lemma latch_commands_quiet cs node node' : latch_commands cs node = Some node' → quiet node node'.
Proof.
  revert node; induction cs as [|c cs IH]; intros node H; cbn [latch_commands] in H; [by simplify_eq|].
  destruct (_ <? _)%nat; [|by simplify_eq].
  apply bind_Some in H as (n1 & H1%append_entry_quiet & H). etrans; [exact H1|by apply IH].
Qed.

Lemma latch_commands_pending cs node node' :
  latch_commands cs node = Some node' → pending_vote_requests node' = pending_vote_requests node.
Proof.
  revert node; induction cs as [|c cs IH]; intros node H; cbn [latch_commands] in H; [by simplify_eq|].
  destruct (_ <? _)%nat; [|by simplify_eq].
  apply bind_Some in H as (n1 & H1 & H). apply IH in H. rewrite H. unfold node_append_entry in H1.
  apply bind_Some in H1 as (n2 & (_ & ->)%node_log_push_inv & H1).
  by apply broadcast_only_outbox in H1 as [-> _].
Qed.

Lemma append_tail_quiet node e node' : append_entry_tail node e = Some node' → quiet node node'.
Proof.
  unfold append_entry_tail. destruct (_ && _); [|by intros [= <-]].
  intros H. apply bind_Some in H as (n1 & (_ & ->)%node_log_push_inv & [= <-]). by apply quiet_same.
Qed.

Lemma append_step_quiet st e st' : append_entry_step st e = Some st' → quiet (st.1 : raft_node_t U) st'.1.
Proof.
  destruct st as [node rb]. unfold append_entry_step. simpl.
  destruct (_ <=? _)%Z; [by intros [= <-]|]. destruct (node_has_log_index _ _).
  - intros H. apply bind_Some in H as ([] & _ & H); [|by simplify_eq].
    apply bind_Some in H as (n1 & H%append_tail_quiet & [= <-]). simpl.
    etrans; [|exact H]. by apply quiet_same.
  - intros H. apply bind_Some in H as (n1 & H%append_tail_quiet & [= <-]). done.
Qed.

Lemma append_finish_quiet node message rb : quiet node (append_entries_finish node message rb).
Proof.
  unfold append_entries_finish, app_restore_snapshot, app_reload.
  repeat case_match; by apply quiet_same.
Qed.

Lemma handle_append_quiet node message clock node' :
  node_handle_append_entries node message clock = Some node' → quiet node node'.
Proof.
  unfold node_handle_append_entries. intros H.
  transitivity (node_handle_term_update node message); [apply term_update_quiet|].
  set (n1 := node_handle_term_update node message) in *.
  apply bind_Some in H as ([n2 ok] & Hf & [= <-]).
  etrans; [|by apply quiet_queue]. destruct (_ =? _)%Z; [|by simplify_eq].
  unfold node_append_entries_from_leader in Hf. apply bind_Some in Hf as (b & _ & Hf).
  etrans; [|destruct b; simpl in Hf; [|injection Hf as <- _; reflexivity]].
  { apply quiet_same; reflexivity || done. }
  apply bind_Some in Hf as ([n3 rb] & Hl & [= <- _]). etrans; [|apply append_finish_quiet].
  match type of Hl with for_each _ _ (?n0, _) = _ =>
    apply (for_each_inv (λ st, quiet n0 st.1)) in Hl; [exact Hl| |done] end.
  intros e s1 s2 _ Hs1 Hs. etrans; [exact Hs1|by eapply append_step_quiet].
Qed.

Lemma queue_response_voting node n message b :
  voting node n → (b = true → voted_for n = source message) →
  strncpy RAFT_MAX_ID (source message) = source message → source message ≠ "" →
  voting node (node_queue_message n (vote_response n message b)).
Proof.
  intros [M O] Hb Hs Hne. split; [etrans; [exact M|]; by apply vote_mono_same|].
  intros m [?| ->]%queue_message_elem; [by apply O|right]. split.
  - unfold vote_response. rsimpl. by rewrite (vm_id _ _ M).
  - intros t c. rewrite ballot_vote_response, Hs. destruct b; [|done]. intros [= <- <-].
    unfold node_queue_message. rsimpl. by rewrite Hb.
Qed.

Lemma handle_vote_request_voting node message clock node' :
  node_handle_vote_request node message clock = Some node' →
  strncpy RAFT_MAX_ID (source message) = source message → source message ≠ "" →
  voting node node'.
Proof.
  unfold node_handle_vote_request. intros H Hs Hne.
  apply (quiet_voting _ (node_handle_term_update node message)); [apply term_update_quiet|].
  set (n1 := node_handle_term_update node message) in *.
  apply bind_Some in H as ([n2 grant] & Hg & [= <-]).
  destruct (node_self_is_member n1 && (msg_term message =? current_term n1)%Z); [|injection Hg as <- <-].
  2:{ apply queue_response_voting; [by apply voting_of_quiet|done..]. }
  apply bind_Some in Hg as (g & Hg1 & Hg). destruct g; injection Hg as <- <-.
  2:{ apply queue_response_voting; [by apply voting_of_quiet|done..]. }
  destruct (streq (voted_for n1) "" || streq (voted_for n1) (source message)) eqn:Ev; [|done].
  apply orb_true_iff in Ev. rewrite !streq_true in Ev.
  apply queue_response_voting; [|intros _; exact Hs|done..].
  split; [|by left]. split; rsimpl; try done. rewrite Hs. intros _ ?. by destruct Ev.
Qed.

Lemma become_candidate_voting node clock node' :
  action_become_candidate node clock = Some node' → valid_id (node_id (config node)) = true →
  voting node node'.
Proof.
  unfold action_become_candidate, int_incr. intros H Hid.
  apply bind_Some in H as (t & Ht & H). destruct (_ <? INT_MAX)%Z eqn:Elt; [|done]. injection Ht as <-.
  cbv zeta in H.
  set (n1 := node <| current_term := _ |> <| voted_for := _ |> <| votes_received := [] |>) in *.
  pose proof (record_vote_frame n1 (node_id (config n1))) as Hrec. cbv zeta in Hrec.
  set (n2 := node_record_vote n1 (node_id (config n1))) in *. clearbody n2.
  set (n4 := n2 <| leader_id := "" |> <| persist_dirty := true |> <| election_deadline_ms := _ |>) in *.
  assert (current_term n4 = (current_term node + 1)%Z ∧ persist_dirty n4 = true ∧
    voted_for n4 = strncpy RAFT_MAX_ID (node_id (config node)) ∧
    config n4 = config node ∧ storage n4 = storage node ∧ outbox n4 = outbox node)
    as (E3 & E4 & E5 & E6 & E7 & E8) by (unfold n4; rewrite Hrec; done).
  clearbody n4.
  assert (voting node n4) as Hv4.
  { split; [|intros m; rewrite E8; by left].
    split; [lia|lia|congruence|by rewrite E6|by rewrite E7]. }
  apply (for_each_inv (λ n, voting node n ∧ current_term n = current_term n4 ∧
    voted_for n = voted_for n4)) in H; [by destruct H| |done].
  intros p m1 m2 _ ([M O] & G1 & G2) Hs. apply bind_Some in Hs as (tm & _ & [= <-]).
  split; [|done]. split; [etrans; [exact M|]; by apply vote_mono_same|].
  intros m [?| ->]%queue_message_elem; [by apply O|right]. unfold vote_request. rsimpl.
  rewrite (vm_id _ _ M). split; [done|]. unfold ballot. rsimpl.
  rewrite G1. intros t c [= <- <-]. unfold node_queue_message. rsimpl.
  rewrite G1, G2, E5. split_and!; [done|done|].
  rewrite (valid_id_strncpy _ Hid). by apply valid_id_nonempty.
Qed.

Lemma become_leader_quiet node clock node' : action_become_leader node clock = Some node' → quiet node node'.
Proof.
  unfold action_become_leader. intros H. apply bind_Some in H as (n1 & Hl & H).
  apply bind_Some in H as (n2 & Hb%broadcast_quiet & [= <-]).
  transitivity n1; [|etrans; [exact Hb|by apply quiet_same]].
  match type of Hl with for_each _ _ ?n0 = _ => transitivity n0; [by apply quiet_same|] end.
  eapply for_each_inv in Hl; [exact Hl| |reflexivity].
  intros i m1 m2 _ Hm Hs. etrans; [exact Hm|]. opts. by apply quiet_same.
Qed.

(** Any transition of the table, whatever the state of the node. *)
Lemma action_voting t node clock node' :
  t ∈ RAFT_TRANSITIONS → action t node clock = Some node' →
  valid_id (node_id (config node)) = true →
  (∀ m, m ∈ pending_vote_requests node → valid_id (source m) = true) →
  voting node node'.
Proof.
  intros Ht H Hid Hp.
  assert (action_become_candidate node clock = Some node' → voting node node') as H1
    by (intros ?; by eapply become_candidate_voting).
  assert (action_handle_append_entries node clock = Some node' → voting node node') as H2.
  { unfold action_handle_append_entries. intros Hx. apply voting_of_quiet.
    destruct (pending_append_entries node) as [|m l]; [by simplify_eq|].
    apply handle_append_quiet in Hx. etrans; [|exact Hx]. by apply quiet_same. }
  assert (action_handle_vote_request node clock = Some node' → voting node node') as H3.
  { unfold action_handle_vote_request. intros Hx.
    destruct (pending_vote_requests node) as [|m l]; [simplify_eq; by apply voting_of_quiet|].
    specialize (Hp m ltac:(by left)).
    apply (quiet_voting _ (node <| pending_vote_requests := l |>)); [by apply quiet_same|].
    apply handle_vote_request_voting in Hx; [done|by apply valid_id_strncpy|by apply valid_id_nonempty]. }
  assert (action_handle_vote node clock = Some node' → voting node node') as H4.
  { unfold action_handle_vote. intros Hx. apply voting_of_quiet.
    destruct (pending_votes node) as [|m l]; [by simplify_eq|]. injection Hx as <-.
    destruct (handle_vote_response_spec (node <| pending_votes := l |>) m) as (Hq & _).
    etrans; [|exact Hq]. by apply quiet_same. }
  assert (action_send_heartbeat node clock = Some node' → voting node node') as H5.
  { unfold action_send_heartbeat. intros Hx. apply voting_of_quiet.
    apply bind_Some in Hx as (n & Hb%broadcast_quiet & [= <-]). etrans; [exact Hb|by apply quiet_same]. }
  assert (action_become_leader node clock = Some node' → voting node node') as H6
    by (intros ?; by eapply voting_of_quiet, become_leader_quiet).
  assert (action_ignore_vote node clock = Some node' → voting node node') as H7
    by (intros [= <-]; by apply voting_of_quiet, quiet_same).
  assert (action_ignore_vote_request node clock = Some node' → voting node node') as H8
    by (intros [= <-]; by apply voting_of_quiet, quiet_same).
  assert (action_back_to_follower_due_to_timeout node clock = Some node' → voting node node') as H9
    by (intros [= <-]; by apply voting_of_quiet, quiet_same).
  unfold RAFT_TRANSITIONS in Ht.
  repeat (apply elem_of_cons in Ht as [->|Ht]; [by auto|]). by apply elem_of_nil in Ht.
Qed.

End Discipline.

(** ** What is known of past votes *)

(** The order of [(term, vote)] pairs: a later term, or the same term with the
    vote kept once it is cast. *)
Definition vote_le (p q : Z * string) : Prop :=
  (p.1 < q.1)%Z ∨ (p.1 = q.1 ∧ (p.2 = "" ∨ p.2 = q.2)).

(** The ballot is accounted for by the pair. *)
Definition covered (b p : Z * string) : Prop := b.2 ≠ "" ∧ vote_le b p.

#[export] Instance vote_le_preorder : PreOrder vote_le.
Proof.
  split; [intros p; right; auto|]. intros [t1 v1] [t2 v2] [t3 v3]. unfold vote_le. simpl.
  intros [?|[-> Hv]] [?|[-> Hw]]; [left; lia..|right]. split; [done|].
  destruct Hv as [?| ->]; [by left|done].
Qed.

Lemma covered_le b p q : covered b p → vote_le p q → covered b q.
Proof. intros [? ?] ?. split; [done|by etrans]. Qed.

Lemma covered_same t c1 c2 p : covered (t, c1) p → covered (t, c2) p → (t = p.1)%Z → c1 = c2.
Proof.
  intros [N1 H1] [N2 H2] ->. unfold vote_le in *. simpl in *.
  destruct H1 as [?|[_ [?| ->]]]; [lia|done|]. by destruct H2 as [?|[_ [?| ->]]]; [lia|..].
Qed.

Section Pair.
  Context {U : Type}.
  Implicit Types node : raft_node_t U.

Definition vote_of node : Z * string := (current_term node, voted_for node).

Definition stored_vote (d : disk_t) (s : raft_file_storage_t) : Z * string :=
  (meta_term (loaded_meta d s), meta_voted (loaded_meta d s)).

Lemma vote_mono_le node node' : vote_mono node node' → vote_le (vote_of node) (vote_of node').
Proof.
  intros [Ht Hv _ _ _]. unfold vote_le, vote_of. simpl.
  destruct (decide (current_term node' = current_term node)) as [E|E]; [|left; lia].
  right. split; [done|]. destruct (decide (voted_for node = "")); [by left|right]. symmetry. by apply Hv.
Qed.

(** The disk after any number of the operations of an output phase holds the
    vote it held before or the one saved; after all of them, the one saved. *)
Lemma crash_vote node n d ops1 k :
  storable n →
  root_dir (storage n) = root_dir (storage node) →
  storage_node_id (storage n) = storage_node_id (storage node) →
  (ops1 = [] ∨ ∃ text, ops1 = atomic_replace_path (storage_snapshot_path (storage node)) text) →
  let ops := ops1 ++ raft_storage_node_save n in
  stored_vote (run_disk (take k ops) d) (storage node) = stored_vote d (storage node) ∨
  stored_vote (run_disk (take k ops) d) (storage node) = vote_of n.
Proof.
  intros Hs Er Ei Ho ops.
  assert (storage_meta_path (storage n) = storage_meta_path (storage node)) as Em
    by (rewrite !meta_path_eq; unfold storage_node_dir; by rewrite Er, Ei).
  assert (∀ j, run_disk (take j ops1) d !! storage_meta_path (storage node) =
               d !! storage_meta_path (storage node)) as H1.
  { intros j. destruct Ho as [->|[text ->]]; [by rewrite take_nil|].
    rewrite replace_prefix by distinct_paths.
    by rewrite bool_decide_false by (intros [H _]; revert H; distinct_paths). }
  unfold ops. rewrite take_app, run_disk_app.
  pose proof (crash_meta n (run_disk (take k ops1) d) (k - length ops1)) as Hm. rewrite Em in Hm.
  case_bool_decide.
  - right. unfold stored_vote. by rewrite (saved_meta n) by done.
  - left. unfold stored_vote, loaded_meta. by rewrite Hm, H1.
Qed.

Lemma dump_crash_vote node node' ops d k :
  dump_prepare node = Some (node', ops) → storable node' →
  (persist_dirty node = false → vote_of node = stored_vote d (storage node)) →
  (stored_vote (run_disk (take k ops) d) (storage node) = stored_vote d (storage node) ∨
   stored_vote (run_disk (take k ops) d) (storage node) = vote_of node) ∧
  stored_vote (run_disk ops d) (storage node) = vote_of node ∧
  vote_of node' = vote_of node ∧ persist_dirty node' = false ∧
  root_dir (storage node') = root_dir (storage node) ∧
  storage_node_id (storage node') = storage_node_id (storage node) ∧
  node_id (config node') = node_id (config node) ∧
  (∀ m, m ∈ outbox node' → m ∈ outbox node ∨ ballot m = None).
Proof.
  intros H Hs Hd. apply dump_same_vote in H as (n & ops1 & [T V [R I] C D O] & Ho & Hcase).
  assert (vote_of n = vote_of node) as Ev by (unfold vote_of; by rewrite T, V).
  destruct Hcase as [[-> ->]|(Hdn & -> & ->)].
  - assert (storable n) as Hsn by (destruct Hs; by split).
    split_and!; try done.
    + rewrite <- Ev. by apply crash_vote.
    + pose proof (save_files n (run_disk ops1 d)) as [Hm _].
      rewrite run_disk_app. unfold stored_vote.
      rewrite (saved_meta n); [exact Ev|done|]. rewrite <- Hm. f_equal.
      rewrite !meta_path_eq. unfold storage_node_dir. by rewrite R, I.
  - assert (∀ j, stored_vote (run_disk (take j ops1) d) (storage node) = stored_vote d (storage node)) as H1.
    { intros j. unfold stored_vote, loaded_meta. destruct Ho as [->|[text ->]]; [by rewrite take_nil|].
      rewrite replace_prefix by distinct_paths.
      by rewrite bool_decide_false by (intros [H _]; revert H; distinct_paths). }
    split_and!; try done; [by left|]. rewrite <- (firstn_all ops1), H1, Hd; auto.
Qed.

End Pair.

(** ** The voter and its steps *)

Record voter (U : Type) : Type := mkVoter {
  vnode : raft_node_t U;
  vdisk : disk_t;
  vsent : list raft_message_t;
}.
Arguments mkVoter {U}.
Arguments vnode {U}.
Arguments vdisk {U}.
Arguments vsent {U}.

Section System.
  Context {U T : Type} (tr : raft_transport_t T).
  Context (evaluate : list (transition (U:=U)) → raft_node_t U → Z → option (transition (U:=U))).
  Context {Hev : RuntimeLaws evaluate}.
  Context (cfg : raft_node_config_t) (root : string) (app : raft_application_t U).
  Context (Hid : valid_id (node_id cfg) = true) (Hvoter : learner cfg = false).
  Implicit Types v : voter U.
  Implicit Types node n : raft_node_t U.

(** The first two phases of a tick; the requests received name their source. *)
Definition tick_inputs (clock : Z) (node : raft_node_t U) (ctx : T) (n2 : raft_node_t U) : Prop :=
  ∃ n1 ctx1, raft_node_latch_inputs tr node ctx = Some (n1, ctx1) ∧
    (∀ m, m ∈ (recv tr ctx RAFT_MAX_QUEUE).2 → valid_id (source m) = true) ∧
    commit_transition (evaluate RAFT_TRANSITIONS n1 clock) n1 clock = Some n2.

(** A tick runs to its end or is cut by a crash, after which the process starts
    again from its disk.  The messages leave after the last disk operation. *)
Inductive voter_step : voter U → voter U → Prop :=
| voter_tick clock n ctx d s n2 n3 ops :
    tick_inputs clock n ctx n2 → running n2 = true → dump_prepare n2 = Some (n3, ops) → storable n3 →
    voter_step (mkVoter n d s) (mkVoter (n3 <| outbox := [] |>) (run_disk ops d) (s ++ outbox n3))
| voter_idle clock n ctx d s n2 :
    tick_inputs clock n ctx n2 → running n2 = false →
    voter_step (mkVoter n d s) (mkVoter (n2 <| outbox := [] |>) d s)
| voter_crash_saving clock n ctx d s n2 n3 ops k clock' n' :
    tick_inputs clock n ctx n2 → running n2 = true → dump_prepare n2 = Some (n3, ops) → storable n3 →
    raft_node_init cfg clock' root app (run_disk (take k ops) d) = Some n' →
    voter_step (mkVoter n d s) (mkVoter n' (run_disk (take k ops) d) s)
| voter_crash_sending clock n ctx d s n2 n3 ops k clock' n' :
    tick_inputs clock n ctx n2 → running n2 = true → dump_prepare n2 = Some (n3, ops) → storable n3 →
    raft_node_init cfg clock' root app (run_disk ops d) = Some n' →
    voter_step (mkVoter n d s) (mkVoter n' (run_disk ops d) (s ++ take k (outbox n3)))
| voter_restart n d s clock n' :
    raft_node_init cfg clock root app d = Some n' → voter_step (mkVoter n d s) (mkVoter n' d s)
| voter_stop n ctx d s :
    voter_step (mkVoter n d s) (mkVoter (raft_node_stop tr n ctx).1 d s)
| voter_start n ctx d s clock n' ctx' :
    raft_node_start tr n ctx d clock = Some (n', ctx') →
    voter_step (mkVoter n d s) (mkVoter n' d s)
| voter_request n d s ms :
    voter_step (mkVoter n d s) (mkVoter (raft_node_request_membership_change n ms).1 d s).

(** A process started on some disk. *)
Definition voter_initial v : Prop :=
  vsent v = [] ∧ ∃ clock : Z, raft_node_init cfg clock root app (vdisk v) = Some (vnode v).

Definition voter_storage : raft_file_storage_t := raft_file_storage_init root (node_id cfg).

(** The votes sent are accounted for on the disk, which is never ahead of the
    node, and level with it when the node has nothing to save. *)
Record voter_inv v : Prop := {
  vi_outbox : outbox (vnode v) = [];
  vi_id : node_id (config (vnode v)) = node_id cfg;
  vi_storage : root_dir (storage (vnode v)) = root_dir voter_storage ∧
               storage_node_id (storage (vnode v)) = storage_node_id voter_storage;
  vi_disk : vote_le (stored_vote (vdisk v) voter_storage) (vote_of (vnode v));
  vi_clean : persist_dirty (vnode v) = false →
             vote_of (vnode v) = stored_vote (vdisk v) voter_storage;
  vi_sent m b : m ∈ vsent v → ballot m = Some b → covered b (stored_vote (vdisk v) voter_storage);
  vi_once m1 m2 t c1 c2 : m1 ∈ vsent v → m2 ∈ vsent v →
    ballot m1 = Some (t, c1) → ballot m2 = Some (t, c2) → c1 = c2;
}.

Lemma stored_vote_paths d s1 s2 :
  root_dir s1 = root_dir s2 → storage_node_id s1 = storage_node_id s2 →
  stored_vote d s1 = stored_vote d s2.
Proof.
  intros E1 E2. unfold stored_vote, loaded_meta. rewrite !meta_path_eq. unfold storage_node_dir.
  by rewrite E1, E2.
Qed.

(** ** Restarting *)

Lemma init_vote clock d n :
  raft_node_init cfg clock root app d = Some n →
  vote_of n = stored_vote d voter_storage ∧ persist_dirty n = false ∧ outbox n = [] ∧
  node_id (config n) = node_id cfg ∧ root_dir (storage n) = root_dir voter_storage ∧
  storage_node_id (storage n) = storage_node_id voter_storage.
Proof using Hvoter.
  unfold raft_node_init. rewrite Hvoter.
  destruct (load_fields d (fresh_node cfg root app))
    as (Et & Ev & _ & _ & _ & _ & _ & _ & _ & Ec & Ed & Eo & Ei & Er & _).
  set (n0 := raft_storage_node_load d (fresh_node cfg root app)) in *. clearbody n0.
  intros H. apply bind_Some in H as (n1 & H1 & H).
  set (n0' := if (compaction_threshold n0 <=? 0)%Z then _ else _) in H1.
  assert (vote_of n0' = vote_of n0 ∧ persist_dirty n0' = persist_dirty n0 ∧ outbox n0' = outbox n0 ∧
          config n0' = config n0 ∧ storage n0' = storage n0) as (F1 & F2 & F3 & F4 & F5)
    by (unfold n0'; by destruct (_ <=? _)%Z).
  clearbody n0'.
  assert (vote_of n1 = vote_of n0' ∧ persist_dirty n1 = persist_dirty n0' ∧ outbox n1 = outbox n0' ∧
          config n1 = config n0' ∧ storage n1 = storage n0') as (G1 & G2 & G3 & G4 & G5).
  { destruct (needs_fallback n0'); [|by simplify_eq]. by apply bind_Some in H1 as (ms & _ & [= <-]). }
  injection H as <-. unfold vote_of, node_refresh_peers in *. cbv zeta. rsimpl.
  rewrite G1, F1, G2, F2, G3, F3, G4, F4, G5, F5, Et, Ev, Ec, Ed, Eo, Ei, Er. done.
Qed.

Lemma start_vote n ctx d clock n' ctx' :
  raft_node_start tr n ctx d clock = Some (n', ctx') →
  vote_of n' = stored_vote d (storage n) ∧ outbox n' = outbox n ∧
  node_id (config n') = node_id (config n) ∧ root_dir (storage n') = root_dir (storage n) ∧
  storage_node_id (storage n') = storage_node_id (storage n).
Proof.
  unfold raft_node_start.
  destruct (load_fields d n) as (Et & Ev & _ & _ & _ & _ & _ & _ & _ & Ec & _ & Eo & Ei & Er & _).
  set (n0 := raft_storage_node_load d n) in *. clearbody n0.
  intros H. apply bind_Some in H as (n1 & H1 & [= <- _]).
  assert (vote_of n1 = vote_of n0 ∧ outbox n1 = outbox n0 ∧
          node_id (config n1) = node_id (config n0) ∧ storage n1 = storage n0) as (G1 & G3 & G4 & G5).
  { destruct (needs_fallback n0); [|by simplify_eq]. by apply bind_Some in H1 as (ms & _ & [= <-]). }
  unfold vote_of in *. rsimpl. rewrite G1, G3, G4, G5, Et, Ev, Ec, Eo, Ei, Er. done.
Qed.

(** ** The inputs of a tick *)

Lemma latch_quiet node ctx n1 ctx1 :
  raft_node_latch_inputs tr node ctx = Some (n1, ctx1) →
  quiet node n1 ∧ ∀ m, m ∈ pending_vote_requests n1 → m ∈ (recv tr ctx RAFT_MAX_QUEUE).2.
Proof.
  unfold raft_node_latch_inputs. intros H.
  set (n0 := node <| pending_append_entries := [] |> <| pending_vote_requests := [] |>
                  <| pending_votes := [] |>) in *.
  assert (quiet node n0) as Hq0 by by apply quiet_same.
  destruct (running n0); simpl in H.
  2:{ injection H as <- _. split; [|intros m ?; rsimpl; by apply elem_of_nil in H].
      split; [by apply vote_mono_same|]. rsimpl. by intros m ?%elem_of_nil. }
  destruct (recv tr ctx RAFT_MAX_QUEUE) as [ctx2 ms]. simpl in *.
  apply bind_Some in H as (n2 & Hl & H).
  assert (quiet node n2 ∧ ∀ m, m ∈ pending_vote_requests n2 → m ∈ ms) as [Hq2 Hp2].
  { apply (for_each_inv (λ n, quiet node n ∧ ∀ m, m ∈ pending_vote_requests n → m ∈ ms)) in Hl;
      [done| |split; [done|by intros m ?%elem_of_nil]].
    intros m a b Hm [Hqa Hpa] Hs. unfold latch_message in Hs. destruct (kind m).
    - injection Hs as <-. split; [etrans; [exact Hqa|by apply quiet_same]|].
      rsimpl. intros x [?| ->]%queue_push_elem; [by apply Hpa|done].
    - injection Hs as <-. split; [etrans; [exact Hqa|by apply quiet_same]|exact Hpa].
    - injection Hs as <-. split; [etrans; [exact Hqa|by apply quiet_same]|exact Hpa].
    - destruct (append_response_role _ _ _ Hs) as (_ & _ & _ & Ep & _). rewrite Ep.
      split; [|done]. etrans; [exact Hqa|by eapply append_response_quiet]. }
  destruct (recv_commands tr ctx2 RAFT_MAX_QUEUE) as [ctx3 cs].
  destruct (node_is_leader n2); [|by injection H as <- <-].
  apply bind_Some in H as (n3 & Hc & [= <- <-]). split; [etrans; [exact Hq2|by eapply latch_commands_quiet]|].
  by rewrite (latch_commands_pending _ _ _ Hc).
Qed.

Lemma tick_inputs_voting clock node ctx n2 :
  tick_inputs clock node ctx n2 → node_id (config node) = node_id cfg → voting node n2.
Proof using Hev Hid.
  intros (n1 & ctx1 & Hl & Hsrc & Hc) Hn. apply latch_quiet in Hl as [Hq Hp].
  apply (quiet_voting _ n1); [done|].
  destruct (evaluate RAFT_TRANSITIONS n1 clock) as [t|] eqn:E; simpl in Hc;
    [|injection Hc as <-; by apply voting_of_quiet].
  apply evaluate_some in E as (pre & post & Hts & _).
  apply (quiet_voting _ (n1 <| machine_state := to_role t |>)); [by apply quiet_same|].
  apply action_voting in Hc; [done|..].
  - rewrite Hts. apply elem_of_app. right. by left.
  - rsimpl. by rewrite (vm_id _ _ Hq), Hn.
  - intros m Hm. by apply Hsrc, Hp.
Qed.

(** ** The invariant is kept *)

(** The votes in the outbox of a tick are the node's own. *)
Lemma tick_ballots node n2 m b :
  outbox node = [] → voting node n2 → m ∈ outbox n2 → ballot m = Some b →
  b = vote_of n2 ∧ b.2 ≠ "".
Proof.
  intros Ho [_ O] Hm Hb. destruct (O m Hm) as [Hx|[_ Hx]].
  - rewrite Ho in Hx. by apply elem_of_nil in Hx.
  - destruct b as [t c]. by destruct (Hx t c Hb) as (-> & -> & ?).
Qed.

(** Adding the votes of a node that is now on the disk to those accounted for. *)
Lemma sent_extend v n new p :
  voter_inv v → vote_le (stored_vote (vdisk v) voter_storage) p → p = vote_of n →
  (∀ m b, m ∈ new → ballot m = Some b → b = p ∧ b.2 ≠ "") →
  (∀ m b, m ∈ vsent v ++ new → ballot m = Some b → covered b p) ∧
  (∀ m1 m2 t c1 c2, m1 ∈ vsent v ++ new → m2 ∈ vsent v ++ new →
     ballot m1 = Some (t, c1) → ballot m2 = Some (t, c2) → c1 = c2).
Proof.
  intros [_ _ _ _ _ Hsent Honce] Hle -> Hnew.
  assert (∀ m b, m ∈ vsent v ++ new → ballot m = Some b → covered b (vote_of n)) as Hcov.
  { intros m b [Hm|Hm]%elem_of_app Hb; [by eapply covered_le; [eapply Hsent|]|].
    destruct (Hnew m b Hm Hb) as [-> ?]. split; [done|reflexivity]. }
  split; [done|]. intros m1 m2 t c1 c2 Hm1 Hm2 Hb1 Hb2.
  pose proof (Hcov _ _ Hm1 Hb1) as C1. pose proof (Hcov _ _ Hm2 Hb2) as C2.
  apply elem_of_app in Hm1 as [Hm1|Hm1]; apply elem_of_app in Hm2 as [Hm2|Hm2];
    [exact (Honce m1 m2 t c1 c2 Hm1 Hm2 Hb1 Hb2)|..].
  - destruct (Hnew _ _ Hm2 Hb2) as [E _]. eapply covered_same; [exact C1|exact C2|by rewrite <- E].
  - destruct (Hnew _ _ Hm1 Hb1) as [E _]. eapply covered_same; [exact C1|exact C2|by rewrite <- E].
  - destruct (Hnew _ _ Hm1 Hb1) as [E1 _]. destruct (Hnew _ _ Hm2 Hb2) as [E2 _]. congruence.
Qed.

(** What a tick that reaches its output phase does to the node's votes. *)
Record ticked v n2 n3 (ops : list (disk_t → disk_t)) : Prop := {
  tk_le : vote_le (stored_vote (vdisk v) voter_storage) (vote_of n2);
  tk_part k : stored_vote (run_disk (take k ops) (vdisk v)) voter_storage =
                stored_vote (vdisk v) voter_storage ∨
              stored_vote (run_disk (take k ops) (vdisk v)) voter_storage = vote_of n2;
  tk_all : stored_vote (run_disk ops (vdisk v)) voter_storage = vote_of n2;
  tk_vote : vote_of n3 = vote_of n2;
  tk_id : node_id (config n3) = node_id cfg;
  tk_storage : root_dir (storage n3) = root_dir voter_storage ∧
               storage_node_id (storage n3) = storage_node_id voter_storage;
  tk_new m b : m ∈ outbox n3 → ballot m = Some b → b = vote_of n2 ∧ b.2 ≠ "";
}.

Lemma tick_ticked v clock ctx n2 n3 ops :
  voter_inv v → tick_inputs clock (vnode v) ctx n2 → dump_prepare n2 = Some (n3, ops) →
  storable n3 → ticked v n2 n3 ops.
Proof using Hev Hid.
  intros [Io Ii [Ir Is] Id Ic _ _] Hin Hdump Hst.
  apply tick_inputs_voting in Hin as Hv; [|done]. pose proof Hv as [M _].
  destruct (vm_storage _ _ M) as [S1 S2].
  assert (∀ d, stored_vote d (storage n2) = stored_vote d voter_storage) as Hpath.
  { intros d. apply stored_vote_paths; congruence. }
  destruct (dump_crash_vote n2 n3 ops (vdisk v) 0 Hdump Hst) as (_ & Hall & Hvote & _ & Hr & Hi & Hc & Ho).
  { intros HD. destruct (vm_dirty _ _ M HD) as (HD0 & E1 & E2). rewrite Hpath, <- Ic by done.
    unfold vote_of. by rewrite E1, E2. }
  split.
  - etrans; [exact Id|by apply vote_mono_le].
  - intros k. destruct (dump_crash_vote n2 n3 ops (vdisk v) k Hdump Hst) as (Hk & _).
    { intros HD. destruct (vm_dirty _ _ M HD) as (HD0 & E1 & E2). rewrite Hpath, <- Ic by done.
      unfold vote_of. by rewrite E1, E2. }
    by rewrite !Hpath in Hk.
  - by rewrite <- Hpath.
  - done.
  - rewrite Hc, (vm_id _ _ M). done.
  - split; congruence.
  - intros m b Hm Hb. destruct (Ho m Hm) as [Hm'|Hn]; [|congruence].
    by apply (tick_ballots (vnode v) n2 m).
Qed.

(** A process that has just started accounts for every vote on its disk. *)
Lemma restarted_inv d s clock n' :
  raft_node_init cfg clock root app d = Some n' →
  (∀ m b, m ∈ s → ballot m = Some b → covered b (stored_vote d voter_storage)) →
  (∀ m1 m2 t c1 c2, m1 ∈ s → m2 ∈ s →
     ballot m1 = Some (t, c1) → ballot m2 = Some (t, c2) → c1 = c2) →
  voter_inv (mkVoter n' d s).
Proof using Hvoter.
  intros (Ev & _ & Eo & Ei & Er & Es)%init_vote Hs Ho. split; try done; simpl.
  by rewrite Ev.
Qed.

Lemma voter_step_inv v v' : voter_step v v' → voter_inv v → voter_inv v'.
Proof using Hev Hid Hvoter.
  intros Hstep Hv. destruct Hstep as
    [clock n ctx d s n2 n3 ops Hin Hrun Hd Hst
    |clock n ctx d s n2 Hin Hrun
    |clock n ctx d s n2 n3 ops k clock' n' Hin Hrun Hd Hst Hinit
    |clock n ctx d s n2 n3 ops k clock' n' Hin Hrun Hd Hst Hinit
    |n d s clock n' Hinit|n ctx d s|n ctx d s clock n' ctx' Hstart|n d s ms].
  - destruct (tick_ticked _ _ _ _ _ _ Hv Hin Hd Hst) as [Tle _ Tall Tv Ti Ts Tn]. simpl in *.
    destruct (sent_extend _ n2 (outbox n3) _ Hv Tle eq_refl Tn) as [S1 S2]. simpl in *.
    split; try done; simpl; rewrite ?Tall.
    + change (vote_le (vote_of n2) (vote_of n3)). by rewrite Tv.
    + intros _. exact Tv.
    + done.
  - pose proof Hv as [Io Ii [Ir Is] Id Ic Hs Ho]. simpl in *.
    apply tick_inputs_voting in Hin as [M _]; [|done]. destruct (vm_storage _ _ M) as [S1 S2].
    split; try done; simpl.
    + by rewrite (vm_id _ _ M).
    + rsimpl. split; congruence.
    + etrans; [exact Id|exact (vote_mono_le _ _ M)].
    + intros HD. destruct (vm_dirty _ _ M HD) as (HD0 & E1 & E2). rewrite <- Ic by done.
      unfold vote_of. rsimpl. by rewrite E1, E2.
  - destruct (tick_ticked _ _ _ _ _ _ Hv Hin Hd Hst) as [Tle Tp _ _ _ _ _]. simpl in *.
    refine (restarted_inv _ _ _ _ Hinit _ (vi_once _ Hv)).
    intros m b Hm Hb. pose proof (vi_sent _ Hv m b Hm Hb) as Hc. simpl in Hc.
    destruct (Tp k) as [->| ->]; [done|by eapply covered_le].
  - destruct (tick_ticked _ _ _ _ _ _ Hv Hin Hd Hst) as [Tle _ Tall _ _ _ Tn]. simpl in *.
    destruct (sent_extend _ n2 (take k (outbox n3)) _ Hv Tle eq_refl) as [S1 S2].
    { intros m b Hm. apply Tn. by apply take_elem in Hm. }
    refine (restarted_inv _ _ _ _ Hinit _ S2). by rewrite Tall.
  - exact (restarted_inv _ _ _ _ Hinit (vi_sent _ Hv) (vi_once _ Hv)).
  - destruct Hv as [Io Ii Is Id Ic Hs Ho]. by split.
  - destruct Hv as [Io Ii [Ir Is] Id Ic Hs Ho]. simpl in *.
    apply start_vote in Hstart as (Ev & Eo & Ei & Er & Es).
    rewrite (stored_vote_paths _ _ voter_storage) in Ev by done.
    split; try done; simpl; [congruence|congruence|split; congruence|by rewrite Ev].
  - destruct Hv as [Io Ii Is Id Ic Hs Ho]. unfold raft_node_request_membership_change.
    destruct (negb _); [by split|]. cbv zeta. destruct (_ =? 0)%nat; by split.
Qed.

Lemma reachable_inv v0 v : voter_initial v0 → rtc voter_step v0 v → voter_inv v.
Proof using Hev Hid Hvoter.
  intros [Hs [clock Hinit]] Hrun.
  assert (voter_inv v0) as H0.
  { destruct v0 as [n d s]. simpl in *. subst s.
    refine (restarted_inv _ _ _ _ Hinit _ _); intros;
      by match goal with H : _ ∈ [] |- _ => apply elem_of_nil in H end. }
  clear Hs Hinit. induction Hrun as [|v1 v2 v3 Hst _ IH]; [done|]. by eapply IH, voter_step_inv.
Qed.

(** C1: one vote per term, across crashes.  However a voting node is run,
    stopped, restarted, and killed between any two of its disk operations or
    sends, with whatever messages it receives from whoever they claim to come
    from, all the votes it ever sends in one term, the one for itself in its
    vote requests included, are for the same candidate. *)
Theorem one_vote_per_term v0 v m1 m2 t c1 c2 :
  voter_initial v0 → rtc voter_step v0 v →
  m1 ∈ vsent v → m2 ∈ vsent v →
  ballot m1 = Some (t, c1) → ballot m2 = Some (t, c2) → c1 = c2.
Proof using Hev Hid Hvoter. intros Hinit Hrun. by apply (vi_once v), (reachable_inv v0 v). Qed.

End System.

(** ** Elections *)

(** Whether the voter has sent a vote for [c] in term [t]. *)
Definition voted {U} (t : Z) (c : string) (v : voter U) : Prop :=
  Exists (λ m, ballot m = Some (t, c)) (vsent v).

#[export] Instance voted_dec {U} t c (v : voter U) : Decision (voted t c v).
Proof. unfold voted. apply _. Defined.


(** ** Witnesses *)

Definition config_b : raft_node_config_t := sample_config "b" ["a"; "c"] ["a"; "b"; "c"].

Definition unwrap {A} (x : option A) (d : A) : A := default d x.

(** [b] started on an empty disk. *)
Definition boot_b : raft_node_t nat :=
  unwrap (raft_node_init config_b 0 "data" sample_app ∅) (fresh_node config_b "data" sample_app).

(** [c] asks [b] for its vote in term 2. *)
Definition request_in_flight : raft_memory_transport_t :=
  (raft_memory_transport_send sample_transport vote_request_from_c).1.

Definition latched_b : raft_node_t nat * raft_memory_transport_t :=
  unwrap (raft_node_latch_inputs (raft_mem_transport_make "b") boot_b request_in_flight)
    (boot_b, request_in_flight).
Definition acted_b : raft_node_t nat :=
  unwrap (commit_transition (first_enabled RAFT_TRANSITIONS latched_b.1 10) latched_b.1 10) boot_b.
Definition dumped_b : raft_node_t nat * list (disk_t → disk_t) :=
  unwrap (dump_prepare acted_b) (acted_b, []).

Definition voter_b0 : voter nat := mkVoter boot_b ∅ [].
Definition voter_b1 : voter nat :=
  mkVoter (dumped_b.1 <| outbox := [] |>) (run_disk dumped_b.2 ∅) ([] ++ outbox dumped_b.1).

Lemma voter_b_runs :
  voter_initial config_b "data" sample_app voter_b0 ∧
  rtc (voter_step (raft_mem_transport_make "b") first_enabled config_b "data" sample_app)
    voter_b0 voter_b1.
Proof.
  split; [split; [done|exists 0%Z; vm_compute; reflexivity]|].
  apply rtc_once. apply (voter_tick _ _ _ _ _ 10 boot_b request_in_flight ∅ [] acted_b).
  - exists latched_b.1, latched_b.2. split_and!; [vm_compute; reflexivity| |vm_compute; reflexivity].
    intros m Hm. vm_compute in Hm. apply list_elem_of_singleton in Hm as ->. reflexivity.
  - vm_compute. reflexivity.
  - vm_compute. reflexivity.
  - apply storableb_sound. vm_compute. reflexivity.
Qed.

(** The vote [b] sends to [c]. *)
Definition vote_of_b : raft_message_t :=
  zero_message RAFT_MSG_REQUEST_VOTE_RESPONSE <| msg_term := 2%Z |> <| granted := true |>
    <| source := "b" |> <| target := "c" |>.

Lemma vote_of_b_sent : vote_of_b ∈ vsent voter_b1.
Proof. vm_compute. by left. Qed.

Lemma one_vote_per_term_witness :
  ballot vote_of_b = Some (2%Z, "c") ∧
  ∀ m2 c2, m2 ∈ vsent voter_b1 → ballot m2 = Some (2%Z, c2) → "c" = c2.
Proof.
  split; [reflexivity|]. intros m2 c2 Hm2 Hb2.
  refine (one_vote_per_term (raft_mem_transport_make "b") first_enabled config_b "data" sample_app
            eq_refl eq_refl voter_b0 voter_b1 vote_of_b m2 2 "c" c2 (proj1 voter_b_runs)
            (proj2 voter_b_runs) vote_of_b_sent Hm2 eq_refl Hb2).
Defined.

