(* ===== verification/Findings.v ===== *)
(** Behaviours of the code that break what it is meant to guarantee, each shown
    on the definitions: in general where the hypotheses are natural, and on a
    concrete run of the program otherwise. *)
From S2P Require Import Prelude CString Types Config NodeLog Samples Replication Handlers LogMerge HandlerFacts KvApp Storage StorageFacts MemTransport Membership MembershipFacts Fsm FsmFacts.

(** ** A response of a later term *)

(** A leader (or a candidate) that hears of a later term in an
    [AppendEntries] response adopts the term and keeps its role: nothing in the
    handler, and no guard of the table, makes it step down, so it goes on as a
    leader of a term in which it was not elected and has no vote. *)
Lemma leader_keeps_role_in_new_term {U} (node node' : raft_node_t U) message :
  (current_term node < msg_term message)%Z →
  node_handle_append_entries_response node message = Some node' →
  machine_state node' = machine_state node ∧ current_term node' = msg_term message ∧
  voted_for node' = "".
Proof.
  intros Ht H. destruct (append_response_role _ _ _ H) as (R & _ & _ & _ & _ & T).
  split_and!; [done|lia|].
  unfold node_handle_append_entries_response in H.
  assert (voted_for (node_handle_term_update node message) = "") as Hv
    by (unfold node_handle_term_update; by rewrite (proj2 (Z.ltb_lt _ _)) by done).
  set (n1 := node_handle_term_update node message) in *. clearbody n1.
  destruct (_ || _); [by injection H as <-|].
  destruct (node_peer_index n1 (source message)) as [p|]; [|by injection H as <-].
  destruct (success message); opts.
  - apply advance_commit_loop_spec in H; [|lia]. by destruct H as [->|(i & -> & _)].
  - by apply send_only_outbox in H as [-> _].
Qed.

(** [b] answers [a], leader of term 2, from term 5. *)
Definition reply_of_term_5 : raft_message_t :=
  mkMessage RAFT_MSG_APPEND_ENTRIES_RESPONSE 5 "b" "a" false false 0 0 "" 0 2 0 0 [].

(** [c], elected in term 5. *)
Definition leader_c : raft_node_t nat :=
  sample_node "c" ["a"; "b"] ["a"; "b"; "c"] RAFT_ROLE_LEADER 5 [sample_entry 1 1 "a"].

Lemma leader_keeps_role_in_new_term_witness :
  ∃ node', node_handle_append_entries_response leader_a reply_of_term_5 = Some node' ∧
    node_is_leader node' = true ∧ node_is_leader leader_c = true ∧
    current_term node' = current_term leader_c.
Proof.
  destruct (node_handle_append_entries_response leader_a reply_of_term_5) as [node'|] eqn:E.
  - exists node'. destruct (leader_keeps_role_in_new_term leader_a node' reply_of_term_5 eq_refl E)
      as (_ & Ht & _).
    split; [done|]. split; [|split; [reflexivity|exact Ht]].
    vm_compute in E. injection E as <-. vm_compute. reflexivity.
  - vm_compute in E. discriminate.
Defined.

(** ** The index a follower acknowledges *)

(** A follower acknowledges more than it checked.  A successful
    [AppendEntries] is answered with the follower's last log index, also when
    the message carried no entry and the log goes on after its previous index
    with entries the leader does not have. *)
Theorem success_reports_unchecked_entries {U} (node : raft_node_t U) message clock :
  log_wf node → msg_term message = current_term node → entries message = [] →
  append_entries_check node message = Some true →
  ∃ node' reply, node_handle_append_entries node message clock = Some node' ∧
    outbox node' = queue_push RAFT_MAX_QUEUE (outbox node) reply ∧
    success reply = true ∧ msg_match_index reply = node_last_log_index node ∧
    log node' = log node ∧ log_count node' = log_count node.
Proof.
  intros Hw Ht He Hc. unfold node_handle_append_entries.
  assert (node_handle_term_update node message = node) as ->
    by (unfold node_handle_term_update; by rewrite Ht, Z.ltb_irrefl).
  rewrite Ht, Z.eqb_refl.
  set (n1 := node <| leader_id := strncpy RAFT_MAX_ID (source message) |>).
  set (n2 := n1 <| election_deadline_ms := _ |>).
  unfold node_append_entries_from_leader.
  change (append_entries_check n2 message) with (append_entries_check node message).
  rewrite Hc, He. bind_simpl. cbn [negb for_each]. bind_simpl.
  set (n3 := append_entries_finish n2 message false).
  assert (log n3 = log node ∧ log_count n3 = log_count node ∧ outbox n3 = outbox node ∧
    snapshot_last_included_index n3 = snapshot_last_included_index node) as (E1 & E2 & E3 & E4)
    by (unfold n3, append_entries_finish; by repeat case_match).
  clearbody n3. exists (node_queue_message n3 (append_response n3 message true)), (append_response n3 message true).
  rewrite <- E3. split_and!; [reflexivity|reflexivity|done| |done|done].
  unfold append_response. rsimpl. unfold node_last_log_index. by rewrite E2, E4.
Qed.

(** [a] is elected in term 2 with one entry; [b] still has a second entry of term
    1 that no one else holds. *)
Definition new_leader_a : raft_node_t nat :=
  sample_node "a" ["b"; "c"] ["a"; "b"; "c"] RAFT_ROLE_LEADER 2 [sample_entry 1 1 "a"].
Definition stale_b : raft_node_t nat :=
  sample_node "b" ["a"; "c"] ["a"; "b"; "c"] RAFT_ROLE_FOLLOWER 2
    [sample_entry 1 1 "a"; sample_entry 2 1 "c"].
Definition empty_append : raft_message_t :=
  mkMessage RAFT_MSG_APPEND_ENTRIES 2 "a" "b" false false 1 1 "a" 0 0 0 0 [].

(** [a]'s message to [b], [b]'s answer, a client command on [a], and [a]'s commit. *)
Definition lost_entry_run : option (raft_node_t nat * raft_node_t nat) :=
  a1 ← node_broadcast_append_entries
         (new_leader_a <| next_index := replicate RAFT_MAX_PEERS 2%Z |>);
  to_b ← outbox a1 !! 0%nat;
  b1 ← node_handle_append_entries stale_b to_b 0;
  reply ← outbox b1 !! 0%nat;
  a2 ← node_handle_append_entries_response a1 reply;
  a3 ← node_append_entry a2 (mkCommand "set" "x" "2");
  a4 ← node_advance_commit_index a3;
  Some (a4, b1).

Lemma success_reports_unchecked_entries_witness :
  ∃ node' reply, node_handle_append_entries stale_b empty_append 0 = Some node' ∧
    outbox node' = [reply] ∧ success reply = true ∧ msg_match_index reply = 2%Z.
Proof.
  destruct (success_reports_unchecked_entries stale_b empty_append 0)
    as (node' & reply & H & Ho & Hs & Hm & _).
  - apply log_wfb_sound. vm_compute. reflexivity.
  - reflexivity.
  - reflexivity.
  - vm_compute. reflexivity.
  - exists node', reply. split_and!; [exact H|exact Ho|exact Hs|exact Hm].
Defined.

(** The leader can commit an entry that only it holds.  After the exchange
    above, [a] counts [b] as holding its entry 2 and commits it alone: [b]'s
    second entry is another one, and [c] was never heard of. *)
Lemma commits_entry_without_majority :
  ∃ a b ea eb, lost_entry_run = Some (a, b) ∧ commit_index a = 2%Z ∧
    node_log_at a 2 = Some ea ∧ node_log_at b 2 = Some eb ∧ entry_term ea ≠ entry_term eb ∧
    match_index a !! 1%nat = Some 0%Z.
Proof.
  destruct lost_entry_run as [[a b]|] eqn:E; vm_compute in E; [|discriminate].
  injection E as <- <-. eexists _, _, _, _.
  split_and!; [reflexivity|reflexivity|vm_compute; reflexivity|vm_compute; reflexivity| |vm_compute; reflexivity].
  vm_compute. discriminate.
Qed.

(** ** A crash between the snapshot and the metadata *)

(** A process that stops after [snapshot.bin] is replaced and before
    [meta.txt] is, with an earlier snapshot recorded in [meta.txt], cannot be
    restarted: the loaded node restarts applying at index 1, which the log no
    longer holds, and reads before the beginning of the log array. *)
Lemma snapshot_crash_breaks_restart {U} d (node : raft_node_t U) :
  loaded_snapshot d (storage node) = None →
  (0 < meta_snap_index (loaded_meta d (storage node)))%Z →
  (0 < meta_commit (loaded_meta d (storage node)))%Z →
  let node' := raft_storage_node_load d node in
  last_applied node' = 0%Z ∧ node_apply_committed node' = None.
Proof.
  intros Hs Hi Hc node'.
  destruct (load_fields d node) as (_ & _ & _ & Ec & Es & _). fold node' in Ec, Es.
  assert (last_applied node' = 0%Z) as Ea by (unfold node', raft_storage_node_load; by rewrite Hs).
  clearbody node'. split; [done|]. unfold node_apply_committed. rewrite Ea, Z.sub_0_r.
  set (es := length (loaded_log d (storage node))) in *.
  assert (0 < commit_index node')%Z as Hc' by lia.
  destruct (Z.to_nat (commit_index node')) as [|n] eqn:En; [lia|]. cbn [apply_loop].
  rewrite Ea, (proj2 (Z.ltb_lt _ _)) by done. cbv zeta.
  unfold node_log_at, node_physical_index, array_get. rsimpl.
  by rewrite (proj2 (Z.ltb_lt _ _)) by lia.
Qed.

(** [b] with a first snapshot up to index 1 saved, which then compacts up to 2. *)
Definition once_compacted_b : raft_node_t nat :=
  follower_b <| log := sample_entry 2 1 "a" :: replicate 127 zero_entry |> <| log_count := 1%nat |>
    <| snapshot_last_included_index := 1%Z |> <| snapshot_last_included_term := 1%Z |>
    <| commit_index := 2%Z |> <| last_applied := 2%Z |>.

Definition crashed_disk : disk_t :=
  run_disk (raft_storage_save_snapshot once_compacted_b 2 1)
    (run_disk (raft_storage_node_save once_compacted_b)
       (run_disk (raft_storage_save_snapshot once_compacted_b 1 1) ∅)).

Lemma snapshot_crash_breaks_restart_witness :
  node_apply_committed (raft_storage_node_load crashed_disk follower_b) = None.
Proof.
  refine (proj2 (snapshot_crash_breaks_restart crashed_disk follower_b _ _ _)).
  - vm_compute. reflexivity.
  - vm_compute. reflexivity.
  - vm_compute. reflexivity.
Defined.

(** ** An unchecked index from the network *)

(** A leader stores the index a response reports without checking it, and an
    index past the end of the log array makes its next message to that peer
    read outside the array. *)
Lemma unchecked_match_index_reads_past_log {U} (node node' : raft_node_t U) message p :
  log_core node → machine_state node = RAFT_ROLE_LEADER → msg_term message = current_term node →
  success message = true → node_peer_index node (source message) = Some p →
  (snapshot_last_included_index node + Z.of_nat RAFT_MAX_LOG < msg_match_index message)%Z →
  node_handle_append_entries_response node message = Some node' →
  node_send_append_entries_to node' (source message) = None.
Proof.
  intros Hw Hl Ht Hs Hp Hm H. unfold node_handle_append_entries_response in H.
  assert (node_handle_term_update node message = node) as E
    by (unfold node_handle_term_update; by rewrite Ht, Z.ltb_irrefl).
  rewrite E, Ht, Z.eqb_refl, bool_decide_true, Hp, Hs in H by done. simpl in H. clear E.
  apply bind_Some in H as (next & Hn & H). apply bind_Some in H as (mt & _ & H).
  apply bind_Some in H as (nx & Hx & H). unfold int_incr in Hn. case_match; [|done]. simplify_eq.
  unfold array_set in Hx. destruct (p <? length (next_index node))%nat eqn:Ep; [|done]. bools.
  injection Hx as <-. pose proof (log_core_snapshot _ Hw) as Hs0.
  apply advance_commit_loop_spec in H; [|lia].
  assert (next_index node' = <[p := (msg_match_index message + 1)%Z]> (next_index node) ∧
    log node' = log node ∧ log_count node' = log_count node ∧ config node' = config node ∧
    snapshot_last_included_index node' = snapshot_last_included_index node)
    as (E1 & E2 & E3 & E4 & E5) by (by destruct H as [->|(i & -> & _)]).
  clear H. unfold node_send_append_entries_to, send_next_index, node_peer_index in *.
  rewrite E4, Hp, E1, list_lookup_insert_eq by done. bind_simpl.
  unfold node_log_base_index. rewrite E5, (proj2 (Z.ltb_ge _ _)) by lia. bind_simpl.
  replace (msg_match_index message + 1 - 1)%Z with (msg_match_index message) by lia.
  unfold node_term_at_index, node_log_at, node_physical_index, array_get. rewrite E2, E5.
  rewrite (proj2 (Z.eqb_neq _ _)), (proj2 (Z.eqb_neq _ _)), (proj2 (Z.ltb_ge _ _)) by lia.
  rewrite lookup_ge_None_2; [done|]. rewrite (log_core_length _ Hw). lia.
Qed.

Definition huge_reply : raft_message_t :=
  mkMessage RAFT_MSG_APPEND_ENTRIES_RESPONSE 2 "b" "a" false true 0 0 "" 0 1000 0 0 [].

Lemma unchecked_match_index_reads_past_log_witness :
  ∃ node', node_handle_append_entries_response leader_a huge_reply = Some node' ∧
    node_send_append_entries_to node' "b" = None.
Proof.
  destruct (node_handle_append_entries_response leader_a huge_reply) as [node'|] eqn:E;
    [|vm_compute in E; discriminate].
  exists node'. split; [done|].
  refine (unchecked_match_index_reads_past_log leader_a node' huge_reply 0 _ _ _ _ _ _ E).
  - exact (log_wf_core _ leader_a_log_wf).
  - reflexivity.
  - reflexivity.
  - reflexivity.
  - reflexivity.
  - vm_compute. reflexivity.
Defined.
