(* ===== verification/MessageLayout.v ===== *)
(** The bytes of a [raft_message_t], which the MQTT transport copies between the
    struct and the payload of a publication.  The representation of a struct is
    the platform's: the class [MessageLayout] states what a transport relies on,
    and [lp64_layout] is the little-endian layout with 32-bit [int] and 64-bit
    [size_t], field by field in the order of [raft.h] (no field needs padding). *)
From S2P Require Import Prelude CString Types.

(** *** Values a [raft_message_t] can hold *)

Definition nul : Ascii.ascii := "000"%char.

Definition chars_fit (size : nat) (s : string) : bool :=
  lacks nul s && (String.length s <? size)%nat.

Definition in_intb (z : Z) : bool := (- INT_MAX - 1 <=? z)%Z && (z <=? INT_MAX)%Z.

Definition entry_fits (e : raft_log_entry_t) : bool :=
  in_intb (entry_index e) && in_intb (entry_term e) && chars_fit RAFT_MAX_ID (entry_leader_id e)
  && chars_fit RAFT_MAX_OP (op (entry_command e)) && chars_fit RAFT_MAX_KEY (key (entry_command e))
  && chars_fit RAFT_MAX_VALUE (value (entry_command e)).

Definition message_fits (m : raft_message_t) : bool :=
  in_intb (msg_term m) && chars_fit RAFT_MAX_ID (source m) && chars_fit RAFT_MAX_ID (target m)
  && in_intb (prev_log_index m) && in_intb (prev_log_term m)
  && chars_fit RAFT_MAX_ID (prev_log_leader_id m) && in_intb (leader_commit m)
  && in_intb (msg_match_index m) && in_intb (last_log_index m) && in_intb (last_log_term m)
  && forallb entry_fits (entries m) && (length (entries m) <=? RAFT_MAX_BATCH)%nat.

(** The representation of messages: their size, the copy of a struct into a
    buffer and the copy back. *)
Class MessageLayout := {
  sizeof_message : nat;
  message_bytes : raft_message_t → string;
  bytes_message : string → raft_message_t;
  message_bytes_length m : message_fits m = true → String.length (message_bytes m) = sizeof_message;
  bytes_message_bytes m : message_fits m = true → bytes_message (message_bytes m) = m;
}.

(** ** Codecs

    A field of [csize] bytes: how a value is written, and how it is read off the
    front of some bytes. *)
Record codec (A : Type) : Type := mkCodec {
  csize : nat;
  enc : A → string;
  dec : string → option (A * string);
  cfits : A → bool;
}.
Arguments csize {A}.
Arguments enc {A}.
Arguments dec {A}.
Arguments cfits {A}.

Class CodecLaws {A} (c : codec A) := {
  enc_length x : cfits c x = true → String.length (enc c x) = csize c;
  dec_enc x rest : cfits c x = true → dec c (enc c x +:+ rest) = Some (x, rest);
}.

(** The first [n] bytes and the others. *)
Fixpoint str_split (n : nat) (s : string) : option (string * string) :=
  match n, s with
  | O, _ => Some ("", s)
  | S n, String c s => '(a, b) ← str_split n s; Some (String c a, b)
  | S _, "" => None
  end.

(** What follows the first [n] bytes. *)
Fixpoint str_drop (n : nat) (s : string) : string :=
  match n, s with
  | S n, String _ s => str_drop n s
  | _, _ => s
  end.

Fixpoint nuls (n : nat) : string := match n with O => "" | S n => String nul (nuls n) end.

Definition int_codec : codec Z := mkCodec Z 4 fwrite_int32 fread_int32 in_intb.

(** [size_t], of which the program only ever stores small values. *)
Definition size_codec : codec nat :=
  mkCodec nat 8 (λ n, fwrite_int32 (Z.of_nat n) +:+ nuls 4)
    (λ s, '(n, s) ← fread_int32 s; '(_, s) ← str_split 4 s; Some (Z.to_nat n, s))
    (λ n, (Z.of_nat n <=? INT_MAX)%Z).

(** [char a\[n\]]: the bytes up to the first NUL. *)
Definition chars_codec (n : nat) : codec string :=
  mkCodec string n (λ s, s +:+ nuls (n - String.length s))
    (λ s, '(a, rest) ← str_split n s;
          Some (match str_break nul a with Some (x, _) => x | None => a end, rest))
    (chars_fit n).

Definition pair_codec {A B} (c : codec A) (d : codec B) : codec (A * B) :=
  mkCodec (A * B) (csize c + csize d) (λ x, enc c x.1 +:+ enc d x.2)
    (λ s, '(a, s) ← dec c s; '(b, s) ← dec d s; Some ((a, b), s))
    (λ x, cfits c x.1 && cfits d x.2).

(** An array of [n] elements. *)
Fixpoint enc_array {A} (c : codec A) (l : list A) : string :=
  match l with [] => "" | x :: l => enc c x +:+ enc_array c l end.
Fixpoint dec_array {A} (c : codec A) (n : nat) (s : string) : option (list A * string) :=
  match n with
  | O => Some ([], s)
  | S n => '(x, s) ← dec c s; '(l, s) ← dec_array c n s; Some (x :: l, s)
  end.
Definition array_codec {A} (n : nat) (c : codec A) : codec (list A) :=
  mkCodec (list A) (n * csize c) (enc_array c) (dec_array c n)
    (λ l, (length l =? n)%nat && forallb (cfits c) l).

(** A struct through the tuple of its fields. *)
Definition iso_codec {A B} (f : B → A) (g : A → B) (c : codec A) : codec B :=
  mkCodec B (csize c) (λ x, enc c (f x)) (λ s, '(a, s) ← dec c s; Some (g a, s)) (λ x, cfits c (f x)).

Lemma in_intb_true z : in_intb z = true → in_int z.
Proof. unfold in_intb, in_int. intros H. bools. lia. Qed.

Lemma nuls_length n : String.length (nuls n) = n.
Proof. induction n as [|n IH]; simpl; [done|by rewrite IH]. Qed.

Lemma str_drop_app n s t :
  (n ≤ String.length s)%nat → str_drop n (s +:+ t) = str_drop n s +:+ t.
Proof.
  revert s; induction n as [|n IH]; intros [|c s] Hn; simpl in Hn; try done; [lia|].
  rewrite str_app_cons. cbn [str_drop]. apply IH. lia.
Qed.

Lemma str_drop_length n s : String.length (str_drop n s) = (String.length s - n)%nat.
Proof. revert s; induction n as [|n IH]; intros [|c s]; simpl; auto. Qed.

Lemma str_drop_lacks c n s : lacks c s = true → lacks c (str_drop n s) = true.
Proof.
  unfold lacks. revert s; induction n as [|n IH]; intros [|d s]; cbn [str_drop str_all]; try done.
  intros H. bools. by apply IH.
Qed.

Lemma str_split_app a rest : str_split (String.length a) (a +:+ rest) = Some (a, rest).
Proof.
  induction a as [|c a IH]; [done|]. rewrite str_app_cons. cbn [String.length str_split].
  rewrite IH. done.
Qed.

#[export] Instance int_codec_laws : CodecLaws int_codec.
Proof.
  split; [done|]. intros x rest H%in_intb_true. by apply fread_fwrite_int32.
Qed.

#[export] Instance size_codec_laws : CodecLaws size_codec.
Proof.
  split; [done|]. intros n rest H. simpl in H. bools. unfold size_codec; cbn [enc dec].
  rewrite <- str_app_assoc, fread_fwrite_int32 by (unfold in_int; lia). bind_simpl.
  change 4%nat with (String.length (nuls 4)) at 1. rewrite str_split_app. bind_simpl.
  by rewrite Nat2Z.id.
Qed.

#[export] Instance chars_codec_laws n : CodecLaws (chars_codec n).
Proof.
  split; unfold chars_codec; cbn [enc dec csize cfits]; unfold chars_fit.
  - intros s H. bools. rewrite str_app_length, nuls_length. lia.
  - intros s rest H. bools.
    assert (String.length (s +:+ nuls (n - String.length s)) = n) as Hn
      by (rewrite str_app_length, nuls_length; lia).
    pose proof (str_split_app (s +:+ nuls (n - String.length s)) rest) as Hs.
    rewrite Hn in Hs. rewrite Hs. bind_simpl.
    destruct (n - String.length s)%nat as [|k] eqn:E; [lia|]. cbn [nuls].
    by rewrite str_break_app.
Qed.

#[export] Instance pair_codec_laws {A B} (c : codec A) (d : codec B) :
  CodecLaws c → CodecLaws d → CodecLaws (pair_codec c d).
Proof.
  intros Hc Hd. split; unfold pair_codec; cbn [enc dec csize cfits]; intros [a b]; cbn [fst snd].
  - intros H. bools. rewrite str_app_length, !enc_length; done.
  - intros rest H. bools. rewrite <- str_app_assoc, dec_enc by done. bind_simpl.
    by rewrite dec_enc.
Qed.

#[export] Instance array_codec_laws {A} n (c : codec A) : CodecLaws c → CodecLaws (array_codec n c).
Proof.
  intros Hc. split; unfold array_codec; cbn [enc dec csize cfits].
  - intros l H. bools. subst n. rename H0 into H. induction l as [|x l IH]; [done|].
    simpl in H. bools. cbn [enc_array length]. rewrite str_app_length, enc_length, IH; [lia|done..].
  - intros l rest H. bools. subst n. rename H0 into H. induction l as [|x l IH]; [done|].
    simpl in H. bools. cbn [enc_array length dec_array].
    rewrite <- str_app_assoc, dec_enc by done. bind_simpl. by rewrite IH.
Qed.

Lemma iso_codec_laws {A B} (f : B → A) (g : A → B) c :
  CodecLaws c → (∀ x, g (f x) = x) → CodecLaws (iso_codec f g c).
Proof.
  intros Hc Hgf. split; unfold iso_codec; cbn [enc dec csize cfits].
  - intros x H. by apply enc_length.
  - intros x rest H. rewrite dec_enc by done. bind_simpl. by rewrite Hgf.
Qed.

(** *** The structs of [raft.h] *)

Definition command_codec : codec raft_command_t :=
  iso_codec (λ c, (op c, (key c, value c))) (λ '(o, (k, v)), mkCommand o k v)
    (pair_codec (chars_codec RAFT_MAX_OP)
       (pair_codec (chars_codec RAFT_MAX_KEY) (chars_codec RAFT_MAX_VALUE))).

Definition entry_codec : codec raft_log_entry_t :=
  iso_codec (λ e, (entry_index e, (entry_term e, (entry_leader_id e, entry_command e))))
    (λ '(i, (t, (l, c))), mkEntry i t l c)
    (pair_codec int_codec (pair_codec int_codec (pair_codec (chars_codec RAFT_MAX_ID) command_codec))).

Definition kind_int (k : raft_message_kind_t) : Z :=
  match k with
  | RAFT_MSG_REQUEST_VOTE => 0
  | RAFT_MSG_REQUEST_VOTE_RESPONSE => 1
  | RAFT_MSG_APPEND_ENTRIES => 2
  | RAFT_MSG_APPEND_ENTRIES_RESPONSE => 3
  end.
Definition int_kind (z : Z) : raft_message_kind_t :=
  if (z =? 3)%Z then RAFT_MSG_APPEND_ENTRIES_RESPONSE
  else if (z =? 2)%Z then RAFT_MSG_APPEND_ENTRIES
  else if (z =? 1)%Z then RAFT_MSG_REQUEST_VOTE_RESPONSE
  else RAFT_MSG_REQUEST_VOTE.

Definition kind_codec : codec raft_message_kind_t := iso_codec kind_int int_kind int_codec.
Definition bool_codec : codec bool := 
  iso_codec (λ b : bool, if b then 1%Z else 0%Z) (λ z, negb (z =? 0)%Z) int_codec.

(** [entries] and [entry_count]: the unused elements are zero. *)
Definition entries_codec : codec (list raft_log_entry_t) :=
  iso_codec (λ es, (es ++ replicate (RAFT_MAX_BATCH - length es) zero_entry, length es))
    (λ p, take p.2 p.1)
    (pair_codec (array_codec RAFT_MAX_BATCH entry_codec) size_codec).

Definition message_codec : codec raft_message_t :=
  iso_codec
    (λ m, (kind m, (msg_term m, (source m, (target m, (granted m, (success m, (prev_log_index m,
          (prev_log_term m, (prev_log_leader_id m, (leader_commit m, (msg_match_index m,
          (last_log_index m, (last_log_term m, entries m))))))))))))))
    (λ '(k, (t, (s, (d, (g, (ok, (pi, (pt, (pl, (lc, (mi, (li, (lt, es))))))))))))),
       mkMessage k t s d g ok pi pt pl lc mi li lt es)
    (pair_codec kind_codec (pair_codec int_codec (pair_codec (chars_codec RAFT_MAX_ID)
      (pair_codec (chars_codec RAFT_MAX_ID) (pair_codec bool_codec (pair_codec bool_codec
      (pair_codec int_codec (pair_codec int_codec (pair_codec (chars_codec RAFT_MAX_ID)
      (pair_codec int_codec (pair_codec int_codec (pair_codec int_codec (pair_codec int_codec
      entries_codec))))))))))))).

#[export] Instance command_codec_laws : CodecLaws command_codec.
Proof. apply iso_codec_laws; [apply _|by intros []]. Qed.
#[export] Instance entry_codec_laws : CodecLaws entry_codec.
Proof. apply iso_codec_laws; [apply _|by intros []]. Qed.
#[export] Instance kind_codec_laws : CodecLaws kind_codec.
Proof. apply iso_codec_laws; [apply _|by intros []]. Qed.
#[export] Instance bool_codec_laws : CodecLaws bool_codec.
Proof. apply iso_codec_laws; [apply _|by intros []]. Qed.
#[export] Instance entries_codec_laws : CodecLaws entries_codec.
Proof. apply iso_codec_laws; [apply _|]. intros es. cbn [fst snd]. by rewrite take_app_length. Qed.
#[export] Instance message_codec_laws : CodecLaws message_codec.
Proof. apply iso_codec_laws; [apply _|by intros []]. Qed.

Lemma cfits_pair {A B} (c : codec A) (d : codec B) x :
  cfits (pair_codec c d) x = cfits c x.1 && cfits d x.2.
Proof. done. Qed.
Lemma cfits_iso {A B} (f : B → A) g c x : cfits (iso_codec f g c) x = cfits c (f x).
Proof. done. Qed.

Ltac fits_fields := rewrite ?cfits_iso, ?cfits_pair; cbn [fst snd]; rewrite ?andb_true_iff; split_and!.

Lemma entry_fits_codec e : entry_fits e = true → cfits entry_codec e = true.
Proof.
  unfold entry_fits, entry_codec. intros H. bools. fits_fields; try done.
  unfold command_codec. by fits_fields.
Qed.

Lemma entries_fit_codec es :
  forallb entry_fits es = true → (length es ≤ RAFT_MAX_BATCH)%nat → cfits entries_codec es = true.
Proof.
  intros He Hl. unfold entries_codec. fits_fields.
  - unfold array_codec. cbn [cfits]. apply andb_true_intro; split.
    + apply Nat.eqb_eq. rewrite length_app, length_replicate. lia.
    + apply forallb_forall. intros e [He'|He']%in_app_iff.
      * apply entry_fits_codec. revert e He'. by apply forallb_forall.
      * apply list_elem_of_In, elem_of_replicate in He' as [-> _]. by vm_compute.
  - unfold size_codec. cbn [cfits]. apply Z.leb_le. unfold INT_MAX, RAFT_MAX_BATCH in *. lia.
Qed.

Lemma message_fits_codec m : message_fits m = true → cfits message_codec m = true.
Proof.
  unfold message_fits. intros H. bools. unfold message_codec. fits_fields; try done.
  - by destruct (kind m).
  - by destruct (granted m).
  - by destruct (success m).
  - by apply entries_fit_codec.
Qed.

(** The layout of the platforms the program is built for; bytes that are no
    message are read as the zero message. *)
#[export] Instance lp64_layout : MessageLayout.
Proof.
  refine {| sizeof_message := csize message_codec; message_bytes := enc message_codec;
            bytes_message s := match dec message_codec s with
                               | Some (m, _) => m | None => zero_message RAFT_MSG_REQUEST_VOTE end |}.
  - intros m H%message_fits_codec. by apply enc_length.
  - intros m H%message_fits_codec. rewrite <- (str_app_nil_r (enc _ m)). by rewrite dec_enc.
Defined.

(** 88 bytes of scalars and ids, 16 entries of 248 bytes and the count. *)
Example lp64_sizeof : sizeof_message (MessageLayout := lp64_layout) = (88 + 16 * 248 + 8)%nat.
Proof. vm_compute. reflexivity. Qed.

(** *** Other structs

    The same interface for any struct: [fits] are the values it can hold. *)
Class Layout (A : Type) (fits : A → bool) := {
  sizeof : nat;
  to_bytes : A → string;
  from_bytes : string → A;
  to_bytes_length x : fits x = true → String.length (to_bytes x) = sizeof;
  from_to_bytes x : fits x = true → from_bytes (to_bytes x) = x;
}.
Arguments sizeof A {fits _}.
Arguments to_bytes {A fits _}.
Arguments from_bytes A {fits _}.

(** A layout from a codec; [zero] is read from bytes that are no value of it. *)
Definition codec_layout {A} (c : codec A) {laws : CodecLaws c} (fits : A → bool) (zero : A)
    (Hfits : ∀ x, fits x = true → cfits c x = true) : Layout A fits.
Proof.
  refine {| sizeof := csize c; to_bytes := enc c;
            from_bytes s := match dec c s with Some (x, _) => x | None => zero end |}.
  - intros x H%Hfits. by apply enc_length.
  - intros x H%Hfits. rewrite <- (str_app_nil_r (enc c x)). by rewrite dec_enc.
Defined.

Definition command_fits (c : raft_command_t) : bool :=
  chars_fit RAFT_MAX_OP (op c) && chars_fit RAFT_MAX_KEY (key c) && chars_fit RAFT_MAX_VALUE (value c).

Lemma command_fits_codec c : command_fits c = true → cfits command_codec c = true.
Proof. unfold command_fits. intros H. bools. unfold command_codec. by fits_fields. Qed.

#[export] Instance lp64_command : Layout raft_command_t command_fits :=
  codec_layout command_codec command_fits zero_command command_fits_codec.

(** [uint32_t] and [size_t]. *)
Definition uint32_codec : codec Z :=
  mkCodec Z 4 fwrite_int32 (λ s, '(x, s) ← fread_int32 s; Some ((x mod 2 ^ 32)%Z, s))
    (λ x, (0 <=? x)%Z && (x <? 2 ^ 32)%Z).

Definition uint64_codec : codec Z :=
  iso_codec (λ x, (x mod 2 ^ 32, x / 2 ^ 32))%Z (λ p, p.1 + 2 ^ 32 * p.2)%Z
    (pair_codec uint32_codec uint32_codec).

(** [n] bytes of padding in front of a field. *)
Definition padded {A} (n : nat) (c : codec A) : codec A :=
  mkCodec A (n + csize c) (λ x, nuls n +:+ enc c x) (λ s, '(_, s) ← str_split n s; dec c s) (cfits c).

Lemma fread_fwrite_uint32 x rest :
  (0 ≤ x < 2 ^ 32)%Z →
  ∃ y, fread_int32 (fwrite_int32 x +:+ rest) = Some (y, rest) ∧ (y mod 2 ^ 32)%Z = x.
Proof.
  intros Hx. unfold fwrite_int32. rewrite !str_app_cons, str_app_nil_l. unfold fread_int32.
  rewrite !byte_of_val, !Z.shiftr_div_pow2 by lia. eexists. split; [done|].
  change (2 ^ 8)%Z with 256%Z. change (2 ^ 16)%Z with 65536%Z. change (2 ^ 24)%Z with 16777216%Z.
  change (2 ^ 31)%Z with 2147483648%Z. change (2 ^ 32)%Z with 4294967296%Z in *.
  case_match; bools; Z.div_mod_to_equations; lia.
Qed.

#[export] Instance uint32_codec_laws : CodecLaws uint32_codec.
Proof.
  split; [done|]. intros x rest H. unfold uint32_codec in *. cbn [enc dec cfits] in *. bools.
  destruct (fread_fwrite_uint32 x rest) as (y & -> & <-); [lia|]. done.
Qed.

#[export] Instance uint64_codec_laws : CodecLaws uint64_codec.
Proof.
  apply iso_codec_laws; [apply _|]. intros x. cbn [fst snd]. pose proof (Z.div_mod x (2 ^ 32) ltac:(lia)). lia.
Qed.

#[export] Instance padded_laws {A} n (c : codec A) : CodecLaws c → CodecLaws (padded n c).
Proof.
  intros Hc. split; unfold padded; cbn [enc dec csize cfits].
  - intros x H. by rewrite str_app_length, nuls_length, enc_length.
  - intros x rest H. rewrite <- str_app_assoc. rewrite <- (nuls_length n) at 1. rewrite str_split_app.
    bind_simpl. by apply dec_enc.
Qed.
