(* ===== verification/MqttTransport.v ===== *)
(** The MQTT transport, [c/src/raft_mqtt_transport.c] and [c/src/raft_mqtt_join.c]:
    a node's messages are publications to the topic [raft/<cluster>/<target>], its
    own are taken from the queue of the hardware abstraction (the HAL of
    [raft_mqtt_hal.h]) and routed by topic, client commands stay local, and nodes
    announce themselves on a topic of the cluster.

    The HAL is a table of operations on a state [H]; [MqttHalLaws] states what
    [raft_mqtt_hal.h] asks of one, and [MqttHal] proves it of the POSIX one. *)
From S2P Require Import Prelude CString Types MemTransport MessageLayout.

Record raft_mqtt_config_t : Type := mkMqttConfig {
  cluster_id : string;
  mqtt_node_id : string;
  endpoint : string;
  port : Z;
  ca_cert : string;
  client_cert : string;
  client_key : string;
  qos : Z;
  keepalive_s : Z;
}.

(** The integers are the C results; [hal_recv_raw h topic_max payload_max] is
    [None] when nothing is queued. *)
Record raft_mqtt_hal_t (H : Type) : Type := mkHal {
  hal_connect : H → raft_mqtt_config_t → H * Z;
  hal_publish : H → string → string → Z → H * Z;
  hal_subscribe : H → string → Z → H * Z;
  hal_poll : H → H;
  hal_recv_raw : H → nat → nat → H * option (string * string);
  hal_disconnect : H → H;
}.
Arguments mkHal {H}.
Arguments hal_connect {H}.
Arguments hal_publish {H}.
Arguments hal_subscribe {H}.
Arguments hal_poll {H}.
Arguments hal_recv_raw {H}.
Arguments hal_disconnect {H}.

(** A HAL that is fed by a thread or a callback of its own: [contents] is its
    incoming queue, which [recv_raw] pops, one message per call, cut to the
    buffers of the caller.  What the thread adds while an operation of the
    transport runs counts as added before it. *)
Class MqttHalLaws {H : Type} (hal : raft_mqtt_hal_t H) (contents : H → list (string * string)) := {
  recv_raw_empty h topic_max payload_max :
    contents h = [] → hal_recv_raw hal h topic_max payload_max = (h, None);
  recv_raw_pop h topic_max payload_max t p rest :
    contents h = (t, p) :: rest →
    ∃ h', hal_recv_raw hal h topic_max payload_max =
            (h', Some (strncpy topic_max t, str_take payload_max p)) ∧ contents h' = rest;
  poll_contents h : contents (hal_poll hal h) = contents h;
  publish_contents h t p q : contents (hal_publish hal h t p q).1 = contents h;
}.

(** [join_queue] holds its [RAFT_MAX_NODES] arrays of [RAFT_MAX_ID] bytes as they
    are, NULs included; [cmd_queue] the commands below [cmd_count]. *)
Record raft_mqtt_transport_t (H : Type) : Type := mkMqtt {
  mqtt_hal : H;
  mqtt_config : raft_mqtt_config_t;
  inbox_topic : string;
  join_topic : string;
  join_queue : list string;
  join_count : nat;
  cmd_queue : list raft_command_t;
  mqtt_enabled : bool;
  started : bool;
}.
Arguments mkMqtt {H}.
Arguments mqtt_hal {H}.
Arguments mqtt_config {H}.
Arguments inbox_topic {H}.
Arguments join_topic {H}.
Arguments join_queue {H}.
Arguments join_count {H}.
Arguments cmd_queue {H}.
Arguments mqtt_enabled {H}.
Arguments started {H}.

#[export] Instance raft_mqtt_transport_eta H : Eta (raft_mqtt_transport_t H) := λ t,
  mkMqtt (mqtt_hal t) (mqtt_config t) (inbox_topic t) (join_topic t) (join_queue t) (join_count t)
    (cmd_queue t) (mqtt_enabled t) (started t).

(** [snprintf(topic, sizeof(topic), "raft/%s/%s", cluster, last)], [char topic\[128\]]. *)
Definition topic_of (cluster last : string) : string :=
  (snprintf 128 ("raft/" +:+ (cluster +:+ String "/"%char last))).1.

(** [memcpy(a, bytes, strlen(bytes))] into an array of bytes. *)
Definition overwrite (bytes a : string) : string := bytes +:+ str_drop (String.length bytes) a.

(** [a\[n\] = 0]. *)
Fixpoint terminate (n : nat) (a : string) : string :=
  match n, a with
  | _, "" => ""
  | O, String _ a => String nul a
  | S n, String c a => String c (terminate n a)
  end.

(** The string in a [char] array. *)
Definition cstring (a : string) : string :=
  match str_break nul a with Some (s, _) => s | None => a end.

Section Mqtt.
  Context {H : Type} {layout : MessageLayout}.
  Context (hal : raft_mqtt_hal_t H).
  Implicit Types mqtt : raft_mqtt_transport_t H.

Definition mqtt_send mqtt (msg : raft_message_t) : raft_mqtt_transport_t H * Z :=
  if negb (mqtt_enabled mqtt) then (mqtt, 0%Z)
  else
    let topic := topic_of (cluster_id (mqtt_config mqtt)) (target msg) in
    let '(h, r) := hal_publish hal (mqtt_hal mqtt) topic (message_bytes msg) (qos (mqtt_config mqtt)) in
    (mqtt <| mqtt_hal := h |>, r).

(** The two tests of the loop of [mqtt_recv] on a topic and a payload. *)
Definition inbox_message mqtt (topic payload : string) : bool :=
  (String.length payload =? sizeof_message)%nat && streq topic (inbox_topic mqtt).

Definition join_message mqtt (topic payload : string) : bool :=
  negb (streq (join_topic mqtt) "") && streq topic (join_topic mqtt)
  && (0 <? String.length payload)%nat && (String.length payload <? RAFT_MAX_ID)%nat.

Definition push_join mqtt (payload : string) : raft_mqtt_transport_t H :=
  if (join_count mqtt <? RAFT_MAX_NODES)%nat then
    mqtt <| join_queue :=
              alter (λ a, terminate (RAFT_MAX_ID - 1) (overwrite payload a)) (join_count mqtt)
                (join_queue mqtt) |>
         <| join_count := S (join_count mqtt) |>
  else mqtt.

(** What the loop does with one message of the HAL: the new state and the
    message to deliver, if any. *)
Definition mqtt_route mqtt (topic payload : string) : raft_mqtt_transport_t H * option raft_message_t :=
  if inbox_message mqtt topic payload then
    (mqtt, if mqtt_enabled mqtt then Some (bytes_message payload) else None)
  else if join_message mqtt topic payload then (push_join mqtt payload, None)
  else (mqtt, None).

(** [while (count < capacity)]: every iteration takes a message of the HAL, so
    the length of its queue is enough fuel. *)
Fixpoint mqtt_recv_loop (fuel : nat) mqtt (capacity : nat) : raft_mqtt_transport_t H * list raft_message_t :=
  match fuel, capacity with
  | S fuel, S capacity' =>
      match hal_recv_raw hal (mqtt_hal mqtt) 128 sizeof_message with
      | (h, None) => (mqtt <| mqtt_hal := h |>, [])
      | (h, Some (topic, payload)) =>
          match mqtt_route (mqtt <| mqtt_hal := h |>) topic payload with
          | (mqtt, Some m) =>
              let '(mqtt, ms) := mqtt_recv_loop fuel mqtt capacity' in (mqtt, m :: ms)
          | (mqtt, None) => mqtt_recv_loop fuel mqtt capacity
          end
      end
  | _, _ => (mqtt, [])
  end.

(** [backlog] gives the fuel: the number of messages queued in the HAL. *)
Definition mqtt_recv (backlog : H → nat) mqtt (capacity : nat)
    : raft_mqtt_transport_t H * list raft_message_t :=
  let mqtt := mqtt <| mqtt_hal := hal_poll hal (mqtt_hal mqtt) |> in
  mqtt_recv_loop (S (backlog (mqtt_hal mqtt))) mqtt capacity.

Definition mqtt_submit_command mqtt (cmd : raft_command_t) : raft_mqtt_transport_t H * Z :=
  if (RAFT_MAX_QUEUE <=? length (cmd_queue mqtt))%nat then (mqtt, -1)%Z
  else (mqtt <| cmd_queue := cmd_queue mqtt ++ [cmd] |>, 0%Z).

Definition mqtt_recv_commands mqtt (capacity : nat) : raft_mqtt_transport_t H * list raft_command_t :=
  (mqtt <| cmd_queue := [] |>, take capacity (cmd_queue mqtt)).

(** [while (recv_raw(...))]. *)
Fixpoint mqtt_discard (fuel : nat) (h : H) : H :=
  match fuel with
  | O => h
  | S fuel =>
      match hal_recv_raw hal h 128 sizeof_message with
      | (h, None) => h
      | (h, Some _) => mqtt_discard fuel h
      end
  end.

Definition mqtt_set_enabled (backlog : H → nat) mqtt (enabled : bool) : raft_mqtt_transport_t H :=
  let mqtt := mqtt <| mqtt_enabled := enabled |> in
  if negb enabled then
    mqtt <| mqtt_hal := mqtt_discard (S (backlog (mqtt_hal mqtt))) (mqtt_hal mqtt) |> <| cmd_queue := [] |>
  else mqtt.

Definition raft_mqtt_transport_init (cfg : raft_mqtt_config_t) (h : H) : raft_mqtt_transport_t H :=
  mkMqtt h cfg (topic_of (cluster_id cfg) (mqtt_node_id cfg)) "" (replicate RAFT_MAX_NODES (nuls RAFT_MAX_ID))
    0 [] true false.

Definition raft_mqtt_transport_start mqtt : raft_mqtt_transport_t H * Z :=
  if started mqtt then (mqtt, 0%Z)
  else
    let '(h, r) := hal_connect hal (mqtt_hal mqtt) (mqtt_config mqtt) in
    if negb (r =? 0)%Z then (mqtt <| mqtt_hal := h |>, -1)%Z
    else
      let '(h, r) := hal_subscribe hal h (inbox_topic mqtt) (qos (mqtt_config mqtt)) in
      if negb (r =? 0)%Z then (mqtt <| mqtt_hal := hal_disconnect hal h |>, -1)%Z
      else (mqtt <| mqtt_hal := h |> <| started := true |>, 0%Z).

Definition raft_mqtt_transport_stop mqtt : raft_mqtt_transport_t H :=
  if negb (started mqtt) then mqtt
  else mqtt <| mqtt_hal := hal_disconnect hal (mqtt_hal mqtt) |> <| started := false |>.

Definition raft_mqtt_transport_make (backlog : H → nat) : raft_transport_t (raft_mqtt_transport_t H) :=
  mkTransport mqtt_send (mqtt_recv backlog) mqtt_submit_command mqtt_recv_commands
    (Some (mqtt_set_enabled backlog)).

(** The first call subscribes and announces; every call drains the queue.  The
    result array keeps the bytes [strncpy] leaves: the ids up to their NUL. *)
Definition raft_mqtt_transport_recv_joins mqtt (capacity : nat) : raft_mqtt_transport_t H * list string :=
  let mqtt :=
    if streq (join_topic mqtt) "" then
      let cfg := mqtt_config mqtt in
      let topic := topic_of (cluster_id cfg) "join" in
      let '(h, _) := hal_subscribe hal (mqtt_hal mqtt) topic (qos cfg) in
      let '(h, _) := hal_publish hal h topic (mqtt_node_id cfg) (qos cfg) in
      mqtt <| join_topic := topic |> <| mqtt_hal := h |>
    else mqtt in
  let count := Nat.min (join_count mqtt) capacity in
  (mqtt <| join_count := 0%nat |>,
   (λ a, strncpy RAFT_MAX_ID (cstring a)) <$> take count (join_queue mqtt)).

(** ** Lemmas *)

Context (contents : H → list (string * string)) {Hhal : MqttHalLaws hal contents}.

(** The length of the HAL's queue. *)
Definition hal_backlog (h : H) : nat := length (contents h).

(** What the queue of a HAL holds for a transport, in order: its messages and
    the announcements. *)
Definition inbox_messages mqtt (cs : list (string * string)) : list raft_message_t :=
  omap (λ '(t, p), let t := strncpy 128 t in let p := str_take sizeof_message p in
                   if inbox_message mqtt t p then Some (bytes_message p) else None) cs.

Definition announcements mqtt (cs : list (string * string)) : list string :=
  omap (λ '(t, p), let t := strncpy 128 t in let p := str_take sizeof_message p in
                   if inbox_message mqtt t p then None
                   else if join_message mqtt t p then Some p else None) cs.

(** The topics, which decide the routing, never change while receiving. *)
Lemma push_join_same mqtt p :
  inbox_topic (push_join mqtt p) = inbox_topic mqtt ∧ join_topic (push_join mqtt p) = join_topic mqtt ∧
  mqtt_enabled (push_join mqtt p) = mqtt_enabled mqtt ∧ mqtt_hal (push_join mqtt p) = mqtt_hal mqtt ∧
  mqtt_config (push_join mqtt p) = mqtt_config mqtt ∧
  ∀ h, push_join mqtt p <| mqtt_hal := h |> = push_join (mqtt <| mqtt_hal := h |>) p.
Proof. unfold push_join. split_and!; try (by case_match). intros h. by rsimpl; case_match. Qed.

Lemma inbox_messages_ext mqtt mqtt' cs :
  inbox_topic mqtt' = inbox_topic mqtt → inbox_messages mqtt' cs = inbox_messages mqtt cs.
Proof. intros E. unfold inbox_messages, inbox_message. by rewrite E. Qed.

Lemma announcements_ext mqtt mqtt' cs :
  inbox_topic mqtt' = inbox_topic mqtt → join_topic mqtt' = join_topic mqtt →
  announcements mqtt' cs = announcements mqtt cs.
Proof. intros E E'. unfold announcements, inbox_message, join_message. by rewrite E, E'. Qed.

(** The loop, for any fuel beyond the length of the queue. *)
Lemma mqtt_recv_loop_spec fuel mqtt capacity cs :
  contents (mqtt_hal mqtt) = cs → (length cs < fuel)%nat →
  let delivered := if mqtt_enabled mqtt then inbox_messages mqtt cs else [] in
  (mqtt_recv_loop fuel mqtt capacity).2 = take capacity delivered ∧
  ((length delivered < capacity)%nat → ∃ h, contents h = [] ∧
     (mqtt_recv_loop fuel mqtt capacity).1 =
       fold_left push_join (announcements mqtt cs) (mqtt <| mqtt_hal := h |>)).
Proof using Hhal.
  revert fuel mqtt capacity; induction cs as [|[t p] cs IH]; intros fuel mqtt capacity Hc Hf;
    (destruct fuel as [|fuel]; [simpl in Hf; lia|]);
    (destruct capacity as [|capacity]; [split; [done|lia]|]); cbn [mqtt_recv_loop].
  - rewrite recv_raw_empty by done. simpl. split; [by case_match|].
    intros _. by exists (mqtt_hal mqtt).
  - destruct (recv_raw_pop (mqtt_hal mqtt) 128 sizeof_message t p cs Hc) as (h' & -> & Hh').
    simpl in Hf. unfold mqtt_route, inbox_messages, announcements. cbn [omap list_omap].
    fold (inbox_messages mqtt cs) (announcements mqtt cs).
    change (inbox_message (mqtt <| mqtt_hal := h' |>)) with (inbox_message mqtt).
    change (join_message (mqtt <| mqtt_hal := h' |>)) with (join_message mqtt).
    destruct (inbox_message mqtt _ _) eqn:Ei; [|destruct (join_message mqtt _ _) eqn:Ej].
    + rsimpl. destruct (mqtt_enabled mqtt) eqn:Een.
      * destruct (IH fuel (mqtt <| mqtt_hal := h' |>) capacity) as [IH1 IH2]; [exact Hh'|lia|].
        rsimpl. rewrite Een in IH1, IH2.
        destruct (mqtt_recv_loop fuel (mqtt <| mqtt_hal := h' |>) capacity) as [q ms].
        cbn [fst snd] in *. rewrite IH1. split; [done|]. simpl. intros Hlt.
        destruct (IH2 ltac:(lia)) as (h & Hh & ->). by exists h.
      * destruct (IH fuel (mqtt <| mqtt_hal := h' |>) (S capacity)) as [IH1 IH2]; [exact Hh'|lia|].
        rsimpl. rewrite Een in IH1, IH2. split; [done|]. intros Hlt.
        destruct (IH2 Hlt) as (h & Hh & ->). by exists h.
    + destruct (push_join_same (mqtt <| mqtt_hal := h' |>) (str_take sizeof_message p))
        as (E1 & E2 & E3 & E4 & _ & E5).
      destruct (IH fuel (push_join (mqtt <| mqtt_hal := h' |>) (str_take sizeof_message p)) (S capacity))
        as [IH1 IH2]; [by rewrite E4|lia|].
      rewrite E3, (inbox_messages_ext mqtt) in IH1, IH2 by done.
      split; [done|]. intros Hlt. destruct (IH2 Hlt) as (h & Hh & ->). exists h. split; [done|].
      rewrite (announcements_ext mqtt), E5 by done. done.
    + destruct (IH fuel (mqtt <| mqtt_hal := h' |>) (S capacity)) as [IH1 IH2]; [exact Hh'|lia|].
      split; [done|]. intros Hlt. destruct (IH2 Hlt) as (h & Hh & ->). by exists h.
Qed.
(** Receiving only pops the HAL, whatever the fuel, and keeps the topics. *)
Lemma mqtt_recv_loop_frame fuel mqtt capacity :
  let mqtt' := (mqtt_recv_loop fuel mqtt capacity).1 in
  inbox_topic mqtt' = inbox_topic mqtt ∧
  ∃ k, contents (mqtt_hal mqtt') = drop k (contents (mqtt_hal mqtt)).
Proof using Hhal.
  revert mqtt capacity; induction fuel as [|fuel IH]; intros mqtt capacity;
    [split; [done|by exists 0%nat]|].
  destruct capacity as [|capacity]; [split; [done|by exists 0%nat]|]. cbn [mqtt_recv_loop].
  destruct (contents (mqtt_hal mqtt)) as [|[t p] cs] eqn:Hc.
  { rewrite recv_raw_empty by done. split; [done|]. exists 0%nat. exact Hc. }
  destruct (recv_raw_pop (mqtt_hal mqtt) 128 sizeof_message t p cs Hc) as (h' & -> & Hh').
  assert (∀ n c, inbox_topic n = inbox_topic mqtt → mqtt_hal n = h' →
    inbox_topic (mqtt_recv_loop fuel n c).1 = inbox_topic mqtt ∧
    ∃ k, contents (mqtt_hal (mqtt_recv_loop fuel n c).1) = drop k ((t, p) :: cs)) as Hn.
  { intros n c E1 E2. destruct (IH n c) as [I1 [k I2]]. split; [by rewrite I1|].
    exists (S k). rewrite I2, E2, Hh'. done. }
  unfold mqtt_route.
  destruct (inbox_message _ _ _); [destruct (mqtt_enabled _)|destruct (join_message _ _ _)].
  - destruct (mqtt_recv_loop fuel (mqtt <| mqtt_hal := h' |>) capacity) as [q ms] eqn:E.
    destruct (Hn (mqtt <| mqtt_hal := h' |>) capacity) as [Q1 Q2]; [done|done|]. by rewrite E in Q1, Q2.
  - by apply Hn.
  - destruct (push_join_same (mqtt <| mqtt_hal := h' |>) (str_take sizeof_message p))
      as (E1 & _ & _ & E4 & _). by apply Hn; [rewrite E1|rewrite E4].
  - by apply Hn.
Qed.

Lemma mqtt_discard_frame fuel h : ∃ k, contents (mqtt_discard fuel h) = drop k (contents h).
Proof using Hhal.
  revert h; induction fuel as [|fuel IH]; intros h; [by exists 0%nat|]. cbn [mqtt_discard].
  destruct (contents h) as [|[t p] cs] eqn:Hc.
  { rewrite recv_raw_empty by done. exists 0%nat. exact Hc. }
  destruct (recv_raw_pop h 128 sizeof_message t p cs Hc) as (h' & -> & Hh').
  destruct (IH h') as [k Hk]. exists (S k). by rewrite Hk, Hh'.
Qed.

(** The messages the HAL holds for the node. *)
Definition mqtt_inflight mqtt (m : raft_message_t) : Prop :=
  m ∈ inbox_messages mqtt (contents (mqtt_hal mqtt)).

Lemma inbox_messages_drop mqtt k cs m :
  m ∈ inbox_messages mqtt (drop k cs) → m ∈ inbox_messages mqtt cs.
Proof.
  unfold inbox_messages. intros (x & Hx & E)%list_elem_of_omap.
  apply list_elem_of_omap. exists x. split; [|done].
  rewrite <- (take_drop k cs). apply elem_of_app. by right.
Qed.

(** The MQTT transport keeps the interface the nodes rely on. *)
#[export] Instance mqtt_transport_laws :
  TransportLaws (raft_mqtt_transport_make hal_backlog) mqtt_inflight.
Proof using Hhal.
  split; unfold raft_mqtt_transport_make; cbn [send recv submit_command recv_commands].
  - intros c m m' Hm. left. unfold mqtt_send in Hm. case_match; [done|].
    destruct (hal_publish _ _ _ _ _) as [h r] eqn:E. unfold mqtt_inflight in *. rsimpl.
    pose proof (publish_contents (mqtt_hal c) (topic_of (cluster_id (mqtt_config c)) (target m))
                  (message_bytes m) (qos (mqtt_config c))) as Hp.
    rewrite E in Hp. cbn [fst] in *. change (mqtt_hal (c <| mqtt_hal := h |>)) with h in Hm.
    rewrite Hp in Hm. exact Hm.
  - intros c n m Hm. unfold mqtt_recv in Hm.
    destruct (mqtt_recv_loop_spec (S (hal_backlog (hal_poll hal (mqtt_hal c))))
      (c <| mqtt_hal := hal_poll hal (mqtt_hal c) |>) n (contents (hal_poll hal (mqtt_hal c))))
      as [E _]; [done|unfold hal_backlog; lia|].
    cbv zeta in Hm. change (mqtt_hal (c <| mqtt_hal := hal_poll hal (mqtt_hal c) |>))
      with (hal_poll hal (mqtt_hal c)) in Hm. rewrite E in Hm. apply take_elem in Hm.
    unfold mqtt_inflight. rewrite poll_contents in Hm. case_match; [done|by apply elem_of_nil in Hm].
  - intros c n m Hm. unfold mqtt_recv, mqtt_inflight in *. cbv zeta in Hm.
    match type of Hm with context [mqtt_recv_loop ?f ?q n] =>
      destruct (mqtt_recv_loop_frame f q n) as [E [k Hk]] end.
    rewrite Hk, (inbox_messages_ext c) in Hm by done. apply inbox_messages_drop in Hm.
    change (mqtt_hal (c <| mqtt_hal := hal_poll hal (mqtt_hal c) |>))
      with (hal_poll hal (mqtt_hal c)) in Hm. by rewrite poll_contents in Hm.
  - intros c n. unfold mqtt_recv. cbv zeta.
    match goal with |- context [mqtt_recv_loop ?f ?q n] =>
      destruct (mqtt_recv_loop_spec f q n (contents (mqtt_hal q))) as [-> _] end;
      [done|unfold hal_backlog; lia|]. rewrite length_take. lia.
  - intros c x m. unfold mqtt_submit_command. by case_match.
  - intros c n m. by unfold mqtt_recv_commands.
  - intros c n. unfold mqtt_recv_commands. cbn [snd]. rewrite length_take. lia.
Qed.

End Mqtt.
