(* ===== verification/MqttHal.v ===== *)
(** The POSIX hardware abstraction, [c/src/raft_mqtt_hal_posix.c]: the ring buffer
    between the callback of the background thread and [recv_raw], and the state of
    the connection.  Both ends hold the mutex, so an execution is an interleaving
    of whole [posix_mqtt_event_cb] and [posix_hal_recv_raw] steps.

    Sockets, OpenSSL and coreMQTT are outside the repository: whether a
    connection, a publication or a subscription succeeds is a parameter. *)
From S2P Require Import Prelude CString Types MessageLayout MqttTransport.

Definition RAFT_MQTT_POSIX_QUEUE_SIZE : Z := Z.of_nat RAFT_MAX_QUEUE.

(** [ring] holds the topic and the first [payload_len] bytes of each slot;
    [r_head] and [r_tail] are [size_t] counters, integers read modulo [2^64];
    [net_ssl] tells whether the connection exists. *)
Record raft_mqtt_hal_posix_ctx_t : Type := mkPosix {
  ring : list (string * string);
  r_head : Z;
  r_tail : Z;
  net_ssl : bool;
  shutdown : bool;
  thread_started : bool;
}.

#[export] Instance posix_eta : Eta raft_mqtt_hal_posix_ctx_t := λ p,
  mkPosix (ring p) (r_head p) (r_tail p) (net_ssl p) (shutdown p) (thread_started p).

Implicit Types posix : raft_mqtt_hal_posix_ctx_t.

Definition size_t_wrap (x : Z) : Z := (x mod 2 ^ 64)%Z.

Definition slot_of (counter : Z) : nat := Z.to_nat (counter mod RAFT_MQTT_POSIX_QUEUE_SIZE).

(** The callback, for a packet that carries a publication. *)
Definition posix_mqtt_event_cb {layout : MessageLayout} posix (topic payload : string)
    : raft_mqtt_hal_posix_ctx_t :=
  if (size_t_wrap (r_tail posix - r_head posix) <? RAFT_MQTT_POSIX_QUEUE_SIZE)%Z then
    posix <| ring := <[slot_of (r_tail posix) := (str_take 127 topic,
                                                  str_take (sizeof_message + 4) payload)]> (ring posix) |>
          <| r_tail := size_t_wrap (r_tail posix + 1) |>
  else posix.

Definition posix_hal_recv_raw posix (topic_max payload_max : nat)
    : raft_mqtt_hal_posix_ctx_t * option (string * string) :=
  if negb (size_t_wrap (r_head posix) =? size_t_wrap (r_tail posix))%Z then
    let '(topic, payload) := default ("", "") (ring posix !! slot_of (r_head posix)) in
    (posix <| r_head := size_t_wrap (r_head posix + 1) |>,
     Some (strncpy topic_max topic, str_take payload_max payload))
  else (posix, None).

Definition posix_hal_poll posix : raft_mqtt_hal_posix_ctx_t := posix.

Definition posix_hal_disconnect posix : raft_mqtt_hal_posix_ctx_t :=
  let posix := if thread_started posix
               then posix <| shutdown := true |> <| thread_started := false |> else posix in
  if net_ssl posix then posix <| net_ssl := false |> else posix.

Section Network.
  Context (tls_connect mqtt_connect : raft_mqtt_config_t → bool) (pthread_create : bool).
  Context (mqtt_publish : string → string → Z → bool).
  Context (mqtt_subscribe : string → Z → bool).
  Context (mqtt_incoming : string → Z → list (string * string)).

(** [tls_connect] is [posix_tls_connect], in [MqttTls] with the objects it acquires;
    [mqtt_connect] covers [MQTT_Init] and [MQTT_Connect]. *)
Definition posix_hal_connect posix (cfg : raft_mqtt_config_t) : raft_mqtt_hal_posix_ctx_t * Z :=
  if negb (tls_connect cfg) then (posix, -1)%Z
  else if negb (mqtt_connect cfg) then (posix <| net_ssl := false |>, -1)%Z
  else if negb pthread_create then (posix <| shutdown := false |> <| net_ssl := false |>, -1)%Z
  else (posix <| net_ssl := true |> <| shutdown := false |> <| thread_started := true |>, 0%Z).

(** [(uint16_t)strlen(topic)] and [(uint16_t)len]. *)
Definition cut16 (s : string) : string := str_take (Z.to_nat (Z.of_nat (String.length s) mod 2 ^ 16)) s.

Definition posix_hal_publish posix (topic payload : string) (q : Z) : raft_mqtt_hal_posix_ctx_t * Z :=
  (posix, if mqtt_publish (cut16 topic) (cut16 payload) q then 0 else -1)%Z.

(** [MQTT_ProcessLoop] waits for the acknowledgement and meanwhile hands the
    publications that come in, [mqtt_incoming], to the callback. *)
Definition posix_hal_subscribe {layout : MessageLayout} posix (topic : string) (q : Z)
    : raft_mqtt_hal_posix_ctx_t * Z :=
  (fold_left (λ posix m, posix_mqtt_event_cb posix m.1 m.2) (mqtt_incoming (cut16 topic) q) posix,
   if mqtt_subscribe (cut16 topic) q then 0 else -1)%Z.

Definition raft_mqtt_hal_posix_make {layout : MessageLayout} : raft_mqtt_hal_t raft_mqtt_hal_posix_ctx_t :=
  mkHal posix_hal_connect posix_hal_publish posix_hal_subscribe posix_hal_poll posix_hal_recv_raw
    posix_hal_disconnect.

End Network.

(** [memset(ctx, 0, sizeof( *ctx))]. *)
Definition posix_zero : raft_mqtt_hal_posix_ctx_t :=
  mkPosix (replicate RAFT_MAX_QUEUE ("", "")) 0 0 false false false.

(** ** The ring is a bounded queue *)

Definition ring_count posix : nat := Z.to_nat (size_t_wrap (r_tail posix - r_head posix)).

Definition ring_slot posix (i : Z) : string * string := default ("", "") (ring posix !! slot_of i).

(** The messages between the counters, oldest first. *)
Definition posix_contents posix : list (string * string) :=
  (λ i, ring_slot posix (r_head posix + Z.of_nat i)) <$> seq 0 (ring_count posix).

Record ring_wf posix : Prop := {
  ring_wf_slots : length (ring posix) = RAFT_MAX_QUEUE;
  ring_wf_count : (ring_count posix ≤ RAFT_MAX_QUEUE)%nat;
}.

(** What the two threads do with the ring, and the queue it should be. *)
Inductive ring_event : Type :=
| Arrive (topic payload : string)
| Take (topic_max payload_max : nat).

Section Ring.
  Context {layout : MessageLayout}.

Definition ring_step posix (e : ring_event) : raft_mqtt_hal_posix_ctx_t * list (string * string) :=
  match e with
  | Arrive t p => (posix_mqtt_event_cb posix t p, [])
  | Take n m => let '(posix, r) := posix_hal_recv_raw posix n m in (posix, option_list r)
  end.

Definition queue_step (q : list (string * string)) (e : ring_event)
    : list (string * string) * list (string * string) :=
  match e, q with
  | Arrive t p, _ =>
      (if (length q <? RAFT_MAX_QUEUE)%nat
       then q ++ [(str_take 127 t, str_take (sizeof_message + 4) p)] else q, [])
  | Take n m, (t, p) :: q => (q, [(strncpy n t, str_take m p)])
  | Take _ _, [] => ([], [])
  end.

(** Runs of either, with all that was taken. *)
Fixpoint run_events {S : Type} (step : S → ring_event → S * list (string * string)) (s : S)
    (es : list ring_event) : S * list (string * string) :=
  match es with
  | [] => (s, [])
  | e :: es => let '(s, out) := step s e in
               let '(s, outs) := run_events step s es in (s, out ++ outs)
  end.

Lemma slot_of_wrap x i : slot_of (size_t_wrap x + i) = slot_of (x + i).
Proof.
  unfold slot_of, size_t_wrap, RAFT_MQTT_POSIX_QUEUE_SIZE. f_equal.
  change (Z.of_nat RAFT_MAX_QUEUE) with 256%Z.
  rewrite (Z.div_mod x (2 ^ 64)) at 2 by lia.
  replace (2 ^ 64 * (x / 2 ^ 64) + x mod 2 ^ 64 + i)%Z
    with (x mod 2 ^ 64 + i + 2 ^ 56 * (x / 2 ^ 64) * 256)%Z by lia.
  by rewrite Z_mod_plus_full.
Qed.

Lemma slot_of_lt x : (slot_of x < RAFT_MAX_QUEUE)%nat.
Proof.
  unfold slot_of, RAFT_MQTT_POSIX_QUEUE_SIZE. change (Z.of_nat RAFT_MAX_QUEUE) with 256%Z.
  pose proof (Z.mod_pos_bound x 256 ltac:(lia)). unfold RAFT_MAX_QUEUE. lia.
Qed.

Lemma slot_of_ne x i j : (i < j < i + 256)%Z → slot_of (x + i) ≠ slot_of (x + j).
Proof.
  unfold slot_of, RAFT_MQTT_POSIX_QUEUE_SIZE. change (Z.of_nat RAFT_MAX_QUEUE) with 256%Z.
  intros H E. Z.div_mod_to_equations. lia.
Qed.

Lemma wrap_succ a b :
  (size_t_wrap (a - b) < 2 ^ 64 - 1)%Z → size_t_wrap (size_t_wrap (a + 1) - b) = (size_t_wrap (a - b) + 1)%Z.
Proof.
  unfold size_t_wrap. intros Hlt. rewrite Zminus_mod_idemp_l.
  replace (a + 1 - b)%Z with (a - b + 1)%Z by lia. rewrite <- Zplus_mod_idemp_l.
  pose proof (Z.mod_pos_bound (a - b) (2 ^ 64) ltac:(lia)). apply Z.mod_small. lia.
Qed.

(** The slot the tail designates, seen from the head. *)
Lemma slot_of_tail posix :
  slot_of (r_tail posix) = slot_of (r_head posix + Z.of_nat (ring_count posix)).
Proof.
  unfold ring_count. rewrite Z2Nat.id by (apply Z.mod_pos_bound; lia).
  rewrite Z.add_comm, slot_of_wrap. f_equal. lia.
Qed.

Lemma ring_count_empty posix :
  (size_t_wrap (r_head posix) =? size_t_wrap (r_tail posix))%Z = (ring_count posix =? 0)%nat.
Proof.
  unfold ring_count, size_t_wrap. apply eq_true_iff_eq. rewrite Z.eqb_eq, Nat.eqb_eq.
  pose proof (Z.mod_pos_bound (r_tail posix - r_head posix) (2 ^ 64) ltac:(lia)).
  change (2 ^ 64)%Z with 18446744073709551616%Z in *.
  split; intros E; Z.div_mod_to_equations; lia.
Qed.

Lemma posix_contents_length posix : length (posix_contents posix) = ring_count posix.
Proof. unfold posix_contents. by rewrite length_fmap, length_seq. Qed.

(** One take. *)
Lemma posix_recv_raw_spec posix n m :
  match posix_contents posix with
  | [] => posix_hal_recv_raw posix n m = (posix, None)
  | (t, p) :: q => ∃ posix', posix_hal_recv_raw posix n m = (posix', Some (strncpy n t, str_take m p)) ∧
                             posix_contents posix' = q ∧ (ring_wf posix → ring_wf posix')
  end.
Proof.
  unfold posix_hal_recv_raw. rewrite ring_count_empty.
  pose proof (posix_contents_length posix) as Hl. unfold posix_contents in *.
  destruct (ring_count posix) as [|k] eqn:Ek; [done|]. cbn [seq fmap list_fmap negb Nat.eqb] in *.
  rewrite Z.add_0_r. unfold ring_slot at 1. change (S k =? 0)%nat with false. cbn [negb].
  destruct (default ("", "") (ring posix !! slot_of (r_head posix))) as [t p] eqn:Es.
  eexists. split; [done|].
  assert (ring_count (posix <| r_head := size_t_wrap (r_head posix + 1) |>) = k) as Hk.
  { unfold ring_count, size_t_wrap in *. rsimpl.
    pose proof (Z.mod_pos_bound (r_tail posix - r_head posix) (2 ^ 64) ltac:(lia)).
    change (2 ^ 64)%Z with 18446744073709551616%Z in *. Z.div_mod_to_equations. lia. }
  split.
  - rewrite Hk, <- fmap_S_seq, <- list_fmap_compose. apply list_fmap_ext. intros j i _. cbn [compose].
    unfold ring_slot. rsimpl. rewrite slot_of_wrap. do 3 f_equal. lia.
  - intros [H1 H2]. split; [done|]. rewrite Hk. lia.
Qed.

(** One arrival. *)
Lemma posix_event_spec posix t p :
  ring_wf posix →
  posix_contents (posix_mqtt_event_cb posix t p) = (queue_step (posix_contents posix) (Arrive t p)).1 ∧
  ring_wf (posix_mqtt_event_cb posix t p).
Proof.
  intros [H1 H2]. cbn [queue_step fst]. rewrite posix_contents_length.
  unfold posix_mqtt_event_cb.
  pose proof (Z.mod_pos_bound (r_tail posix - r_head posix) (2 ^ 64) ltac:(lia)) as Hb.
  assert ((size_t_wrap (r_tail posix - r_head posix) <? RAFT_MQTT_POSIX_QUEUE_SIZE)%Z =
          (ring_count posix <? RAFT_MAX_QUEUE)%nat) as ->.
  { apply eq_true_iff_eq. rewrite Z.ltb_lt, Nat.ltb_lt.
    unfold RAFT_MQTT_POSIX_QUEUE_SIZE, ring_count, size_t_wrap.
    revert Hb. generalize ((r_tail posix - r_head posix) mod 2 ^ 64)%Z. intros x Hx. lia. }
  destruct (ring_count posix <? RAFT_MAX_QUEUE)%nat eqn:E; bools; [|by split].
  match goal with |- posix_contents ?q = _ ∧ _ => set (posix' := q) end.
  assert (ring_count posix' = S (ring_count posix)) as Hk.
  { unfold ring_count, posix' in *. rsimpl. rewrite wrap_succ; unfold size_t_wrap, RAFT_MAX_QUEUE in *;
      revert E Hb; generalize ((r_tail posix - r_head posix) mod 2 ^ 64)%Z; intros x E Hx; lia. }
  split; [|split; [unfold posix'; rsimpl; by rewrite length_insert|lia]].
  unfold posix_contents at 1. rewrite Hk, seq_S, fmap_app. cbn [fmap list_fmap].
  assert (r_head posix' = r_head posix) as -> by done.
  f_equal.
  - apply list_fmap_ext. intros j i Hi. apply lookup_seq in Hi as [-> Hi].
    unfold ring_slot, posix'. rsimpl. rewrite list_lookup_insert_ne; [done|].
    rewrite slot_of_tail. apply not_eq_sym, slot_of_ne. unfold RAFT_MAX_QUEUE in *. lia.
  - unfold ring_slot, posix'. rsimpl. rewrite slot_of_tail, Nat.add_0_l.
    rewrite list_lookup_insert_eq; [done|]. rewrite H1. apply slot_of_lt.
Qed.

End Ring.

(** The POSIX HAL keeps the interface, whatever the network does. *)
#[export] Instance posix_hal_laws {layout : MessageLayout} tls mc pt mp ms mi :
  MqttHalLaws (raft_mqtt_hal_posix_make tls mc pt mp ms mi) posix_contents.
Proof.
  split; unfold raft_mqtt_hal_posix_make; cbn [hal_recv_raw hal_poll hal_publish hal_subscribe]; try done.
  - intros h n m Hc. pose proof (posix_recv_raw_spec h n m) as H. by rewrite Hc in H.
  - intros h n m t p rest Hc. pose proof (posix_recv_raw_spec h n m) as H. rewrite Hc in H.
    destruct H as (h' & H & Hr & _). by exists h'.
Qed.
