(* ===== verification/MqttTls.v ===== *)
(** The connection of the POSIX hardware abstraction, [c/src/raft_mqtt_hal_posix.c]: the
    socket, OpenSSL and thread objects that connecting acquires and releases on each of
    its paths, the network interface of coreMQTT, its clock and its thread.

    What the calls answer is the record [tls_calls_t].  The objects that are held are a
    list; releasing one that is not held is undefined. *)
From S2P Require Import Prelude StateMonad CString Types MessageLayout MqttTransport MqttHal.

Inductive resource_t : Type :=
| Addrinfo | Socket | SslCtx | Bio | X509 | PKey | Ssl | Mutex | Thread.

#[export] Instance resource_eq_dec : EqDecision resource_t.
Proof. solve_decision. Defined.

Record connection_t : Type := mkConnection {
  posix : raft_mqtt_hal_posix_ctx_t;
  held : list resource_t;
}.

#[export] Instance connection_eta : Eta connection_t := λ c, mkConnection (posix c) (held c).

(** Whether a call gives what it is asked for; a certificate or key is given as its
    text. *)
Record tls_calls_t : Type := mkTlsCalls {
  getaddrinfo : string → string → bool;
  socket : bool;
  connect : bool;
  ssl_ctx_new : bool;
  pem_read_x509 : string → bool;
  store_add_cert : string → bool;
  use_certificate : string → bool;
  pem_read_key : string → bool;
  use_key : string → bool;
  ssl_new : bool;
  ssl_connect : string → bool;
  mqtt_init : bool;
  mqtt_connect : string → Z → bool;
  pthread_create : bool;
}.

Abbreviation M := (M connection_t).

Definition acquire (r : resource_t) : M unit := modify (λ s, s <| held := r :: held s |>).

Fixpoint forget (r : resource_t) (l : list resource_t) : option (list resource_t) :=
  match l with
  | [] => None
  | x :: l => if decide (x = r) then Some l else l ← forget r l; Some (x :: l)
  end.

Definition release (r : resource_t) : M unit := λ s,
  l ← forget r (held s); Some (tt, s <| held := l |>).

Definition on_posix (f : raft_mqtt_hal_posix_ctx_t → raft_mqtt_hal_posix_ctx_t) : M unit :=
  modify (λ s, s <| posix := f (posix s) |>).

Section Connection.
  Context (calls : tls_calls_t).

(** One of the three texts of the configuration is read into an object, which is given
    to the SSL context and freed. *)
Definition posix_tls_load (r : resource_t) (parsed used : bool) : M bool :=
  _ ← acquire Bio;
  _ ← when parsed (acquire r);
  _ ← release Bio;
  if negb (parsed && used)
  then _ ← when parsed (release r); _ ← release SslCtx; _ ← release Socket; mret false
  else _ ← release r; mret true.

Definition posix_tls_connect (cfg : raft_mqtt_config_t) : M Z :=
  if negb (getaddrinfo calls (endpoint cfg) (snprintf 8 (print_int (port cfg))).1) then mret (-1)%Z
  else
    _ ← acquire Addrinfo;
    if negb (socket calls) then _ ← release Addrinfo; mret (-1)%Z
    else
      _ ← acquire Socket;
      if negb (connect calls) then _ ← release Socket; _ ← release Addrinfo; mret (-1)%Z
      else
        _ ← release Addrinfo;
        if negb (ssl_ctx_new calls) then _ ← release Socket; mret (-1)%Z
        else
          _ ← acquire SslCtx;
          ca ← posix_tls_load X509 (pem_read_x509 calls (ca_cert cfg)) (store_add_cert calls (ca_cert cfg));
          if negb ca then mret (-1)%Z
          else
            cert ← posix_tls_load X509 (pem_read_x509 calls (client_cert cfg))
                     (use_certificate calls (client_cert cfg));
            if negb cert then mret (-1)%Z
            else
              key ← posix_tls_load PKey (pem_read_key calls (client_key cfg)) (use_key calls (client_key cfg));
              if negb key then mret (-1)%Z
              else
                _ ← when (ssl_new calls) (acquire Ssl);
                _ ← release SslCtx;
                if negb (ssl_new calls) then _ ← release Socket; mret (-1)%Z
                else if negb (ssl_connect calls (endpoint cfg))
                then _ ← release Ssl; _ ← release Socket; mret (-1)%Z
                else _ ← on_posix (λ p, p <| net_ssl := true |>); mret 0%Z.

(** The end of [posix_hal_connect] when something fails after the TLS connection. *)
Definition connect_fail : M Z :=
  _ ← release Ssl; _ ← release Socket; _ ← on_posix (λ p, p <| net_ssl := false |>); mret (-1)%Z.

Definition keep_alive (cfg : raft_mqtt_config_t) : Z :=
  ((if 0 <? keepalive_s cfg then keepalive_s cfg else 60) mod 2 ^ 16)%Z.

Definition tls_hal_connect (cfg : raft_mqtt_config_t) : M Z :=
  r ← posix_tls_connect cfg;
  if negb (r =? 0)%Z then mret (-1)%Z
  else if negb (mqtt_init calls) then connect_fail
  else if negb (mqtt_connect calls (cut16 (mqtt_node_id cfg)) (keep_alive cfg)) then connect_fail
  else
    _ ← acquire Mutex;
    _ ← on_posix (λ p, p <| shutdown := false |>);
    if negb (pthread_create calls) then connect_fail
    else
      _ ← acquire Thread;
      _ ← on_posix (λ p, p <| thread_started := true |>);
      mret 0%Z.

Definition tls_hal_disconnect : M unit :=
  started ← gets (λ s, thread_started (posix s));
  _ ← when started
    (_ ← on_posix (λ p, p <| shutdown := true |>);
     _ ← release Thread;
     _ ← on_posix (λ p, p <| thread_started := false |>);
     release Mutex);
  ssl ← gets (λ s, net_ssl (posix s));
  when ssl (_ ← release Ssl; _ ← release Socket; on_posix (λ p, p <| net_ssl := false |>)).

End Connection.

(** *** The network interface of coreMQTT

    [n] is what [SSL_write] or [SSL_read] returned, [want] whether [SSL_get_error] then
    asks to try again. *)
Definition posix_tls_send (n : Z) : Z := if (n <=? 0)%Z then (-1)%Z else n.

Definition posix_tls_recv (n : Z) (want : bool) : Z :=
  if (0 <? n)%Z then n else if (n =? 0)%Z then (-1)%Z else if want then 0%Z else (-1)%Z.

(** [uint32_t] milliseconds of a [struct timespec]. *)
Definition posix_get_time_ms (tv_sec tv_nsec : Z) : Z :=
  ((tv_sec mod 2 ^ 64 * 1000 + tv_nsec mod 2 ^ 64 / 1000000) mod 2 ^ 64 mod 2 ^ 32)%Z.

(** The background thread: [turns] are the publications each call of
    [MQTT_ProcessLoop] hands to the callback, until [shutdown] is seen. *)
Fixpoint posix_mqtt_thread {layout : MessageLayout} (turns : list (list (string * string)))
    (posix : raft_mqtt_hal_posix_ctx_t) : raft_mqtt_hal_posix_ctx_t :=
  match turns with
  | [] => posix
  | ms :: turns =>
      if shutdown posix then posix
      else posix_mqtt_thread turns (fold_left (λ posix m, posix_mqtt_event_cb posix m.1 m.2) ms posix)
  end.

(** ** What connecting and disconnecting leave *)

Section Balance.
  Context (calls : tls_calls_t) (cfg : raft_mqtt_config_t).

(** Every call up to the TLS connection gives what it is asked for. *)
Definition tls_succeeds : bool :=
  getaddrinfo calls (endpoint cfg) (snprintf 8 (print_int (port cfg))).1 && socket calls && connect calls
  && ssl_ctx_new calls
  && pem_read_x509 calls (ca_cert cfg) && store_add_cert calls (ca_cert cfg)
  && pem_read_x509 calls (client_cert cfg) && use_certificate calls (client_cert cfg)
  && pem_read_key calls (client_key cfg) && use_key calls (client_key cfg)
  && ssl_new calls && ssl_connect calls (endpoint cfg).

Definition mqtt_succeeds : bool :=
  mqtt_init calls && mqtt_connect calls (cut16 (mqtt_node_id cfg)) (keep_alive cfg).

(** The calls one after the other: where one fails, both sides are known. *)
Ltac call b := destruct b; [|reflexivity].

Lemma tls_connect_spec p h :
  posix_tls_connect calls cfg (mkConnection p h) =
  Some (if tls_succeeds
        then (0%Z, mkConnection (p <| net_ssl := true |>) (Ssl :: Socket :: h))
        else ((-1)%Z, mkConnection p h)).
Proof.
  unfold posix_tls_connect, tls_succeeds.
  call (getaddrinfo calls (endpoint cfg) (snprintf 8 (print_int (port cfg))).1).
  call (socket calls). call (connect calls). call (ssl_ctx_new calls).
  call (pem_read_x509 calls (ca_cert cfg)). call (store_add_cert calls (ca_cert cfg)).
  call (pem_read_x509 calls (client_cert cfg)). call (use_certificate calls (client_cert cfg)).
  call (pem_read_key calls (client_key cfg)). call (use_key calls (client_key cfg)).
  call (ssl_new calls). call (ssl_connect calls (endpoint cfg)). reflexivity.
Qed.

(** C31: connecting to the broker holds on to nothing when it fails.  Whichever of the
    calls on sockets, certificates, keys, OpenSSL, coreMQTT and threads fails, the
    connection never releases an object it does not hold, and what it held before is
    what it holds afterwards - with one exception, the mutex, when the thread cannot
    be created.  When it succeeds, disconnecting releases everything again.  In each
    case the state of the abstraction is the one its operations promise. *)
Theorem connection_releases_what_it_acquires p h :
  net_ssl p = false → thread_started p = false →
  ∃ r s, tls_hal_connect calls cfg (mkConnection p h) = Some (r, s) ∧
    (posix s, r) =
      posix_hal_connect (λ _, tls_succeeds) (λ _, mqtt_succeeds) (pthread_create calls) p cfg ∧
    ((r = 0%Z ∧ ∃ s', tls_hal_disconnect s = Some (tt, s') ∧ posix s' = posix_hal_disconnect (posix s) ∧
        held s' = h) ∨
     (r = (-1)%Z ∧ net_ssl (posix s) = false ∧
        held s = if tls_succeeds && mqtt_succeeds && negb (pthread_create calls) then Mutex :: h else h)).
Proof.
  intros Hn Ht. unfold tls_hal_connect, posix_hal_connect, mqtt_succeeds.
  unfold mbind at 1, M_bind at 1. rewrite tls_connect_spec. destruct tls_succeeds.
  2:{ do 2 eexists. split; [reflexivity|]. split; [reflexivity|]. by right. }
  destruct (mqtt_init calls); [|do 2 eexists; split; [reflexivity|]; split; [reflexivity|]; by right].
  destruct (mqtt_connect calls _ _); [|do 2 eexists; split; [reflexivity|]; split; [reflexivity|]; by right].
  destruct (pthread_create calls); (do 2 eexists; split; [reflexivity|]; split; [reflexivity|]); [left|by right].
  split; [done|]. eexists. split; [reflexivity|]. by split.
Qed.

End Balance.

(** The thread does what as many arrivals at the ring do. *)
Lemma posix_mqtt_thread_arrivals {layout : MessageLayout} turns p :
  shutdown p = false →
  posix_mqtt_thread turns p = (run_events ring_step p ((λ m, Arrive m.1 m.2) <$> concat turns)).1.
Proof.
  assert (∀ (ms : list (string * string)) p, shutdown p = false →
    shutdown (fold_left (λ posix m, posix_mqtt_event_cb posix m.1 m.2) ms p) = false ∧
    ∀ es, (run_events ring_step p (((λ m, Arrive m.1 m.2) <$> ms) ++ es)).1 =
      (run_events ring_step (fold_left (λ posix m, posix_mqtt_event_cb posix m.1 m.2) ms p) es).1) as Hms.
  { induction ms as [|m ms IH]; intros q Hq; [done|]. cbn [fold_left fmap list_fmap app run_events ring_step].
    destruct (IH (posix_mqtt_event_cb q m.1 m.2)) as [H1 H2].
    { unfold posix_mqtt_event_cb. by case_match. }
    split; [done|]. intros es. rewrite <- H2. by destruct (run_events _ _ _). }
  revert p; induction turns as [|ms turns IH]; intros p Hp; cbn [posix_mqtt_thread concat]; [done|].
  rewrite Hp, fmap_app. destruct (Hms ms p Hp) as [H1 H2]. rewrite H2. by apply IH.
Qed.

(** ** Witness *)

Definition all_succeed : tls_calls_t :=
  mkTlsCalls (λ _ _, true) true true true (λ _, true) (λ _, true) (λ _, true) (λ _, true) (λ _, true)
    true (λ _, true) true (λ _ _, true) true.

Lemma connection_releases_what_it_acquires_witness :
  ∃ s s', tls_hal_connect all_succeed (mkMqttConfig "c1" "a" "host" 8883 "ca" "cert" "key" 1 60)
            (mkConnection posix_zero []) = Some (0%Z, s) ∧
    tls_hal_disconnect s = Some (tt, s') ∧ held s' = [].
Proof.
  destruct (connection_releases_what_it_acquires all_succeed (mkMqttConfig "c1" "a" "host" 8883 "ca" "cert" "key" 1 60)
    posix_zero [] eq_refl eq_refl) as (r & s & H & E & [(Hr & s' & H' & _ & Hh)|(Hr & _)]).
  - subst r. exists s, s'. split; [exact H|]. split; [exact H'|exact Hh].
  - subst r. vm_compute in E. discriminate.
Defined.
