(* ===== verification/MqttEsp32.v ===== *)
(** The ESP32 hardware abstraction, [c/src/raft_mqtt_hal_esp32.c]: the event handler
    of the MQTT client puts publications into a FreeRTOS queue, [recv_raw] takes
    them out.

    FreeRTOS and the ESP-IDF client are outside the repository.  A FreeRTOS queue is
    an implementation of the class [RtosQueue], with the behaviour its manual
    documents: [xQueueSend] without waiting fails on a full queue, [xQueueReceive]
    takes the oldest message.  The client is a section of oracles. *)
From S2P Require Import Prelude CString Types MessageLayout MqttTransport MqttHal.

Class RtosQueue (Q : Type) := {
  xQueueCreate : nat → option Q;
  xQueueSend : Q → string * string → Q * bool;
  xQueueReceive : Q → Q * option (string * string);
  queued : Q → list (string * string);
  room : Q → nat;
}.

Class RtosQueueLaws (Q : Type) {q : RtosQueue Q} := {
  create_queued n q : xQueueCreate n = Some q → queued q = [] ∧ room q = n;
  send_queued q m :
    xQueueSend q m =
      ((xQueueSend q m).1, (length (queued q) <? room q)%nat) ∧
    room (xQueueSend q m).1 = room q ∧
    queued (xQueueSend q m).1 = if (length (queued q) <? room q)%nat then queued q ++ [m] else queued q;
  receive_empty q : queued q = [] → xQueueReceive q = (q, None);
  receive_queued q m rest :
    queued q = m :: rest → ∃ q', xQueueReceive q = (q', Some m) ∧ queued q' = rest ∧ room q' = room q;
}.

Definition RAFT_MQTT_ESP32_QUEUE_SIZE : nat := RAFT_MAX_QUEUE.

(** [client] and [esp_queue] are the two handles; [pool] is never used. *)
Record raft_mqtt_hal_esp32_ctx_t (Q : Type) : Type := mkEsp32 {
  client : bool;
  esp_queue : option Q;
  connected : bool;
}.
Arguments mkEsp32 {Q}.
Arguments client {Q}.
Arguments esp_queue {Q}.
Arguments connected {Q}.

#[export] Instance esp32_eta Q : Eta (raft_mqtt_hal_esp32_ctx_t Q) := λ e,
  mkEsp32 (client e) (esp_queue e) (connected e).

(** The events the handler looks at. *)
Inductive esp_mqtt_event : Type :=
| MQTT_EVENT_CONNECTED
| MQTT_EVENT_DISCONNECTED
| MQTT_EVENT_DATA (topic data : string)
| MQTT_EVENT_OTHER.

Section Esp32.
  Context {Q : Type} {layout : MessageLayout} {queue_ops : RtosQueue Q}.
  Implicit Types ctx : raft_mqtt_hal_esp32_ctx_t Q.

Definition esp_mqtt_event_handler ctx (event : esp_mqtt_event) : raft_mqtt_hal_esp32_ctx_t Q :=
  match event with
  | MQTT_EVENT_CONNECTED => ctx <| connected := true |>
  | MQTT_EVENT_DISCONNECTED => ctx <| connected := false |>
  | MQTT_EVENT_DATA topic data =>
      let msg := (str_take 127 topic, str_take (sizeof_message + 4) data) in
      ctx <| esp_queue := (λ q, (xQueueSend q msg).1) <$> esp_queue ctx |>
  | MQTT_EVENT_OTHER => ctx
  end.

(** The queue exists from [connect] to [disconnect], the only time the transport
    may ask for messages. *)
Definition esp_hal_recv_raw ctx (topic_max payload_max : nat)
    : raft_mqtt_hal_esp32_ctx_t Q * option (string * string) :=
  match esp_queue ctx with
  | None => (ctx, None)
  | Some q =>
      match xQueueReceive q with
      | (_, None) => (ctx, None)
      | (q, Some (topic, payload)) =>
          (ctx <| esp_queue := Some q |>, Some (strncpy topic_max topic, str_take payload_max payload))
      end
  end.

Definition esp_hal_poll ctx : raft_mqtt_hal_esp32_ctx_t Q := ctx.

Definition esp_hal_disconnect ctx : raft_mqtt_hal_esp32_ctx_t Q :=
  ctx <| client := false |> <| esp_queue := None |> <| connected := false |>.

Section Client.
  (** Whether the client can be created, the events of the ten seconds the
      connection is waited for, and the answers of the client. *)
  Context (esp_client_init : raft_mqtt_config_t → bool).
  Context (esp_events : raft_mqtt_config_t → list esp_mqtt_event).
  Context (esp_client_publish : string → string → Z → Z) (esp_client_subscribe : string → Z → Z).

Definition esp_hal_connect ctx (cfg : raft_mqtt_config_t) : raft_mqtt_hal_esp32_ctx_t Q * Z :=
  match xQueueCreate RAFT_MQTT_ESP32_QUEUE_SIZE with
  | None => (ctx <| esp_queue := None |>, -1)%Z
  | Some q =>
      let ctx := ctx <| esp_queue := Some q |> in
      if negb (esp_client_init cfg) then (ctx <| client := false |>, -1)%Z
      else
        let ctx := fold_left esp_mqtt_event_handler (esp_events cfg) (ctx <| client := true |>) in
        (ctx, if connected ctx then 0 else -1)%Z
  end.

Definition esp_hal_publish ctx (topic payload : string) (q : Z) : raft_mqtt_hal_esp32_ctx_t Q * Z :=
  (ctx, if (0 <=? esp_client_publish topic payload q)%Z then 0 else -1)%Z.

Definition esp_hal_subscribe ctx (topic : string) (q : Z) : raft_mqtt_hal_esp32_ctx_t Q * Z :=
  (ctx, if (0 <=? esp_client_subscribe topic q)%Z then 0 else -1)%Z.

Definition raft_mqtt_hal_esp32_make : raft_mqtt_hal_t (raft_mqtt_hal_esp32_ctx_t Q) :=
  mkHal esp_hal_connect esp_hal_publish esp_hal_subscribe esp_hal_poll esp_hal_recv_raw
    esp_hal_disconnect.

End Client.

(** [memset(ctx, 0, sizeof( *ctx))]. *)
Definition esp32_zero : raft_mqtt_hal_esp32_ctx_t Q := mkEsp32 false None false.

Definition esp_contents ctx : list (string * string) := from_option queued [] (esp_queue ctx).

Context {queue_laws : RtosQueueLaws Q}.

(** The ESP32 HAL keeps the interface of the transport. *)
#[export] Instance esp_hal_laws ci ev cp cs :
  MqttHalLaws (raft_mqtt_hal_esp32_make ci ev cp cs) esp_contents.
Proof using queue_laws.
  split; unfold raft_mqtt_hal_esp32_make, esp_contents;
    cbn [hal_recv_raw hal_poll hal_publish]; unfold esp_hal_recv_raw; try done.
  - intros h n m. destruct (esp_queue h) as [q|]; [|done]. cbn [from_option].
    intros Hq. by rewrite receive_empty.
  - intros h n m t p rest. destruct (esp_queue h) as [q|]; [|done]. cbn [from_option].
    intros Hq. destruct (receive_queued q (t, p) rest Hq) as (q' & -> & Hq' & _).
    eexists. split; [done|]. done.
Qed.

(** What the queue takes in: the same bounded queue as the ring of the POSIX HAL. *)
Lemma esp_arrival ctx q topic data :
  esp_queue ctx = Some q → room q = RAFT_MAX_QUEUE →
  esp_contents (esp_mqtt_event_handler ctx (MQTT_EVENT_DATA topic data)) =
    (queue_step (esp_contents ctx) (Arrive topic data)).1.
Proof using queue_laws.
  intros Hq Hr. unfold esp_contents, esp_mqtt_event_handler. rsimpl. rewrite Hq. cbn [from_option fmap option_fmap option_map].
  destruct (send_queued q (str_take 127 topic, str_take (sizeof_message + 4) data)) as (_ & _ & ->).
  by rewrite Hr.
Qed.

End Esp32.

(** A queue of the standard library's lists keeps the laws. *)
#[export] Instance list_queue : RtosQueue (nat * list (string * string)) := {
  xQueueCreate n := Some (n, []);
  xQueueSend q m := if (length q.2 <? q.1)%nat then ((q.1, q.2 ++ [m]), true) else (q, false);
  xQueueReceive q := match q.2 with [] => (q, None) | m :: rest => ((q.1, rest), Some m) end;
  queued q := q.2;
  room q := q.1;
}.

#[export] Instance list_queue_laws : RtosQueueLaws (nat * list (string * string)).
Proof.
  split; unfold xQueueCreate, xQueueSend, xQueueReceive, queued, room, list_queue.
  - by intros n q [= <-].
  - intros [n l] m. cbn [fst snd]. by destruct (length l <? n)%nat.
  - intros [n l]. cbn [snd]. by intros ->.
  - intros [n l] m rest. cbn [snd]. intros ->. by eexists.
Qed.
