(* ===== verification/MqttProps.v ===== *)
(** What the MQTT transport promises: the ring of the POSIX HAL is a bounded queue,
    a message published to a node reaches that node and no other, receiving routes
    by topic, and announcements come back as they were made, or with bytes of an
    earlier one. *)
From S2P Require Import Prelude CString Types MemTransport MessageLayout MqttTransport MqttHal.

(** C28: the ring buffer of the POSIX HAL is a bounded first-in first-out queue.
    Whatever the interleaving of arrivals and receptions, and also when the
    [size_t] counters wrap around, the messages taken are those of the queue, an
    arrival at a full ring is dropped, and what stays in the ring is what stays in
    the queue. *)
Theorem posix_ring_is_fifo {layout : MessageLayout} posix es :
  ring_wf posix →
  let '(posix', taken) := run_events ring_step posix es in
  run_events queue_step (posix_contents posix) es = (posix_contents posix', taken) ∧ ring_wf posix'.
Proof.
  revert posix; induction es as [|e es IH]; intros posix Hw; [done|]. cbn [run_events].
  destruct e as [t p|n m].
  - destruct (posix_event_spec posix t p Hw) as [Hc Hw']. cbn [ring_step].
    specialize (IH _ Hw'). destruct (run_events ring_step (posix_mqtt_event_cb posix t p) es) as [q out].
    destruct IH as [IH Hq]. split; [|done]. rewrite Hc in IH. cbn [queue_step fst] in *. by rewrite IH.
  - pose proof (posix_recv_raw_spec posix n m) as Hr. cbn [ring_step queue_step].
    destruct (posix_contents posix) as [|[t p] cs] eqn:Ec.
    + rewrite Hr. specialize (IH _ Hw). rewrite Ec in IH.
      destruct (run_events ring_step posix es) as [q out]. destruct IH as [IH Hq].
      split; [by rewrite IH|done].
    + destruct Hr as (posix' & -> & Hc & Hw'). specialize (IH _ (Hw' Hw)). rewrite Hc in IH.
      destruct (run_events ring_step posix' es) as [q out]. destruct IH as [IH Hq].
      split; [by rewrite IH|done].
Qed.

(** *** Strings in arrays *)

Lemma str_drop_nuls n k : str_drop n (nuls k) = nuls (k - n).
Proof. revert k; induction n as [|n IH]; intros [|k]; simpl; auto. Qed.

Lemma terminate_nuls n k : terminate n (nuls k) = nuls k.
Proof. revert k; induction n as [|n IH]; intros [|k]; simpl; try done. by rewrite IH. Qed.

Lemma terminate_app n s k :
  (String.length s ≤ n)%nat → terminate n (s +:+ nuls k) = s +:+ nuls k.
Proof.
  revert n; induction s as [|c s IH]; intros n Hn; [apply terminate_nuls|].
  destruct n as [|n]; simpl in Hn; [lia|]. rewrite str_app_cons. cbn [terminate]. by rewrite IH by lia.
Qed.

Lemma cstring_nuls s k : lacks nul s = true → cstring (s +:+ nuls (S k)) = s.
Proof. intros H. unfold cstring. cbn [nuls]. by rewrite str_break_app. Qed.

Lemma overwrite_app s a k :
  (String.length s ≤ String.length a)%nat →
  overwrite s (a +:+ nuls k) = (s +:+ str_drop (String.length s) a) +:+ nuls k.
Proof. intros H. unfold overwrite. by rewrite str_drop_app, str_app_assoc. Qed.

Lemma overwrite_nuls s k : overwrite s (nuls k) = s +:+ nuls (k - String.length s).
Proof. unfold overwrite. by rewrite str_drop_nuls. Qed.

(** An announcement that fits, in an array of zeros. *)
Definition joined (s : string) : string := s +:+ nuls (RAFT_MAX_ID - String.length s).

Lemma take_min_length {A} n m (l : list A) :
  Nat.min n (length l) = Nat.min m (length l) → take n l = take m l.
Proof. intros H. by rewrite <- (firstn_all l), !take_take, H. Qed.

Lemma joined_push s :
  (String.length s < RAFT_MAX_ID)%nat →
  terminate (RAFT_MAX_ID - 1) (overwrite s (nuls RAFT_MAX_ID)) = joined s.
Proof. intros H. rewrite overwrite_nuls. apply terminate_app. lia. Qed.

Lemma joined_id s : chars_fit RAFT_MAX_ID s = true → strncpy RAFT_MAX_ID (cstring (joined s)) = s.
Proof.
  unfold chars_fit, joined. intros H. bools.
  destruct (RAFT_MAX_ID - String.length s)%nat as [|k] eqn:E; [lia|].
  rewrite cstring_nuls by done. apply strncpy_fits. lia.
Qed.

(** *** The join queue *)

Section Joins.
  Context {H : Type} {layout : MessageLayout}.
  Context (hal : raft_mqtt_hal_t H).
  Context (contents : H → list (string * string)) {Hhal : MqttHalLaws hal contents}.
  Implicit Types mqtt : raft_mqtt_transport_t H.

(** The queue holds the ids [l], and its other arrays are zero. *)
Definition join_holds mqtt (l : list string) : Prop :=
  join_queue mqtt = (joined <$> l) ++ replicate (RAFT_MAX_NODES - length l) (nuls RAFT_MAX_ID) ∧
  join_count mqtt = length l ∧ (length l ≤ RAFT_MAX_NODES)%nat.

Lemma push_join_holds mqtt l s :
  join_holds mqtt l → (String.length s < RAFT_MAX_ID)%nat →
  join_holds (push_join mqtt s) (take RAFT_MAX_NODES (l ++ [s])).
Proof.
  intros (Hq & Hc & Hl) Hs. unfold push_join. rewrite Hc.
  destruct (length l <? RAFT_MAX_NODES)%nat eqn:E; bools.
  - rewrite take_ge by (rewrite length_app; simpl; lia). split; rsimpl.
    + rewrite Hq. destruct (RAFT_MAX_NODES - length l)%nat as [|k] eqn:Ek; [lia|].
      rewrite length_app, fmap_app. cbn [replicate length fmap list_fmap].
      replace (RAFT_MAX_NODES - (length l + 1))%nat with k by lia.
      replace (length l) with (length (joined <$> l) + 0)%nat by (rewrite length_fmap; lia).
      rewrite alter_app_r, alter_cons_O, joined_push by done.
      by rewrite <- app_assoc.
    + rewrite length_app. simpl. lia.
  - rewrite take_app_le by lia. rewrite take_ge by lia. by split.
Qed.

Lemma push_joins_holds mqtt l ss :
  join_holds mqtt l → Forall (λ s, String.length s < RAFT_MAX_ID)%nat ss →
  join_holds (fold_left push_join ss mqtt) (take RAFT_MAX_NODES (l ++ ss)).
Proof.
  revert mqtt l; induction ss as [|s ss IH]; intros mqtt l Hh Hf.
  - rewrite app_nil_r, take_ge by apply Hh. done.
  - inversion Hf as [|? ? Hs Hss]; subst. simpl.
    pose proof (IH _ _ (push_join_holds _ _ _ Hh Hs) Hss) as IH'.
    assert (take RAFT_MAX_NODES (take RAFT_MAX_NODES (l ++ [s]) ++ ss) =
            take RAFT_MAX_NODES (l ++ s :: ss)) as E; [|by rewrite E in IH'].
    change (s :: ss) with ([s] ++ ss). rewrite (app_assoc l). generalize (l ++ [s]). intros k.
    destruct (decide (length k ≤ RAFT_MAX_NODES)%nat).
    + by rewrite (take_ge k).
    + rewrite !take_app_full by (rewrite ?length_take; lia). by rewrite take_take, Nat.min_id.
Qed.

(** Pushing announcements leaves the topic and the HAL alone. *)
Lemma push_joins_same mqtt ss :
  join_topic (fold_left push_join ss mqtt) = join_topic mqtt ∧
  mqtt_hal (fold_left push_join ss mqtt) = mqtt_hal mqtt.
Proof.
  revert mqtt; induction ss as [|s ss IH]; intros mqtt; [done|]. simpl.
  destruct (IH (push_join mqtt s)) as [-> ->].
  destruct (push_join_same mqtt s) as (_ & -> & _ & -> & _). done.
Qed.

Lemma announcements_short mqtt cs :
  Forall (λ s, String.length s < RAFT_MAX_ID)%nat (announcements mqtt cs).
Proof.
  unfold announcements. apply Forall_forall. intros s Hs.
  apply list_elem_of_omap in Hs as ([t p] & _ & E). cbv zeta in E.
  destruct (inbox_message _ _ _); [done|]. destruct (join_message _ _ _) eqn:Ej; [|done].
  injection E as <-. unfold join_message in Ej. by bools.
Qed.

Lemma announcements_fit mqtt cs :
  Forall (λ s, lacks nul s = true) (announcements mqtt cs) →
  Forall (λ s, chars_fit RAFT_MAX_ID s = true) (announcements mqtt cs).
Proof.
  intros Hn. pose proof (announcements_short mqtt cs) as Hs. rewrite Forall_forall in *.
  intros s H1. unfold chars_fit. apply andb_true_intro; split; [by apply Hn|].
  apply Nat.ltb_lt. by apply Hs.
Qed.

Lemma joined_ids ss :
  Forall (λ s, chars_fit RAFT_MAX_ID s = true) ss →
  (λ a, strncpy RAFT_MAX_ID (cstring a)) ∘ joined <$> ss = ss.
Proof. induction 1 as [|s ss Hs _ IH]; [done|]. cbn [fmap list_fmap compose] in *. by rewrite joined_id, IH. Qed.


End Joins.

(** *** From one node to another *)

Lemma topic_of_exact cluster last :
  (String.length cluster < 64)%nat → (String.length last < RAFT_MAX_ID)%nat →
  topic_of cluster last = "raft/" +:+ (cluster +:+ String "/"%char last).
Proof.
  intros Hc Hl. unfold topic_of, snprintf. cbn [fst]. apply str_take_all.
  rewrite str_app_length, str_app_length. unfold RAFT_MAX_ID in Hl. simpl. lia.
Qed.

Lemma topic_of_inj cluster a b :
  (String.length cluster < 64)%nat → (String.length a < RAFT_MAX_ID)%nat →
  (String.length b < RAFT_MAX_ID)%nat → topic_of cluster a = topic_of cluster b → a = b.
Proof.
  intros Hc Ha Hb. rewrite !topic_of_exact by done. intros E.
  apply str_app_inj in E. apply str_app_inj in E. by injection E.
Qed.

(** C30: a message sent to a node arrives at that node.  What [mqtt_send] hands to
    the HAL is a publication on the inbox topic of the target; when the POSIX HAL of
    that node, with room in its ring and nothing before it, receives it, the
    message is what the node's next reception returns; and the topic is no
    other node's inbox. *)
Theorem mqtt_message_arrives {H : Type} {layout : MessageLayout} (hal : raft_mqtt_hal_t H) tls mc pt mp ms mi
    (mqtt : raft_mqtt_transport_t H) cfg posix msg capacity :
  message_fits msg = true → mqtt_enabled mqtt = true →
  cluster_id (mqtt_config mqtt) = cluster_id cfg → target msg = mqtt_node_id cfg →
  (String.length (cluster_id cfg) < 64)%nat → ring_wf posix → posix_contents posix = [] →
  (0 < capacity)%nat →
  let peer := raft_mqtt_transport_init cfg posix in
  let topic := inbox_topic peer in
  mqtt_send hal mqtt msg =
    (let '(h, r) := hal_publish hal (mqtt_hal mqtt) topic (message_bytes msg) (qos (mqtt_config mqtt)) in
     (mqtt <| mqtt_hal := h |>, r)) ∧
  (mqtt_recv (raft_mqtt_hal_posix_make tls mc pt mp ms mi) (hal_backlog posix_contents)
     (peer <| mqtt_hal := posix_mqtt_event_cb posix topic (message_bytes msg) |>) capacity).2 = [msg] ∧
  (∀ other h, cluster_id other = cluster_id cfg → (String.length (mqtt_node_id other) < RAFT_MAX_ID)%nat →
     inbox_topic (raft_mqtt_transport_init (H := H) other h) = topic → mqtt_node_id other = mqtt_node_id cfg).
Proof.
  intros Hfit Hen Hcl Htg Hlen Hw Hc Hcap peer topic.
  assert (String.length (mqtt_node_id cfg) < RAFT_MAX_ID)%nat as Hid.
  { rewrite <- Htg. unfold message_fits, chars_fit in Hfit. by bools. }
  assert (topic = topic_of (cluster_id cfg) (mqtt_node_id cfg)) as Ht by done.
  assert (String.length topic ≤ 127)%nat as Htl.
  { rewrite Ht. unfold topic_of, snprintf. cbn [fst]. etrans; [apply str_take_length|lia]. }
  assert (str_take sizeof_message (message_bytes msg) = message_bytes msg) as Hfull
    by (apply str_take_all; by rewrite message_bytes_length).
  split; [unfold mqtt_send; by rewrite Hen, Hcl, Htg|]. split.
  - destruct (posix_event_spec posix topic (message_bytes msg) Hw) as [Hq _].
    rewrite Hc in Hq. cbn [queue_step fst length app Nat.ltb] in Hq.
    change (0 <? RAFT_MAX_QUEUE)%nat with true in Hq. cbv iota in Hq.
    rewrite (str_take_all 127 topic), str_take_all in Hq by (rewrite ?message_bytes_length by done; lia).
    set (peer' := peer <| mqtt_hal := _ |>).
    assert (posix_contents (mqtt_hal peer') = [(topic, message_bytes msg)]) as Hpc by exact Hq.
    unfold mqtt_recv. cbv zeta. change (hal_poll (raft_mqtt_hal_posix_make tls mc pt mp ms mi)) with posix_hal_poll.
    change (peer' <| mqtt_hal := posix_hal_poll (mqtt_hal peer') |>) with peer'.
    destruct (mqtt_recv_loop_spec (raft_mqtt_hal_posix_make tls mc pt mp ms mi) posix_contents
      (S (hal_backlog posix_contents (mqtt_hal peer'))) peer' capacity _ Hpc) as [-> _];
      [unfold hal_backlog; rewrite Hpc; lia|].
    change (mqtt_enabled peer') with true. cbv iota. unfold inbox_messages. cbn [omap list_omap].
    unfold inbox_message. change (inbox_topic peer') with topic.
    rewrite Hfull, message_bytes_length by done.
    rewrite strncpy_fits by lia. rewrite Nat.eqb_refl, streq_refl. cbn [andb].
    rewrite bytes_message_bytes by done. by apply take_ge.
  - intros other h Ho Hol E. rewrite Ht in E. cbn [inbox_topic raft_mqtt_transport_init] in E.
    rewrite Ho in E. symmetry. eapply topic_of_inj; [..|symmetry; exact E]; done.
Qed.

(** A call of [recv_joins] after the first one. *)
Lemma recv_joins_later {H : Type} (hal : raft_mqtt_hal_t H) (mqtt : raft_mqtt_transport_t H) capacity :
  join_topic mqtt ≠ "" →
  raft_mqtt_transport_recv_joins hal mqtt capacity =
    (mqtt <| join_count := 0%nat |>,
     (λ a, strncpy RAFT_MAX_ID (cstring a)) <$> take (Nat.min (join_count mqtt) capacity) (join_queue mqtt)).
Proof.
  intros Hj. unfold raft_mqtt_transport_recv_joins.
  by destruct (streq (join_topic mqtt) "") eqn:E; [apply streq_true in E|].
Qed.

(** An id announced after a longer one comes out with the end of the longer
    one.  [recv] copies an announcement over the bytes its slot held, without a
    final NUL, and draining the queue only resets the count. *)
Theorem join_ids_keep_stale_bytes {H : Type} (hal : raft_mqtt_hal_t H) (mqtt : raft_mqtt_transport_t H)
    long short capacity :
  join_topic mqtt ≠ "" → join_holds mqtt [] → (0 < capacity)%nat →
  chars_fit RAFT_MAX_ID long = true → lacks nul short = true →
  (String.length short < String.length long)%nat →
  let '(mqtt1, first) := raft_mqtt_transport_recv_joins hal (push_join mqtt long) capacity in
  let '(_, second) := raft_mqtt_transport_recv_joins hal (push_join mqtt1 short) capacity in
  first = [long] ∧ second = [short +:+ str_drop (String.length short) long].
Proof.
  intros Hj Hh Hcap Hfit Hs Hlt.
  pose proof Hfit as Hfit'. unfold chars_fit in Hfit'. bools.
  set (mixed := short +:+ str_drop (String.length short) long).
  assert (String.length mixed = String.length long) as Hml
    by (unfold mixed; rewrite str_app_length, str_drop_length; lia).
  destruct (push_join_holds mqtt [] long Hh ltac:(done)) as (Q1 & Q2 & _).
  destruct (push_join_same mqtt long) as (_ & Ej & _).
  rewrite (recv_joins_later hal) by by rewrite Ej.
  rewrite Q1, Q2. cbn [length take app fmap list_fmap RAFT_MAX_NODES].
  replace (Nat.min 1 capacity) with 1%nat by lia. cbn [take fmap list_fmap].
  rewrite joined_id by done.
  assert (join_queue (push_join mqtt long) =
    joined long :: replicate (RAFT_MAX_NODES - 1) (nuls RAFT_MAX_ID)) as Hq by (by rewrite Q1).
  revert Hq Ej. generalize (push_join mqtt long). intros m Hq Ej.
  destruct (push_join_same (m <| join_count := 0%nat |>) short) as (_ & Ej' & _).
  rewrite (recv_joins_later hal) by (rewrite Ej'; rsimpl; by rewrite Ej).
  split; [done|]. unfold push_join. rsimpl. change (0 <? RAFT_MAX_NODES)%nat with true. cbv iota. rsimpl.
  rewrite Hq, alter_cons_O. replace (Nat.min 1 capacity) with 1%nat by lia. cbn [take fmap list_fmap].
  unfold joined. rewrite overwrite_app by lia. fold mixed. rewrite terminate_app by lia.
  destruct (RAFT_MAX_ID - String.length long)%nat as [|k] eqn:Ek; [lia|].
  rewrite cstring_nuls by (unfold mixed; by rewrite lacks_app, Hs, str_drop_lacks).
  rewrite strncpy_fits; [done|lia].
Qed.

(** ** Witnesses *)

Definition config_of (id : string) : raft_mqtt_config_t :=
  mkMqttConfig "c1" id "broker" 8883 "CA" "CERT" "KEY" 1 60.

Definition any_network := raft_mqtt_hal_posix_make (λ _, true) (λ _, true) true (λ _ _ _, true) (λ _ _, true)
  (λ _ _, []).

(** A ring whose counters are about to wrap around. *)
Definition posix_late : raft_mqtt_hal_posix_ctx_t :=
  posix_zero <| r_head := (2 ^ 64 - 1)%Z |> <| r_tail := (2 ^ 64 - 1)%Z |>.

Lemma posix_late_wf : ring_wf posix_late.
Proof. split; vm_compute; [done|lia]. Qed.

Lemma posix_ring_is_fifo_witness :
  (run_events (ring_step (layout := lp64_layout)) posix_late
     [Arrive "t" "one"; Arrive "t" "two"; Take 128 100; Take 128 100; Take 128 100]).2 =
  [("t", "one"); ("t", "two")].
Proof.
  pose proof (posix_ring_is_fifo (layout := lp64_layout) posix_late
    [Arrive "t" "one"; Arrive "t" "two"; Take 128 100; Take 128 100; Take 128 100] posix_late_wf) as H.
  destruct (run_events (ring_step (layout := lp64_layout)) _ _) as [p out].
  destruct H as [H _]. cbn [snd]. transitivity (run_events (queue_step (layout := lp64_layout))
    (posix_contents posix_late)
    [Arrive "t" "one"; Arrive "t" "two"; Take 128 100; Take 128 100; Take 128 100]).2;
    [by rewrite H|]. vm_compute. reflexivity.
Defined.

Definition hello_to_b : raft_message_t := zero_message RAFT_MSG_REQUEST_VOTE <| target := "b" |>.

Lemma mqtt_message_arrives_witness :
  let peer := raft_mqtt_transport_init (config_of "b") posix_late in
  (mqtt_recv any_network (hal_backlog posix_contents)
     (peer <| mqtt_hal := posix_mqtt_event_cb posix_late "raft/c1/b" (message_bytes hello_to_b) |>) 8).2
  = [hello_to_b].
Proof.
  refine (proj1 (proj2 (mqtt_message_arrives any_network (λ _, true) (λ _, true) true (λ _ _ _, true) (λ _ _, true)
    (λ _ _, [])
    (raft_mqtt_transport_init (config_of "a") posix_zero) (config_of "b") posix_late hello_to_b 8
    eq_refl eq_refl eq_refl eq_refl _ posix_late_wf _ _)));
    [simpl; lia|vm_compute; reflexivity|lia].
Defined.

(** A node that has subscribed to the join topic, before any announcement. *)
Definition joining_a : raft_mqtt_transport_t raft_mqtt_hal_posix_ctx_t :=
  (raft_mqtt_transport_recv_joins any_network (raft_mqtt_transport_init (config_of "a") posix_zero) 8).1.

Lemma join_ids_keep_stale_bytes_witness :
  let '(mqtt1, _) := raft_mqtt_transport_recv_joins any_network (push_join joining_a "node-9") 8 in
  (raft_mqtt_transport_recv_joins any_network (push_join mqtt1 "n2") 8).2 = ["n2de-9"].
Proof.
  assert (join_holds joining_a []) as Hh by (split; [vm_compute; reflexivity|split; [reflexivity|simpl; lia]]).
  pose proof (join_ids_keep_stale_bytes any_network joining_a "node-9" "n2" 8) as H.
  specialize (H ltac:(vm_compute; discriminate) Hh ltac:(lia) eq_refl eq_refl ltac:(simpl; lia)).
  destruct (raft_mqtt_transport_recv_joins any_network (push_join joining_a "node-9") 8) as [m1 o1].
  destruct (raft_mqtt_transport_recv_joins any_network (push_join m1 "n2") 8) as [m2 o2].
  exact (proj2 H).
Defined.

(** An announcement, a message, a publication for someone else and one of the
    wrong size, in the ring of a node that listens to announcements. *)
Definition busy_ring : raft_mqtt_hal_posix_ctx_t :=
  posix_mqtt_event_cb (posix_mqtt_event_cb (posix_mqtt_event_cb (posix_mqtt_event_cb posix_zero
    "raft/c1/join" "n3") "raft/c1/a" (message_bytes hello_to_b)) "raft/c1/z" "x") "raft/c1/a" "short".

Definition busy_a : raft_mqtt_transport_t raft_mqtt_hal_posix_ctx_t :=
  joining_a <| mqtt_hal := busy_ring |>.

