(* ===== verification/TcpTransport.v ===== *)
(** The TCP transport, [c/src/raft_tcp_transport.c]: every message is a connection
    of its own that carries a frame header and a struct; a listener thread reads the
    frames into bounded queues, which the application thread drains; the addresses
    of the peers are kept in a table and in two text files.

    The socket calls of the sending side are the operations of a record on a
    network state, with the behaviour POSIX documents as the class [SocketLaws].  A
    connection the listener accepts is the list of what successive [recv] calls
    find in it.  The listener works on the shared state in two steps, the test of
    [enabled] and the insertion under the mutex, and the application's operations
    may come between them. *)
From S2P Require Import Prelude CString Types Storage MemTransport MessageLayout.

Definition TCP_MAGIC : Z := 1380009556. (* 0x52414654 *)
Definition TCP_TYPE_RAFT : Z := 0.
Definition TCP_TYPE_JOIN : Z := 1.
Definition TCP_TYPE_CMD : Z := 3.
Definition RAFT_JOIN_ORIGINAL : Z := 0.
Definition RAFT_JOIN_FORWARDED : Z := 1.
Definition RAFT_JOIN_ANNOUNCE : Z := 2.
Definition RAFT_JOIN_PENDING : Z := 99.

Record raft_tcp_frame_t : Type := mkFrame { magic : Z; frame_type : Z; frame_size : Z }.

Record raft_tcp_peer_t : Type := mkPeer { peer_id : string; peer_host : string; peer_port : Z }.

(** [members] has [RAFT_MAX_NODES] elements, of which the sender fills the first
    [member_count]. *)
Record raft_tcp_join_req_t : Type := mkJoinReq {
  jr_node_id : string;
  jr_host : string;
  jr_port : Z;
  forwarded : Z;
  cluster_join : Z;
  member_count : Z;
  jr_members : list raft_tcp_peer_t;
}.

Definition zero_peer : raft_tcp_peer_t := mkPeer "" "" 0.
Definition zero_join_req : raft_tcp_join_req_t :=
  mkJoinReq "" "" 0 0 0 0 (replicate RAFT_MAX_NODES zero_peer).

#[export] Instance peer_eta : Eta raft_tcp_peer_t := λ p, mkPeer (peer_id p) (peer_host p) (peer_port p).
#[export] Instance join_req_eta : Eta raft_tcp_join_req_t := λ j,
  mkJoinReq (jr_node_id j) (jr_host j) (jr_port j) (forwarded j) (cluster_join j) (member_count j) (jr_members j).

(** *** The structs on the wire *)

Definition uint32_b (x : Z) : bool := (0 <=? x)%Z && (x <? 2 ^ 32)%Z.

Definition frame_fits (f : raft_tcp_frame_t) : bool :=
  uint32_b (magic f) && uint32_b (frame_type f) && uint32_b (frame_size f).

Definition peer_fits (p : raft_tcp_peer_t) : bool :=
  chars_fit RAFT_MAX_ID (peer_id p) && chars_fit 256 (peer_host p) && in_intb (peer_port p).

Definition join_req_fits (j : raft_tcp_join_req_t) : bool :=
  chars_fit RAFT_MAX_ID (jr_node_id j) && chars_fit 256 (jr_host j) && in_intb (jr_port j)
  && in_intb (forwarded j) && in_intb (cluster_join j)
  && ((0 <=? member_count j)%Z && (member_count j <? 2 ^ 64)%Z)
  && (length (jr_members j) =? RAFT_MAX_NODES)%nat && forallb peer_fits (jr_members j).

Definition frame_codec : codec raft_tcp_frame_t :=
  iso_codec (λ f, (magic f, (frame_type f, frame_size f))) (λ '(m, (t, s)), mkFrame m t s)
    (pair_codec uint32_codec (pair_codec uint32_codec uint32_codec)).

Definition peer_codec : codec raft_tcp_peer_t :=
  iso_codec (λ p, (peer_id p, (peer_host p, peer_port p))) (λ '(i, (h, p)), mkPeer i h p)
    (pair_codec (chars_codec RAFT_MAX_ID) (pair_codec (chars_codec 256) int_codec)).

(** Four bytes of padding align the [size_t]. *)
Definition join_req_codec : codec raft_tcp_join_req_t :=
  iso_codec
    (λ j, (jr_node_id j, (jr_host j, (jr_port j, (forwarded j, (cluster_join j,
          (member_count j, jr_members j)))))))
    (λ '(i, (h, (p, (f, (c, (n, ms)))))), mkJoinReq i h p f c n ms)
    (pair_codec (chars_codec RAFT_MAX_ID) (pair_codec (chars_codec 256) (pair_codec int_codec
      (pair_codec int_codec (pair_codec int_codec (pair_codec (padded 4 uint64_codec)
      (array_codec RAFT_MAX_NODES peer_codec))))))).

#[export] Instance frame_codec_laws : CodecLaws frame_codec.
Proof. apply iso_codec_laws; [apply _|by intros []]. Qed.
#[export] Instance peer_codec_laws : CodecLaws peer_codec.
Proof. apply iso_codec_laws; [apply _|by intros []]. Qed.
#[export] Instance join_req_codec_laws : CodecLaws join_req_codec.
Proof. apply iso_codec_laws; [apply _|by intros []]. Qed.

Lemma frame_fits_codec f : frame_fits f = true → cfits frame_codec f = true.
Proof. unfold frame_fits. intros H. bools. unfold frame_codec. fits_fields; cbn [uint32_codec cfits]; done. Qed.

Lemma peer_fits_codec p : peer_fits p = true → cfits peer_codec p = true.
Proof. unfold peer_fits. intros H. bools. unfold peer_codec. by fits_fields. Qed.

Lemma join_req_fits_codec j : join_req_fits j = true → cfits join_req_codec j = true.
Proof.
  unfold join_req_fits. intros H. bools. unfold join_req_codec. fits_fields; try done.
  - unfold padded, uint64_codec. cbn [cfits]. fits_fields; unfold uint32_codec; cbn [cfits];
      apply andb_true_iff; rewrite Z.leb_le, Z.ltb_lt.
    + apply Z.mod_pos_bound. lia.
    + change (2 ^ 64)%Z with (2 ^ 32 * 2 ^ 32)%Z in *. split.
      * apply Z.div_pos; lia.
      * apply Z.div_lt_upper_bound; lia.
  - unfold array_codec. cbn [cfits]. apply andb_true_intro; split; [by apply Nat.eqb_eq|].
    apply forallb_forall. intros p Hp. apply peer_fits_codec. revert p Hp. by apply forallb_forall.
Qed.

#[export] Instance lp64_frame : Layout raft_tcp_frame_t frame_fits :=
  codec_layout frame_codec frame_fits (mkFrame 0 0 0) frame_fits_codec.
#[export] Instance lp64_join_req : Layout raft_tcp_join_req_t join_req_fits :=
  codec_layout join_req_codec join_req_fits zero_join_req join_req_fits_codec.

Example lp64_frame_size : sizeof raft_tcp_frame_t = 12%nat.
Proof. vm_compute. reflexivity. Qed.
(** 284 bytes of ids and integers, padding, the count and 8 members of 276 bytes. *)
Example lp64_join_req_size : sizeof raft_tcp_join_req_t = (284 + 4 + 8 + 8 * 276)%nat.
Proof. vm_compute. reflexivity. Qed.

(** *** The state *)

Record raft_tcp_transport_t (N : Type) : Type := mkTcp {
  listen_port : Z;
  listen_fd : Z;
  own_id : string;
  own_host : string;
  data_dir : string;
  tcp_peers : list raft_tcp_peer_t;
  in_queue : list raft_message_t;
  tcp_join_queue : list raft_tcp_join_req_t;
  tcp_cmd_queue : list raft_command_t;
  fwd_cmd_queue : list raft_command_t;
  listener_started : bool;
  tcp_enabled : bool;
  tcp_shutdown : bool;
  net : N;
}.
Arguments mkTcp {N}.
Arguments listen_port {N}.
Arguments listen_fd {N}.
Arguments own_id {N}.
Arguments own_host {N}.
Arguments data_dir {N}.
Arguments tcp_peers {N}.
Arguments in_queue {N}.
Arguments tcp_join_queue {N}.
Arguments tcp_cmd_queue {N}.
Arguments fwd_cmd_queue {N}.
Arguments listener_started {N}.
Arguments tcp_enabled {N}.
Arguments tcp_shutdown {N}.
Arguments net {N}.

#[export] Instance raft_tcp_transport_eta N : Eta (raft_tcp_transport_t N) := λ t,
  mkTcp (listen_port t) (listen_fd t) (own_id t) (own_host t) (data_dir t) (tcp_peers t) (in_queue t)
    (tcp_join_queue t) (tcp_cmd_queue t) (fwd_cmd_queue t) (listener_started t) (tcp_enabled t)
    (tcp_shutdown t) (net t).

(** *** Byte streams *)

(** A connection is the list of what arrives on it, until it ends; [recv] returns
    at most what has arrived, and nothing at the end. *)
Fixpoint recv_full (conn : list string) (len : nat) : option (string * list string) :=
  match len, conn with
  | O, _ => Some ("", conn)
  | S _, [] => None
  | S _, chunk :: conn =>
      match str_split len chunk with
      | Some (buf, "") => Some (buf, conn)
      | Some (buf, chunk) => Some (buf, chunk :: conn)
      | None =>
          if streq chunk "" then None
          else '(rest, conn) ← recv_full conn (len - String.length chunk); Some (chunk +:+ rest, conn)
      end
  end.

(** The calls of the sending side on a network state [N]: [sock_connect] is
    [socket], [inet_pton] and [connect] to a host and a 16-bit port, [sock_send] is
    [send] with its result, [sock_close] is [close]. *)
Record sockets_t (N : Type) : Type := mkSockets {
  sock_connect : N → string → Z → N * option Z;
  sock_send : N → Z → string → N * Z;
  sock_close : N → Z → N;
}.
Arguments mkSockets {N}.
Arguments sock_connect {N}.
Arguments sock_send {N}.
Arguments sock_close {N}.

(** [stream n fd] is where an open descriptor leads and what was sent on it;
    [closed] are the connections made and closed so far. *)
Class SocketLaws {N} (sockets : sockets_t N) (stream : N → Z → string * Z * string)
    (closed : N → list (string * Z * string)) := {
  connect_some n host port n' fd :
    sock_connect sockets n host port = (n', Some fd) → stream n' fd = (host, port, "") ∧ closed n' = closed n;
  connect_none n host port n' : sock_connect sockets n host port = (n', None) → closed n' = closed n;
  send_some n fd buf n' k :
    sock_send sockets n fd buf = (n', k) →
    (k ≤ Z.of_nat (String.length buf))%Z ∧ closed n' = closed n ∧
    stream n' fd = ((stream n fd).1, (stream n fd).2 +:+ str_take (Z.to_nat k) buf);
  close_closed n fd : closed (sock_close sockets n fd) = closed n ++ [stream n fd];
}.

(** What the listener takes from a connection. *)
Inductive tcp_item : Type :=
| TcpJoin (jr : raft_tcp_join_req_t)
| TcpCommand (cmd : raft_command_t)
| TcpRaft (msg : raft_message_t).

Section Tcp.
  Context {N : Type} (sockets : sockets_t N).
  Context {layout : MessageLayout} {frames : Layout raft_tcp_frame_t frame_fits}.
  Context {requests : Layout raft_tcp_join_req_t join_req_fits} {commands : Layout raft_command_t command_fits}.
  Implicit Types tcp : raft_tcp_transport_t N.

(** Every successful [send] takes at least a byte: the length of the buffer is
    enough fuel. *)
Fixpoint send_full_loop (fuel : nat) (n : N) (fd : Z) (buf : string) : N * Z :=
  match fuel, buf with
  | _, "" => (n, 0%Z)
  | O, _ => (n, -1)%Z
  | S fuel, _ =>
      let '(n, k) := sock_send sockets n fd buf in
      if (k <=? 0)%Z then (n, -1)%Z
      else send_full_loop fuel n fd (str_drop (Z.to_nat k) buf)
  end.
Definition send_full (n : N) (fd : Z) (buf : string) : N * Z :=
  send_full_loop (String.length buf) n fd buf.

Definition frame_of (type : Z) (size : nat) : raft_tcp_frame_t :=
  mkFrame TCP_MAGIC type (Z.of_nat size mod 2 ^ 32).

(** The part [tcp_send], [tcp_send_join] and [forward_cmd] have in common: a
    connection, the frame and the struct on it. *)
Definition tcp_transmit (n : N) (host : string) (port type : Z) (size : nat) (body : string) : N * Z :=
  match sock_connect sockets n host (port mod 2 ^ 16) with
  | (n, None) => (n, -1)%Z
  | (n, Some fd) =>
      let '(n, r) := send_full n fd (to_bytes (frame_of type size)) in
      if (r <? 0)%Z then (sock_close sockets n fd, -1)%Z
      else
        let '(n, r) := send_full n fd body in
        if (r <? 0)%Z then (sock_close sockets n fd, -1)%Z
        else (sock_close sockets n fd, 0%Z)
  end.

Definition tcp_send_join (n : N) (host : string) (port : Z) (jr : raft_tcp_join_req_t) : N * Z :=
  tcp_transmit n host port TCP_TYPE_JOIN (sizeof raft_tcp_join_req_t) (to_bytes jr).

(** *** The listener *)

(** What one accepted connection brings; [enabled] is looked at before the lock. *)
Definition tcp_listener_read tcp (conn : list string) : option tcp_item :=
  '(hb, conn) ← recv_full conn (sizeof raft_tcp_frame_t);
  let header := from_bytes raft_tcp_frame_t hb in
  if negb (magic header =? TCP_MAGIC)%Z then None
  else if (frame_type header =? TCP_TYPE_JOIN)%Z then
    if negb (frame_size header =? Z.of_nat (sizeof raft_tcp_join_req_t) mod 2 ^ 32)%Z then None
    else '(b, _) ← recv_full conn (sizeof raft_tcp_join_req_t);
         Some (TcpJoin (from_bytes raft_tcp_join_req_t b))
  else if (frame_type header =? TCP_TYPE_CMD)%Z then
    if negb (frame_size header =? Z.of_nat (sizeof raft_command_t) mod 2 ^ 32)%Z then None
    else '(b, _) ← recv_full conn (sizeof raft_command_t);
         Some (TcpCommand (from_bytes raft_command_t b))
  else if negb (frame_type header =? TCP_TYPE_RAFT)%Z
          || negb (frame_size header =? Z.of_nat sizeof_message mod 2 ^ 32)%Z then None
  else '(b, _) ← recv_full conn sizeof_message;
       if negb (tcp_enabled tcp) then None else Some (TcpRaft (bytes_message b)).

(** The insertion, under the mutex. *)
Definition tcp_listener_enqueue tcp (item : tcp_item) : raft_tcp_transport_t N :=
  match item with
  | TcpJoin jr => tcp <| tcp_join_queue := queue_push RAFT_MAX_NODES (tcp_join_queue tcp) jr |>
  | TcpCommand cmd => tcp <| fwd_cmd_queue := queue_push RAFT_MAX_QUEUE (fwd_cmd_queue tcp) cmd |>
  | TcpRaft msg => tcp <| in_queue := queue_push RAFT_MAX_QUEUE (in_queue tcp) msg |>
  end.

(** A turn of the loop with nothing in between. *)
Definition tcp_listener_thread tcp (conn : list string) : raft_tcp_transport_t N :=
  match tcp_listener_read tcp conn with
  | Some item => tcp_listener_enqueue tcp item
  | None => tcp
  end.

(** *** The transport table *)

Fixpoint find_peer (id : string) (peers : list raft_tcp_peer_t) : option raft_tcp_peer_t :=
  match peers with
  | [] => None
  | p :: peers => if streq (peer_id p) id then Some p else find_peer id peers
  end.

Definition tcp_send tcp (msg : raft_message_t) : raft_tcp_transport_t N * Z :=
  if negb (tcp_enabled tcp) then (tcp, 0%Z)
  else match find_peer (target msg) (tcp_peers tcp) with
       | None => (tcp, -1)%Z
       | Some p =>
           let '(n, r) := tcp_transmit (net tcp) (peer_host p) (peer_port p) TCP_TYPE_RAFT
                            sizeof_message (message_bytes msg) in
           (tcp <| net := n |>, r)
       end.

(** With no room ([capacity = 0]) or nothing queued the queue is left alone;
    otherwise it is emptied, also of what does not fit. *)
Definition drain {A} (q : list A) (capacity : nat) : list A * list A :=
  if (0 <? Nat.min (length q) capacity)%nat then ([], take capacity q) else (q, []).

Definition tcp_recv tcp (capacity : nat) : raft_tcp_transport_t N * list raft_message_t :=
  let '(q, out) := drain (in_queue tcp) capacity in (tcp <| in_queue := q |>, out).

Definition tcp_submit_command tcp (cmd : raft_command_t) : raft_tcp_transport_t N * Z :=
  if (RAFT_MAX_QUEUE <=? length (tcp_cmd_queue tcp))%nat then (tcp, -1)%Z
  else (tcp <| tcp_cmd_queue := tcp_cmd_queue tcp ++ [cmd] |>, 0%Z).

Definition tcp_recv_commands tcp (capacity : nat) : raft_tcp_transport_t N * list raft_command_t :=
  (tcp <| tcp_cmd_queue := [] |>, take capacity (tcp_cmd_queue tcp)).

Definition tcp_set_enabled tcp (enabled : bool) : raft_tcp_transport_t N :=
  let tcp := tcp <| tcp_enabled := enabled |> in
  if negb enabled then tcp <| in_queue := [] |> <| tcp_cmd_queue := [] |> else tcp.

Definition raft_tcp_transport_make : raft_transport_t (raft_tcp_transport_t N) :=
  mkTransport tcp_send tcp_recv tcp_submit_command tcp_recv_commands (Some tcp_set_enabled).

Definition raft_tcp_transport_recv_joins tcp (capacity : nat)
    : raft_tcp_transport_t N * list raft_tcp_join_req_t :=
  let '(q, out) := drain (tcp_join_queue tcp) capacity in (tcp <| tcp_join_queue := q |>, out).

Definition raft_tcp_transport_recv_fwd_cmds tcp (capacity : nat)
    : raft_tcp_transport_t N * list raft_command_t :=
  let '(q, out) := drain (fwd_cmd_queue tcp) capacity in (tcp <| fwd_cmd_queue := q |>, out).

(** *** Join requests and forwarded commands *)

Definition with_net tcp (r : N * Z) : raft_tcp_transport_t N * Z := (tcp <| net := r.1 |>, r.2).

Definition raft_tcp_transport_request_join tcp (my_id my_host : string) (my_port : Z)
    (target_host : string) (target_port : Z) : raft_tcp_transport_t N * Z :=
  let jr := zero_join_req <| jr_node_id := strncpy RAFT_MAX_ID my_id |>
                          <| jr_host := strncpy 256 my_host |> <| jr_port := my_port |>
                          <| forwarded := RAFT_JOIN_ORIGINAL |> in
  with_net tcp (tcp_send_join (net tcp) target_host target_port jr).

Definition raft_tcp_transport_send_cluster_join tcp (members : list raft_tcp_peer_t)
    (target_host : string) (target_port forwarded_value : Z) : raft_tcp_transport_t N * Z :=
  let count := Nat.min (length members) RAFT_MAX_NODES in
  if streq (own_id tcp) "" || streq (own_host tcp) "" || (listen_port tcp <=? 0)%Z then (tcp, -1)%Z
  else
    let jr := zero_join_req <| jr_node_id := strncpy RAFT_MAX_ID (own_id tcp) |>
                            <| jr_host := strncpy 256 (own_host tcp) |>
                            <| jr_port := listen_port tcp |> <| forwarded := forwarded_value |>
                            <| cluster_join := 1%Z |> <| member_count := Z.of_nat count |>
                            <| jr_members := take count members ++ replicate (RAFT_MAX_NODES - count) zero_peer |> in
    with_net tcp (tcp_send_join (net tcp) target_host target_port jr).

Definition raft_tcp_transport_request_cluster_join tcp (members : list raft_tcp_peer_t)
    (target_host : string) (target_port : Z) : raft_tcp_transport_t N * Z :=
  raft_tcp_transport_send_cluster_join tcp members target_host target_port RAFT_JOIN_ORIGINAL.

Definition raft_tcp_transport_flood_join tcp (jr : raft_tcp_join_req_t) : raft_tcp_transport_t N :=
  let fwd := jr <| forwarded := 1%Z |> in
  tcp <| net := fold_left (λ n p, (tcp_send_join n (peer_host p) (peer_port p) fwd).1) (tcp_peers tcp) (net tcp) |>.

Definition raft_tcp_transport_announce_self tcp (target_host : string) (target_port : Z)
    : raft_tcp_transport_t N * Z :=
  if streq (own_id tcp) "" then (tcp, 0%Z)
  else
    let jr := zero_join_req <| jr_node_id := strncpy RAFT_MAX_ID (own_id tcp) |>
                            <| jr_host := strncpy 256 (own_host tcp) |>
                            <| jr_port := listen_port tcp |> <| forwarded := RAFT_JOIN_ANNOUNCE |> in
    with_net tcp (tcp_send_join (net tcp) target_host target_port jr).

Definition raft_tcp_transport_forward_cmd tcp (target_host : string) (target_port : Z)
    (cmd : raft_command_t) : raft_tcp_transport_t N * Z :=
  with_net tcp (tcp_transmit (net tcp) target_host target_port TCP_TYPE_CMD (sizeof raft_command_t)
                  (to_bytes cmd)).

Definition raft_tcp_transport_set_self tcp (node_id host : string) : raft_tcp_transport_t N :=
  tcp <| own_id := strncpy RAFT_MAX_ID node_id |> <| own_host := strncpy 256 host |>.

End Tcp.

(** ** The interface of the nodes *)

Lemma drain_elem {A} (q : list A) n x :
  (x ∈ (drain q n).2 → x ∈ q) ∧ (x ∈ (drain q n).1 → x ∈ q) ∧ (length (drain q n).2 ≤ n)%nat.
Proof.
  unfold drain. destruct (0 <? Nat.min (length q) n)%nat; cbn [fst snd].
  - split_and!; [apply take_elem|by intros ?%elem_of_nil|rewrite length_take; lia].
  - split_and!; [by intros ?%elem_of_nil|done|simpl; lia].
Qed.

(** The TCP transport keeps the interface: a message for the node is one the
    listener has queued. *)
#[export] Instance tcp_transport_laws {N} (sockets : sockets_t N)
    {layout : MessageLayout} {frames : Layout raft_tcp_frame_t frame_fits} :
  TransportLaws (raft_tcp_transport_make sockets) (λ tcp m, m ∈ in_queue tcp).
Proof.
  split; unfold raft_tcp_transport_make; cbn [send recv submit_command recv_commands].
  - intros c m m' Hm. left. unfold tcp_send in Hm. by repeat case_match.
  - intros c n m Hm. unfold tcp_recv in Hm. destruct (drain_elem (in_queue c) n m) as (H & _ & _).
    by destruct (drain (in_queue c) n); apply H.
  - intros c n m Hm. unfold tcp_recv in Hm. destruct (drain_elem (in_queue c) n m) as (_ & H & _).
    by destruct (drain (in_queue c) n); apply H.
  - intros c n. unfold tcp_recv. destruct (drain (in_queue c) n) as [q out] eqn:E.
    pose proof (drain_elem (in_queue c) n (zero_message RAFT_MSG_REQUEST_VOTE)) as (_ & _ & H).
    by rewrite E in H.
  - intros c x m. unfold tcp_submit_command. by case_match.
  - intros c n m. by unfold tcp_recv_commands.
  - intros c n. unfold tcp_recv_commands. cbn [snd]. rewrite length_take. lia.
Qed.
