(* ===== verification/TcpPeers.v ===== *)
(** The peers of the TCP transport and its life cycle, [c/src/raft_tcp_transport.c]:
    the peer table, [peers.txt] and [self.txt], start, listen and stop.

    File operations are lists of [fs_op], so that a crash can happen between the
    truncation of a file and its contents; whether [fopen(path, "w")] succeeds is a
    parameter, and so are the socket calls of the listener.  A file is read as it is
    when it is opened: [tcp_load_peers] rewrites [peers.txt] while it reads it, and
    stdio has a file of this size in its buffer by then.  [%d] reads a number of
    any size. *)
From S2P Require Import Prelude CString Types Storage MessageLayout TcpTransport.

(** *** [fscanf] *)

Fixpoint scan_word (n : nat) (s : string) : string * string :=
  match n, s with
  | S n, String c s' =>
      if isspace c then ("", s) else let '(w, rest) := scan_word n s' in (String c w, rest)
  | _, _ => ("", s)
  end.

(** [%<width>s], and the text after it. *)
Definition fscanf_s (width : nat) (s : string) : option (string * string) :=
  match scan_word width (skip_space s) with
  | ("", _) => None
  | (w, rest) => Some (w, rest)
  end.

Fixpoint scan_digits (acc : Z) (s : string) : Z * string :=
  match s with
  | String c s' =>
      match digit_val c with
      | Some d => scan_digits (10 * acc + d) s'
      | None => (acc, s)
      end
  | "" => (acc, s)
  end.

Definition scan_number (s : string) : option (Z * string) :=
  match s with
  | String c _ => match digit_val c with Some _ => Some (scan_digits 0 s) | None => None end
  | "" => None
  end.

(** [%d]. *)
Definition fscanf_d (s : string) : option (Z * string) :=
  match skip_space s with
  | String c s' =>
      if is_char "-" c then '(x, rest) ← scan_number s'; Some ((- x)%Z, rest)
      else if is_char "+" c then scan_number s'
      else scan_number (String c s')
  | "" => None
  end.

(** *** Files *)

Inductive fs_op : Type :=
| Mkdir (path : string)
| Truncate (path : string)
| Write (path text : string).

Definition fs_run_op (op : fs_op) (disk : disk_t) : disk_t :=
  match op with
  | Mkdir _ => disk
  | Truncate path => <[path := ""]> disk
  | Write path text => <[path := text]> disk
  end.
Definition fs_run (ops : list fs_op) (disk : disk_t) : disk_t := fold_left (λ d o, fs_run_op o d) ops disk.

Definition slash : Ascii.ascii := "/"%char.

(** The loop of [tcp_mkdir_p] from its second character on: [seen] is the text
    before [s]. *)
Fixpoint mkdir_prefixes (seen s : string) : list string :=
  match s with
  | "" => [seen]
  | String c s =>
      (if is_char slash c then [seen] else []) ++ mkdir_prefixes (seen +:+ String c "") s
  end.

(** The paths given to [mkdir], in order. *)
Definition tcp_mkdir_p (path : string) : list string :=
  match strncpy 512 path with
  | "" => [""]
  | String c s => mkdir_prefixes (String c "") s
  end.

Section Peers.
  Context {N : Type} (fopen_w : string → bool).
  Implicit Types tcp : raft_tcp_transport_t N.

Definition tcp_peers_path tcp : string := (snprintf 576 (data_dir tcp +:+ "/peers.txt")).1.
Definition tcp_self_path tcp : string := (snprintf 576 (data_dir tcp +:+ "/self.txt")).1.

(** [fopen(path, "w")], what is printed, [fclose]. *)
Definition save_text (path text : string) : list fs_op :=
  if fopen_w path then [Truncate path; Write path text] else [].

Definition self_line (host : string) (port : Z) : string :=
  host +:+ String " "%char (print_int port +:+ String newline "").

Definition peer_line (p : raft_tcp_peer_t) : string :=
  peer_id p +:+ String " "%char (self_line (peer_host p) (peer_port p)).

Definition peers_text (peers : list raft_tcp_peer_t) : string :=
  foldr (λ p acc, peer_line p +:+ acc) "" peers.

Definition tcp_save_self tcp : list fs_op :=
  if streq (data_dir tcp) "" || streq (own_host tcp) "" || (listen_port tcp <=? 0)%Z then []
  else (Mkdir <$> tcp_mkdir_p (data_dir tcp)) ++
       save_text (tcp_self_path tcp) (self_line (own_host tcp) (listen_port tcp)).

Definition tcp_save_peers tcp : list fs_op :=
  if streq (data_dir tcp) "" then []
  else (Mkdir <$> tcp_mkdir_p (data_dir tcp)) ++
       save_text (tcp_peers_path tcp) (peers_text (tcp_peers tcp)).

(** The address is copied into the entry, the rest of the array padded. *)
Fixpoint update_peer (id host : string) (port : Z) (peers : list raft_tcp_peer_t)
    : option (list raft_tcp_peer_t) :=
  match peers with
  | [] => None
  | p :: peers =>
      if streq (peer_id p) id
      then Some (p <| peer_host := strncpy 256 host |> <| peer_port := port |> :: peers)
      else peers ← update_peer id host port peers; Some (p :: peers)
  end.

Definition raft_tcp_transport_add_peer tcp (id host : string) (port : Z)
    : raft_tcp_transport_t N * list fs_op :=
  match update_peer id host port (tcp_peers tcp) with
  | Some peers =>
      let tcp := tcp <| tcp_peers := peers |> in (tcp, tcp_save_peers tcp)
  | None =>
      if (RAFT_MAX_PEERS <=? length (tcp_peers tcp))%nat then (tcp, [])
      else
        let p := mkPeer (strncpy RAFT_MAX_ID id) (strncpy 256 host) port in
        let tcp := tcp <| tcp_peers := tcp_peers tcp ++ [p] |> in (tcp, tcp_save_peers tcp)
  end.

Definition tcp_load_self tcp (disk : disk_t) : raft_tcp_transport_t N :=
  if streq (data_dir tcp) "" then tcp
  else match disk !! tcp_self_path tcp with
       | None => tcp
       | Some text =>
           match '(host, text) ← fscanf_s 255 text; '(port, _) ← fscanf_d text; Some (host, port) with
           | None => tcp
           | Some (host, port) =>
               let tcp := if (listen_port tcp <=? 0)%Z then tcp <| listen_port := port |> else tcp in
               if streq (own_host tcp) "" then tcp <| own_host := strncpy 256 host |> else tcp
           end
       end.

(** [fscanf(f, "%15s %255s %d", id, host, &port) == 3]. *)
Definition fscanf_peer (text : string) : option (string * string * Z * string) :=
  '(id, text) ← fscanf_s 15 text;
  '(host, text) ← fscanf_s 255 text;
  '(port, text) ← fscanf_d text;
  Some (id, host, port, text).

(** Every turn reads at least three bytes: the length of the text is enough fuel. *)
Fixpoint load_peers_loop (fuel : nat) tcp (text : string) : raft_tcp_transport_t N * list fs_op :=
  match fuel with
  | O => (tcp, [])
  | S fuel =>
      match fscanf_peer text with
      | None => (tcp, [])
      | Some (id, host, port, text) =>
          let '(tcp, ops) := raft_tcp_transport_add_peer tcp id host port in
          let '(tcp, ops') := load_peers_loop fuel tcp text in (tcp, ops ++ ops')
      end
  end.

Definition tcp_load_peers tcp (disk : disk_t) : raft_tcp_transport_t N * list fs_op :=
  if streq (data_dir tcp) "" then (tcp, [])
  else match disk !! tcp_peers_path tcp with
       | None => (tcp, [])
       | Some text => load_peers_loop (String.length text) tcp text
       end.

(** *** Life cycle *)

Definition raft_tcp_transport_init (n : N) (port : Z) : raft_tcp_transport_t N :=
  mkTcp port (-1) "" "" "" [] [] [] [] [] false true false n.

Definition raft_tcp_transport_set_data_dir tcp (dir : string) (disk : disk_t)
    : raft_tcp_transport_t N * list fs_op :=
  let tcp := tcp <| data_dir := strncpy 512 dir |> in
  tcp_load_peers (tcp_load_self tcp disk) disk.

(** [open_listener] is [socket], [bind] and [listen] on a 16-bit port. *)
Context (open_listener : Z → option Z) (pthread_create : bool).

Definition raft_tcp_transport_start tcp : raft_tcp_transport_t N * list fs_op * Z :=
  if listener_started tcp then (tcp, [], 0%Z)
  else if (listen_port tcp <=? 0)%Z then (tcp, [], -1)%Z
  else
    let ops := tcp_save_self tcp in
    match open_listener (listen_port tcp mod 2 ^ 16) with
    | None => (tcp <| listen_fd := (-1)%Z |>, ops, -1)%Z
    | Some fd =>
        let tcp := tcp <| tcp_shutdown := false |> in
        if negb pthread_create then (tcp <| listen_fd := (-1)%Z |>, ops, -1)%Z
        else (tcp <| listen_fd := fd |> <| listener_started := true |>, ops, 0%Z)
    end.

Definition raft_tcp_transport_listen tcp (port : Z) : raft_tcp_transport_t N * list fs_op * Z :=
  if (port <=? 0)%Z then (tcp, [], -1)%Z
  else if listener_started tcp then (tcp, [], -1)%Z
  else raft_tcp_transport_start (tcp <| listen_port := port |>).

Definition raft_tcp_transport_is_listening tcp : bool := listener_started tcp.

Definition raft_tcp_transport_stop tcp : raft_tcp_transport_t N :=
  let tcp := tcp <| tcp_shutdown := true |> in
  let tcp := if (0 <=? listen_fd tcp)%Z then tcp <| listen_fd := (-1)%Z |> else tcp in
  if listener_started tcp then tcp <| listener_started := false |> else tcp.

End Peers.
