(* ===== verification/TcpProps.v ===== *)
(** What the TCP transport promises: the listener reads frames whatever the chunks
    they arrive in, and a message that is sent whole is queued by the listener of
    the peer while a message cut short is not. *)
From S2P Require Import Prelude CString Types Storage MemTransport MessageLayout TcpTransport TcpPeers.

(** *** Streams *)

(** The bytes of a connection. *)
Definition bytes_of (conn : list string) : string := foldr String.append "" conn.

Definition chunks (conn : list string) : Prop := Forall (λ c, c ≠ "") conn.

Lemma str_split_none n s : str_split n s = None ↔ (String.length s < n)%nat.
Proof.
  revert s; induction n as [|n IH]; intros [|c s]; cbn [str_split String.length];
    [split; [done|lia]..|split; [lia|done]|].
  specialize (IH s). destruct (str_split n s) as [[a b]|]; bind_simpl; split; intros H; try done.
  - apply proj2 in IH. discriminate IH. lia.
  - apply proj1 in IH. specialize (IH eq_refl). lia.
Qed.

Lemma str_split_some n s a b : str_split n s = Some (a, b) → s = a +:+ b ∧ String.length a = n.
Proof.
  revert s a b; induction n as [|n IH]; intros [|c s] a b H; cbn [str_split] in H; simplify_eq; try done.
  destruct (str_split n s) as [[x y]|] eqn:E; bind_simpl_in H; simplify_eq.
  destruct (IH _ _ _ E) as [-> <-]. done.
Qed.

(** Splitting past a first part. *)
Lemma str_split_past n s t :
  (String.length s < n)%nat →
  str_split n (s +:+ t) = '(a, b) ← str_split (n - String.length s) t; Some (s +:+ a, b).
Proof.
  revert n; induction s as [|c s IH]; intros n Hn.
  - rewrite Nat.sub_0_r. change ("" +:+ t) with t. by destruct (str_split n t) as [[a b]|].
  - destruct n as [|n]; [simpl in Hn; lia|]. rewrite str_app_cons. cbn [str_split String.length].
    simpl in Hn. rewrite IH by lia. cbn [Nat.sub].
    by destruct (str_split (n - String.length s) t) as [[a b]|].
Qed.

Lemma str_split_within n s t a b :
  str_split n s = Some (a, b) → str_split n (s +:+ t) = Some (a, b +:+ t).
Proof.
  intros [-> <-]%str_split_some. rewrite <- str_app_assoc. apply str_split_app.
Qed.

(** [recv_full] reads the bytes of the connection, however they are cut. *)
Lemma recv_full_bytes conn len :
  chunks conn →
  match recv_full conn len with
  | Some (b, rest) => str_split len (bytes_of conn) = Some (b, bytes_of rest) ∧ chunks rest
  | None => str_split len (bytes_of conn) = None
  end.
Proof.
  revert len; induction conn as [|c conn IH]; intros [|len] Hc; cbn [recv_full]; try done.
  inversion Hc as [|? ? Hne Hcs]; subst. cbn [bytes_of foldr].
  destruct (str_split (S len) c) as [[a b]|] eqn:E.
  - pose proof (str_split_within (S len) c (bytes_of conn) a b E) as Hw.
    destruct b as [|d b]; (split; [exact Hw|]); [done|by constructor].
  - apply str_split_none in E. destruct (streq c "") eqn:Es; [by apply streq_true in Es|].
    specialize (IH (S len - String.length c)%nat Hcs).
    change (foldr String.append "" conn) with (bytes_of conn). rewrite str_split_past by done.
    destruct (recv_full conn (S len - String.length c)) as [[b rest]|]; bind_simpl.
    + destruct IH as [-> IH]. done.
    + by rewrite IH.
Qed.

(** *** Frames *)

Section Frames.
  Context {N : Type} {layout : MessageLayout} {frames : Layout raft_tcp_frame_t frame_fits}.
  Context {requests : Layout raft_tcp_join_req_t join_req_fits} {commands : Layout raft_command_t command_fits}.
  Implicit Types tcp : raft_tcp_transport_t N.

(** The struct a type of frame carries: its size and how it is read. *)
Definition frame_body (type : Z) : option (nat * (string → tcp_item)) :=
  if (type =? TCP_TYPE_RAFT)%Z then Some (sizeof_message, λ b, TcpRaft (bytes_message b))
  else if (type =? TCP_TYPE_JOIN)%Z
  then Some (sizeof raft_tcp_join_req_t, λ b, TcpJoin (from_bytes raft_tcp_join_req_t b))
  else if (type =? TCP_TYPE_CMD)%Z
  then Some (sizeof raft_command_t, λ b, TcpCommand (from_bytes raft_command_t b))
  else None.

(** A well-formed frame at the front of some bytes. *)
Definition parse_frame (bytes : string) : option tcp_item :=
  '(hb, bytes) ← str_split (sizeof raft_tcp_frame_t) bytes;
  let header := from_bytes raft_tcp_frame_t hb in
  '(size, item) ← frame_body (frame_type header);
  if (magic header =? TCP_MAGIC)%Z && (frame_size header =? Z.of_nat size mod 2 ^ 32)%Z
  then '(b, _) ← str_split size bytes; Some (item b)
  else None.

(** A disabled transport takes no messages, but join requests and commands. *)
Definition admitted tcp (item : tcp_item) : bool :=
  match item with TcpRaft _ => tcp_enabled tcp | _ => true end.

Lemma tcp_listener_parses tcp conn :
  chunks conn →
  tcp_listener_read tcp conn =
    item ← parse_frame (bytes_of conn); if admitted tcp item then Some item else None.
Proof.
  intros Hc. unfold tcp_listener_read, parse_frame.
  pose proof (recv_full_bytes conn (sizeof raft_tcp_frame_t) Hc) as H.
  destruct (recv_full conn (sizeof raft_tcp_frame_t)) as [[hb rest]|]; [|by rewrite H].
  destruct H as [-> Hr]. bind_simpl. unfold frame_body.
  set (header := from_bytes raft_tcp_frame_t hb).
  destruct (magic header =? TCP_MAGIC)%Z; cbn [negb andb]; [|by repeat case_match].
  unfold TCP_TYPE_RAFT, TCP_TYPE_JOIN, TCP_TYPE_CMD.
  destruct (frame_type header =? 0)%Z eqn:E0; bools;
    [replace (frame_type header =? 1)%Z with false by (symmetry; apply Z.eqb_neq; lia);
     replace (frame_type header =? 3)%Z with false by (symmetry; apply Z.eqb_neq; lia)
    |destruct (frame_type header =? 1)%Z eqn:E1; [|destruct (frame_type header =? 3)%Z eqn:E3; [|done]]];
    cbn [negb orb]; bind_simpl;
    match goal with |- (if negb ?c then _ else _) = _ => destruct c; [|done] end; cbn [negb];
    match goal with |- context [recv_full rest ?n] =>
      pose proof (recv_full_bytes rest n Hr) as H; destruct (recv_full rest n) as [[b r]|] end;
    [destruct H as [-> _]|rewrite H|destruct H as [-> _]|rewrite H|destruct H as [-> _]|rewrite H];
    bind_simpl; cbn [admitted]; try done.
  by destruct (tcp_enabled tcp).
Qed.

(** C33: the listener accepts exactly the well-formed frames.  Whatever the pieces
    a connection arrives in, the listener takes from it what parsing its bytes
    gives, and nothing from a frame that is cut short, of a wrong magic number,
    type or size. *)
Theorem tcp_listener_parses_frames tcp conn :
  chunks conn →
  tcp_listener_read tcp conn =
    item ← parse_frame (bytes_of conn); if admitted tcp item then Some item else None.
Proof. apply tcp_listener_parses. Qed.

(** What the frames the program writes parse to, whole and cut short. *)
Lemma frame_of_fits type size : uint32_b type = true → frame_fits (frame_of type size) = true.
Proof.
  intros Ht. unfold frame_fits, frame_of. cbn [magic frame_type frame_size]. rewrite Ht.
  unfold uint32_b. pose proof (Z.mod_pos_bound (Z.of_nat size) (2 ^ 32) ltac:(lia)).
  apply andb_true_iff; split; [done|]. apply andb_true_iff. rewrite Z.leb_le, Z.ltb_lt. lia.
Qed.

Lemma frame_body_uint32 type s : frame_body type = Some s → uint32_b type = true.
Proof. unfold frame_body. repeat case_match; intros; bools; subst; done. Qed.

Lemma parse_frame_body type size item rest :
  frame_body type = Some (size, item) →
  parse_frame (to_bytes (frame_of type size) +:+ rest) = '(b, _) ← str_split size rest; Some (item b).
Proof.
  intros Hb. pose proof (frame_of_fits type size (frame_body_uint32 _ _ Hb)) as Hf.
  unfold parse_frame. rewrite <- (to_bytes_length (frame_of type size) Hf), str_split_app. bind_simpl.
  rewrite from_to_bytes by done. cbn [frame_of magic frame_type frame_size]. rewrite Hb. bind_simpl.
  by rewrite !Z.eqb_refl.
Qed.

Lemma parse_frame_whole type size item body :
  frame_body type = Some (size, item) → String.length body = size →
  parse_frame (to_bytes (frame_of type size) +:+ body) = Some (item body).
Proof.
  intros Hb <-. rewrite (parse_frame_body type _ item) by done.
  rewrite <- (str_app_nil_r body) at 2. by rewrite str_split_app.
Qed.

Lemma str_take_app n s t :
  str_take n (s +:+ t) = str_take n s +:+ str_take (n - String.length s) t.
Proof.
  revert n; induction s as [|c s IH]; intros [|n]; cbn [str_take String.length Nat.sub]; try done.
  rewrite !str_app_cons. cbn [str_take]. by rewrite IH.
Qed.

Lemma str_take_min n s : String.length (str_take n s) = Nat.min n (String.length s).
Proof. revert s; induction n as [|n IH]; intros [|c s]; simpl; auto. Qed.

Lemma parse_frame_cut type size item body k :
  frame_body type = Some (size, item) → String.length body = size →
  let whole := to_bytes (frame_of type size) +:+ body in
  (k < String.length whole)%nat → parse_frame (str_take k whole) = None.
Proof.
  intros Hb Hl whole Hk. unfold whole in *. rewrite str_app_length in Hk.
  pose proof (to_bytes_length _ (frame_of_fits type size (frame_body_uint32 _ _ Hb))) as Hh.
  rewrite str_take_app. destruct (decide (k < sizeof raft_tcp_frame_t)%nat).
  - unfold parse_frame. rewrite (proj2 (str_split_none _ _)); [done|].
    rewrite str_app_length, !str_take_min. lia.
  - rewrite str_take_all by lia. rewrite (parse_frame_body type _ item) by done.
    rewrite (proj2 (str_split_none _ _)); [done|]. rewrite str_take_min. lia.
Qed.

End Frames.

(** *** Sending *)

Section Sending.
  Context {N : Type} (sockets : sockets_t N) (stream : N → Z → string * Z * string).
  Context (closed : N → list (string * Z * string)) {Hsockets : SocketLaws sockets stream closed}.
  Context {layout : MessageLayout} {frames : Layout raft_tcp_frame_t frame_fits}.
  Context {requests : Layout raft_tcp_join_req_t join_req_fits} {commands : Layout raft_command_t command_fits}.
  Implicit Types tcp : raft_tcp_transport_t N.

Lemma str_take_add a b s : str_take (a + b) s = str_take a s +:+ str_take b (str_drop a s).
Proof.
  revert s; induction a as [|a IH]; intros [|c s]; cbn [Nat.add str_take str_drop]; try done.
  - by destruct b.
  - rewrite str_app_cons. by rewrite IH.
Qed.

(** A buffer goes out whole, or a proper prefix of it does and the call fails. *)
Lemma send_full_spec fuel n fd buf :
  (String.length buf ≤ fuel)%nat →
  let '(n', r) := send_full_loop sockets fuel n fd buf in
  closed n' = closed n ∧
  ∃ k, stream n' fd = ((stream n fd).1, (stream n fd).2 +:+ str_take k buf) ∧
       ((r = 0%Z ∧ k = String.length buf) ∨ (r = (-1)%Z ∧ (k < String.length buf)%nat)).
Proof using Hsockets.
  revert n buf; induction fuel as [|fuel IH]; intros n buf Hf; destruct buf as [|c buf];
    try (simpl in Hf; lia); cbn [send_full_loop];
    try (split; [done|exists 0%nat; split; [|by left]; cbn [str_take]; rewrite str_app_nil_r; by destruct (stream n fd)]).
  destruct (sock_send sockets n fd (String c buf)) as [n1 k1] eqn:E.
  destruct (send_some n fd _ n1 k1 E) as (Hk & Hc & Hs).
  destruct (k1 <=? 0)%Z eqn:Ek; bools.
  - split; [done|]. exists 0%nat. replace (Z.to_nat k1) with 0%nat in Hs by lia.
    split; [done|]. right. simpl. lia.
  - specialize (IH n1 (str_drop (Z.to_nat k1) (String c buf))). rewrite str_drop_length in IH.
    specialize (IH ltac:(cbn [String.length] in *; lia)).
    destruct (send_full_loop sockets fuel n1 fd _) as [n2 r]. destruct IH as (Hc2 & k & Hs2 & Hr).
    split; [congruence|]. exists (Z.to_nat k1 + k)%nat. split; [|destruct Hr; [left|right]; cbn [String.length] in *; lia].
    rewrite Hs2, Hs. cbn [fst snd]. f_equal. by rewrite <- str_app_assoc, <- str_take_add.
Qed.

Lemma tcp_transmit_spec n host port type size body :
  let '(n', r) := tcp_transmit sockets n host port type size body in
  let whole := to_bytes (frame_of type size) +:+ body in
  (r = 0%Z ∧ closed n' = closed n ++ [(host, port mod 2 ^ 16, whole)%Z]) ∨
  (r = (-1)%Z ∧ (closed n' = closed n ∨
     ∃ k, (k < String.length whole)%nat ∧ closed n' = closed n ++ [(host, port mod 2 ^ 16, str_take k whole)%Z])).
Proof using Hsockets.
  unfold tcp_transmit, send_full. destruct (sock_connect sockets n host _) as [n0 [fd|]] eqn:E.
  2: { right. split; [done|]. left. by eapply connect_none. }
  destruct (connect_some n host _ n0 fd E) as [Hs0 Hc0].
  pose proof (send_full_spec _ n0 fd (to_bytes (frame_of type size)) (le_n _)) as H1.
  destruct (send_full_loop sockets _ n0 fd _) as [n1 r1]. destruct H1 as (Hc1 & k1 & Hs1 & H1).
  rewrite Hs0 in Hs1. cbn [fst snd] in Hs1. change ("" +:+ ?s) with s in Hs1.
  destruct H1 as [[-> ->]|[-> Hk1]]; cbn [Z.ltb Z.compare].
  2: { right. split; [done|]. right. exists k1. split; [rewrite str_app_length; lia|].
       rewrite close_closed, Hc1, Hc0, Hs1, str_take_app.
       replace (k1 - String.length (to_bytes (frame_of type size)))%nat with 0%nat by lia.
       cbn [str_take]. by rewrite str_app_nil_r. }
  rewrite str_take_all in Hs1 by lia.
  pose proof (send_full_spec _ n1 fd body (le_n _)) as H2.
  destruct (send_full_loop sockets _ n1 fd body) as [n2 r2]. destruct H2 as (Hc2 & k2 & Hs2 & H2).
  rewrite Hs1 in Hs2. cbn [fst snd] in Hs2.
  destruct H2 as [[-> ->]|[-> Hk2]]; cbn [Z.ltb Z.compare].
  - left. split; [done|]. rewrite close_closed, Hc2, Hc1, Hc0, Hs2. by rewrite str_take_all by lia.
  - right. split; [done|]. right. exists (String.length (to_bytes (frame_of type size)) + k2)%nat.
    split; [rewrite str_app_length; lia|]. rewrite close_closed, Hc2, Hc1, Hc0, Hs2, str_take_app.
    rewrite (str_take_all _ (to_bytes (frame_of type size))) by lia.
    by replace (String.length (to_bytes (frame_of type size)) + k2 - String.length (to_bytes (frame_of type size)))%nat
      with k2 by lia.
Qed.

(** C32: a message sent over TCP is received exactly once or not at all.  When
    [tcp_send] returns 0 it has made one connection to the address of the peer the
    message is for, and a listener that reads it, in whatever pieces, queues
    exactly that message; when it returns -1, no connection was made or one
    from which a listener takes nothing. *)
Theorem tcp_message_arrives tcp msg peer (receiver : raft_tcp_transport_t N) conn :
  message_fits msg = true → tcp_enabled tcp = true → find_peer (target msg) (tcp_peers tcp) = Some peer →
  tcp_enabled receiver = true → (length (in_queue receiver) < RAFT_MAX_QUEUE)%nat → chunks conn →
  let '(tcp', r) := tcp_send sockets tcp msg in
  let address := (peer_host peer, peer_port peer mod 2 ^ 16)%Z in
  (r = 0%Z ∧ ∃ bytes, closed (net tcp') = closed (net tcp) ++ [(address, bytes)] ∧
     (bytes_of conn = bytes →
      tcp_listener_thread receiver conn = receiver <| in_queue := in_queue receiver ++ [msg] |>)) ∨
  (r = (-1)%Z ∧ (closed (net tcp') = closed (net tcp) ∨
     ∃ bytes, closed (net tcp') = closed (net tcp) ++ [(address, bytes)] ∧
       (bytes_of conn = bytes → tcp_listener_thread receiver conn = receiver))).
Proof using Hsockets.
  intros Hfit Hen Hp Hren Hroom Hconn. unfold tcp_send. rewrite Hen, Hp. cbn [negb].
  pose proof (tcp_transmit_spec (net tcp) (peer_host peer) (peer_port peer) TCP_TYPE_RAFT
                sizeof_message (message_bytes msg)) as H.
  destruct (tcp_transmit _ _ _ _ _ _ _) as [n r]. cbv zeta.
  change (net (tcp <| net := n |>)) with n.
  pose proof (message_bytes_length msg Hfit) as Hl.
  assert (frame_body TCP_TYPE_RAFT = Some (sizeof_message, λ b, TcpRaft (bytes_message b))) as Hb by done.
  destruct H as [[-> Hc]|[-> Hc]].
  - left. split; [done|]. eexists. split; [exact Hc|]. intros Hbytes. unfold tcp_listener_thread.
    rewrite tcp_listener_parses, Hbytes, (parse_frame_whole _ _ _ _ Hb Hl) by done.
    bind_simpl. cbn [admitted]. rewrite Hren. cbn [tcp_listener_enqueue].
    unfold queue_push. rewrite (proj2 (Nat.ltb_lt _ _) Hroom). by rewrite bytes_message_bytes.
  - right. split; [done|]. destruct Hc as [Hc|(k & Hk & Hc)]; [by left|right].
    eexists. split; [exact Hc|]. intros Hbytes. unfold tcp_listener_thread.
    by rewrite tcp_listener_parses, Hbytes, (parse_frame_cut _ _ _ _ _ Hb Hl Hk) by done.
Qed.

End Sending.

(** ** Witnesses *)

(** A network with one connection at a time, to hosts that all answer, on which
    [send] takes up to 1000 bytes. *)
Definition sample_net : Type := (string * Z * string) * list (string * Z * string).

Definition sample_sockets : sockets_t sample_net :=
  mkSockets (λ n host port, (((host, port, ""), n.2), Some 3%Z))
    (λ n _ buf, let sent := str_take 1000 buf in
                ((n.1.1, n.1.2 +:+ sent, n.2), Z.of_nat (String.length sent)))
    (λ n _, (n.1, n.2 ++ [n.1])).

#[export] Instance sample_sockets_laws : SocketLaws sample_sockets (λ n _, n.1) snd.
Proof.
  split; unfold sample_sockets; cbn [sock_connect sock_send sock_close]; try done.
  - by intros n host port n' fd [= <- <-].
  - intros n fd buf n' k H. cbv zeta in H. apply pair_equal_spec in H as [<- <-]. rewrite str_take_min. split; [lia|]. split; [done|].
    rewrite Nat2Z.id. cbn [fst snd]. f_equal. f_equal.
    generalize 1000%nat. intros m. revert buf; induction m as [|m IH]; intros [|c buf]; [done..|].
    cbn [Nat.min String.length str_take]. by rewrite <- IH.
Qed.

Definition sample_tcp : raft_tcp_transport_t sample_net :=
  (raft_tcp_transport_add_peer (λ _, true) (raft_tcp_transport_init (("", 0%Z, ""), []) 7000) "b" "10.0.0.2" 7001).1.

Definition hello : raft_message_t :=
  zero_message RAFT_MSG_REQUEST_VOTE <| msg_term := 3%Z |> <| source := "a" |> <| target := "b" |>.

Definition hello_bytes : string :=
  to_bytes (frame_of TCP_TYPE_RAFT sizeof_message) +:+ message_bytes hello.

(** The bytes in pieces of 5 and of the rest. *)
Definition hello_conn : list string := [str_take 5 hello_bytes; str_drop 5 hello_bytes].

Lemma hello_chunks : chunks hello_conn.
Proof. repeat constructor; vm_compute; discriminate. Qed.

Lemma tcp_listener_parses_frames_witness :
  tcp_listener_read sample_tcp hello_conn = Some (TcpRaft hello).
Proof.
  refine (eq_trans (tcp_listener_parses_frames sample_tcp hello_conn hello_chunks) _).
  vm_compute. reflexivity.
Defined.

Lemma tcp_message_arrives_witness :
  (tcp_send sample_sockets sample_tcp hello).2 = 0%Z ∧
  tcp_listener_thread sample_tcp hello_conn = sample_tcp <| in_queue := [hello] |>.
Proof.
  pose proof (tcp_message_arrives sample_sockets (λ n _, n.1) snd sample_tcp hello (mkPeer "b" "10.0.0.2" 7001)
    sample_tcp hello_conn eq_refl eq_refl eq_refl eq_refl) as H.
  specialize (H ltac:(vm_compute; lia) hello_chunks).
  assert ((tcp_send sample_sockets sample_tcp hello).2 = 0%Z) as Hr by (vm_compute; reflexivity).
  assert (closed_bytes : snd (net (tcp_send sample_sockets sample_tcp hello).1) =
    [("10.0.0.2", 7001%Z, bytes_of hello_conn)]) by (vm_compute; reflexivity).
  destruct (tcp_send sample_sockets sample_tcp hello) as [tcp' r]. cbn [fst snd] in *. subst r.
  split; [reflexivity|]. destruct H as [[_ (bytes & Hc & Hl)]|[H _]]; [|discriminate H].
  rewrite closed_bytes in Hc. injection Hc as Hc. exact (Hl Hc).
Defined.
