(* ===== verification/TcpPeerProps.v ===== *)
(** The peers of the TCP transport survive a restart and are loaded from any file
    in finitely many steps, and its state stays within its arrays under every
    interleaving of the listener and the application. *)
From S2P Require Import Prelude CString Types Storage MemTransport MessageLayout TcpTransport TcpPeers.

(** *** Scanning back what was printed *)

Lemma scan_word_word n s c rest :
  str_all (λ c, negb (isspace c)) s = true → isspace c = true → (String.length s ≤ n)%nat →
  scan_word n (s +:+ String c rest) = (s, String c rest).
Proof.
  revert n; induction s as [|d s IH]; intros n Hs Hc Hn.
  - destruct n as [|n]; [done|]. change ("" +:+ ?t) with t. cbn [scan_word]. by rewrite Hc.
  - simpl in Hs, Hn. bools. destruct n as [|n]; [lia|]. rewrite str_app_cons. cbn [scan_word].
    rewrite H. by rewrite IH by (done || lia).
Qed.

Lemma fscanf_s_word width s c rest :
  is_word s = true → isspace c = true → (String.length s ≤ width)%nat →
  fscanf_s width (s +:+ String c rest) = Some (s, String c rest).
Proof.
  unfold is_word. intros Hs Hc Hn. bools. unfold fscanf_s.
  assert (skip_space (s +:+ String c rest) = s +:+ String c rest) as ->.
  { destruct s as [|d s]; [done|]. simpl in H0. bools. rewrite str_app_cons. cbn [skip_space]. by rewrite H0. }
  rewrite scan_word_word by done. by destruct s.
Qed.

Lemma fscanf_s_space width c s : isspace c = true → fscanf_s width (String c s) = fscanf_s width s.
Proof. intros Hc. unfold fscanf_s. cbn [skip_space]. by rewrite Hc. Qed.

Lemma scan_digits_stop acc d rest :
  str_all is_digit d = true → starts_nondigit rest = true →
  scan_digits acc (d +:+ rest) = (atoi_digits acc d, rest).
Proof.
  revert acc; induction d as [|c d IH]; intros acc Hd Hr.
  - change ("" +:+ rest) with rest. destruct rest as [|e rest]; [done|]. simpl in *. by case_match.
  - cbn [str_all] in Hd. bools. rewrite str_app_cons. cbn [scan_digits atoi_digits].
    unfold is_digit in H. destruct (digit_val c); [|done]. by apply IH.
Qed.

Lemma scan_number_print n rest :
  starts_nondigit rest = true → scan_number (print_dec n +:+ rest) = Some (Z.of_N n, rest).
Proof.
  intros Hr. pose proof (print_dec_digits n) as Hd. pose proof (print_dec_nonempty n) as Hn.
  pose proof (atoi_digits_print_dec n "" eq_refl) as Ha. rewrite str_app_nil_r in Ha.
  pose proof (scan_digits_stop 0 (print_dec n) rest Hd Hr) as Hs. rewrite Ha in Hs.
  destruct (print_dec n) as [|c d]; [done|]. cbn [str_all] in Hd. bools. rewrite str_app_cons in *.
  unfold scan_number. unfold is_digit in H. destruct (digit_val c); [|done]. by rewrite Hs.
Qed.

Lemma fscanf_d_print z rest :
  starts_nondigit rest = true → fscanf_d (String " "%char (print_int z +:+ rest)) = Some (z, rest).
Proof.
  intros Hr. unfold fscanf_d. change (skip_space (String " "%char ?s)) with (skip_space s). unfold print_int.
  destruct (z <? 0)%Z eqn:E; bools.
  - rewrite str_app_cons. change (skip_space (String "-" ?s)) with (String "-"%char s).
    change (is_char "-" "-") with true. cbv iota. rewrite scan_number_print by done.
    bind_simpl. do 2 f_equal. lia.
  - pose proof (print_dec_digits (Z.to_N z)) as Hd. pose proof (print_dec_nonempty (Z.to_N z)) as Hn.
    pose proof (scan_number_print (Z.to_N z) rest Hr) as Hs.
    destruct (print_dec (Z.to_N z)) as [|c d]; [done|]. cbn [str_all] in Hd. bools. rewrite str_app_cons in *.
    cbn [skip_space]. rewrite (digit_not_space _ H). destruct (digit_not_sign _ H) as [-> ->].
    rewrite Hs. do 2 f_equal. lia.
Qed.

(** *** The peers file *)

Definition saved_peer (p : raft_tcp_peer_t) : bool :=
  is_word (peer_id p) && (String.length (peer_id p) <? RAFT_MAX_ID)%nat &&
  is_word (peer_host p) && (String.length (peer_host p) <? 256)%nat.

Lemma space_is_space : isspace " " = true. Proof. done. Qed.
Lemma newline_is_space : isspace newline = true. Proof. done. Qed.
#[local] Hint Resolve space_is_space newline_is_space : core.

Lemma fscanf_peer_line p rest :
  saved_peer p = true →
  fscanf_peer (peer_line p +:+ rest) = Some (peer_id p, peer_host p, peer_port p, String newline rest).
Proof.
  unfold saved_peer. intros H. bools. unfold fscanf_peer, peer_line, self_line, RAFT_MAX_ID in *.
  rewrite <- str_app_assoc, str_app_cons, fscanf_s_word by (done || lia). bind_simpl.
  rewrite fscanf_s_space by done.
  rewrite <- str_app_assoc, str_app_cons, fscanf_s_word by (done || lia). bind_simpl.
  rewrite <- str_app_assoc, fscanf_d_print by done. bind_simpl.
  by rewrite str_app_cons.
Qed.

Lemma fscanf_peer_newline s : fscanf_peer (String newline s) = fscanf_peer s.
Proof. unfold fscanf_peer. by rewrite fscanf_s_space. Qed.

Section Restart.
  Context {N : Type} (fopen_w : string → bool).
  Implicit Types tcp : raft_tcp_transport_t N.

Lemma update_peer_fresh id host port peers :
  id ∉ peer_id <$> peers → update_peer id host port peers = None.
Proof.
  induction peers as [|p peers IH]; [done|]. cbn [fmap list_fmap]. intros [Hne Hn]%not_elem_of_cons.
  cbn [update_peer]. rewrite (proj2 (streq_false _ _)) by congruence. by rewrite IH.
Qed.

Lemma add_fresh_peer tcp p :
  saved_peer p = true → peer_id p ∉ peer_id <$> tcp_peers tcp → (length (tcp_peers tcp) < RAFT_MAX_PEERS)%nat →
  raft_tcp_transport_add_peer fopen_w tcp (peer_id p) (peer_host p) (peer_port p) =
    (tcp <| tcp_peers := tcp_peers tcp ++ [p] |>,
     tcp_save_peers fopen_w (tcp <| tcp_peers := tcp_peers tcp ++ [p] |>)).
Proof.
  intros Hs Hn Hl. unfold raft_tcp_transport_add_peer. rewrite update_peer_fresh by done.
  rewrite (proj2 (Nat.leb_gt _ _)) by done. unfold saved_peer in Hs. bools.
  rewrite !strncpy_fits by lia. by destruct p.
Qed.

(** What running a save leaves in the file. *)
Lemma fs_run_app ops1 ops2 disk : fs_run (ops1 ++ ops2) disk = fs_run ops2 (fs_run ops1 disk).
Proof. apply fold_left_app. Qed.

Lemma fs_run_mkdirs paths disk : fs_run (Mkdir <$> paths) disk = disk.
Proof. induction paths as [|p paths IH]; [done|]. exact IH. Qed.

Lemma run_save_text path text disk :
  fopen_w path = true → fs_run (save_text fopen_w path text) disk = <[path := text]> disk.
Proof. intros H. unfold save_text. rewrite H. cbn. by rewrite insert_insert_eq. Qed.

Lemma run_save_peers tcp disk :
  data_dir tcp ≠ "" → fopen_w (tcp_peers_path tcp) = true →
  fs_run (tcp_save_peers fopen_w tcp) disk = <[tcp_peers_path tcp := peers_text (tcp_peers tcp)]> disk.
Proof.
  intros Hd Hw. unfold tcp_save_peers. rewrite (proj2 (streq_false _ _)) by done.
  by rewrite fs_run_app, fs_run_mkdirs, run_save_text.
Qed.

(** Reading the lines of new peers adds them in order, and leaves the file with
    all of them. *)
Lemma load_peers_loop_text fuel tcp l text disk :
  (text = peers_text l ∨ text = String newline (peers_text l)) →
  (length l ≤ fuel)%nat → forallb saved_peer l = true →
  NoDup (peer_id <$> tcp_peers tcp ++ l) → (length (tcp_peers tcp ++ l) ≤ RAFT_MAX_PEERS)%nat →
  data_dir tcp ≠ "" → fopen_w (tcp_peers_path tcp) = true →
  let '(tcp', ops) := load_peers_loop fopen_w fuel tcp text in
  tcp' = tcp <| tcp_peers := tcp_peers tcp ++ l |> ∧
  (l = [] ∧ ops = [] ∨ fs_run ops disk = <[tcp_peers_path tcp := peers_text (tcp_peers tcp ++ l)]> disk).
Proof.
  revert tcp l text disk; induction fuel as [|fuel IH]; intros tcp l text disk Ht Hf Hs Hnd Hl Hd Hw.
  { destruct l; [|simpl in Hf; lia]. rewrite app_nil_r. split; [by destruct tcp|by left]. }
  assert (fscanf_peer text = fscanf_peer (peers_text l)) as Et
    by (destruct Ht as [-> | ->]; [done|apply fscanf_peer_newline]).
  cbn [load_peers_loop]. rewrite Et. destruct l as [|p l].
  - cbn. rewrite app_nil_r. split; [by destruct tcp|by left].
  - simpl in Hs. apply andb_true_iff in Hs as [Hp Hs]. cbn [peers_text foldr].
    rewrite fscanf_peer_line by done.
    assert (tcp_peers tcp ++ p :: l = (tcp_peers tcp ++ [p]) ++ l) as E by (by rewrite <- app_assoc).
    assert (peer_id p ∉ peer_id <$> tcp_peers tcp) as Hn.
    { rewrite fmap_app in Hnd. apply NoDup_app in Hnd as (_ & Hnd & _). intros Hin.
      apply (Hnd _ Hin). left. }
    rewrite length_app in Hl. simpl in Hl.
    rewrite add_fresh_peer by (done || lia).
    set (tcp1 := tcp <| tcp_peers := tcp_peers tcp ++ [p] |>).
    specialize (IH tcp1 l (String newline (peers_text l))
      (fs_run (tcp_save_peers fopen_w tcp1) disk) ltac:(by right) ltac:(simpl in Hf; lia) Hs).
    assert (tcp_peers tcp1 = tcp_peers tcp ++ [p]) as Ep by done.
    assert (tcp_peers_path tcp1 = tcp_peers_path tcp) as Epath by done.
    rewrite Ep, Epath, <- E in IH.
    specialize (IH Hnd ltac:(rewrite length_app; simpl; lia) Hd Hw). fold (peers_text l).
    destruct (load_peers_loop fopen_w fuel tcp1 (String newline (peers_text l))) as [tcp2 ops].
    destruct IH as [-> IH]. split; [done|right].
    rewrite fs_run_app. rewrite run_save_peers in * by done. rewrite Ep, Epath in *.
    destruct IH as [[-> ->] | ->]; [done|]. by rewrite insert_insert_eq.
Qed.

Lemma peer_line_length p : saved_peer p = true → (0 < String.length (peer_line p))%nat.
Proof. intros _. unfold peer_line. rewrite str_app_length. simpl. lia. Qed.

Lemma peers_text_length l :
  forallb saved_peer l = true → (length l ≤ String.length (peers_text l))%nat.
Proof.
  induction l as [|p l IH]; [done|]. intros H. simpl in H. apply andb_true_iff in H as [Hp H].
  cbn [peers_text foldr length]. fold (peers_text l). rewrite str_app_length.
  pose proof (peer_line_length p Hp). specialize (IH H). lia.
Qed.

Lemma self_path_ne tcp :
  (String.length (data_dir tcp) < 512)%nat → tcp_self_path tcp ≠ tcp_peers_path tcp.
Proof.
  intros Hd. unfold tcp_self_path, tcp_peers_path, snprintf. cbn [fst].
  rewrite !str_take_all by (rewrite str_app_length; simpl; lia). intros E.
  by apply str_app_inj in E.
Qed.

Lemma load_self_line tcp disk host port :
  data_dir tcp ≠ "" → disk !! tcp_self_path tcp = Some (self_line host port) →
  is_word host = true → (String.length host < 256)%nat → listen_port tcp = 0%Z → own_host tcp = "" →
  tcp_load_self tcp disk = tcp <| listen_port := port |> <| own_host := host |>.
Proof.
  intros Hd Hf Hw Hl Hp Hh. unfold tcp_load_self, self_line in *.
  rewrite (proj2 (streq_false _ _)), Hf by done.
  rewrite fscanf_s_word by (done || lia). bind_simpl. rewrite fscanf_d_print by done. bind_simpl.
  rewrite Hp. cbn [Z.leb Z.compare].
  change (own_host (tcp <| listen_port := port |>)) with (own_host tcp). rewrite Hh.
  cbn [streq]. by rewrite strncpy_fits by lia.
Qed.

(** C34: a transport restarts with its addresses.  What [start] and [add_peer] save
    is what [set_data_dir] loads into a fresh transport: the same peers in the same
    order, its own host and port; and the rewriting of [peers.txt] while it is
    loaded leaves the file as it was. *)
Theorem tcp_restart_keeps_addresses tcp n disk :
  data_dir tcp ≠ "" → (String.length (data_dir tcp) < 512)%nat →
  forallb saved_peer (tcp_peers tcp) = true → NoDup (peer_id <$> tcp_peers tcp) →
  (length (tcp_peers tcp) ≤ RAFT_MAX_PEERS)%nat →
  is_word (own_host tcp) = true → (String.length (own_host tcp) < 256)%nat → (0 < listen_port tcp)%Z →
  fopen_w (tcp_self_path tcp) = true → fopen_w (tcp_peers_path tcp) = true →
  let saved := fs_run (tcp_save_self fopen_w tcp ++ tcp_save_peers fopen_w tcp) disk in
  let '(tcp', ops) :=
    raft_tcp_transport_set_data_dir fopen_w (raft_tcp_transport_init (N := N) n 0) (data_dir tcp) saved in
  tcp_peers tcp' = tcp_peers tcp ∧ own_host tcp' = own_host tcp ∧ listen_port tcp' = listen_port tcp ∧
  fs_run ops saved = saved.
Proof.
  intros Hd Hdl Hps Hnd Hmax Hhost Hhl Hport Hw1 Hw2 saved.
  assert (saved = <[tcp_peers_path tcp := peers_text (tcp_peers tcp)]>
                    (<[tcp_self_path tcp := self_line (own_host tcp) (listen_port tcp)]> disk)) as Hsaved.
  { unfold saved. rewrite fs_run_app, run_save_peers by done. f_equal. unfold tcp_save_self.
    rewrite (proj2 (streq_false _ _)), (proj2 (streq_false _ _)), (proj2 (Z.leb_gt _ _)) by
      (done || (intros E; by rewrite E in Hhost)).
    cbn [orb]. by rewrite fs_run_app, fs_run_mkdirs, run_save_text. }
  unfold raft_tcp_transport_set_data_dir. rewrite strncpy_fits by lia.
  set (tcp0 := raft_tcp_transport_init n 0 <| data_dir := data_dir tcp |>).
  assert (tcp_peers_path tcp0 = tcp_peers_path tcp) as Ep0 by done.
  assert (tcp_self_path tcp0 = tcp_self_path tcp) as Es0 by done.
  rewrite (load_self_line tcp0 saved (own_host tcp) (listen_port tcp));
    [|done| |done..].
  2: { rewrite Es0, Hsaved, lookup_insert_ne by (apply not_eq_sym, self_path_ne; done). apply lookup_insert_eq. }
  set (tcp1 := tcp0 <| listen_port := listen_port tcp |> <| own_host := own_host tcp |>).
  unfold tcp_load_peers. change (data_dir tcp1) with (data_dir tcp).
  change (tcp_peers_path tcp1) with (tcp_peers_path tcp).
  rewrite (proj2 (streq_false _ _)) by done.
  assert (saved !! tcp_peers_path tcp = Some (peers_text (tcp_peers tcp))) as Hl
    by (rewrite Hsaved; apply lookup_insert_eq).
  rewrite Hl.
  pose proof (load_peers_loop_text (String.length (peers_text (tcp_peers tcp))) tcp1 (tcp_peers tcp)
    (peers_text (tcp_peers tcp)) saved (or_introl eq_refl) (peers_text_length _ Hps) Hps Hnd Hmax Hd Hw2) as H.
  destruct (load_peers_loop _ _ tcp1 _) as [tcp2 ops]. destruct H as [-> H].
  split_and!; [done..|]. change (tcp_peers tcp1 ++ tcp_peers tcp) with (tcp_peers tcp) in H.
  change (tcp_peers_path tcp1) with (tcp_peers_path tcp) in H.
  destruct H as [[_ ->] | ->]; [done|]. by apply insert_id.
Qed.
(** *** The loop over any file *)

Lemma skip_space_length s : (String.length (skip_space s) ≤ String.length s)%nat.
Proof. induction s as [|c s IH]; [done|]. cbn [skip_space]. case_match; simpl; lia. Qed.

Lemma scan_word_length n s : (String.length (scan_word n s).1 + String.length (scan_word n s).2 = String.length s)%nat.
Proof.
  revert s; induction n as [|n IH]; intros [|c s]; [done..|]. cbn [scan_word].
  destruct (isspace c); [done|]. specialize (IH s). destruct (scan_word n s). simpl in *. lia.
Qed.

Lemma fscanf_s_length width s w rest : fscanf_s width s = Some (w, rest) → (String.length rest < String.length s)%nat.
Proof.
  unfold fscanf_s. pose proof (scan_word_length width (skip_space s)) as Hl. pose proof (skip_space_length s).
  destruct (scan_word width (skip_space s)) as [[|c x] r]; [done|]. intros [= _ <-]. simpl in Hl. lia.
Qed.

Lemma scan_number_length s x rest : scan_number s = Some (x, rest) → (String.length rest ≤ String.length s)%nat.
Proof.
  assert (∀ acc s, String.length (scan_digits acc s).2 ≤ String.length s)%nat as Hd.
  { intros acc t. revert acc; induction t as [|c t IH]; intros acc; [done|]. cbn [scan_digits].
    destruct (digit_val c) as [d|]; [|done]. specialize (IH (10 * acc + d)%Z). simpl. lia. }
  unfold scan_number. destruct s as [|c s]; [done|]. destruct (digit_val c); [|done].
  intros E. assert (scan_digits 0 (String c s) = (x, rest)) as E' by congruence.
  pose proof (Hd 0%Z (String c s)) as H. by rewrite E' in H.
Qed.

Lemma fscanf_d_length s x rest : fscanf_d s = Some (x, rest) → (String.length rest ≤ String.length s)%nat.
Proof.
  unfold fscanf_d. pose proof (skip_space_length s) as Hs. destruct (skip_space s) as [|c t]; [done|].
  simpl in Hs. repeat case_match; intros H1.
  - apply bind_Some in H1 as ([y r] & H1 & [= _ <-]). apply scan_number_length in H1. lia.
  - apply scan_number_length in H1. lia.
  - apply scan_number_length in H1. simpl in H1. lia.
Qed.

Lemma fscanf_peer_length s p rest : fscanf_peer s = Some (p, rest) → (String.length rest < String.length s)%nat.
Proof.
  unfold fscanf_peer. intros H. apply bind_Some in H as ([id s1] & H1 & H).
  apply bind_Some in H as ([host s2] & H2 & H). apply bind_Some in H as ([port s3] & H3 & [= _ <-]).
  apply fscanf_s_length in H1, H2. apply fscanf_d_length in H3. lia.
Qed.

(** The peers successive [fscanf] calls read off a text, and where they stop. *)
Inductive scanned : string → list (string * string * Z) → string → Prop :=
| scanned_stop text : fscanf_peer text = None → scanned text [] text
| scanned_peer text p text' l rest :
    fscanf_peer text = Some (p, text') → scanned text' l rest → scanned text (p :: l) rest.

Fixpoint add_peers tcp (l : list (string * string * Z)) : raft_tcp_transport_t N * list fs_op :=
  match l with
  | [] => (tcp, [])
  | (id, host, port) :: l =>
      let '(tcp, ops) := raft_tcp_transport_add_peer fopen_w tcp id host port in
      let '(tcp, ops') := add_peers tcp l in (tcp, ops ++ ops')
  end.

(** Loading the peers terminates on any file.  Whatever bytes the file holds,
    the loop stops where [fscanf] first fails, having added the peers it read
    before that in order, within as many turns as the text has bytes. *)
Lemma tcp_load_terminates tcp text :
  ∃ l rest, scanned text l rest ∧
    ∀ fuel, (String.length text ≤ fuel)%nat → load_peers_loop fopen_w fuel tcp text = add_peers tcp l.
Proof.
  revert tcp. induction text as [text IH] using (induction_ltof1 _ String.length). unfold ltof in IH. intros tcp.
  destruct (fscanf_peer text) as [[[[id host] port] text']|] eqn:E.
  - pose proof (fscanf_peer_length _ _ _ E) as Hlt.
    destruct (raft_tcp_transport_add_peer fopen_w tcp id host port) as [tcp' ops] eqn:Ea.
    destruct (IH text' Hlt tcp') as (l & rest & Hs & Hl).
    exists ((id, host, port) :: l), rest. split; [by econstructor|]. intros [|fuel] Hf; [lia|].
    cbn [load_peers_loop add_peers]. rewrite E, Ea, Hl by lia. done.
  - exists [], text. split; [by constructor|]. intros [|fuel] _; [done|]. cbn [load_peers_loop]. by rewrite E.
Qed.

End Restart.

(** *** Interleavings *)

Record tcp_wf {N} (tcp : raft_tcp_transport_t N) : Prop := {
  tcp_wf_peers : (length (tcp_peers tcp) ≤ RAFT_MAX_PEERS)%nat;
  tcp_wf_names : Forall (λ p, String.length (peer_id p) < RAFT_MAX_ID ∧ String.length (peer_host p) < 256)%nat (tcp_peers tcp);
  tcp_wf_in : (length (in_queue tcp) ≤ RAFT_MAX_QUEUE)%nat;
  tcp_wf_joins : (length (tcp_join_queue tcp) ≤ RAFT_MAX_NODES)%nat;
  tcp_wf_cmds : (length (tcp_cmd_queue tcp) ≤ RAFT_MAX_QUEUE)%nat;
  tcp_wf_fwd : (length (fwd_cmd_queue tcp) ≤ RAFT_MAX_QUEUE)%nat;
  tcp_wf_dir : (String.length (data_dir tcp) < 512)%nat;
  tcp_wf_self : (String.length (own_id tcp) < RAFT_MAX_ID)%nat ∧ (String.length (own_host tcp) < 256)%nat;
}.

Section Interleaving.
  Context {N : Type} (sockets : sockets_t N) (fopen_w : string → bool).
  Context (open_listener : Z → option Z) (created : bool).
  Context {layout : MessageLayout} {frames : Layout raft_tcp_frame_t frame_fits}.
  Context {requests : Layout raft_tcp_join_req_t join_req_fits} {commands : Layout raft_command_t command_fits}.
  Implicit Types tcp : raft_tcp_transport_t N.

(** The transport and what the listener holds between its test and its
    insertion.  Either thread may take the next step. *)
Inductive tcp_step : raft_tcp_transport_t N * option tcp_item → raft_tcp_transport_t N * option tcp_item → Prop :=
| step_read tcp conn : listener_started tcp = true →
    tcp_step (tcp, None) (tcp, tcp_listener_read tcp conn)
| step_enqueue tcp item : tcp_step (tcp, Some item) (tcp_listener_enqueue tcp item, None)
| step_send tcp i msg : tcp_step (tcp, i) ((tcp_send sockets tcp msg).1, i)
| step_recv tcp i n : tcp_step (tcp, i) ((tcp_recv tcp n).1, i)
| step_submit tcp i cmd : tcp_step (tcp, i) ((tcp_submit_command tcp cmd).1, i)
| step_recv_commands tcp i n : tcp_step (tcp, i) ((tcp_recv_commands tcp n).1, i)
| step_set_enabled tcp i b : tcp_step (tcp, i) (tcp_set_enabled tcp b, i)
| step_recv_joins tcp i n : tcp_step (tcp, i) ((raft_tcp_transport_recv_joins tcp n).1, i)
| step_recv_fwd tcp i n : tcp_step (tcp, i) ((raft_tcp_transport_recv_fwd_cmds tcp n).1, i)
| step_add_peer tcp i id host port : tcp_step (tcp, i) ((raft_tcp_transport_add_peer fopen_w tcp id host port).1, i)
| step_set_self tcp i id host : tcp_step (tcp, i) (raft_tcp_transport_set_self tcp id host, i)
| step_data_dir tcp i dir disk : tcp_step (tcp, i) ((raft_tcp_transport_set_data_dir fopen_w tcp dir disk).1, i)
| step_start tcp i : tcp_step (tcp, i) ((raft_tcp_transport_start fopen_w open_listener created tcp).1.1, i)
| step_listen tcp i port :
    tcp_step (tcp, i) ((raft_tcp_transport_listen fopen_w open_listener created tcp port).1.1, i)
| step_stop tcp : tcp_step (tcp, None) (raft_tcp_transport_stop tcp, None)
| step_request_join tcp i id host port target tport :
    tcp_step (tcp, i) ((raft_tcp_transport_request_join sockets tcp id host port target tport).1, i)
| step_cluster_join tcp i members target tport v :
    tcp_step (tcp, i) ((raft_tcp_transport_send_cluster_join sockets tcp members target tport v).1, i)
| step_flood tcp i jr : tcp_step (tcp, i) (raft_tcp_transport_flood_join sockets tcp jr, i)
| step_announce tcp i target tport :
    tcp_step (tcp, i) ((raft_tcp_transport_announce_self sockets tcp target tport).1, i)
| step_forward tcp i target tport cmd :
    tcp_step (tcp, i) ((raft_tcp_transport_forward_cmd sockets tcp target tport cmd).1, i).

Lemma drain_length {A} (q : list A) n m : (length q ≤ m)%nat → (length (drain q n).1 ≤ m)%nat.
Proof. unfold drain. intros H. by case_match; simpl; [lia|]. Qed.

Lemma update_peer_wf id host port peers peers' :
  update_peer id host port peers = Some peers' →
  Forall (λ p, String.length (peer_id p) < RAFT_MAX_ID ∧ String.length (peer_host p) < 256)%nat peers →
  length peers' = length peers ∧
  Forall (λ p, String.length (peer_id p) < RAFT_MAX_ID ∧ String.length (peer_host p) < 256)%nat peers'.
Proof.
  revert peers'; induction peers as [|p peers IH]; intros peers' H Hf; [done|]. cbn [update_peer] in H.
  inversion Hf as [|? ? [H1 H2] Hr]; subst. destruct (streq (peer_id p) id); simplify_eq.
  - split; [done|]. constructor; [|done]. split; [exact H1|]. apply strncpy_length. lia.
  - apply bind_Some in H as (x & E & H). simplify_eq. destruct (IH x E Hr) as [El Hx].
    split; [simpl; lia|by constructor].
Qed.

Lemma add_peer_wf tcp id host port : tcp_wf tcp → tcp_wf (raft_tcp_transport_add_peer fopen_w tcp id host port).1.
Proof.
  intros [H1 H2 H3 H4 H5 H6 H7 H8]. unfold raft_tcp_transport_add_peer.
  destruct (update_peer id host port (tcp_peers tcp)) as [peers|] eqn:E; cbv zeta; cbn [fst].
  - destruct (update_peer_wf _ _ _ _ _ E H2) as [El Hf]. by split; rsimpl; rewrite ?El.
  - destruct (RAFT_MAX_PEERS <=? length (tcp_peers tcp))%nat eqn:El; cbn [fst]; [by split|].
    bools. split; rsimpl; try done.
    + rewrite length_app. simpl. lia.
    + apply Forall_app; split; [done|]. constructor; [|done]. cbn [peer_id peer_host].
      split; apply strncpy_length; unfold RAFT_MAX_ID; lia.
Qed.

Lemma load_peers_loop_wf fuel tcp text : tcp_wf tcp → tcp_wf (load_peers_loop fopen_w fuel tcp text).1.
Proof.
  revert tcp text; induction fuel as [|fuel IH]; intros tcp text Hw; [done|]. cbn [load_peers_loop].
  destruct (fscanf_peer text) as [[[[id host] port] rest]|]; [|done].
  pose proof (add_peer_wf tcp id host port Hw) as H. destruct (raft_tcp_transport_add_peer _ _ _ _ _) as [t o].
  specialize (IH t rest H). by destruct (load_peers_loop _ _ _ _).
Qed.

Lemma load_self_wf tcp disk : tcp_wf tcp → tcp_wf (tcp_load_self tcp disk).
Proof.
  intros Hw. unfold tcp_load_self. destruct (streq (data_dir tcp) ""); [done|].
  destruct (disk !! _) as [text|]; [|done]. case_match; [|done]. destruct p as [host port].
  set (t := if (listen_port tcp <=? 0)%Z then _ else _).
  assert (tcp_wf t) as Ht by (unfold t; case_match; [destruct Hw; by split|done]).
  destruct (streq (own_host t) ""); [|done].
  destruct Ht as [H1 H2 H3 H4 H5 H6 H7 [H8 H9]]. split; rsimpl; try done.
  split; [done|]. apply strncpy_length. lia.
Qed.

Lemma tcp_step_wf s s' : tcp_step s s' → tcp_wf s.1 → tcp_wf s'.1.
Proof.
  destruct 1; cbn [fst]; intros Hw; try done;
    try (destruct Hw as [H1 H2 H3 H4 H5 H6 H7 H8]).
  - by destruct item; cbn [tcp_listener_enqueue]; split; rsimpl; auto using queue_push_length.
  - unfold tcp_send. repeat case_match; split; rsimpl; done.
  - unfold tcp_recv. pose proof (drain_length (in_queue tcp) n _ H3) as Hd.
    destruct (drain (in_queue tcp) n) as [q out]. by split.
  - unfold tcp_submit_command. case_match; bools; [by split|]. cbn [fst]. split; rsimpl; try done.
    rewrite length_app. simpl. lia.
  - unfold tcp_recv_commands. split; rsimpl; try done. simpl. lia.
  - unfold tcp_set_enabled. destruct b; cbn [negb]; split; rsimpl; try done; simpl; lia.
  - unfold raft_tcp_transport_recv_joins. pose proof (drain_length (tcp_join_queue tcp) n _ H4) as Hd.
    destruct (drain (tcp_join_queue tcp) n) as [q out]. by split.
  - unfold raft_tcp_transport_recv_fwd_cmds. pose proof (drain_length (fwd_cmd_queue tcp) n _ H6) as Hd.
    destruct (drain (fwd_cmd_queue tcp) n) as [q out]. by split.
  - apply add_peer_wf. by split.
  - unfold raft_tcp_transport_set_self. split; rsimpl; try done.
    split; apply strncpy_length; unfold RAFT_MAX_ID; lia.
  - unfold raft_tcp_transport_set_data_dir, tcp_load_peers.
    match goal with |- context [tcp_load_self ?t disk] => assert (tcp_wf (tcp_load_self t disk)) as Ht end.
    { apply load_self_wf. split; rsimpl; try done. apply strncpy_length. lia. }
    revert Ht. generalize (tcp_load_self (tcp <| data_dir := strncpy 512 dir |>) disk). intros t Ht.
    repeat case_match; try done. by apply load_peers_loop_wf.
  - unfold raft_tcp_transport_start. repeat case_match; split; done.
  - unfold raft_tcp_transport_listen, raft_tcp_transport_start. repeat case_match; split; done.
  - unfold raft_tcp_transport_stop. repeat case_match; split; done.
  - by split.
  - unfold raft_tcp_transport_send_cluster_join. case_match; by split.
  - by split.
  - unfold raft_tcp_transport_announce_self. case_match; by split.
  - by split.
Qed.


(** A message the listener accepted before the transport was disabled is in its
    queue after the queue has been emptied. *)
Lemma disabled_transport_keeps_late_message tcp conn msg :
  tcp_listener_read tcp conn = Some (TcpRaft msg) →
  in_queue (tcp_listener_enqueue (tcp_set_enabled tcp false) (TcpRaft msg)) = [msg].
Proof. done. Qed.

End Interleaving.

(** ** Witnesses *)

Definition addressed : raft_tcp_transport_t unit :=
  mkTcp 7000 (-1) "a" "10.0.0.1" "data/a" [mkPeer "b" "10.0.0.2" 7001; mkPeer "c" "10.0.0.3" 7002]
    [] [] [] [] false true false tt.

Lemma tcp_restart_keeps_addresses_witness :
  let saved := fs_run (tcp_save_self (λ _, true) addressed ++ tcp_save_peers (λ _, true) addressed) ∅ in
  tcp_peers (raft_tcp_transport_set_data_dir (λ _, true) (raft_tcp_transport_init tt 0) "data/a" saved).1 =
    [mkPeer "b" "10.0.0.2" 7001; mkPeer "c" "10.0.0.3" 7002].
Proof.
  intros saved.
  pose proof (tcp_restart_keeps_addresses (λ _, true) addressed tt ∅ ltac:(discriminate)
    ltac:(vm_compute; lia) eq_refl) as H.
  specialize (H ltac:(apply (bool_decide_eq_true_1 _); vm_compute; reflexivity) ltac:(vm_compute; lia) eq_refl
    ltac:(vm_compute; lia) ltac:(vm_compute; reflexivity) eq_refl eq_refl).
  cbv zeta in H. change (data_dir addressed) with "data/a" in H. fold saved in H.
  destruct (raft_tcp_transport_set_data_dir _ _ "data/a" saved) as [t ops].
  exact (proj1 H).
Defined.

(** The two peers are in the file and in the transport that is loading it; a crash
    after the first operations of the load leaves a file without the second. *)
Lemma load_crash_loses_peers :
  let saved := fs_run (tcp_save_peers (λ _, true) addressed) ∅ in
  let '(_, ops) := tcp_load_peers (λ _, true) (addressed <| tcp_peers := [] |>) saved in
  saved !! "data/a/peers.txt" = Some (peers_text (tcp_peers addressed)) ∧
  fs_run (take 4 ops) saved !! "data/a/peers.txt" = Some (peers_text (take 1 (tcp_peers addressed))).
Proof. vm_compute. done. Qed.

