(* ===== verification/Fits.v ===== *)
(** Towards [FitsProps]: every operation of a node up to the sends keeps the fields
    that messages are made of values of their C types ([node_fits]), and so queues
    only messages that are values of [raft_message_t]. *)
From S2P Require Import Prelude CString Types Config NodeLog Samples Replication Handlers Storage MemTransport Membership Fsm FsmProps MessageLayout.

(** *** Strings without NULs *)

Definition clean (s : string) : Prop := lacks nul s = true.

Lemma clean_take n s : clean s → clean (str_take n s).
Proof.
  unfold clean, lacks. revert s; induction n as [|n IH]; intros [|c s]; cbn [str_take str_all]; try done.
  intros H. bools. apply andb_true_iff; split; [by rewrite H|by apply IH].
Qed.

Lemma clean_strncpy n s : (0 < n)%nat → clean s → chars_fit n (strncpy n s) = true.
Proof.
  intros Hn Hs. unfold chars_fit. apply andb_true_iff; split; [by apply clean_take|].
  apply Nat.ltb_lt, strncpy_length, Hn.
Qed.

Lemma chars_fit_clean n s : chars_fit n s = true → clean s.
Proof. unfold chars_fit. intros H. by bools. Qed.

Lemma clean_app s t : clean (s +:+ t) ↔ clean s ∧ clean t.
Proof. unfold clean. by rewrite lacks_app, andb_true_iff. Qed.

(** The pieces of a clean text, and the member lists made of them. *)
Lemma clean_strtok c cur s : clean cur → clean s → Forall clean (strtok_from c cur s).
Proof.
  revert cur; induction s as [|d s IH]; intros cur Hc Hs; cbn [strtok_from].
  - by destruct (streq cur ""); [|constructor].
  - assert (clean s ∧ clean (String d "")) as [Hs' Hd].
    { unfold clean, lacks in *. cbn [str_all] in *. bools. split; [done|]. by rewrite H. }
    destruct (is_char c d); [destruct (streq cur "")|]; [by apply IH|constructor; [done|by apply IH]|].
    apply IH; [|done]. by apply clean_app.
Qed.

Lemma clean_decode_loop cap tokens out :
  Forall clean tokens → Forall clean out → Forall clean (decode_loop cap tokens out).
Proof.
  revert out; induction tokens as [|t tokens IH]; intros out Ht Ho; [done|]. cbn [decode_loop].
  inversion Ht; subst. repeat case_match; try done; apply IH; try done.
  apply Forall_app; split; [done|]. constructor; [by apply clean_take|done].
Qed.

Lemma clean_decode val cap : clean val → Forall clean (decode_member_list val cap).
Proof.
  intros Hv. unfold decode_member_list. case_match; [done|].
  apply clean_decode_loop; [|done]. apply clean_strtok; [done|by apply clean_take].
Qed.

Lemma clean_collect cap ms out : Forall clean ms → Forall clean out → Forall clean (normalize_collect cap ms out).
Proof.
  revert out; induction ms as [|m ms IH]; intros out Hm Ho; [done|]. cbn [normalize_collect].
  inversion Hm; subst. repeat case_match; try done; apply IH; try done.
  apply Forall_app; split; [done|]. constructor; [by apply clean_take|done].
Qed.

Lemma clean_normalize ms cap : Forall clean ms → Forall clean (normalize_members ms cap).
Proof.
  intros Hm. unfold normalize_members.
  destruct (normalize_sort_spec (normalize_collect cap ms [])) as [Hp _]. rewrite Hp. by apply clean_collect.
Qed.

Lemma clean_encode_loop n first out ms : clean out → Forall clean ms → clean (encode_loop n first out ms).
Proof.
  revert first out; induction ms as [|m ms IH]; intros first out Ho Hm; [done|]. cbn [encode_loop].
  inversion Hm; subst. unfold snprintf.
  assert (clean (out +:+ str_take (n - String.length out - 1) ((if first then "" else ",") +:+ m))) as Hn.
  { apply clean_app. split; [done|]. apply clean_take, clean_app. split; [|done]. by destruct first. }
  destruct (_ <=? _)%nat; [done|by apply IH].
Qed.

Lemma clean_encode ms n : Forall clean ms → clean (encode_member_list ms n).
Proof. intros Hm. unfold encode_member_list. case_match; [done|]. by apply clean_encode_loop. Qed.

Lemma clean_refresh_old self ms ps : Forall clean ms → Forall clean ps → Forall clean (refresh_old self ms ps).
Proof.
  revert ps; induction ms as [|m ms IH]; intros ps Hm Hp; [done|]. cbn [refresh_old]. inversion Hm; subst.
  repeat case_match; try done; apply IH; try done.
  apply Forall_app; split; [done|]. constructor; [by apply clean_take|done].
Qed.

Lemma clean_refresh_new self ms ps : Forall clean ms → Forall clean ps → Forall clean (refresh_new self ms ps).
Proof.
  revert ps; induction ms as [|m ms IH]; intros ps Hm Hp; [done|]. cbn [refresh_new]. inversion Hm; subst.
  repeat case_match; try done; apply IH; try done.
  apply Forall_app; split; [done|]. constructor; [by apply clean_take|done].
Qed.

(** *** Nodes whose fields are values of their types *)

Definition fits_message (m : raft_message_t) : Prop := message_fits m = true.
Definition fits_entry (e : raft_log_entry_t) : Prop := entry_fits e = true.

Section Fits.
  Context {U : Type}.
  Implicit Types node : raft_node_t U.
  Implicit Types message : raft_message_t.

(** The fields messages are made of.  [fits_room] keeps the indices of the log
    array [int]s. *)
Record node_fits node : Prop := {
  fits_id : chars_fit RAFT_MAX_ID (node_id (config node)) = true;
  fits_peers : Forall clean (peers (config node));
  fits_old : Forall clean (old_members (config_state node));
  fits_new : Forall clean (new_members (config_state node));
  fits_requested : Forall clean (requested_membership node);
  fits_term : in_int (current_term node);
  fits_log : Forall fits_entry (log node);
  fits_length : length (log node) = RAFT_MAX_LOG;
  fits_count : (log_count node ≤ RAFT_MAX_LOG)%nat;
  fits_snapshot : (0 ≤ snapshot_last_included_index node)%Z;
  fits_snapshot_term : in_int (snapshot_last_included_term node);
  fits_commit : in_int (commit_index node);
  fits_next : Forall in_int (next_index node);
  fits_pending : Forall fits_message (pending_append_entries node) ∧
                 Forall fits_message (pending_vote_requests node) ∧ Forall fits_message (pending_votes node);
  fits_outbox : Forall fits_message (outbox node);
}.

Definition room node : Prop := (snapshot_last_included_index node + Z.of_nat RAFT_MAX_LOG < INT_MAX)%Z.

Lemma in_intb_iff z : in_intb z = true ↔ in_int z.
Proof. unfold in_intb, in_int. rewrite andb_true_iff, !Z.leb_le. done. Qed.

Lemma last_index_int node : node_fits node → room node →
  (0 ≤ node_last_log_index node ≤ snapshot_last_included_index node + Z.of_nat RAFT_MAX_LOG)%Z ∧
  in_int (node_last_log_index node) ∧ in_int (node_last_log_index node + 1).
Proof.
  intros Hf Hr. pose proof (fits_count _ Hf). pose proof (fits_snapshot _ Hf).
  unfold room, node_last_log_index, in_int in *. lia.
Qed.

Lemma fits_source node : node_fits node → chars_fit RAFT_MAX_ID (strncpy RAFT_MAX_ID (node_id (config node))) = true.
Proof. intros Hf. apply clean_strncpy; [unfold RAFT_MAX_ID; lia|]. eapply chars_fit_clean, fits_id, Hf. Qed.

Lemma fits_target s : clean s → chars_fit RAFT_MAX_ID (strncpy RAFT_MAX_ID s) = true.
Proof. apply clean_strncpy. unfold RAFT_MAX_ID. lia. Qed.

Lemma message_fits_intro k t s d g ok pi pt pl lc mi li lt es :
  in_int t → chars_fit RAFT_MAX_ID s = true → chars_fit RAFT_MAX_ID d = true → in_int pi → in_int pt →
  chars_fit RAFT_MAX_ID pl = true → in_int lc → in_int mi → in_int li → in_int lt →
  Forall fits_entry es → (length es ≤ RAFT_MAX_BATCH)%nat →
  fits_message (mkMessage k t s d g ok pi pt pl lc mi li lt es).
Proof.
  intros. unfold fits_message, message_fits.
  cbn [msg_term source target prev_log_index prev_log_term prev_log_leader_id leader_commit msg_match_index
       last_log_index last_log_term entries].
  rewrite !andb_true_iff, !in_intb_iff. split_and!; try done.
  - apply forallb_forall. intros e He. apply list_elem_of_In in He.
    by apply (proj1 (Forall_forall fits_entry es)).
  - by apply Nat.leb_le.
Qed.

Lemma message_parts m : fits_message m →
  in_int (msg_term m) ∧ clean (source m) ∧ in_int (leader_commit m) ∧ in_int (msg_match_index m) ∧
  Forall fits_entry (entries m).
Proof.
  unfold fits_message, message_fits. intros H. bools. split_and!; try (by apply in_intb_iff).
  - by eapply chars_fit_clean.
  - apply Forall_forall. intros e He. apply list_elem_of_In in He.
    match goal with Hb : forallb entry_fits _ = true |- _ => by apply (proj1 (forallb_forall _ _) Hb) end.
Qed.

Lemma zero_in_int : in_int 0. Proof. unfold in_int, INT_MAX. lia. Qed.
Lemma nil_chars : chars_fit RAFT_MAX_ID "" = true. Proof. done. Qed.
#[local] Hint Resolve zero_in_int nil_chars : core.

Lemma log_at_fits node i e : node_fits node → node_log_at node i = Some e → fits_entry e.
Proof.
  intros Hf He. unfold node_log_at in He. apply array_get_inv in He as [_ He].
  eapply Forall_lookup_1; [apply Hf|exact He].
Qed.

Lemma entry_parts e : fits_entry e →
  in_int (entry_index e) ∧ in_int (entry_term e) ∧ clean (entry_leader_id e) ∧ command_fits (entry_command e) = true.
Proof.
  unfold fits_entry, entry_fits, command_fits. intros H. bools.
  split_and!; try (by apply in_intb_iff); [by eapply chars_fit_clean|].
  rewrite !andb_true_iff. by split_and!.
Qed.

Lemma term_at_fits node i t : node_fits node → node_term_at_index node i = Some t → in_int t.
Proof.
  intros Hf. unfold node_term_at_index. repeat case_match; intros Ht; simplify_eq; [done|apply Hf|].
  apply fmap_Some in Ht as (e & He & ->). by eapply entry_parts, log_at_fits.
Qed.

Lemma leader_at_fits node i l : node_fits node → node_leader_at_index node i = Some l → clean l.
Proof.
  intros Hf. unfold node_leader_at_index. case_match; intros Ht; [by simplify_eq|].
  apply fmap_Some in Ht as (e & He & ->). by eapply entry_parts, log_at_fits.
Qed.

Lemma collect_fits node n i es :
  node_fits node → collect_entries node n i = Some es → Forall fits_entry es ∧ (length es ≤ n)%nat.
Proof.
  intros Hf. revert i es; induction n as [|n IH]; intros i es H; cbn [collect_entries] in H.
  { simplify_eq. by split. }
  destruct (i <=? node_last_log_index node)%Z; [|simplify_eq; split; [done|simpl; lia]].
  apply bind_Some in H as (e & He & H). apply bind_Some in H as (es' & Hes & [= <-]).
  destruct (IH _ _ Hes). split; [constructor; [by eapply log_at_fits|done]|simpl; lia].
Qed.

(** *** Operations that queue a message *)

Lemma fits_queue node m : node_fits node → fits_message m → node_fits (node_queue_message node m).
Proof.
  intros [] Hm. split; unfold node_queue_message; rsimpl; try done.
  apply Forall_forall. intros x Hx. apply queue_push_elem in Hx as [Hx| ->]; [|done].
  by eapply Forall_forall in Hx.
Qed.

Lemma send_fits node id node' :
  node_fits node → room node → clean id → node_send_append_entries_to node id = Some node' → node_fits node'.
Proof.
  intros Hf Hr Hid H. unfold node_send_append_entries_to in H.
  apply bind_Some in H as (n & Hn & H). apply bind_Some in H as (pt & Hpt & H).
  apply bind_Some in H as (pl & Hpl & H). apply bind_Some in H as (es & Hes & [= <-]).
  apply fits_queue; [done|]. destruct (collect_fits _ _ _ _ Hf Hes) as [He Hl].
  assert (in_int (n - 1)) as Hn1.
  { unfold send_next_index in Hn. apply bind_Some in Hn as (k & Hk & [= <-]).
    assert (in_int k) as Hki.
    { destruct (node_peer_index node id); [|simplify_eq; by apply last_index_int].
      eapply Forall_lookup_1; [apply Hf|exact Hk]. }
    pose proof (fits_snapshot _ Hf). unfold room, node_log_base_index, in_int in *. case_match; bools; lia. }
  apply message_fits_intro; try done.
  - apply Hf.
  - by apply fits_source.
  - by apply fits_target.
  - by eapply term_at_fits.
  - apply fits_target. by eapply leader_at_fits.
  - apply Hf.
Qed.

Lemma broadcast_fits node node' :
  node_fits node → room node → node_broadcast_append_entries node = Some node' → node_fits node'.
Proof.
  intros Hf Hr H. unfold node_broadcast_append_entries in H.
  apply (for_each_inv (λ n, only_outbox node n ∧ node_fits n)) in H; [by destruct H| |by split].
  intros p a b Hp [Ho Ha] Hb. split.
  - etrans; [exact Ho|]. by eapply send_only_outbox.
  - eapply send_fits; [done| | |exact Hb].
    + unfold room. rewrite (only_outbox_eq _ _ Ho). exact Hr.
    + eapply Forall_forall; [apply Hf|exact Hp].
Qed.

(** A node that can send: its indices also stay [int]s when its log array fills up. *)
Definition sendable node : Prop := node_fits node ∧ room node.

Lemma sendable_outbox node node' : only_outbox node node' → node_fits node' → sendable node → sendable node'.
Proof. intros [Ho _] Hf [_ Hr]. split; [done|]. unfold room in *. by rewrite Ho. Qed.

Lemma sendable_queue node m : sendable node → fits_message m → sendable (node_queue_message node m).
Proof. intros [Hf Hr] Hm. split; [by apply fits_queue|done]. Qed.

Lemma sendable_broadcast node node' :
  sendable node → node_broadcast_append_entries node = Some node' → sendable node'.
Proof.
  intros [Hf Hr] H. eapply sendable_outbox; [by eapply broadcast_only_outbox| |by split].
  by eapply broadcast_fits.
Qed.

(** *** Message handlers *)

Lemma sendable_term_update node message :
  sendable node → fits_message message → sendable (node_handle_term_update node message).
Proof.
  intros Hs Hm. unfold node_handle_term_update. case_match; [|done]. destruct Hs as [[] Hr].
  split; [|done]. split; rsimpl; try done. by apply message_parts.
Qed.

Lemma vote_response_fits node message grant :
  node_fits node → fits_message message → fits_message (vote_response node message grant).
Proof.
  intros Hf Hm. destruct (message_parts _ Hm) as (_ & Hs & _). apply message_fits_intro; try done.
  - apply Hf.
  - by apply fits_source.
  - by apply fits_target.
  - simpl. unfold RAFT_MAX_BATCH. lia.
Qed.

Lemma sendable_vote_request node message clock node' :
  sendable node → fits_message message → node_handle_vote_request node message clock = Some node' →
  sendable node'.
Proof.
  intros Hs Hm H. unfold node_handle_vote_request in H.
  pose proof (sendable_term_update _ _ Hs Hm) as [Hf Hr].
  revert H Hf Hr. generalize (node_handle_term_update node message) as n. clear node Hs. intros n H Hf Hr.
  apply bind_Some in H as ([n1 g] & H & [= <-]).
  assert (sendable n1) as [Hf1 Hr1].
  { case_match; [|simplify_eq; by split]. apply bind_Some in H as ([] & _ & [= <- <-]); [|by split].
    destruct Hf. split; [|done]. by split. }
  apply sendable_queue; [by split|]. by apply vote_response_fits.
Qed.

Lemma sendable_push node e node' :
  sendable node → fits_entry e → node_log_push node e = Some node' → sendable node'.
Proof.
  intros [[] Hr] He (Hlt & ->)%node_log_push_inv. split; [|done]. split; rsimpl; try done.
  - by apply Forall_insert.
  - by rewrite length_insert.
  - lia.
Qed.

Lemma sendable_dirty node : sendable node → sendable (node <| persist_dirty := true |>).
Proof. intros [[] Hr]. split; [|done]. by split. Qed.

Lemma sendable_entry_tail node e node' :
  sendable node → fits_entry e → append_entry_tail node e = Some node' → sendable node'.
Proof.
  intros Hs He H. unfold append_entry_tail in H. case_match; [|by simplify_eq].
  apply bind_Some in H as (n & Hp & [= <-]). by eapply sendable_dirty, sendable_push.
Qed.

Lemma sendable_entry_step st e st' :
  sendable st.1 → fits_entry e → append_entry_step st e = Some st' → sendable st'.1.
Proof.
  destruct st as [node rebuild]. cbn [fst]. intros Hs He H. unfold append_entry_step in H.
  destruct (_ <=? _)%Z; [by simplify_eq|].
  destruct (node_has_log_index node (entry_index e)) eqn:Hi.
  - apply bind_Some in H as ([] & _ & H); [|by simplify_eq].
    apply bind_Some in H as (n & Ht & [= <-]). cbn [fst]. eapply sendable_entry_tail; [|done|exact Ht].
    destruct Hs as [[] Hr]. split; [|done]. split; rsimpl; try done.
    unfold node_has_log_index, node_log_base_index, node_last_log_index in Hi. bools.
    unfold node_physical_index. lia.
  - apply bind_Some in H as (n & Ht & [= <-]). by eapply sendable_entry_tail.
Qed.

(** The commit index is set to a value of the message or of the log. *)
Lemma sendable_commit node i : sendable node → in_int i → sendable (node <| commit_index := i |>).
Proof. intros [[] Hr] Hi. split; [|done]. by split. Qed.

Lemma clamped_commit_int node message :
  sendable node → fits_message message → in_int (node_clamped_commit node message).
Proof.
  intros [Hf Hr] Hm. unfold node_clamped_commit. case_match; [by apply message_parts|by apply last_index_int].
Qed.

Lemma sendable_finish node message rebuild :
  sendable node → fits_message message → sendable (append_entries_finish node message rebuild).
Proof.
  intros Hs Hm. pose proof (clamped_commit_int _ _ Hs Hm) as Hc.
  unfold append_entries_finish. destruct rebuild.
  - set (n1 := node <| commit_index := _ |>).
    assert (sendable n1) as [[] Hr] by (by apply sendable_commit).
    destruct (_ && _); unfold app_restore_snapshot, app_reload; repeat case_match; (split; [|done]); by split.
  - destruct (_ <? _)%Z; [by apply sendable_dirty, sendable_commit|].
    destruct (_ <? _)%Z; [|done]. apply sendable_dirty, sendable_commit; [done|]. by apply last_index_int; apply Hs.
Qed.

Lemma sendable_from_leader node message node' ok :
  sendable node → fits_message message → node_append_entries_from_leader node message = Some (node', ok) →
  sendable node'.
Proof.
  intros Hs Hm H. unfold node_append_entries_from_leader in H.
  apply bind_Some in H as ([] & _ & H); cbn [negb] in H; [|by simplify_eq].
  apply bind_Some in H as ([n rebuild] & H & [= <- _]).
  apply (for_each_inv (λ st, sendable st.1)) in H; [by apply sendable_finish| |done].
  intros e s1 s2 He Hs1 Hst. eapply sendable_entry_step; [exact Hs1| |exact Hst].
  eapply Forall_forall; [by apply message_parts|done].
Qed.

Lemma append_response_fits node message ok :
  sendable node → fits_message message → fits_message (append_response node message ok).
Proof.
  intros [Hf Hr] Hm. destruct (message_parts _ Hm) as (_ & Hs & _). apply message_fits_intro; try done.
  - apply Hf.
  - by apply fits_source.
  - by apply fits_target.
  - by apply last_index_int.
  - simpl. unfold RAFT_MAX_BATCH. lia.
Qed.

Lemma sendable_append_entries node message clock node' :
  sendable node → fits_message message → node_handle_append_entries node message clock = Some node' →
  sendable node'.
Proof.
  intros Hs Hm H. unfold node_handle_append_entries in H.
  pose proof (sendable_term_update _ _ Hs Hm) as Hs'. revert H Hs'.
  generalize (node_handle_term_update node message) as n. clear node Hs. intros n H Hs.
  apply bind_Some in H as ([n1 ok] & H & [= <-]).
  assert (sendable n1).
  { case_match; [|by simplify_eq]. eapply sendable_from_leader; [|done|exact H].
    destruct Hs as [[] Hr]. split; [|done]. by split. }
  apply sendable_queue; [done|]. by apply append_response_fits.
Qed.

Lemma sendable_vote_response node message :
  sendable node → fits_message message → sendable (node_handle_vote_response node message).
Proof.
  intros Hs Hm. unfold node_handle_vote_response.
  pose proof (sendable_term_update _ _ Hs Hm) as Hs'. revert Hs'.
  generalize (node_handle_term_update node message) as n. intros n Hs'.
  unfold node_record_vote. repeat case_match; try done. destruct Hs' as [[] Hr]. split; [|done]. by split.
Qed.

Lemma advance_loop_fits fuel node i node' :
  sendable node → (i ≤ node_last_log_index node)%Z → advance_commit_loop fuel node i = Some node' →
  sendable node'.
Proof.
  revert i; induction fuel as [|fuel IH]; intros i Hs Hi H; cbn [advance_commit_loop] in H; [by simplify_eq|].
  destruct (_ <? _)%Z eqn:Hc; [|by simplify_eq]. apply bind_Some in H as (t & _ & H).
  destruct (negb _); [by eapply IH; [| |exact H]; [done|lia]|].
  destruct (node_is_committed_under_current_configuration _ _); [|by eapply IH; [| |exact H]; [done|lia]].
  simplify_eq. bools. apply sendable_dirty, sendable_commit; [done|].
  destruct Hs as [Hf Hr]. pose proof (fits_commit _ Hf). destruct (last_index_int _ Hf Hr) as (_ & Hl & _).
  unfold in_int in *. lia.
Qed.

Lemma sendable_advance node node' :
  sendable node → node_advance_commit_index node = Some node' → sendable node'.
Proof. intros Hs H. eapply advance_loop_fits; [done| |exact H]. done. Qed.

Lemma sendable_next node n :
  sendable node → Forall in_int n → sendable (node <| next_index := n |>).
Proof. intros [[] Hr] Hn. split; [|done]. by split. Qed.

Lemma array_set_Forall {A} (P : A → Prop) l i x l' : Forall P l → P x → array_set l i x = Some l' → Forall P l'.
Proof. unfold array_set. intros Hl Hx H. case_match; simplify_eq. by apply Forall_insert. Qed.

Lemma int_incr_int z z' : in_int z → int_incr z = Some z' → in_int z'.
Proof. unfold int_incr, in_int. intros Hz H. case_match; simplify_eq. bools. lia. Qed.

Lemma sendable_append_response node message node' :
  sendable node → fits_message message → node_handle_append_entries_response node message = Some node' →
  sendable node'.
Proof.
  intros Hs Hm H. unfold node_handle_append_entries_response in H.
  pose proof (sendable_term_update _ _ Hs Hm) as Hs'. revert H Hs'.
  generalize (node_handle_term_update node message) as n. clear node Hs. intros n H Hs.
  destruct (message_parts _ Hm) as (_ & Hsrc & _ & Hmi & _).
  destruct (_ || _); [by simplify_eq|]. destruct (node_peer_index n (source message)) as [p|]; [|by simplify_eq].
  destruct (success message).
  - apply bind_Some in H as (k & Hk & H). apply bind_Some in H as (m & _ & H).
    apply bind_Some in H as (l & Hl & H). eapply sendable_advance; [|exact H].
    assert (sendable (n <| next_index := l |>)) as [[] Hr].
    { apply sendable_next; [done|]. eapply array_set_Forall; [apply Hs| |exact Hl]. by eapply int_incr_int. }
    split; [|done]. by split.
  - apply bind_Some in H as (k & Hk & H). apply bind_Some in H as (l & Hl & H).
    assert (sendable (n <| next_index := l |>)) as [Hf Hr].
    { apply sendable_next; [done|]. case_match; [|simplify_eq; apply Hs].
      eapply array_set_Forall; [apply Hs| |exact Hl]. bools.
      assert (in_int k) by (eapply Forall_lookup_1; [apply Hs|exact Hk]).
      pose proof (fits_snapshot _ (proj1 Hs)). unfold node_log_base_index, in_int in *. lia. }
    eapply sendable_outbox; [by eapply send_only_outbox| |by split]. by eapply send_fits.
Qed.

(** *** New entries, applied entries and compaction *)

Definition fits_command (c : raft_command_t) : Prop := command_fits c = true.

Lemma new_entry_fits node c : sendable node → fits_command c → fits_entry (new_entry node c).
Proof.
  intros [Hf Hr] Hc. unfold fits_entry, entry_fits, new_entry. unfold fits_command, command_fits in Hc.
  cbn [entry_index entry_term entry_leader_id entry_command]. bools.
  rewrite !andb_true_iff, !in_intb_iff. split_and!; try done.
  - by apply last_index_int.
  - apply Hf.
  - by apply fits_source.
Qed.

Lemma sendable_append_entry node c node' :
  sendable node → fits_command c → node_append_entry node c = Some node' → sendable node'.
Proof.
  intros Hs Hc H. apply bind_Some in H as (n & Hp & H). eapply sendable_broadcast; [|exact H].
  eapply sendable_dirty, sendable_push; [done| |exact Hp]. by apply new_entry_fits.
Qed.

Lemma sendable_internal node o k v node' i :
  sendable node → clean o → clean k → clean v →
  node_append_internal_command node o k v = Some (node', i) → sendable node'.
Proof.
  intros Hs Ho Hk Hv H. unfold node_append_internal_command in H. destruct (_ || _); [by simplify_eq|].
  apply bind_Some in H as (n & H & [= <- _]). eapply sendable_append_entry; [done| |exact H].
  unfold fits_command, command_fits. cbn [op key value].
  rewrite !andb_true_iff. split_and!; apply clean_strncpy; try done;
    unfold RAFT_MAX_OP, RAFT_MAX_KEY, RAFT_MAX_VALUE; lia.
Qed.

Lemma refresh_peers_fits node : sendable node → sendable (node_refresh_peers node).
Proof.
  intros [[] Hr]. split; [|done]. unfold node_refresh_peers. split; rsimpl; try done.
  by apply clean_refresh_new, clean_refresh_old.
Qed.

(** The configuration and the request a configuration entry installs. *)
Lemma sendable_configuration node c ms req pend joint final :
  sendable node → Forall clean (old_members c) → Forall clean (new_members c) → Forall clean req →
  sendable (node <| config_state := c |> <| membership_state := ms |> <| joint_config_index := joint |>
                 <| final_config_index := final |>
                 <| requested_membership := req |> <| requested_membership_pending := pend |>).
Proof. intros [[] Hr] Ho Hn Hq. split; [|done]. by split. Qed.

Lemma stop_fits was node : sendable node → sendable (stop_if_expelled was node).
Proof.
  intros [[] Hr]. unfold stop_if_expelled. destruct (_ && _); [|by split]. split; [|done]. by split.
Qed.

Lemma sendable_apply node c : sendable node → fits_command c → sendable (node_apply_command node c).
Proof.
  intros Hs Hc. assert (Forall clean (decode_member_list (value c) RAFT_MAX_NODES)) as Hd.
  { apply clean_decode. unfold fits_command, command_fits in Hc. bools. by eapply chars_fit_clean. }
  assert (Forall clean (old_members (config_state node))) as Ho by apply Hs.
  unfold node_apply_command. destruct (_ || _).
  2:{ case_match; [|done]. destruct Hs as [[] Hr]. split; [|done]. by split. }
  unfold node_apply_internal_command.
  destruct (streq _ _); [|destruct (streq _ _); [|destruct (streq _ _); [|done]]].
  - unfold apply_set_maxlog. case_match; [|done]. destruct Hs as [[] Hr]. split; [|done]. by split.
  - unfold apply_enter_joint. destruct (_ <=? _)%Z; [done|]. destruct (_ <? _)%nat; [|done].
    apply sendable_dirty, refresh_peers_fits.
    exact (sendable_configuration _ (configuration_set_joint _ _ _) _ _ _ _ (final_config_index node) Hs
             (clean_normalize _ _ Ho) (clean_normalize _ _ Hd) Hd).
  - unfold apply_leave_joint. destruct (_ <=? _)%Z; [done|]. destruct (_ <? _)%nat; [|done].
    apply stop_fits, sendable_dirty, refresh_peers_fits.
    exact (sendable_configuration _ (configuration_set_stable _ _) _ [] _ _ _ Hs
             (clean_normalize _ _ Hd) (Forall_nil_2 _) (Forall_nil_2 _)).
Qed.

Lemma apply_loop_fits fuel node node' :
  sendable node → apply_loop fuel node = Some node' → sendable node'.
Proof.
  revert node; induction fuel as [|fuel IH]; intros node Hs H; cbn [apply_loop] in H; [by simplify_eq|].
  destruct (_ <? _)%Z; [|by simplify_eq]. apply bind_Some in H as (e & He & H).
  eapply IH; [|exact H]. apply sendable_dirty, sendable_apply.
  - destruct Hs as [[] Hr]. split; [|done]. by split.
  - apply log_at_fits in He; [by apply entry_parts|]. destruct Hs as [[] Hr]. by split.
Qed.

Lemma sendable_drive node node' :
  sendable node → node_maybe_drive_membership node = Some node' → sendable node'.
Proof.
  intros Hs H. unfold node_maybe_drive_membership in H.
  assert (clean (encode_member_list (requested_membership node) RAFT_MAX_VALUE)) as Hv
    by (apply clean_encode, Hs).
  destruct (_ || _); [by simplify_eq|].
  destruct (_ && _ && _); [|destruct (_ && _ && _); [|destruct (_ && _ && _); [|destruct (_ && _ && _)]]];
    try (simplify_eq; done).
  - apply bind_Some in H as ([n i] & H & [= <-]). apply sendable_internal in H as [[] Hr]; try done.
    destruct (_ <? _)%Z; (split; [|done]); by split.
  - injection H as <-. destruct Hs as [[] Hr]. split; [|done]. by split.
  - apply bind_Some in H as ([n i] & H & [= <-]). apply sendable_internal in H as [[] Hr]; try done.
    destruct (_ <? _)%Z; (split; [|done]); by split.
  - injection H as <-. destruct Hs as [[] Hr]. split; [|done]. by split.
Qed.

Lemma compact_fits node node' ops : node_fits node → node_do_compact node = Some (node', ops) → node_fits node'.
Proof.
  intros Hf H. unfold node_do_compact in H. apply bind_Some in H as (t & _ & H).
  destruct (t <=? _)%Z eqn:H1; [by simplify_eq|]. destruct (_ <? t)%Z eqn:H2; [by simplify_eq|].
  apply bind_Some in H as (term & Ht & [= <- _]). apply term_at_fits in Ht; [|done]. bools.
  pose proof (fits_snapshot _ Hf). destruct Hf.
  destruct (_ <=? _)%nat eqn:Hk; split; rsimpl; try done; try lia; bools; unfold memmove_down.
  - apply Forall_app; split; [by apply Forall_take, Forall_drop|by apply Forall_drop].
  - rewrite length_app, length_take, !length_drop. lia.
Qed.

End Fits.
