(* ===== verification/FitsProps.v ===== *)
(** What a tick hands the transport: every message is a value of the struct
    [raft_message_t], and the fields of the node stay values of their types. *)
From S2P Require Import Prelude CString Types Config NodeLog Samples Replication Handlers HandlerFacts Storage MemTransport Membership Fsm FsmFacts FsmProps MessageLayout Fits.

Section Ticks.
  Context {U : Type}.
  Implicit Types node : raft_node_t U.

(** *** The actions of the role machine *)

Lemma sendable_deadline node i : sendable node → sendable (node <| election_deadline_ms := i |>).
Proof. intros [[] Hr]. split; [|done]. by split. Qed.

Lemma sendable_heartbeat node i : sendable node → sendable (node <| heartbeat_deadline_ms := i |>).
Proof. intros [[] Hr]. split; [|done]. by split. Qed.

Lemma sendable_role node r : sendable node → sendable (node <| machine_state := r |>).
Proof. intros [[] Hr]. split; [|done]. by split. Qed.

Lemma sendable_pending node as_ vs rs :
  sendable node → Forall fits_message as_ → Forall fits_message vs → Forall fits_message rs →
  sendable (node <| pending_append_entries := as_ |> <| pending_vote_requests := vs |> <| pending_votes := rs |>).
Proof. intros [[] Hr] ???. split; [|done]. by split. Qed.

Lemma last_term_fits node t : node_fits node → node_last_log_term node = Some t → in_int t.
Proof.
  intros Hf. unfold node_last_log_term. destruct (_ =? _)%nat; intros H; [simplify_eq; apply Hf|].
  apply fmap_Some in H as (e & He & ->). apply array_get_inv in He as [_ He].
  apply (entry_parts e). eapply Forall_lookup_1; [apply Hf|exact He].
Qed.

Lemma vote_request_fits node t peer :
  sendable node → in_int t → clean peer → fits_message (vote_request node t peer).
Proof.
  intros [Hf Hr] Ht Hp.
  apply message_fits_intro; try done; try (unfold in_int, INT_MAX; lia).
  - apply Hf.
  - by apply fits_source.
  - by apply fits_target.
  - by apply last_index_int.
  - simpl. unfold RAFT_MAX_BATCH. lia.
Qed.

Lemma sendable_candidate node clock node' :
  sendable node → action_become_candidate node clock = Some node' → sendable node'.
Proof.
  intros Hs H. unfold action_become_candidate in H. apply bind_Some in H as (t & Ht & H).
  apply int_incr_int in Ht; [|apply Hs].
  match type of H with for_each _ _ ?n0 = _ => assert (sendable n0) as Hs0 end.
  { apply sendable_deadline. unfold node_record_vote. destruct Hs as [[] Hr].
    repeat case_match; (split; [|done]); by split. }
  eapply (for_each_inv sendable); [|exact Hs0|exact H]. cbv beta.
  intros p n1 n2 Hp H1 H2. apply bind_Some in H2 as (u & Hu & [= <-]).
  apply sendable_queue; [done|]. apply vote_request_fits; [done|..].
  - eapply last_term_fits; [apply H1|exact Hu].
  - eapply Forall_forall; [apply Hs0|exact Hp].
Qed.

Lemma sendable_leader node clock node' :
  sendable node → action_become_leader node clock = Some node' → sendable node'.
Proof.
  intros Hs H. unfold action_become_leader in H. apply bind_Some in H as (n1 & Hl & H).
  apply bind_Some in H as (n2 & Hb & [= <-]). apply sendable_heartbeat.
  eapply sendable_broadcast; [|exact Hb]. eapply (for_each_inv sendable); [|shelve|exact Hl]. cbv beta.
  intros i m1 m2 _ H1 H2. apply bind_Some in H2 as (nx & Hn & H2). apply bind_Some in H2 as (mt & Hm & H2).
  apply bind_Some in H2 as (nx' & Hn' & [= <-]).
  destruct (last_index_int _ (proj1 H1) (proj2 H1)) as (_ & _ & Hlast).
  assert (Forall in_int nx) as Hx by (eapply array_set_Forall; [apply H1|exact Hlast|exact Hn]).
  assert (Forall in_int nx') as Hx'.
  { case_match; [|by simplify_eq]. eapply array_set_Forall; [exact Hx| |exact Hn'].
    destruct H1 as [Hf Hr]. pose proof (fits_snapshot _ Hf). unfold room, node_log_base_index, in_int in *. lia. }
  apply (sendable_next _ nx') in H1 as [[] Hr]; [|done]. split; [|done]. by split.
  Unshelve. destruct Hs as [[] Hr]. split; [|done]. by split.
Qed.

Lemma sendable_action t node clock node' :
  t ∈ RAFT_TRANSITIONS → sendable node → action t node clock = Some node' → sendable node'.
Proof.
  intros Ht Hs H.
  assert (Forall fits_message (pending_append_entries node) ∧ Forall fits_message (pending_vote_requests node) ∧
          Forall fits_message (pending_votes node)) as (Pa & Pv & Pr) by apply Hs.
  assert (∀ n', action_handle_append_entries node clock = Some n' → sendable n') as H1.
  { intros n' Hx. unfold action_handle_append_entries in Hx. 
    destruct (pending_append_entries node) as [|m l] eqn:E; [by simplify_eq|]. inversion Pa; subst.
    eapply sendable_append_entries; [|done|exact Hx]. destruct Hs as [[] Hr]. split; [|done]. by split. }
  assert (∀ n', action_handle_vote_request node clock = Some n' → sendable n') as H2.
  { intros n' Hx. unfold action_handle_vote_request in Hx.
    destruct (pending_vote_requests node) as [|m l] eqn:E; [by simplify_eq|]. inversion Pv; subst.
    eapply sendable_vote_request; [|done|exact Hx]. destruct Hs as [[] Hr]. split; [|done]. by split. }
  assert (∀ n', action_handle_vote node clock = Some n' → sendable n') as H3.
  { intros n' Hx. unfold action_handle_vote in Hx.
    destruct (pending_votes node) as [|m l] eqn:E; [by simplify_eq|]. injection Hx as <-. inversion Pr; subst.
    apply sendable_vote_response; [|done]. destruct Hs as [[] Hr]. split; [|done]. by split. }
  assert (∀ n', action_send_heartbeat node clock = Some n' → sendable n') as H4.
  { intros n' Hx. apply bind_Some in Hx as (n1 & Hb & [= <-]). apply sendable_heartbeat.
    by eapply sendable_broadcast. }
  assert (∀ n', action_ignore_vote node clock = Some n' → sendable n') as H5.
  { intros n' [= <-]. destruct Hs as [[] Hr]. split; [|done]. split; rsimpl; try done.
    split_and!; [done..|]. by apply Forall_tail. }
  assert (∀ n', action_ignore_vote_request node clock = Some n' → sendable n') as H6.
  { intros n' [= <-]. destruct Hs as [[] Hr]. split; [|done]. split; rsimpl; try done.
    split_and!; [done| |done]. by apply Forall_tail. }
  assert (∀ n', action_back_to_follower_due_to_timeout node clock = Some n' → sendable n') as H7.
  { intros n' [= <-]. destruct Hs as [[] Hr]. split; [|done]. by split. }
  pose proof (sendable_candidate node clock) as H8. pose proof (sendable_leader node clock) as H9.
  unfold RAFT_TRANSITIONS in Ht.
  repeat (apply elem_of_cons in Ht as [->|Ht]; [cbn [action] in H; by eauto|]). by apply elem_of_nil in Ht.
Qed.

(** *** Latching and dumping *)

Lemma sendable_latch_message node m node' :
  sendable node → fits_message m → latch_message node m = Some node' → sendable node'.
Proof.
  intros Hs Hm H. unfold latch_message in H.
  assert (∀ q, Forall fits_message q → Forall fits_message (queue_push RAFT_MAX_QUEUE q m)) as Hq.
  { intros q Hq. apply Forall_forall. intros x [Hx| ->]%queue_push_elem; [|done].
    exact (proj1 (Forall_forall _ _) Hq x Hx). }
  destruct (kind m); [| | |by eapply sendable_append_response];
    injection H as <-; destruct Hs as [[? ? ? ? ? ? ? ? ? ? ? ? ? (? & ? & ?) ?] Hr]; (split; [|done]);
    split; rsimpl; try done; split_and!; try done; by apply Hq.
Qed.

Lemma sendable_latch_commands cs node node' :
  sendable node → Forall fits_command cs → latch_commands cs node = Some node' → sendable node'.
Proof.
  revert node; induction cs as [|c cs IH]; intros node Hs Hc H; cbn [latch_commands] in H; [by simplify_eq|].
  inversion Hc; subst. destruct (_ <? _)%nat; [|by simplify_eq]. apply bind_Some in H as (n & Hn & H).
  eapply IH; [|done|exact H]. by eapply sendable_append_entry.
Qed.

(** What a node receives in a tick. *)
Definition received {T} (tr : raft_transport_t T) (ctx : T) : list raft_message_t * list raft_command_t :=
  ((recv tr ctx RAFT_MAX_QUEUE).2, (recv_commands tr (recv tr ctx RAFT_MAX_QUEUE).1 RAFT_MAX_QUEUE).2).

Lemma sendable_latch {T} (tr : raft_transport_t T) node ctx node' ctx' :
  sendable node → Forall fits_message (received tr ctx).1 → Forall fits_command (received tr ctx).2 →
  raft_node_latch_inputs tr node ctx = Some (node', ctx') → sendable node'.
Proof.
  intros Hs Hm Hc H. unfold raft_node_latch_inputs in H. unfold received in Hm, Hc. cbn [fst snd] in Hm, Hc.
  cbv zeta in H.
  match type of H with context [running ?n] => assert (sendable n) as Hs0 by (by apply sendable_pending); set (n0 := n) in * end.
  clearbody n0. destruct (negb _).
  { injection H as <- _. destruct Hs0 as [[] Hr]. split; [|done]. by split. }
  destruct (recv tr ctx RAFT_MAX_QUEUE) as [c1 ms]. apply bind_Some in H as (n1 & H1 & H). cbn [fst snd] in *.
  apply (for_each_inv sendable) in H1; [| |done].
  2:{ intros m m1 m2 Hin Hx Hl. eapply sendable_latch_message; [done| |exact Hl].
      exact (proj1 (Forall_forall _ _) Hm m Hin). }
  destruct (recv_commands tr c1 RAFT_MAX_QUEUE) as [c2 cs]. cbn [snd] in Hc.
  destruct (node_is_leader n1); [|by simplify_eq].
  apply bind_Some in H as (n2 & H2 & [= <- _]). exact (sendable_latch_commands _ _ _ H1 Hc H2).
Qed.

Lemma dump_fits node node' ops : sendable node → dump_prepare node = Some (node', ops) → node_fits node'.
Proof.
  intros Hs H. unfold dump_prepare in H. apply bind_Some in H as (n1 & H1 & H).
  assert (sendable n1) as Hs1 by (case_match; [by eapply sendable_advance|by simplify_eq]).
  apply bind_Some in H as (n2 & H2 & H). apply apply_loop_fits in H2; [|done].
  apply bind_Some in H as (n3 & H3 & H). apply sendable_drive in H3; [|done].
  apply bind_Some in H as (b & _ & H). apply bind_Some in H as ([n4 ops4] & H4 & H).
  assert (node_fits n4) as Hf4.
  { destruct b; [eapply compact_fits; [apply H3|exact H4]|]. simplify_eq. apply H3. }
  destruct (persist_dirty n4); injection H as <- _; [|done]. destruct Hf4. by split.
Qed.

End Ticks.

Section Props.
  Context {U : Type}.
  Implicit Types node : raft_node_t U.
  Context {T : Type} (tr : raft_transport_t T) (inflight : T → raft_message_t → Prop).
  Context {Htr : TransportLaws tr inflight}.
  Context (evaluate : list (transition (U:=U)) → raft_node_t U → Z → option (transition (U:=U))).
  Context {Hev : RuntimeLaws evaluate}.

Lemma send_messages_inflight ms ctx m :
  inflight (send_messages tr ms ctx) m → inflight ctx m ∨ m ∈ ms.
Proof using Htr.
  unfold send_messages. revert ctx; induction ms as [|x ms IH]; intros ctx H; [by left|]. cbn [fold_left] in H.
  apply IH in H as [H|H]; [|by right; right]. apply send_inflight in H as [H| ->]; [by left|by right; left].
Qed.

Lemma latch_inflight node ctx node' ctx' m :
  raft_node_latch_inputs tr node ctx = Some (node', ctx') → inflight ctx' m → inflight ctx m.
Proof using Htr.
  intros H Hm. unfold raft_node_latch_inputs in H. destruct (negb _); [by simplify_eq|].
  destruct (recv tr ctx RAFT_MAX_QUEUE) as [c1 ms] eqn:E1. apply bind_Some in H as (n1 & _ & H).
  destruct (recv_commands tr c1 RAFT_MAX_QUEUE) as [c2 cs] eqn:E2.
  assert (c2 = ctx') as <- by (destruct (node_is_leader n1); opts; done).
  apply (recv_keeps ctx RAFT_MAX_QUEUE). rewrite E1. apply (recv_commands_keeps _ RAFT_MAX_QUEUE).
  cbn [fst]. by rewrite E2.
Qed.

(** C17: a tick hands the transport only values of [raft_message_t].  When the
    fields of the node, the messages in flight to it and the client commands are
    values of their types, so are the node's fields after the tick, every message
    it has sent, and every message in flight then. *)
Theorem tick_sends_struct_values clock node ctx disk :
  node_inv node → (current_term node < INT_MAX)%Z → (∀ m, inflight ctx m → benign node m) →
  node_fits node → room node → (∀ m, inflight ctx m → fits_message m) →
  Forall fits_command (received tr ctx).2 →
  ∃ node' disk' latched ctx1 ms,
    raft_node_latch_inputs tr node ctx = Some (latched, ctx1) ∧
    node_tick tr evaluate clock node ctx disk = Some (node', send_messages tr ms ctx1, disk') ∧
    node_fits node' ∧ Forall fits_message ms ∧
    (∀ m, inflight (send_messages tr ms ctx1) m → fits_message m).
Proof using Htr Hev.
  intros Hi Ht Hb Hf Hr Hm Hc.
  destruct (node_tick_total tr inflight evaluate clock node ctx disk Hi Ht Hb) as (node' & ctx' & disk' & H & _).
  pose proof H as Htick. unfold node_tick in H. apply bind_Some in H as ([n1 ctx1] & H1 & H).
  apply bind_Some in H as (n2 & H2 & H).
  assert (sendable n1) as Hs1.
  { eapply sendable_latch; [by split| |exact Hc|exact H1]. apply Forall_forall. intros m Hin.
    exact (Hm m (recv_inflight _ _ _ Hin)). }
  assert (sendable n2) as Hs2.
  { destruct (evaluate RAFT_TRANSITIONS n1 clock) as [t|] eqn:E; cbn [commit_transition] in H2;
      [|by injection H2 as <-].
    apply evaluate_some in E as (pre & post & Hts & _). eapply sendable_action; [|by apply sendable_role|exact H2].
    rewrite Hts. apply elem_of_app. right. by left. }
  assert (∃ ms, ctx' = send_messages tr ms ctx1 ∧ Forall fits_message ms ∧ node_fits node') as (ms & -> & Hms & Hf').
  { unfold raft_node_dump_outputs in H. destruct (running n2).
    - apply bind_Some in H as ([n3 ops] & H3 & [= <- <- _]). apply dump_fits in H3; [|done].
      exists (outbox n3). split_and!; [done|apply H3|]. destruct H3. by split.
    - injection H as <- <- _. exists []. split_and!; [done|done|]. destruct Hs2 as [[] _]. by split. }
  exists node', disk', n1, ctx1, ms. split_and!; [done..|].
  intros m [Hin|Hin]%send_messages_inflight; [by eapply Hm, latch_inflight|].
  exact (proj1 (Forall_forall _ _) Hms m Hin).
Qed.

End Props.

(** ** Witness *)

Definition node_fitsb {U} (node : raft_node_t U) : bool :=
  chars_fit RAFT_MAX_ID (node_id (config node))
  && forallb (lacks nul) (peers (config node)) && forallb (lacks nul) (old_members (config_state node))
  && forallb (lacks nul) (new_members (config_state node)) && forallb (lacks nul) (requested_membership node)
  && in_intb (current_term node) && forallb entry_fits (log node)
  && (length (log node) =? RAFT_MAX_LOG)%nat && (log_count node <=? RAFT_MAX_LOG)%nat
  && (0 <=? snapshot_last_included_index node)%Z && in_intb (snapshot_last_included_term node)
  && in_intb (commit_index node) && forallb in_intb (next_index node)
  && forallb message_fits (pending_append_entries node) && forallb message_fits (pending_vote_requests node)
  && forallb message_fits (pending_votes node) && forallb message_fits (outbox node).

Lemma node_fitsb_sound {U} (node : raft_node_t U) : node_fitsb node = true → node_fits node.
Proof.
  unfold node_fitsb. intros H. bools.
  split; try done; try (by apply in_intb_iff); try (by apply forallb_Forall).
  - eapply Forall_impl; [by apply forallb_Forall|]. intros z. apply in_intb_iff.
  - split_and!; by apply forallb_Forall.
Qed.

Lemma tick_sends_struct_values_witness :
  ∃ node' disk' latched ctx1 ms,
    raft_node_latch_inputs (raft_mem_transport_make "a") leader_a reply_in_flight = Some (latched, ctx1) ∧
    node_tick (raft_mem_transport_make "a") first_enabled 60 leader_a reply_in_flight ∅ =
      Some (node', send_messages (raft_mem_transport_make "a") ms ctx1, disk') ∧
    Forall fits_message ms.
Proof.
  destruct (tick_sends_struct_values (raft_mem_transport_make "a") queued first_enabled 60 leader_a
              reply_in_flight ∅) as (node' & disk' & n1 & c1 & ms & Hl & Ht & _ & Hms & _).
  - apply node_invb_sound. vm_compute. reflexivity.
  - vm_compute. reflexivity.
  - intros m ->%queued_reply. split; [intros _ _; vm_compute; done|discriminate|done|vm_compute; done].
  - apply node_fitsb_sound. vm_compute. reflexivity.
  - unfold room. vm_compute. reflexivity.
  - intros m ->%queued_reply. vm_compute. reflexivity.
  - apply Forall_nil_2 || (vm_compute; constructor).
  - exists node', disk', n1, c1, ms. split_and!; [exact Hl|exact Ht|exact Hms].
Defined.
