(* ===== verification/CliProcess.v ===== *)
(** What the command line machines of the two example programs have in common
    ([c/examples/demo_app/src/cli_fsm.c], [c/examples/counter/src/counter_cli.c]): the
    process they work on, the tokens of a line, and the queue of join requests.

    A machine works on objects it shares with the node: the process state is threaded
    through a monad, in which [None] is what C leaves undefined.  An array on the stack
    is not initialised, so [strncpy(dst, src, size - 1)] into it leaves a source of
    [size - 1] or more bytes without its NUL ([copy_uninit]). *)
From S2P Require Import Prelude StateMonad CString Types Config NodeLog Handlers Storage MemTransport Membership Fsm Lifecycle MessageLayout TcpTransport TcpPeers.

(** *** Pure helpers *)

(** [strrchr(s, c)]: the text before the last [c] and the text after it. *)
Fixpoint str_rbreak (c : Ascii.ascii) (s : string) : option (string * string) :=
  match s with
  | "" => None
  | String d s =>
      match str_rbreak c s with
      | Some (a, b) => Some (String d a, b)
      | None => if is_char c d then Some ("", s) else None
      end
  end.

(** [-1] is [None]. *)
Definition parse_host_port (arg : string) (hostsz : nat) : option (string * Z) :=
  '(host, port) ← str_rbreak ":"%char arg;
  if (String.length host =? 0)%nat || (hostsz <=? String.length host)%nat then None
  else if (0 <? atoi port)%Z then Some (host, atoi port) else None.

Definition copy_uninit (size : nat) (src : string) : option string :=
  if (String.length src <? size - 1)%nat then Some src else None.

Definition member_contains (members : list string) (id : string) : bool :=
  existsb (λ m, streq m id) members.

Definition peer_list_contains (peers : list raft_tcp_peer_t) (id : string) : bool :=
  existsb (λ p, streq (peer_id p) id) peers.

Definition role_name (r : raft_role_t) : string :=
  match r with
  | RAFT_ROLE_LEADER => "LEADER"
  | RAFT_ROLE_CANDIDATE => "CANDIDATE"
  | RAFT_ROLE_FOLLOWER => "FOLLOWER"
  end.

Definition role_eqb (r s : raft_role_t) : bool := bool_decide (r = s).

Definition print_nat (n : nat) : string := print_int (Z.of_nat n).
Definition dquote : string := String "034"%char "".
Definition nl : string := String newline "".

(** [strtok(p, delims)] repeatedly, [n] times at most. *)
Fixpoint tokens (n : nat) (delim : Ascii.ascii → bool) (cur s : string) : list string :=
  match n with
  | O => []
  | S n' =>
      (fix go (cur s : string) : list string :=
         match s with
         | "" => if streq cur "" then [] else [cur]
         | String c s =>
             if delim c then if streq cur "" then go "" s else cur :: tokens n' delim "" s
             else go (cur +:+ String c "") s
         end) cur s
  end.
Definition blank (c : Ascii.ascii) : bool := is_char " "%char c || is_char "009"%char c.

Definition chop_newline (s : string) : string :=
  match str_break newline s with Some (l, _) => l | None => s end.

(** The loop over the joins that have arrived. *)
Definition known_join (joins : list raft_tcp_join_req_t) (jr : raft_tcp_join_req_t) : bool :=
  existsb (λ j, streq (jr_node_id j) (jr_node_id jr) && (forwarded j =? forwarded jr)%Z) joins.

Fixpoint add_joins (joins incoming : list raft_tcp_join_req_t) : list raft_tcp_join_req_t :=
  match incoming with
  | [] => joins
  | jr :: incoming =>
      if negb (known_join joins jr) && (length joins <? RAFT_MAX_NODES)%nat
      then add_joins (joins ++ [jr]) incoming else add_joins joins incoming
  end.

(** [pending_joins\[i\] = pending_joins\[--pending_join_count\]]. *)
Definition remove_swap {A} (i : nat) (l : list A) : list A :=
  match last l with
  | Some x => take (length l - 1) (<[i := x]> l)
  | None => []
  end.

(** What [select] and [fgets] find on the standard input. *)
Inductive stdin_t : Type :=
| StdinNothing
| StdinEof
| StdinLine (l : string).

(** *** The process

    The state of the machine [C], the node with its application [U], the transport over
    the network [N], the disk, what was printed, and whether [rx_coop_exec_stop] was
    called. *)
Record process_t (C U N : Type) : Type := mkProcess {
  cli : C;
  node : raft_node_t U;
  tcp : raft_tcp_transport_t N;
  files : disk_t;
  out : list string;
  err : list string;
  stopped : bool;
}.
Arguments mkProcess {C U N}.
Arguments cli {C U N}.
Arguments node {C U N}.
Arguments tcp {C U N}.
Arguments files {C U N}.
Arguments out {C U N}.
Arguments err {C U N}.
Arguments stopped {C U N}.

#[export] Instance process_eta C U N : Eta (process_t C U N) := λ d,
  mkProcess (cli d) (node d) (tcp d) (files d) (out d) (err d) (stopped d).

(** The two queues every machine keeps: join requests and forwarded commands. *)
Class RequestQueues (C : Type) : Type := {
  joins_of : C → list raft_tcp_join_req_t;
  with_joins : list raft_tcp_join_req_t → C → C;
  cmds_of : C → list raft_command_t;
  with_cmds : list raft_command_t → C → C;
}.

Class RequestQueuesLaws (C : Type) `{RequestQueues C} : Prop := {
  joins_of_with_joins l c : joins_of (with_joins l c) = l;
  joins_of_with_cmds l c : joins_of (with_cmds l c) = joins_of c;
  cmds_of_with_joins l c : cmds_of (with_joins l c) = cmds_of c;
  cmds_of_with_cmds l c : cmds_of (with_cmds l c) = l;
}.

(** *** The operations *)

Section Operations.
  Context {C U N : Type}.
  Abbreviation M := (M (process_t C U N)).

(** An operation of the transport, with its result; one that also writes files;
    one of the node; one of the machine. *)
Definition on_tcp {A} (f : raft_tcp_transport_t N → raft_tcp_transport_t N * A) : M A :=
  λ d, Some ((f (tcp d)).2, d <| tcp := (f (tcp d)).1 |>).
Definition on_tcp_files (f : raft_tcp_transport_t N → raft_tcp_transport_t N * list fs_op) : M unit :=
  modify (λ d, d <| tcp := (f (tcp d)).1 |> <| files := fs_run (f (tcp d)).2 (files d) |>).
Definition on_node (f : raft_node_t U → raft_node_t U) : M unit := modify (λ d, d <| node := f (node d) |>).
Definition on_cli (f : C → C) : M unit := modify (λ d, d <| cli := f (cli d) |>).

Definition printf (s : string) : M unit := modify (λ d, d <| out := out d ++ [s] |>).
Definition puts (s : string) : M unit := printf (s +:+ nl).
Definition eprintf (s : string) : M unit := modify (λ d, d <| err := err d ++ [s] |>).

Definition is_leader : M bool := gets (λ d, role_eqb (machine_state (node d)) RAFT_ROLE_LEADER).

Definition request_change (members : list string) : M unit :=
  on_node (λ n, (raft_node_request_membership_change n members).1).

Section Sending.
  Context (sockets : sockets_t N).
  Context {layout : MessageLayout} {frames : Layout raft_tcp_frame_t frame_fits}.
  Context {requests : Layout raft_tcp_join_req_t join_req_fits} {commands : Layout raft_command_t command_fits}.

Definition submit (cmd : raft_command_t) : M Z :=
  n ← gets node; on_tcp (λ t, raft_node_submit_command (raft_tcp_transport_make sockets) n t cmd).

Definition forward_cmd (host : string) (port : Z) (cmd : raft_command_t) : M Z :=
  on_tcp (λ t, raft_tcp_transport_forward_cmd sockets t host port cmd).

Definition flood (jr : raft_tcp_join_req_t) : M unit :=
  on_tcp (λ t, (raft_tcp_transport_flood_join sockets t jr, tt)).

Definition announce_self (host : string) (port : Z) : M unit :=
  _ ← on_tcp (λ t, raft_tcp_transport_announce_self sockets t host port); mret tt.

(** The one-time steps of the request of a new node, and its [forwarded] afterwards. *)
Definition join_steps (jr : raft_tcp_join_req_t) : M Z :=
  if (forwarded jr =? RAFT_JOIN_ORIGINAL)%Z
  then _ ← flood (jr <| forwarded := RAFT_JOIN_FORWARDED |>); _ ← announce_self (jr_host jr) (jr_port jr);
       mret RAFT_JOIN_PENDING
  else if (forwarded jr =? RAFT_JOIN_FORWARDED)%Z
  then _ ← announce_self (jr_host jr) (jr_port jr); mret RAFT_JOIN_PENDING
  else mret (forwarded jr).

End Sending.

(** *** The queues *)

Context `{RequestQueues C}.

(** What has arrived is taken over from the transport. *)
Definition receive : M unit :=
  c ← gets cli;
  cmds ← on_tcp (λ t, raft_tcp_transport_recv_fwd_cmds t (RAFT_MAX_QUEUE - length (cmds_of c)));
  _ ← on_cli (λ c, with_cmds (cmds_of c ++ cmds) c);
  incoming ← on_tcp (λ t, raft_tcp_transport_recv_joins t RAFT_MAX_NODES);
  on_cli (λ c, with_joins (add_joins (joins_of c) incoming) c).

Definition set_join (i : nat) (jr : raft_tcp_join_req_t) : M unit :=
  on_cli (λ c, with_joins (<[i := jr]> (joins_of c)) c).

(** The entry is done: the last one takes its place. *)
Definition drop_join (i : nat) : M unit :=
  on_cli (λ c, with_joins (remove_swap i (joins_of c)) c).

(** [while (i < pending_join_count)]: [fuel] iterations at most.  An iteration returns
    the index of the next entry. *)
Fixpoint joins_loop (step : nat → raft_tcp_join_req_t → M nat) (fuel i : nat) : M unit :=
  match fuel with
  | O => mret tt
  | S fuel =>
      joins ← gets (λ d, joins_of (cli d));
      match joins !! i with
      | None => mret tt
      | Some jr => i ← step i jr; joins_loop step fuel i
      end
  end.

Definition each_join (step : nat → raft_tcp_join_req_t → M nat) : M unit :=
  joins ← gets (λ d, joins_of (cli d)); joins_loop step (length joins) 0.

End Operations.
