(* ===== verification/CliFacts.v ===== *)
(** What the operations of a command line machine keep and when they are defined:
    the facts that hold for any machine with request queues. *)
From S2P Require Import Prelude StateMonad CString Types Config NodeLog Handlers Storage MemTransport Membership Fsm Lifecycle MessageLayout TcpTransport TcpPeers CliProcess.

(** ** Addresses and ids that fit their arrays *)

Definition short (id : string) : Prop := (String.length id < RAFT_MAX_ID - 1)%nat.
Definition host_ok (host : string) : Prop := (String.length host < 255)%nat.

Record join_ok (jr : raft_tcp_join_req_t) : Prop := {
  join_ok_id : short (jr_node_id jr);
  join_ok_host : host_ok (jr_host jr);
  join_ok_count : (0 ≤ member_count jr ≤ Z.of_nat (length (jr_members jr)))%Z;
  join_ok_members : Forall (λ p, short (peer_id p) ∧ host_ok (peer_host p)) (jr_members jr);
}.

Definition cmd_ok (c : raft_command_t) : Prop := op c = "cluster.fwd_add" → short (key c).

Definition peers_ok (ps : list raft_tcp_peer_t) : Prop :=
  Forall (λ p, host_ok (peer_host p)) ps ∧ (length ps ≤ RAFT_MAX_PEERS)%nat.

(** ** What an operation does not touch *)

(** The part of the state the join requests are about. *)
Record view : Type := mkView {
  v_joins : list raft_tcp_join_req_t;
  v_cmds : list raft_command_t;
  v_config : raft_cluster_configuration_t;
  v_id : string;
  v_role : raft_role_t;
  v_host : string;
  v_peers : list raft_tcp_peer_t;
}.

Record view_ok (v : view) : Prop := {
  view_ok_joins : Forall join_ok (v_joins v);
  view_ok_cmds : Forall cmd_ok (v_cmds v);
  view_ok_old : Forall short (old_members (v_config v));
  view_ok_new : Forall short (new_members (v_config v));
  view_ok_id : short (v_id v);
  view_ok_host : host_ok (v_host v);
  view_ok_peers : peers_ok (v_peers v);
}.

Lemma copy_short id : short id → copy_uninit RAFT_MAX_ID id = Some id.
Proof. unfold short, copy_uninit. intros H. by rewrite (proj2 (Nat.ltb_lt _ _)). Qed.

Lemma copy_host h : host_ok h → copy_uninit 256 h = Some h.
Proof. unfold host_ok, copy_uninit. intros H. by rewrite (proj2 (Nat.ltb_lt _ _)). Qed.

Lemma copy_all ids : Forall short ids → mapM (copy_uninit RAFT_MAX_ID) ids = Some ids.
Proof. intros H. apply mapM_Some. induction H; constructor; [by apply copy_short|done]. Qed.

Lemma host_ok_copy h : host_ok h → strncpy 256 h = h.
Proof. unfold host_ok. intros H. apply strncpy_fits. lia. Qed.

Lemma find_peer_elem id ps p : find_peer id ps = Some p → p ∈ ps ∧ peer_id p = id.
Proof.
  induction ps as [|q ps IH]; cbn [find_peer]; [done|]. destruct (streq (peer_id q) id) eqn:E.
  - intros [= ->]. apply streq_true in E. split; [by left|done].
  - intros [Hp Hid]%IH. split; [by right|done].
Qed.

(** Only the table of peers has changed, and it is still all right. *)
Definition learnt (v v' : view) : Prop :=
  v' = mkView (v_joins v) (v_cmds v) (v_config v) (v_id v) (v_role v) (v_host v) (v_peers v') ∧
  (peers_ok (v_peers v) → peers_ok (v_peers v')).

#[export] Instance learnt_preorder : PreOrder learnt.
Proof.
  split; [intros []; by split|]. intros v1 v2 v3 [-> H1] [-> H2]. split; [done|]. auto.
Qed.

Lemma learnt_eq v v' : v' = v → learnt v v'.
Proof. by intros ->. Qed.

Lemma learnt_ok v v' : learnt v v' → view_ok v → view_ok v'.
Proof. intros [-> H] []. split; cbn in *; auto. Qed.

Section View.
  Context {C U N : Type} `{RQ : RequestQueues C}.
  Abbreviation M := (M (process_t C U N)).
  Implicit Types d : process_t C U N.

Definition view_of d : view :=
  mkView (joins_of (cli d)) (cmds_of (cli d)) (config_state (node d)) (node_id (config (node d)))
    (machine_state (node d)) (own_host (tcp d)) (tcp_peers (tcp d)).

(** Defined everywhere, and keeps the view. *)
Class Keeps {A} (m : M A) := keeps d : wp m (λ _ d', view_of d' = view_of d) d.

#[export] Instance keeps_ret {A} (a : A) : Keeps (mret a).
Proof. intros d. by apply wp_ret. Qed.

#[export] Instance keeps_gets {A} (f : process_t C U N → A) : Keeps (gets f).
Proof. intros d. by apply wp_gets. Qed.

#[export] Instance keeps_bind {A B} (m : M A) (f : A → M B) :
  Keeps m → (∀ a, Keeps (f a)) → Keeps (m ≫= f).
Proof.
  intros Hm Hf d. apply wp_bind. eapply wp_mono; [apply Hm|]. intros a d1 E1. cbv beta in E1.
  eapply wp_mono; [apply Hf|]. intros b d2 E2. cbv beta in E2. congruence.
Qed.

#[export] Instance keeps_if {A} (b : bool) (m1 m2 : M A) : Keeps m1 → Keeps m2 → Keeps (if b then m1 else m2).
Proof. by destruct b. Qed.

#[export] Instance keeps_when b (m : M unit) : Keeps m → Keeps (when b m).
Proof. intros Hm. unfold when. apply _. Qed.

#[export] Instance keeps_option {A B} (o : option A) (f : A → M B) (m : M B) :
  (∀ a, Keeps (f a)) → Keeps m → Keeps (match o with Some a => f a | None => m end).
Proof. by destruct o. Qed.

#[export] Instance keeps_pair {A B D} (p : A * B) (f : A → B → M D) :
  (∀ a b, Keeps (f a b)) → Keeps (let '(a, b) := p in f a b).
Proof. by destruct p. Qed.

#[export] Instance keeps_each {A} (body : A → M unit) l : (∀ x, Keeps (body x)) → Keeps (each body l).
Proof. intros Hb. induction l as [|x l IH]; cbn [each]; apply _. Qed.

Lemma keeps_modify f : (∀ d, view_of (f d) = view_of d) → Keeps (modify f).
Proof. intros Hf d. by apply wp_modify. Qed.

(** A transport operation that keeps the peers and the own address. *)
Lemma keeps_on_tcp {A} (f : raft_tcp_transport_t N → raft_tcp_transport_t N * A) :
  (∀ t, own_host (f t).1 = own_host t ∧ tcp_peers (f t).1 = tcp_peers t) → Keeps (on_tcp f).
Proof.
  intros Hf d. eexists _, _. split; [reflexivity|]. cbv beta. destruct (Hf (tcp d)) as [Eh Ep].
  unfold view_of. rsimpl. by rewrite Eh, Ep.
Qed.

#[export] Instance keeps_printf s : Keeps (printf s).
Proof. by apply keeps_modify. Qed.
#[export] Instance keeps_puts s : Keeps (puts s).
Proof. unfold puts. apply _. Qed.
#[export] Instance keeps_eprintf s : Keeps (eprintf s).
Proof. by apply keeps_modify. Qed.
#[export] Instance keeps_is_leader : Keeps is_leader.
Proof. unfold is_leader. apply _. Qed.

#[export] Instance keeps_request_change (ms : list string) : Keeps (request_change ms).
Proof.
  apply keeps_modify. intros d. unfold raft_node_request_membership_change.
  destruct (negb _); [done|]. cbv zeta. by case_match.
Qed.

(** Keeps the view when it is all right. *)
Definition kept {A} (m : M A) d : Prop := wp m (λ _ d', view_of d' = view_of d) d.

Lemma kept_bind {A B} (m : M A) (f : A → M B) d :
  kept m d → (∀ a d', view_of d' = view_of d → kept (f a) d') → kept (m ≫= f) d.
Proof.
  intros Hm Hf. apply wp_bind. eapply wp_mono; [exact Hm|]. intros a d1 E1. cbv beta in E1.
  eapply wp_mono; [by apply Hf|]. intros b d2 E2. cbv beta in E2. congruence.
Qed.

Lemma kept_lift {A} (o : option A) a d : o = Some a → kept (lift o) d.
Proof. intros ->. by eexists _, d. Qed.

Lemma kept_reads {A} (f : process_t C U N → option A) a d : f d = Some a → kept (reads f) d.
Proof. intros E. exists a, d. unfold reads. by rewrite E. Qed.

(** Defined, and the rest of the view kept. *)
Definition learns {A} (m : M A) d : Prop := wp m (λ _ d', learnt (view_of d) (view_of d')) d.

Lemma learns_kept {A} (m : M A) d : kept m d → learns m d.
Proof. intros H. eapply wp_mono; [exact H|]. intros a d' E. by apply learnt_eq. Qed.

Lemma learns_bind {A B} (m : M A) (f : A → M B) d :
  learns m d → (∀ a d', learnt (view_of d) (view_of d') → learns (f a) d') → learns (m ≫= f) d.
Proof.
  intros Hm Hf. apply wp_bind. eapply wp_mono; [exact Hm|]. intros a d1 H1. cbv beta in H1.
  eapply wp_mono; [by apply Hf|]. intros b d2 H2. cbv beta in H2. by etrans.
Qed.

End View.

Section Sending.
  Context {C U N : Type} `{RQ : RequestQueues C} (sockets : sockets_t N) (fopen_w : string → bool).
  Context {layout : MessageLayout} {frames : Layout raft_tcp_frame_t frame_fits}.
  Context {requests : Layout raft_tcp_join_req_t join_req_fits} {commands : Layout raft_command_t command_fits}.
  Implicit Types d : process_t C U N.

#[export] Instance keeps_submit cmd : Keeps (C:=C) (U:=U) (submit sockets cmd).
Proof.
  unfold submit. apply keeps_bind; [apply _|]. intros n. apply keeps_on_tcp. intros t.
  unfold raft_node_submit_command. destruct (_ || _); [done|].
  cbn [submit_command raft_tcp_transport_make]. unfold tcp_submit_command. by case_match.
Qed.

#[export] Instance keeps_forward_cmd host port cmd : Keeps (C:=C) (U:=U) (forward_cmd sockets host port cmd).
Proof. by apply keeps_on_tcp. Qed.

#[export] Instance keeps_flood jr : Keeps (C:=C) (U:=U) (flood sockets jr).
Proof. by apply keeps_on_tcp. Qed.

#[export] Instance keeps_announce_self host port : Keeps (C:=C) (U:=U) (announce_self sockets host port).
Proof.
  unfold announce_self. apply keeps_bind; [|apply _]. apply keeps_on_tcp. intros t.
  unfold raft_tcp_transport_announce_self. by case_match.
Qed.

(** The one-time steps of a request have been taken. *)
Definition settled (f : Z) : Prop :=
  f ≠ RAFT_JOIN_ORIGINAL ∧ f ≠ RAFT_JOIN_FORWARDED ∧ f ≠ RAFT_JOIN_ANNOUNCE.

Lemma settled_pending : settled RAFT_JOIN_PENDING.
Proof. done. Qed.
Hint Resolve settled_pending : core.

Lemma join_steps_settle d jr :
  forwarded jr ≠ RAFT_JOIN_ANNOUNCE →
  wp (join_steps sockets jr) (λ f d', view_of d' = view_of d ∧ settled f) d.
Proof.
  intros Hne. unfold join_steps. destruct (forwarded jr =? RAFT_JOIN_ORIGINAL)%Z eqn:E1;
    [|destruct (forwarded jr =? RAFT_JOIN_FORWARDED)%Z eqn:E2].
  - apply wp_bind. eapply wp_mono; [apply keeps_flood|]. intros [] d1 H1. cbv beta in H1.
    apply wp_bind. eapply wp_mono; [apply keeps_announce_self|]. intros [] d2 H2. cbv beta in H2.
    apply wp_ret. split; [congruence|done].
  - apply wp_bind. eapply wp_mono; [apply keeps_announce_self|]. intros [] d2 H2. by apply wp_ret.
  - apply wp_ret. split; [done|]. bools. by split_and!.
Qed.

Lemma update_peer_hosts id host port ps ps' :
  host_ok host → Forall (λ p, host_ok (peer_host p)) ps → update_peer id host port ps = Some ps' →
  Forall (λ p, host_ok (peer_host p)) ps' ∧ length ps' = length ps.
Proof.
  intros Hh. revert ps'; induction ps as [|p ps IH]; intros ps' Hp H; cbn [update_peer] in H; [done|].
  inversion Hp; subst. destruct (streq _ _).
  - simplify_eq. split; [|done]. constructor; [|done]. cbn [peer_host]. rsimpl. by rewrite host_ok_copy.
  - apply bind_Some in H as (q & Hq & [= <-]). destruct (IH q) as [? El]; [done..|].
    split; [by constructor|]. cbn [length]. by rewrite El.
Qed.

Lemma add_peer_ok (t : raft_tcp_transport_t N) id host port :
  host_ok host → peers_ok (tcp_peers t) →
  let t' := (raft_tcp_transport_add_peer fopen_w t id host port).1 in
  peers_ok (tcp_peers t') ∧ own_host t' = own_host t.
Proof.
  intros Hh [Hp Hl]. unfold raft_tcp_transport_add_peer. destruct (update_peer _ _ _ _) as [ps|] eqn:E.
  - apply update_peer_hosts in E as [Hps El]; [|done..]. cbn [fst]. rsimpl. split; [|done].
    split; [done|]. by rewrite El.
  - destruct (_ <=? _)%nat eqn:Ec; [done|]. cbn [fst]. rsimpl. split; [|done]. bools. split.
    + apply Forall_app; split; [done|]. constructor; [|done]. cbn [peer_host]. by rewrite host_ok_copy.
    + rewrite length_app. cbn [length]. lia.
Qed.

End Sending.

(** ** The loop over the requests *)

Lemma remove_swap_length {A} i (l : list A) : length (remove_swap i l) = (length l - 1)%nat.
Proof.
  unfold remove_swap. destruct (last l) as [x|] eqn:E.
  - rewrite length_take, length_insert. lia.
  - apply last_None in E as ->. done.
Qed.

Lemma remove_swap_Forall {A} (P : A → Prop) i l : Forall P l → Forall P (remove_swap i l).
Proof.
  intros H. unfold remove_swap. destruct (last l) as [x|] eqn:E; [|constructor].
  apply Forall_take, Forall_insert; [done|]. apply last_Some_elem_of in E. by eapply Forall_forall in H.
Qed.

Lemma remove_swap_lookup {A} i j (l : list A) x :
  (j < i)%nat → remove_swap i l !! j = Some x → l !! j = Some x.
Proof.
  intros Hj. unfold remove_swap. destruct (last l) as [y|]; [|done]. intros H.
  apply lookup_take_Some in H as [H _]. by rewrite list_lookup_insert_ne in H by lia.
Qed.

Lemma add_joins_ok joins incoming :
  Forall join_ok joins → Forall join_ok incoming → (length joins ≤ RAFT_MAX_NODES)%nat →
  Forall join_ok (add_joins joins incoming) ∧ (length (add_joins joins incoming) ≤ RAFT_MAX_NODES)%nat.
Proof.
  revert joins; induction incoming as [|jr incoming IH]; intros joins Hj Hi Hl; cbn [add_joins]; [done|].
  inversion Hi; subst. destruct (_ && _) eqn:E; [|by apply IH]. bools. apply IH; [|done|].
  - apply Forall_app; split; [done|]. by constructor.
  - rewrite length_app. cbn [length]. lia.
Qed.

Lemma drain_Forall {A} (P : A → Prop) (q : list A) n : Forall P q → Forall P (drain q n).2.
Proof. intros H. unfold drain. destruct (_ <? _)%nat; [by apply Forall_take|constructor]. Qed.

Section Loop.
  Context {C U N : Type} {RQ : RequestQueues C} {RL : RequestQueuesLaws C}.
  Implicit Types d : process_t C U N.

(** The process after the entry has been written back. *)
Definition with_join (i : nat) (jr : raft_tcp_join_req_t) d : process_t C U N :=
  d <| cli := with_joins (<[i := jr]> (joins_of (cli d))) (cli d) |>.

Lemma view_with_join i jr d :
  view_of (with_join i jr d) =
  mkView (<[i := jr]> (joins_of (cli d))) (cmds_of (cli d)) (config_state (node d)) (node_id (config (node d)))
    (machine_state (node d)) (own_host (tcp d)) (tcp_peers (tcp d)).
Proof using RL. unfold view_of, with_join. rsimpl. by rewrite joins_of_with_joins, cmds_of_with_joins. Qed.

Lemma view_with_join_same i jr d : joins_of (cli d) !! i = Some jr → view_of (with_join i jr d) = view_of d.
Proof using RL. intros Hi. rewrite view_with_join. unfold view_of. by rewrite list_insert_id. Qed.

Lemma learnt_role i jr d0 d1 :
  learnt (view_of (with_join i jr d0)) (view_of d1) → machine_state (node d1) = machine_state (node d0).
Proof using RL. rewrite view_with_join. intros [E _]. unfold view_of in E. by injection E. Qed.

(** What has arrived is taken over. *)
Lemma receive_ok d :
  view_ok (view_of d) → Forall join_ok (tcp_join_queue (tcp d)) → Forall cmd_ok (fwd_cmd_queue (tcp d)) →
  (length (joins_of (cli d)) ≤ RAFT_MAX_NODES)%nat →
  wp receive (λ _ d', view_ok (view_of d') ∧ (length (joins_of (cli d')) ≤ RAFT_MAX_NODES)%nat ∧
    ∃ js cs, cli d' = with_joins js (with_cmds cs (cli d))) d.
Proof using RL.
  intros Hv Hj Hc Hl. unfold receive. apply wp_bind, wp_gets, wp_bind.
  eexists _, _. split; [reflexivity|]. rsimpl. unfold raft_tcp_transport_recv_fwd_cmds.
  pose proof (drain_Forall cmd_ok (fwd_cmd_queue (tcp d)) (RAFT_MAX_QUEUE - length (cmds_of (cli d))) Hc) as Hc'.
  destruct (drain (fwd_cmd_queue (tcp d)) _) as [q cmds]. cbn [fst snd] in *.
  apply wp_bind, wp_modify, wp_bind. eexists _, _. split; [reflexivity|]. do 2 rsimpl.
  unfold raft_tcp_transport_recv_joins. do 2 rsimpl.
  pose proof (drain_Forall join_ok (tcp_join_queue (tcp d)) RAFT_MAX_NODES Hj) as Hj'.
  destruct (drain (tcp_join_queue (tcp d)) RAFT_MAX_NODES) as [q2 incoming]. cbn [fst snd] in *.
  apply wp_modify. destruct (add_joins_ok (joins_of (cli d)) incoming) as [H1 H2]; [apply Hv|done|done|].
  unfold view_of. do 3 rsimpl.
  rewrite joins_of_with_joins, cmds_of_with_joins, joins_of_with_cmds, cmds_of_with_cmds.
  split_and!; [|done|eauto]. destruct Hv. split; cbn in *; try done. by apply Forall_app.
Qed.

(** Iteration [i] leaves its entry, or drops it and moves the last one to its place. *)
Record stepped (i : nat) d (i' : nat) d' : Prop := {
  stepped_view : view_of d' = mkView (joins_of (cli d')) (cmds_of (cli d)) (config_state (node d))
    (node_id (config (node d))) (machine_state (node d)) (own_host (tcp d)) (tcp_peers (tcp d'));
  stepped_peers : peers_ok (tcp_peers (tcp d)) → peers_ok (tcp_peers (tcp d'));
  stepped_joins : ∃ jr, join_ok jr ∧
    ((i' = i ∧ joins_of (cli d') = remove_swap i (<[i := jr]> (joins_of (cli d)))) ∨
     (i' = S i ∧ joins_of (cli d') = <[i := jr]> (joins_of (cli d)) ∧ settled (forwarded jr) ∧
      machine_state (node d) ≠ RAFT_ROLE_LEADER));
}.

Lemma join_ok_forwarded jr f : join_ok jr → join_ok (jr <| forwarded := f |>).
Proof. intros []. by split. Qed.

(** What is left to do once the entry has been written back. *)
Lemma drop_stepped i jr d0 d1 :
  join_ok jr → learnt (view_of (with_join i jr d0)) (view_of d1) →
  wp (_ ← drop_join i; mret i) (stepped i d0) d1.
Proof using RL.
  intros Hj [E Hp]. apply wp_bind, wp_modify, wp_ret. rewrite view_with_join in E. injection E as E1 E2 E3 E4 E5 E6.
  split; unfold view_of; rsimpl; rewrite ?joins_of_with_joins, ?cmds_of_with_joins; [congruence|exact Hp|].
  exists jr. split; [done|]. left. by rewrite E1.
Qed.

Lemma keep_stepped i jr d0 d1 :
  join_ok jr → learnt (view_of (with_join i jr d0)) (view_of d1) →
  settled (forwarded jr) → machine_state (node d0) ≠ RAFT_ROLE_LEADER →
  wp (mret (S i)) (stepped i d0) d1.
Proof using RL.
  intros Hj [E Hp] Hs Hl. apply wp_ret. rewrite view_with_join in E. injection E as E1 E2 E3 E4 E5 E6.
  split; unfold view_of; [congruence|exact Hp|]. exists jr. split; [done|]. by right.
Qed.

(** The entry is written back after operations that only learn peers. *)
Lemma set_join_learns i jr d0 d1 (Q : unit → process_t C U N → Prop) :
  learnt (view_of d0) (view_of d1) →
  (∀ d2, learnt (view_of (with_join i jr d0)) (view_of d2) → Q tt d2) →
  wp (set_join i jr) Q d1.
Proof using RL.
  intros [E Hp] HQ. apply wp_modify, HQ. rewrite view_with_join. unfold view_of in E |- *.
  injection E as E1 E2 E3 E4 E5 E6. rsimpl. rewrite joins_of_with_joins, cmds_of_with_joins.
  split; [|exact Hp]. cbn [v_joins v_cmds v_config v_id v_role v_host v_peers]. congruence.
Qed.

Lemma set_joins_ok d i jr :
  view_ok (view_of d) → join_ok jr → view_ok (view_of (with_join i jr d)).
Proof using RL. intros [] Hj. rewrite view_with_join. split; cbn in *; try done. by apply Forall_insert. Qed.

(** What the loop leaves: no requests on a leader, settled ones elsewhere. *)
Record handled d d' : Prop := {
  handled_ok : view_ok (view_of d');
  handled_joins : ∀ jr, jr ∈ joins_of (cli d') →
    settled (forwarded jr) ∧ machine_state (node d') ≠ RAFT_ROLE_LEADER;
  handled_length : (length (joins_of (cli d')) ≤ length (joins_of (cli d)))%nat;
  handled_cmds : cmds_of (cli d') = cmds_of (cli d);
  handled_config : config_state (node d') = config_state (node d);
  handled_role : machine_state (node d') = machine_state (node d);
}.

Lemma stepped_ok i d i' d' : stepped i d i' d' → view_ok (view_of d) → view_ok (view_of d').
Proof.
  intros [E Hp (jr & Hj & H)] []. rewrite E. split; cbn in *; try done; [|by auto].
  destruct H as [[_ ->]|(_ & -> & _)]; [apply remove_swap_Forall|]; by apply Forall_insert.
Qed.

Lemma stepped_handled i d i' d1 d2 :
  stepped i d i' d1 → handled d1 d2 →  handled d d2.
Proof.
  intros [E _ (jr & _ & Hj)] [H1 H2 H3 H4 H5 H6]. unfold view_of in E. injection E as E1 E2 _ E3 _.
  split; try congruence; [done|]. etrans; [exact H3|].
  destruct Hj as [[_ ->]|(_ & -> & _)]; rewrite ?remove_swap_length, length_insert; lia.
Qed.

Context (step : nat → raft_tcp_join_req_t → M (process_t C U N) nat).
Context (Hstep : ∀ d i jr, joins_of (cli d) !! i = Some jr → join_ok jr → view_ok (view_of d) →
  wp (step i jr) (λ i' d', stepped i d i' d') d).

Lemma joins_loop_handles fuel i d :
  view_ok (view_of d) → (length (joins_of (cli d)) ≤ fuel + i)%nat →
  (∀ j jr, (j < i)%nat → joins_of (cli d) !! j = Some jr →
     settled (forwarded jr) ∧ machine_state (node d) ≠ RAFT_ROLE_LEADER) →
  wp (joins_loop step fuel i) (λ _ d', handled d d') d.
Proof using Hstep.
  revert i d; induction fuel as [|fuel IH]; intros i d Hv Hfuel Hdone; cbn [joins_loop].
  { apply wp_ret. split; try done. intros jr (j & Hj)%list_elem_of_lookup. eapply Hdone; [|exact Hj].
    apply lookup_lt_Some in Hj. lia. }
  apply wp_bind, wp_gets. destruct (joins_of (cli d) !! i) as [jr|] eqn:Ei.
  2:{ apply wp_ret. split; try done. intros jr (j & Hj)%list_elem_of_lookup. eapply Hdone; [|exact Hj].
      apply lookup_lt_Some in Hj. apply lookup_ge_None in Ei. lia. }
  assert (join_ok jr) as Hj.
  { eapply Forall_lookup_1; [exact (view_ok_joins _ Hv)|exact Ei]. }
  assert (i < length (joins_of (cli d)))%nat as Hlt by by eapply lookup_lt_Some.
  apply wp_bind. eapply wp_mono; [by apply Hstep|].
  intros i' d1 Hs. pose proof (stepped_ok _ _ _ _ Hs Hv) as Hv1.
  eapply wp_mono; [|intros a d2; by eapply stepped_handled].
  destruct Hs as [E _ (jr' & _ & Hcase)]. unfold view_of in E. injection E as _ _ _ Er _.
  apply IH; [done|..].
  - destruct Hcase as [[-> ->]|(-> & -> & _)]; rewrite ?remove_swap_length, length_insert; lia.
  - intros j jr2 Hlt2 Hj2. rewrite Er. destruct Hcase as [[-> Hp]|(-> & Hp & Hst & Hrole)]; rewrite Hp in Hj2.
    + apply remove_swap_lookup in Hj2; [|done]. rewrite list_lookup_insert_ne in Hj2 by lia. by eapply Hdone.
    + destruct (decide (j = i)) as [->|]; [|rewrite list_lookup_insert_ne in Hj2 by lia; apply (Hdone j); [lia|done]].
      rewrite list_lookup_insert_eq in Hj2 by done. by injection Hj2 as <-.
Qed.

Lemma each_join_handles d : view_ok (view_of d) → wp (each_join step) (λ _ d', handled d d') d.
Proof using Hstep.
  intros Hv. unfold each_join. apply wp_bind, wp_gets, joins_loop_handles; [done|lia|]. intros j jr Hj. lia.
Qed.

End Loop.

(** An operation that leaves the node alone. *)
Class KeepsNode {C U N A} (m : M (process_t C U N) A) := keeps_node d a d' : m d = Some (a, d') → node d' = node d.

Lemma bind_inv {S A B} (m : M S A) (f : A → M S B) d b d' :
  (m ≫= f) d = Some (b, d') → ∃ a d1, m d = Some (a, d1) ∧ f a d1 = Some (b, d').
Proof. intros H. apply bind_Some in H as ([a d1] & Hm & Hf). eauto. Qed.

Section KeepsNode.
  Context {C U N : Type}.
  Abbreviation M := (M (process_t C U N)).

#[export] Instance kn_ret {A} (a : A) : KeepsNode (C:=C) (U:=U) (N:=N) (mret a).
Proof. by intros d b d' [= <- <-]. Qed.
#[export] Instance kn_gets {A} (f : process_t C U N → A) : KeepsNode (gets f).
Proof. by intros d b d' [= <- <-]. Qed.
#[export] Instance kn_lift {A} (o : option A) : KeepsNode (C:=C) (U:=U) (N:=N) (lift o).
Proof. intros d b d' H. unfold lift in H. by apply bind_Some in H as (x & _ & [= <- <-]). Qed.
#[export] Instance kn_reads {A} (f : process_t C U N → option A) : KeepsNode (reads f).
Proof. intros d b d' H. unfold reads in H. by apply bind_Some in H as (x & _ & [= <- <-]). Qed.
#[export] Instance kn_bind {A B} (m : M A) (f : A → M B) :
  KeepsNode m → (∀ a, KeepsNode (f a)) → KeepsNode (m ≫= f).
Proof.
  intros Hm Hf d b d' (a & d1 & H1 & H2)%bind_inv. etrans; [by eapply Hf|by eapply Hm].
Qed.
#[export] Instance kn_if {A} (b : bool) (m1 m2 : M A) :
  KeepsNode m1 → KeepsNode m2 → KeepsNode (if b then m1 else m2).
Proof. by destruct b. Qed.
#[export] Instance kn_when b (m : M unit) : KeepsNode m → KeepsNode (when b m).
Proof. intros H. unfold when. apply _. Qed.
#[export] Instance kn_each {A} (body : A → M unit) l : (∀ x, KeepsNode (body x)) → KeepsNode (each body l).
Proof. intros Hb. induction l as [|x l IH]; cbn [each]; apply _. Qed.
#[export] Instance kn_on_tcp {A} (f : raft_tcp_transport_t N → raft_tcp_transport_t N * A) : KeepsNode (C:=C) (U:=U) (on_tcp f).
Proof. by intros d b d' [= _ <-]. Qed.
#[export] Instance kn_on_tcp_files (f : raft_tcp_transport_t N → raft_tcp_transport_t N * list fs_op) :
  KeepsNode (C:=C) (U:=U) (on_tcp_files f).
Proof. by intros d b d' [= _ <-]. Qed.
#[export] Instance kn_on_cli f : KeepsNode (C:=C) (U:=U) (N:=N) (on_cli f).
Proof. by intros d b d' [= _ <-]. Qed.
#[export] Instance kn_printf s : KeepsNode (C:=C) (U:=U) (N:=N) (printf s).
Proof. by intros d b d' [= _ <-]. Qed.

#[export] Instance kn_join_steps (sockets : sockets_t N) {layout : MessageLayout}
    {frames : Layout raft_tcp_frame_t frame_fits} {requests : Layout raft_tcp_join_req_t join_req_fits} jr :
  KeepsNode (C:=C) (U:=U) (join_steps sockets jr).
Proof. unfold join_steps, flood, announce_self. apply _. Qed.

End KeepsNode.
