(* ===== verification/DemoApp.v ===== *)
(** The demo program around a node, [c/examples/demo_app/src]: the
    application ([demo_kv_app.c]) and the command line ([demo_args.c]), with
    [register_peer_from_app] of [main.c]. *)
From S2P Require Import Prelude StateMonad CString Types KvApp Config Storage MessageLayout TcpTransport TcpPeers CliProcess.

(** *** The application

    A key-value store, and a callback for the commands that tell the address of a
    peer.  The callback works on the transport, which a node does not touch while
    it applies commands: its calls are recorded, and [perform_peer_sets] makes them. *)
Record demo_kv_app_t : Type := mkDemoApp {
  demo_kv : raft_kv_state_t;
  peer_calls : list (string * string);
}.

#[export] Instance demo_kv_app_eta : Eta demo_kv_app_t := λ s, mkDemoApp (demo_kv s) (peer_calls s).

Definition demo_apply (state : demo_kv_app_t) (command : raft_command_t) : demo_kv_app_t :=
  if streq (op command) "cluster.peer_set"
  then state <| peer_calls := peer_calls state ++ [(key command, value command)] |>
  else match apply (raft_kv_make_application (demo_kv state)) with
       | Some f => state <| demo_kv := f (demo_kv state) command |>
       | None => state
       end.

Definition demo_reload (state : demo_kv_app_t) : demo_kv_app_t :=
  match reload (raft_kv_make_application (demo_kv state)) with
  | Some f => state <| demo_kv := f (demo_kv state) |>
  | None => state
  end.

Definition demo_snapshot (state : demo_kv_app_t) (buf_size : nat) : string :=
  match snapshot (raft_kv_make_application (demo_kv state)) with
  | Some f => f (demo_kv state) buf_size
  | None => ""
  end.

Definition demo_restore_snapshot (state : demo_kv_app_t) (buf : string) : demo_kv_app_t :=
  match restore_snapshot (raft_kv_make_application (demo_kv state)) with
  | Some f => state <| demo_kv := f (demo_kv state) buf |>
  | None => state
  end.

Definition demo_kv_app_make (kv : raft_kv_state_t) : raft_application_t demo_kv_app_t :=
  mkApplication (Some demo_apply) (Some demo_reload) (Some demo_snapshot) (Some demo_restore_snapshot)
    (mkDemoApp kv []).

Section Register.
  Context {N : Type} (fopen_w : string → bool).

(** A node does not register its own address. *)
Definition register_peer_from_app (tcp : raft_tcp_transport_t N) (node_id address : string)
    : raft_tcp_transport_t N * list fs_op :=
  if streq node_id (own_id tcp) then (tcp, [])
  else match parse_host_port address 256 with
       | Some (host, port) => raft_tcp_transport_add_peer fopen_w tcp node_id host port
       | None => (tcp, [])
       end.

Fixpoint perform_peer_sets (tcp : raft_tcp_transport_t N) (calls : list (string * string))
    : raft_tcp_transport_t N * list fs_op :=
  match calls with
  | [] => (tcp, [])
  | (node_id, address) :: calls =>
      let '(tcp, ops) := register_peer_from_app tcp node_id address in
      let '(tcp, ops') := perform_peer_sets tcp calls in (tcp, ops ++ ops')
  end.

End Register.

(** *** The command line *)

Record demo_args_t : Type := mkArgs {
  arg_node_id : string;
  arg_port : Z;
  port_supplied : bool;
  arg_host : string;
  arg_data_dir : string;
  arg_members : list string;
  arg_peers : list raft_tcp_peer_t;
  join_host : string;
  join_port : Z;
}.

#[export] Instance demo_args_eta : Eta demo_args_t := λ a,
  mkArgs (arg_node_id a) (arg_port a) (port_supplied a) (arg_host a) (arg_data_dir a) (arg_members a)
    (arg_peers a) (join_host a) (join_port a).

Definition DEMO_DEFAULT_DATA_DIR : string := "var/raft".
Definition DEMO_DEFAULT_HOST : string := "127.0.0.1".

Definition parse_peer (arg : string) : option raft_tcp_peer_t :=
  '(id, address) ← str_break "="%char arg;
  if (String.length id =? 0)%nat || (RAFT_MAX_ID <=? String.length id)%nat then None
  else '(host, port) ← parse_host_port address 256; Some (mkPeer id host port).

(** The loop over the arguments; [exit(1)] is [None].  A full table leaves the
    value of [--member] or [--peer] to the next iteration. *)
Fixpoint args_loop (a : demo_args_t) (argv : list string) : option demo_args_t :=
  match argv with
  | [] => Some a
  | arg :: rest =>
      match rest with
      | [] => None
      | v :: rest' =>
          if streq arg "--id" then args_loop (a <| arg_node_id := strncpy RAFT_MAX_ID v |>) rest'
          else if streq arg "--port"
          then args_loop (a <| arg_port := atoi v |> <| port_supplied := true |>) rest'
          else if streq arg "--host" then args_loop (a <| arg_host := strncpy 256 v |>) rest'
          else if streq arg "--data" then args_loop (a <| arg_data_dir := strncpy 256 v |>) rest'
          else if streq arg "--member" then
            if (length (arg_members a) <? RAFT_MAX_NODES)%nat
            then args_loop (a <| arg_members := arg_members a ++ [strncpy RAFT_MAX_ID v] |>) rest'
            else args_loop a rest
          else if streq arg "--peer" then
            if (length (arg_peers a) <? RAFT_MAX_PEERS)%nat
            then p ← parse_peer v; args_loop (a <| arg_peers := arg_peers a ++ [p] |>) rest'
            else args_loop a rest
          else if streq arg "--join" then
            '(host, port) ← parse_host_port v 256;
            args_loop (a <| join_host := host |> <| join_port := port |>) rest'
          else None
      end
  end.

(** [argv] without the program's name. *)
Definition demo_args_parse (argv : list string) : option demo_args_t :=
  a ← args_loop (mkArgs "" 0 false DEMO_DEFAULT_HOST DEMO_DEFAULT_DATA_DIR [] [] "" 0) argv;
  if streq (arg_node_id a) "" then None
  else if (0 <? join_port a)%Z && (negb (port_supplied a) || (arg_port a <=? 0)%Z) then None
  else Some a.
