(* ===== verification/CliFsm.v ===== *)
(** The command line machine of the demo program, [c/examples/demo_app/src/cli_fsm.c]:
    the user's commands, join and merge requests, and commands followers forward.  The
    store [cli->kv] points to is the one of the node's application. *)
From S2P Require Import Prelude StateMonad CString Types KvApp Config NodeLog Handlers Storage MemTransport Membership Fsm Lifecycle MessageLayout TcpTransport TcpPeers CliProcess DemoApp.

Record cli_user_t : Type := mkCli {
  cli_node_id : string;
  line : string;
  has_line : bool;
  prompt_needed : bool;
  quit_requested : bool;
  leave_pending : bool;
  last_role : raft_role_t;
  last_term : Z;
  last_voted_for : string;
  last_vote_count : nat;
  rejoin_pending : bool;
  rejoin_host : string;
  rejoin_port : Z;
  pending_joins : list raft_tcp_join_req_t;
  fwd_cmds : list raft_command_t;
}.

#[export] Instance cli_user_eta : Eta cli_user_t := λ c,
  mkCli (cli_node_id c) (line c) (has_line c) (prompt_needed c) (quit_requested c) (leave_pending c)
    (last_role c) (last_term c) (last_voted_for c) (last_vote_count c) (rejoin_pending c) (rejoin_host c)
    (rejoin_port c) (pending_joins c) (fwd_cmds c).

(** [demo_process_t] of [main.c]. *)
Abbreviation demo_process_t N := (process_t cli_user_t demo_kv_app_t N).
Abbreviation M N := (M (demo_process_t N)).

#[export] Instance cli_user_queues : RequestQueues cli_user_t := {|
  joins_of := pending_joins;
  with_joins l c := c <| pending_joins := l |>;
  cmds_of := fwd_cmds;
  with_cmds l c := c <| fwd_cmds := l |>;
|}.

#[export] Instance cli_user_queues_laws : RequestQueuesLaws cli_user_t.
Proof. by split. Qed.

(** *** Pure helpers *)

(** [jr->members] up to [jr->member_count], which comes from the network. *)
Definition jr_contains (jr : raft_tcp_join_req_t) (id : string) : option bool :=
  if peer_list_contains (take (Z.to_nat (member_count jr)) (jr_members jr)) id then Some true
  else if (member_count jr <=? Z.of_nat (length (jr_members jr)))%Z then Some false else None.

Definition node_is_member {U} (n : raft_node_t U) : bool :=
  member_contains (old_members (config_state n)) (node_id (config n))
  || member_contains (new_members (config_state n)) (node_id (config n)).

Definition same_command (c d : raft_command_t) : bool :=
  streq (op c) (op d) && streq (key c) (key d) && streq (value c) (value d).

Definition node_log_has_command {U} (n : raft_node_t U) (cmd : raft_command_t) : bool :=
  existsb (λ e, same_command (entry_command e) cmd) (take (log_count n) (log n)).

Definition tcp_command_queue_has {N} (t : raft_tcp_transport_t N) (cmd : raft_command_t) : bool :=
  existsb (λ c, same_command c cmd) (tcp_cmd_queue t).

(** [%-<n>s]. *)
Definition pad (n : nat) (s : string) : string :=
  s +:+ String.concat "" (replicate (n - String.length s) " ").

Definition find_peer_address {N} (d : demo_process_t N) (id : string) : option (string * Z) :=
  if streq id (node_id (config (node d))) then
    if raft_tcp_transport_is_listening (tcp d)
    then Some (strncpy 256 (own_host (tcp d)), listen_port (tcp d)) else None
  else p ← find_peer id (tcp_peers (tcp d)); Some (strncpy 256 (peer_host p), peer_port p).

Definition find_leader_address {N} (d : demo_process_t N) : option (string * Z) :=
  if streq (leader_id (node d)) "" then None
  else p ← find_peer (leader_id (node d)) (tcp_peers (tcp d)); Some (strncpy 256 (peer_host p), peer_port p).

(** The two loops of [collect_cluster_peers]. *)
Fixpoint collect_loop {N} (d : demo_process_t N) (ids : list string) (acc : list raft_tcp_peer_t)
    : option (list raft_tcp_peer_t) :=
  match ids with
  | [] => Some acc
  | id :: ids =>
      if (length acc <? RAFT_MAX_NODES)%nat then
        if peer_list_contains acc id then collect_loop d ids acc
        else match find_peer_address d id with
             | Some (host, port) =>
                 i ← copy_uninit RAFT_MAX_ID id;
                 h ← copy_uninit 256 host;
                 collect_loop d ids (acc ++ [mkPeer i h port])
             | None => collect_loop d ids acc
             end
      else Some acc
  end.

Definition collect_cluster_peers {N} (d : demo_process_t N) : option (list raft_tcp_peer_t) :=
  acc ← collect_loop d (old_members (config_state (node d))) [];
  acc ← collect_loop d (new_members (config_state (node d))) acc;
  if (length acc =? 0)%nat && raft_tcp_transport_is_listening (tcp d) then
    i ← copy_uninit RAFT_MAX_ID (node_id (config (node d)));
    h ← copy_uninit 256 (own_host (tcp d));
    Some [mkPeer i h (listen_port (tcp d))]
  else Some acc.

Definition peer_needs_update {N} (d : demo_process_t N) (id host : string) (port : Z) : bool :=
  if streq id (node_id (config (node d))) then false
  else match find_peer id (tcp_peers (tcp d)) with
       | Some p => negb (streq (peer_host p) host) || negb (peer_port p =? port)%Z
       | None => true
       end.

Definition prompt {N} : M N unit := on_cli (λ c, c <| prompt_needed := true |>).

Section Cli.
  Context {N : Type} (sockets : sockets_t N) (fopen_w : string → bool).
  Context (open_listener : Z → option Z) (pthread_create : bool).
  Context {layout : MessageLayout} {frames : Layout raft_tcp_frame_t frame_fits}.
  Context {requests : Layout raft_tcp_join_req_t join_req_fits} {commands : Layout raft_command_t command_fits}.
  Context (clock : Z).
  Abbreviation M := (M N).

(** *** Peers and the leader *)

Definition announce_cluster (members : list raft_tcp_peer_t) (host : string) (port : Z) : M Z :=
  on_tcp (λ t, raft_tcp_transport_send_cluster_join sockets t members host port RAFT_JOIN_ANNOUNCE).

(** One of the two loops of [forward_merge_peers_to_local_members]; [sent] is an
    array of [RAFT_MAX_NODES] ids. *)
Fixpoint forward_merge_loop (jr : raft_tcp_join_req_t) (ids sent : list string) : M (list string) :=
  match ids with
  | [] => mret sent
  | id :: ids =>
      self ← gets (λ d, node_id (config (node d)));
      if streq id self || streq id (jr_node_id jr) then forward_merge_loop jr ids sent
      else
        listed ← lift (jr_contains jr id);
        if (listed : bool) || member_contains sent id then forward_merge_loop jr ids sent
        else
          address ← gets (λ d, find_peer_address d id);
          match address with
          | None => forward_merge_loop jr ids sent
          | Some (host, port) =>
              _ ← announce_cluster (take (Z.to_nat (member_count jr)) (jr_members jr)) host port;
              if (length sent <? RAFT_MAX_NODES)%nat
              then i ← lift (copy_uninit RAFT_MAX_ID id); forward_merge_loop jr ids (sent ++ [i])
              else lift None
          end
  end.

Definition forward_merge_peers_to_local_members (jr : raft_tcp_join_req_t) : M unit :=
  old ← gets (λ d, old_members (config_state (node d)));
  sent ← forward_merge_loop jr old [];
  new ← gets (λ d, new_members (config_state (node d)));
  _ ← forward_merge_loop jr new sent; mret tt.

Definition forward_to_leader (cmd : raft_command_t) : M Z :=
  leader ← gets find_leader_address;
  match leader with
  | None => _ ← printf ("leader unknown — cannot forward" +:+ nl); mret (-1)%Z
  | Some (host, port) =>
      r ← forward_cmd sockets host port cmd;
      if (r <? 0)%Z then _ ← printf ("forward failed" +:+ nl); mret (-1)%Z else mret 0%Z
  end.

Definition peer_set_command (id host : string) (port : Z) : raft_command_t :=
  mkCommand "cluster.peer_set" (strncpy RAFT_MAX_KEY id)
    (snprintf RAFT_MAX_VALUE (host +:+ String ":"%char (print_int port))).1.

Definition queue_peer_set (id host : string) (port : Z) : M Z :=
  self ← gets (λ d, node_id (config (node d)));
  if streq id self then mret 0%Z
  else
    let cmd := peer_set_command id host port in
    leader ← is_leader;
    if (leader : bool) then
      known ← gets (λ d, node_log_has_command (node d) cmd || tcp_command_queue_has (tcp d) cmd);
      if (known : bool) then mret 0%Z else submit sockets cmd
    else
      address ← gets find_leader_address;
      match address with
      | Some (leader_host, leader_port) => forward_cmd sockets leader_host leader_port cmd
      | None => mret (-1)%Z
      end.

Definition learn_peer (id host : string) (port : Z) (replicate : bool) : M unit :=
  changed ← gets (λ d, peer_needs_update d id host port);
  self ← gets (λ d, node_id (config (node d)));
  if streq id self then mret tt
  else
    _ ← on_tcp_files (λ t, raft_tcp_transport_add_peer fopen_w t id host port);
    when (replicate && changed) (_ ← queue_peer_set id host port; mret tt).

Definition replicate_known_cluster_peers : M unit :=
  leader ← is_leader;
  if negb leader then mret tt
  else
    peers ← reads collect_cluster_peers;
    each (λ p, _ ← queue_peer_set (peer_id p) (peer_host p) (peer_port p); mret tt) peers.

(** *** Commands *)

Definition status_peer (d : demo_process_t N) (i : nat) (p : string) : option string :=
  if role_eqb (machine_state (node d)) RAFT_ROLE_LEADER then
    m ← match_index (node d) !! i;
    Some ("  " +:+ pad 4 p +:+ "  match=" +:+ pad 3 (print_int m) +:+ "  "
          +:+ (if (commit_index (node d) - m <=? 0)%Z then "in sync" else "behind") +:+ nl)
  else Some ("  " +:+ pad 4 p +:+ nl).

Fixpoint status_peers (d : demo_process_t N) (i : nat) (ps : list string) : option (list string) :=
  match ps with
  | [] => Some []
  | p :: ps => s ← status_peer d i p; ss ← status_peers d (S i) ps; Some (s :: ss)
  end.

Definition status_line (n : raft_node_t demo_kv_app_t) : string :=
  "id=" +:+ pad 4 (node_id (config n)) +:+ "  running=" +:+ pad 3 (if running n then "yes" else "no")
  +:+ "  role=" +:+ pad 9 (role_name (machine_state n)) +:+ "  term=" +:+ pad 3 (print_int (current_term n))
  +:+ "  commit=" +:+ pad 3 (print_int (commit_index n)) +:+ "  log=" +:+ pad 3 (print_nat (log_count n))
  +:+ "  leader=" +:+ (if streq (leader_id n) "" then "none" else leader_id n) +:+ nl.

Definition print_status : M unit :=
  _ ← (λ d, printf (status_line (node d)) d);
  lines ← reads (λ d, status_peers d 0 (peers (config (node d))));
  each printf lines.

Definition cmd_leader : M unit :=
  n ← gets node;
  if role_eqb (machine_state n) RAFT_ROLE_LEADER
  then printf (node_id (config n) +:+ " (this node)" +:+ nl)
  else if negb (streq (leader_id n) "") then puts (leader_id n) else puts "unknown".

(** What [cmd_set] and [cmd_delete] do with their command. *)
Definition enqueue_or_forward (cmd : raft_command_t) : M unit :=
  leader ← is_leader;
  if (leader : bool) then _ ← submit sockets cmd; puts "queued"
  else _ ← forward_to_leader cmd; mret tt.

Definition cmd_set (key value : string) : M unit :=
  enqueue_or_forward (mkCommand (strncpy RAFT_MAX_OP "set") (strncpy RAFT_MAX_KEY key)
                        (strncpy RAFT_MAX_VALUE value)).

(** [raft_kv_get] returns the empty string, not [NULL], for an absent key. *)
Definition cmd_get (key : string) : M unit :=
  v ← gets (λ d, raft_kv_get (demo_kv (user (application (node d)))) key); printf (v +:+ nl).

Definition cmd_delete (key : string) : M unit :=
  enqueue_or_forward (mkCommand (strncpy RAFT_MAX_OP "delete") (strncpy RAFT_MAX_KEY key) "").

Definition cmd_stop : M unit :=
  _ ← modify (λ d,
    let '(n, t) := raft_node_stop (raft_tcp_transport_make sockets) (node d) (tcp d) in
    d <| node := n |> <| tcp := t |>);
  _ ← puts "stopped"; print_status.

Definition cmd_start : M unit :=
  _ ← (λ d, '(n, t) ← raft_node_start (raft_tcp_transport_make sockets) (node d) (tcp d) (files d) clock;
            Some (tt, d <| node := n |> <| tcp := t |>));
  _ ← puts "started"; print_status.

(** [raft_node_reset_for_join] and [raft_kv_state_init(cli->kv)]. *)
Definition reset_for_join : M unit :=
  modify (λ d,
    let '(n, disk) := raft_node_reset_for_join (node d) clock (files d) in
    let n := n <| application := application n
                 <| user := user (application n) <| demo_kv := raft_kv_state_init |> |> |> in
    d <| node := n |> <| files := disk |>).

Definition request_join_now (host : string) (port : Z) : M Z :=
  listening ← gets (λ d, raft_tcp_transport_is_listening (tcp d));
  if negb listening then _ ← puts "not listening; use: port PORT"; mret (-1)%Z
  else
    _ ← reset_for_join;
    id ← gets (λ d, node_id (config (node d)));
    r ← on_tcp (λ t, raft_tcp_transport_request_join sockets t id (own_host t) (listen_port t) host port);
    if negb (r =? 0)%Z then _ ← puts "join failed"; mret (-1)%Z
    else _ ← puts "join requested"; mret 0%Z.

Definition cmd_port (port_arg : string) : M unit :=
  let port := atoi port_arg in
  if (port <=? 0)%Z then puts "usage: port PORT"
  else
    t ← gets tcp;
    if raft_tcp_transport_is_listening t
    then printf ("already listening on :" +:+ print_int (listen_port t) +:+ nl)
    else
      let '(t, ops, r) := raft_tcp_transport_listen fopen_w open_listener pthread_create t port in
      _ ← modify (λ d, d <| tcp := t |> <| files := fs_run ops (files d) |>);
      if negb (r =? 0)%Z then printf ("failed to listen on port " +:+ print_int port +:+ nl)
      else printf ("listening on :" +:+ print_int port +:+ nl).

(** The members other than [id], in an array on the stack. *)
Definition other_members (id : string) : M (list string) :=
  reads (λ d, mapM (copy_uninit RAFT_MAX_ID)
                (filter (λ m, streq m id = false) (old_members (config_state (node d))))).

Definition cmd_leave : M unit :=
  self ← gets (λ d, node_id (config (node d)));
  leader ← is_leader;
  if negb leader then
    r ← forward_to_leader (mkCommand (strncpy RAFT_MAX_OP "cluster.fwd_leave") (strncpy RAFT_MAX_KEY self) "");
    if negb (r =? 0)%Z then mret tt else on_cli (λ c, c <| leave_pending := true |>)
  else
    members ← other_members self;
    _ ← request_change members;
    _ ← on_cli (λ c, c <| leave_pending := true |>);
    puts "leaving cluster...".

Definition cmd_join (addr : string) : M unit :=
  match parse_host_port addr 256 with
  | None => puts "usage: join HOST:PORT"
  | Some (host, port) =>
      d ← gets id;
      if negb (raft_tcp_transport_is_listening (tcp d)) then puts "not listening; use: port PORT"
      else if node_is_member (node d) && (1 <? length (old_members (config_state (node d))))%nat then
        _ ← on_cli (λ c, c <| rejoin_host := strncpy 256 host |> <| rejoin_port := port |>
                           <| rejoin_pending := true |>);
        _ ← cmd_leave;
        puts "will join after leaving current cluster"
      else _ ← request_join_now host port; mret tt
  end.

(** The loops of [request_membership_union], into an array on the stack. *)
Fixpoint union_loop (check_nonempty : bool) (ids members : list string) : option (list string) :=
  match ids with
  | [] => Some members
  | id :: ids =>
      if (length members <? RAFT_MAX_NODES)%nat then
        if (check_nonempty && streq id "") || member_contains members id
        then union_loop check_nonempty ids members
        else i ← copy_uninit RAFT_MAX_ID id; union_loop check_nonempty ids (members ++ [i])
      else Some members
  end.

Definition request_membership_union (jr : raft_tcp_join_req_t) : M unit :=
  leader ← is_leader;
  if negb leader then mret tt
  else
    c ← gets (λ d, config_state (node d));
    members ← lift (mapM (copy_uninit RAFT_MAX_ID) (take RAFT_MAX_NODES (old_members c)));
    members ← lift (union_loop false (new_members c) members);
    let count := Z.to_nat (member_count jr) in
    members ← lift (union_loop true (peer_id <$> take count (jr_members jr)) members);
    _ ← when ((length (jr_members jr) <? count)%nat && (length members <? RAFT_MAX_NODES)%nat) (lift None);
    when (length (old_members c) <? length members)%nat (request_change members).

Definition send_merge (host : string) (port : Z) : M Z :=
  listening ← gets (λ d, raft_tcp_transport_is_listening (tcp d));
  if negb listening then _ ← puts "not listening; use: port PORT"; mret (-1)%Z
  else
    members ← reads collect_cluster_peers;
    if (length members =? 0)%nat
    then _ ← puts "no local members with known addresses"; mret (-1)%Z
    else
      r ← on_tcp (λ t, raft_tcp_transport_request_cluster_join sockets t members host port);
      if negb (r =? 0)%Z then _ ← puts "merge failed"; mret (-1)%Z
      else _ ← puts "merge requested"; mret 0%Z.

Definition cmd_merge (addr : string) : M unit :=
  match parse_host_port addr 256 with
  | None => puts "usage: merge HOST:PORT"
  | Some (host, port) => _ ← send_merge host port; mret tt
  end.

Definition members_text (c : raft_cluster_configuration_t) : string :=
  "mode=" +:+ (if configuration_is_joint c then "joint" else "stable") +:+ " old=["
  +:+ String.concat "," (old_members c)
  +:+ (if configuration_is_joint c then "] new=[" +:+ String.concat "," (new_members c) else "").

Definition cmd_members : M unit :=
  c ← gets (λ d, config_state (node d)); _ ← printf (members_text c); puts "]".

Definition log_entry_text (commit : Z) (e : raft_log_entry_t) : string :=
  "[" +:+ print_int (entry_index e) +:+ "] "
  +:+ (if (entry_index e <=? commit)%Z then "COMMITTED  " else "UNCOMMITTED")
  +:+ " term=" +:+ print_int (entry_term e) +:+ " op=" +:+ op (entry_command e)
  +:+ " key=" +:+ key (entry_command e) +:+ " value=" +:+ value (entry_command e) +:+ nl.

Definition cmd_log : M unit :=
  n ← gets node;
  _ ← printf ("term=" +:+ print_int (current_term n) +:+ " role=" +:+ role_name (machine_state n)
              +:+ " log=" +:+ print_nat (log_count n)
              +:+ " snapshot=" +:+ print_int (snapshot_last_included_index n)
              +:+ " commit=" +:+ print_int (commit_index n) +:+ " applied=" +:+ print_int (last_applied n) +:+ nl);
  if (log_count n =? 0)%nat then puts "(empty)"
  else each (λ e, printf (log_entry_text (commit_index n) e)) (take (log_count n) (log n)).

Definition cmd_addnode (id : string) : M unit :=
  leader ← is_leader;
  if negb leader
  then _ ← forward_to_leader (mkCommand (strncpy RAFT_MAX_OP "cluster.fwd_add") (strncpy RAFT_MAX_KEY id) "");
       mret tt
  else
    members ← reads (λ d, mapM (copy_uninit RAFT_MAX_ID) (old_members (config_state (node d))));
    if member_contains members id then printf ("already a member: " +:+ id +:+ nl)
    else if (RAFT_MAX_NODES <=? length members)%nat then puts "cluster full"
    else
      i ← lift (copy_uninit RAFT_MAX_ID id);
      _ ← request_change (members ++ [i]);
      printf ("requested addnode=" +:+ id +:+ nl).

Definition cmd_rmnode (id : string) : M unit :=
  leader ← is_leader;
  if negb leader
  then _ ← forward_to_leader (mkCommand (strncpy RAFT_MAX_OP "cluster.fwd_rm") (strncpy RAFT_MAX_KEY id) "");
       mret tt
  else
    members ← other_members id;
    old ← gets (λ d, old_members (config_state (node d)));
    if (length members =? length old)%nat then printf ("not a member: " +:+ id +:+ nl)
    else
      _ ← request_change members;
      printf ("requested rmnode=" +:+ id +:+ nl).

Definition help_lines : list string :=
  ["Commands:";
   "  set    KEY VALUE   enqueue set(KEY,VALUE) — leader only";
   "  get    KEY         read KEY from local KV state";
   "  delete KEY         enqueue delete(KEY) — leader only";
   "  status             show local node status";
   "  leader             show who is leader";
   "  port   PORT        start listening on PORT";
   "  join   HOST:PORT   leave current cluster, then join another as this node";
   "  merge HOST:PORT  merge this cluster with another cluster";
   "  stop               simulate local node crash";
   "  start              simulate local node restart";
   "  members            show membership config";
   "  log                show Raft log";
   "  addnode NODE       add NODE to cluster — leader only";
   "  rmnode  NODE       remove NODE from cluster — leader only";
   "  leave              remove this node from cluster — leader only";
   "  help               this message";
   "  quit               exit"].

Definition cmd_help : M unit := each puts help_lines.

Definition dispatch (line : string) : M unit :=
  match tokens 4 blank "" (chop_newline line) with
  | [] => mret tt
  | cmd :: args =>
      let arg1 (usage : string) (f : string → M unit) : M unit :=
        match args with [] => puts usage | a :: _ => f a end in
      if streq cmd "set" then
        match args with k :: v :: _ => cmd_set k v | _ => puts "usage: set KEY VALUE" end
      else if streq cmd "get" then arg1 "usage: get KEY" cmd_get
      else if streq cmd "delete" then arg1 "usage: delete KEY" cmd_delete
      else if streq cmd "status" then print_status
      else if streq cmd "leader" then cmd_leader
      else if streq cmd "port" then arg1 "usage: port PORT" cmd_port
      else if streq cmd "join" then arg1 "usage: join HOST:PORT" cmd_join
      else if streq cmd "merge" then arg1 "usage: merge HOST:PORT" cmd_merge
      else if streq cmd "stop" then cmd_stop
      else if streq cmd "start" then cmd_start
      else if streq cmd "members" then cmd_members
      else if streq cmd "log" then cmd_log
      else if streq cmd "addnode" then arg1 "usage: addnode NODE" cmd_addnode
      else if streq cmd "rmnode" then arg1 "usage: rmnode NODE" cmd_rmnode
      else if streq cmd "leave" then cmd_leave
      else if streq cmd "help" then cmd_help
      else if streq cmd "quit" || streq cmd "exit" then on_cli (λ c, c <| quit_requested := true |>)
      else printf ("unknown: " +:+ cmd +:+ "  (type 'help')" +:+ nl)
  end.

(** *** The machine *)

Definition cli_latch_inputs (stdin : stdin_t) : M unit :=
  _ ← on_cli (λ c, c <| has_line := false |>);
  _ ← match stdin with
      | StdinNothing => mret tt
      | StdinEof => on_cli (λ c, c <| quit_requested := true |>)
      | StdinLine l => on_cli (λ c, c <| line := l |> <| has_line := true |>)
      end;
  receive.

Definition cli_guard_has_line (c : cli_user_t) : bool := has_line c.

Definition cli_action_execute : M unit :=
  l ← gets (λ d, line (cli d)); _ ← dispatch l; prompt.

(** *** Join requests *)

Definition announce_members (jr : raft_tcp_join_req_t) : M unit :=
  local_members ← reads collect_cluster_peers;
  _ ← announce_cluster local_members (jr_host jr) (jr_port jr); mret tt.

(** The loop that learns the members of a merge request; the index runs up to a
    count from the network. *)
Definition learn_members (jr : raft_tcp_join_req_t) : M unit :=
  _ ← each (λ p,
        self ← gets (λ d, node_id (config (node d)));
        if streq (peer_id p) self then mret tt
        else leader ← is_leader; learn_peer (peer_id p) (peer_host p) (peer_port p) leader)
      (take (Z.to_nat (member_count jr)) (jr_members jr));
  when (Z.of_nat (length (jr_members jr)) <? member_count jr)%Z (lift None).

(** The one-time steps of a merge request, and its [forwarded] afterwards. *)
Definition merge_steps (jr : raft_tcp_join_req_t) : M Z :=
  if (forwarded jr =? RAFT_JOIN_ORIGINAL)%Z
  then _ ← flood sockets (jr <| forwarded := RAFT_JOIN_FORWARDED |>); _ ← announce_members jr; mret RAFT_JOIN_PENDING
  else if (forwarded jr =? RAFT_JOIN_FORWARDED)%Z
  then _ ← announce_members jr; mret RAFT_JOIN_PENDING
  else if (forwarded jr =? RAFT_JOIN_ANNOUNCE)%Z
  then _ ← forward_merge_peers_to_local_members jr; mret RAFT_JOIN_PENDING
  else mret (forwarded jr).

(** The index of the next entry, as in the other branches. *)
Definition merge_step (i : nat) (jr : raft_tcp_join_req_t) : M nat :=
  _ ← learn_members jr;
  f ← merge_steps jr;
  let jr := jr <| forwarded := f |> in
  _ ← set_join i jr;
  leader ← is_leader;
  if (leader : bool) then
    _ ← request_membership_union jr;
    _ ← replicate_known_cluster_peers;
    _ ← printf (nl +:+ "[cluster] merge: " +:+ jr_node_id jr +:+ nl);
    _ ← prompt; _ ← drop_join i; mret i
  else if (f =? RAFT_JOIN_PENDING)%Z && negb (cluster_join jr =? 0)%Z && (0 <? member_count jr)%Z
  then _ ← drop_join i; mret i
  else mret (S i).

(** A peer that is not in the table is learnt. *)
Definition learn_if_unknown (jr : raft_tcp_join_req_t) : M unit :=
  known ← gets (λ d, peer_list_contains (tcp_peers (tcp d)) (jr_node_id jr));
  leader ← is_leader;
  when (negb known) (learn_peer (jr_node_id jr) (jr_host jr) (jr_port jr) leader).

(** The leader adds the node to the old members. *)
Definition leader_adds (jr : raft_tcp_join_req_t) : M unit :=
  old ← gets (λ d, old_members (config_state (node d)));
  members ← lift (mapM (copy_uninit RAFT_MAX_ID) old);
  if negb (member_contains old (jr_node_id jr)) && (length members <? RAFT_MAX_NODES)%nat then
    i ← lift (copy_uninit RAFT_MAX_ID (jr_node_id jr));
    _ ← request_change (members ++ [i]);
    _ ← replicate_known_cluster_peers;
    _ ← printf (nl +:+ "[cluster] join: " +:+ jr_node_id jr +:+ nl);
    prompt
  else mret tt.

Definition join_step (i : nat) (jr : raft_tcp_join_req_t) : M nat :=
  if (forwarded jr =? RAFT_JOIN_ANNOUNCE)%Z then
    _ ← learn_if_unknown jr; _ ← drop_join i; mret i
  else
    f ← join_steps sockets jr;
    let jr := jr <| forwarded := f |> in
    _ ← set_join i jr;
    _ ← learn_if_unknown jr;
    c ← gets (λ d, config_state (node d));
    if member_contains (old_members c) (jr_node_id jr) || member_contains (new_members c) (jr_node_id jr)
    then _ ← drop_join i; mret i
    else
      leader ← is_leader;
      if (leader : bool) then _ ← leader_adds jr; _ ← drop_join i; mret i
      else mret (S i).

Definition handle_joins : M unit :=
  each_join (λ i jr, if negb (cluster_join jr =? 0)%Z then merge_step i jr else join_step i jr).

(** *** Forwarded commands *)

Definition forwarded_add (c : raft_command_t) : M unit :=
  old ← gets (λ d, old_members (config_state (node d)));
  members ← lift (mapM (copy_uninit RAFT_MAX_ID) old);
  if negb (member_contains old (key c)) && (length members <? RAFT_MAX_NODES)%nat then
    i ← lift (copy_uninit RAFT_MAX_ID (key c));
    _ ← request_change (members ++ [i]);
    _ ← printf (nl +:+ "[fwd] addnode=" +:+ key c +:+ nl);
    prompt
  else mret tt.

Definition forwarded_remove (c : raft_command_t) : M unit :=
  members ← other_members (key c);
  old ← gets (λ d, old_members (config_state (node d)));
  if (length members <? length old)%nat then
    _ ← request_change members;
    _ ← printf (nl +:+ "[fwd] rmnode=" +:+ key c +:+ nl);
    prompt
  else mret tt.

Definition forwarded_command (c : raft_command_t) : M unit :=
  if streq (op c) "cluster.fwd_add" then forwarded_add c
  else if streq (op c) "cluster.fwd_rm" || streq (op c) "cluster.fwd_leave" then forwarded_remove c
  else _ ← submit sockets c; mret tt.

Definition handle_forwarded : M unit :=
  cmds ← gets (λ d, fwd_cmds (cli d));
  leader ← is_leader;
  _ ← when (0 <? length cmds)%nat (when leader (each forwarded_command cmds));
  on_cli (λ c, c <| fwd_cmds := [] |>).

(** *** The output phase *)

(** A node that has left its cluster joins the next one, or the program ends. *)
Definition finish_leave : M unit :=
  d ← gets id;
  if leave_pending (cli d) && negb (running (node d)) then
    if rejoin_pending (cli d) then
      _ ← request_join_now (rejoin_host (cli d)) (rejoin_port (cli d));
      on_cli (λ c, c <| rejoin_pending := false |> <| leave_pending := false |> <| prompt_needed := true |>)
    else on_cli (λ c, c <| quit_requested := true |>)
  else mret tt.

Definition or_none (s : string) : string := if streq s "" then "(none)" else s.

(** Changes of role, term, vote and vote count go to the standard error. *)
Definition report_changes : M unit :=
  d ← gets id;
  let n := node d in
  let id := "[" +:+ cli_node_id (cli d) +:+ "] " in
  _ ← when (negb (role_eqb (machine_state n) (last_role (cli d)))
            || negb (current_term n =? last_term (cli d))%Z)
        (_ ← eprintf (nl +:+ id +:+ role_name (last_role (cli d)) +:+ "→" +:+ role_name (machine_state n)
                      +:+ "  term=" +:+ print_int (current_term n)
                      +:+ "  commit=" +:+ print_int (commit_index n) +:+ nl);
         on_cli (λ c, c <| last_role := machine_state n |> <| last_term := current_term n |>
                        <| prompt_needed := true |>));
  _ ← when (negb (streq (voted_for n) (last_voted_for (cli d))))
        (_ ← eprintf (id +:+ "voted_for: " +:+ dquote +:+ or_none (last_voted_for (cli d)) +:+ dquote
                      +:+ " → " +:+ dquote +:+ or_none (voted_for n) +:+ dquote
                      +:+ "  term=" +:+ print_int (current_term n) +:+ nl);
         on_cli (λ c, c <| last_voted_for := strncpy RAFT_MAX_ID (voted_for n) |> <| prompt_needed := true |>));
  if role_eqb (machine_state n) RAFT_ROLE_CANDIDATE
     && negb (length (votes_received n) =? last_vote_count (cli d))%nat then
    _ ← eprintf (id +:+ "vote_count: " +:+ print_nat (last_vote_count (cli d)) +:+ " → "
                 +:+ print_nat (length (votes_received n))
                 +:+ "  term=" +:+ print_int (current_term n) +:+ nl);
    on_cli (λ c, c <| last_vote_count := length (votes_received n) |> <| prompt_needed := true |>)
  else if negb (role_eqb (machine_state n) RAFT_ROLE_CANDIDATE)
  then on_cli (λ c, c <| last_vote_count := 0%nat |>) else mret tt.

Definition print_prompt : M unit :=
  c ← gets cli;
  when (prompt_needed c)
    (_ ← printf (cli_node_id c +:+ "> "); on_cli (λ c, c <| prompt_needed := false |>)).

Definition cli_dump_outputs : M unit :=
  _ ← finish_leave;
  quit ← gets (λ d, quit_requested (cli d));
  if (quit : bool) then modify (λ d, d <| stopped := true |>)
  else
    _ ← report_changes;
    _ ← handle_joins;
    _ ← handle_forwarded;
    print_prompt.

(** One tick of the runtime on this machine: [cli_transitions] has one transition,
    from the only state to itself. *)
Definition cli_tick (stdin : stdin_t) : M unit :=
  _ ← cli_latch_inputs stdin;
  c ← gets cli;
  _ ← when (cli_guard_has_line c) cli_action_execute;
  cli_dump_outputs.

End Cli.
