(* ===== verification/DemoMain.v ===== *)
(** The demo process, [c/examples/demo_app/src/main.c]: how it is put together, and a
    tick of its node, whose application registers the addresses that arrive through
    the log. *)
From S2P Require Import Prelude StateMonad CString Types KvApp Config NodeLog Handlers Storage MemTransport Membership Fsm Lifecycle MessageLayout TcpTransport TcpPeers CliProcess DemoApp CliFsm.

Definition ELECTION_TIMEOUT : Z := 500.
Definition HEARTBEAT_INTERVAL : Z := 100.

Definition make_raft_config (args : demo_args_t) : raft_node_config_t :=
  mkConfig (strncpy RAFT_MAX_ID (arg_node_id args))
    ((λ p, strncpy RAFT_MAX_ID (peer_id p)) <$> arg_peers args)
    (strncpy RAFT_MAX_ID <$> arg_members args) (0 <? join_port args)%Z ELECTION_TIMEOUT HEARTBEAT_INTERVAL.

Definition configure_cli (args : demo_args_t) (n : raft_node_t demo_kv_app_t) : cli_user_t :=
  mkCli (strncpy RAFT_MAX_ID (arg_node_id args)) "" false true false false (machine_state n) (current_term n)
    (strncpy RAFT_MAX_ID (voted_for n)) 0 false "" 0 [] [].

Section Main.
  Context {N : Type} (sockets : sockets_t N) (fopen_w : string → bool).
  Context (open_listener : Z → option Z) (pthread_create : bool).
  Context {layout : MessageLayout} {frames : Layout raft_tcp_frame_t frame_fits}.
  Context {requests : Layout raft_tcp_join_req_t join_req_fits} {commands : Layout raft_command_t command_fits}.

(** The peers of the command line, added one by one. *)
Fixpoint add_peers (tcp : raft_tcp_transport_t N) (ps : list raft_tcp_peer_t)
    : raft_tcp_transport_t N * list fs_op :=
  match ps with
  | [] => (tcp, [])
  | p :: ps =>
      let '(tcp, ops) := raft_tcp_transport_add_peer fopen_w tcp (peer_id p) (peer_host p) (peer_port p) in
      let '(tcp, ops') := add_peers tcp ps in (tcp, ops ++ ops')
  end.

Definition configure_transport (n : N) (args : demo_args_t) (disk : disk_t)
    : raft_tcp_transport_t N * list fs_op :=
  let tcp := raft_tcp_transport_init n (arg_port args) in
  let tcp := raft_tcp_transport_set_self tcp (arg_node_id args) (arg_host args) in
  let node_dir := (snprintf 512 (arg_data_dir args +:+ "/" +:+ arg_node_id args)).1 in
  let '(tcp, ops) := raft_tcp_transport_set_data_dir fopen_w tcp node_dir disk in
  let '(tcp, ops') := add_peers tcp (arg_peers args) in (tcp, ops ++ ops').

(** [-1] with its message is [inl]; the machines are registered with the runtime,
    which is taken to succeed, and [now] is the reading of the clock. *)
Definition setup (n : N) (args : demo_args_t) (now : Z) (disk : disk_t)
    : option (string + demo_process_t N) :=
  let '(tcp, ops) := configure_transport n args disk in
  let disk := fs_run ops disk in
  let '(tcp, ops, r) := if (0 <? listen_port tcp)%Z
                        then raft_tcp_transport_start fopen_w open_listener pthread_create tcp
                        else (tcp, [], 0%Z) in
  let disk := fs_run ops disk in
  if negb (r =? 0)%Z
  then Some (inl ("failed to listen on port " +:+ print_int (listen_port tcp) +:+ nl))
  else
    let cluster := raft_cluster_enable_realtime_clock raft_cluster_init now in
    '(cluster, added) ← raft_cluster_add_node cluster (make_raft_config args) (arg_data_dir args)
                          (demo_kv_app_make raft_kv_state_init) disk;
    match head (nodes cluster) with
    | Some node => Some (inr (mkProcess (configure_cli args node) node tcp disk [] [] false))
    | None => Some (inl ("raft_cluster_add_node failed" +:+ nl))
    end.

Definition request_join (args : demo_args_t) (d : demo_process_t N) : demo_process_t N :=
  if (join_port args <=? 0)%Z then d
  else d <| tcp := (raft_tcp_transport_request_join sockets (tcp d) (arg_node_id args) (arg_host args)
                      (arg_port args) (join_host args) (join_port args)).1 |>.

Definition teardown (d : demo_process_t N) : demo_process_t N :=
  d <| tcp := raft_tcp_transport_stop (tcp d) |>.

(** *** A tick of the node *)

Definition clear_calls (n : raft_node_t demo_kv_app_t) : raft_node_t demo_kv_app_t :=
  n <| application := application n <| user := user (application n) <| peer_calls := [] |> |> |>.

(** [raft_node_dump_outputs] with this application: the addresses are registered
    while the commands are applied, before the node is saved and the messages are
    sent. *)
Definition demo_dump_outputs (d : demo_process_t N) : option (demo_process_t N) :=
  if negb (running (node d)) then Some (d <| node := node d <| outbox := [] |> |>)
  else
    '(n, ops) ← dump_prepare (node d);
    let '(t, fs) := perform_peer_sets fopen_w (tcp d) (peer_calls (user (application n))) in
    Some (d <| node := clear_calls n <| outbox := [] |> |>
            <| tcp := send_messages (raft_tcp_transport_make sockets) (outbox n) t |>
            <| files := run_disk ops (fs_run fs (files d)) |>).

Definition demo_node_tick
    (evaluate : list (transition (U:=demo_kv_app_t)) → raft_node_t demo_kv_app_t → Z → option transition)
    (clock : Z) (d : demo_process_t N) : option (demo_process_t N) :=
  '(n, t) ← raft_node_latch_inputs (raft_tcp_transport_make sockets) (node d) (tcp d);
  n ← commit_transition (evaluate RAFT_TRANSITIONS n clock) n clock;
  demo_dump_outputs (d <| node := n |> <| tcp := t |>).

End Main.
