(* ===== verification/CliJoins.v ===== *)
(** The demo's machine: its operations keep what the facts of [CliFacts] ask for, so
    its loop over the join requests handles them, and so does the output phase. *)
From S2P Require Import Prelude StateMonad CString Types KvApp Config NodeLog Handlers Storage MemTransport Membership Fsm Lifecycle MessageLayout TcpTransport TcpPeers CliProcess CliFacts DemoApp CliFsm.

Section Keeping.
  Context {N : Type} (sockets : sockets_t N) (fopen_w : string → bool).
  Context {layout : MessageLayout} {frames : Layout raft_tcp_frame_t frame_fits}.
  Context {requests : Layout raft_tcp_join_req_t join_req_fits} {commands : Layout raft_command_t command_fits}.

#[export] Instance keeps_prompt : Keeps (N:=N) prompt.
Proof. by apply keeps_modify. Qed.

#[export] Instance keeps_announce_cluster ms host port : Keeps (announce_cluster sockets ms host port).
Proof.
  apply keeps_on_tcp. intros t. unfold raft_tcp_transport_send_cluster_join. by destruct (_ || _).
Qed.

#[export] Instance keeps_forward_to_leader cmd : Keeps (forward_to_leader sockets cmd).
Proof.
  unfold forward_to_leader. apply keeps_bind; [apply _|]. intros [[host port]|]; [|apply _].
  apply keeps_bind; [apply _|]. intros r. apply _.
Qed.

#[export] Instance keeps_queue_peer_set id host port : Keeps (queue_peer_set sockets id host port).
Proof.
  unfold queue_peer_set. apply keeps_bind; [apply _|]. intros self. apply keeps_if; [apply _|].
  apply keeps_bind; [apply _|]. intros []; apply keeps_bind; [apply _| |apply _|].
  - intros []; apply _.
  - intros [[h p]|]; apply _.
Qed.

End Keeping.

Section Defined.
  Context {N : Type}.
  Implicit Types d : demo_process_t N.

Lemma find_address_ok d id host port :
  view_ok (view_of d) → find_peer_address d id = Some (host, port) →
  host_ok host ∧ (id = v_id (view_of d) ∨ id ∈ (peer_id <$> tcp_peers (tcp d))).
Proof.
  intros Hv H. unfold find_peer_address in H. destruct (streq id _) eqn:E.
  - apply streq_true in E. destruct (raft_tcp_transport_is_listening _); [|done]. simplify_eq.
    split; [|by left]. pose proof (view_ok_host _ Hv) as Hh. by rewrite host_ok_copy.
  - apply bind_Some in H as (p & Hp & [= <- <-]). apply find_peer_elem in Hp as [Hp <-].
    destruct (view_ok_peers _ Hv) as [Ho _].
    assert (host_ok (peer_host p)) as Hh by exact (proj1 (Forall_forall _ _) Ho p Hp).
    split; [by rewrite host_ok_copy|]. right. by apply list_elem_of_fmap_2.
Qed.

Lemma collect_loop_defined d ids acc :
  view_ok (view_of d) → Forall short ids → ∃ acc', collect_loop d ids acc = Some acc'.
Proof.
  intros Hv. revert acc; induction ids as [|id ids IH]; intros acc Hs; cbn [collect_loop]; [eauto|].
  inversion Hs; subst. destruct (_ <? _)%nat; [|eauto]. destruct (peer_list_contains acc id); [by apply IH|].
  destruct (find_peer_address d id) as [[host port]|] eqn:E; [|by apply IH].
  apply find_address_ok in E as [Hh _]; [|done]. rewrite copy_short, copy_host by done. bind_simpl. by apply IH.
Qed.

Lemma collect_defined d : view_ok (view_of d) → ∃ ps, collect_cluster_peers d = Some ps.
Proof.
  intros Hv. unfold collect_cluster_peers.
  destruct (collect_loop_defined d (old_members (config_state (node d))) [] Hv) as [a1 ->]; [apply Hv|]. bind_simpl.
  destruct (collect_loop_defined d (new_members (config_state (node d))) a1 Hv) as [a2 ->]; [apply Hv|]. bind_simpl.
  destruct (_ && _); [|eauto]. rewrite copy_short, copy_host by apply Hv. eauto.
Qed.

End Defined.

Section Joins.
  Context {N : Type} (sockets : sockets_t N) (fopen_w : string → bool).
  Context {layout : MessageLayout} {frames : Layout raft_tcp_frame_t frame_fits}.
  Context {requests : Layout raft_tcp_join_req_t join_req_fits} {commands : Layout raft_command_t command_fits}.
  Implicit Types d : demo_process_t N.

Lemma replicate_kept d : view_ok (view_of d) → kept (replicate_known_cluster_peers sockets) d.
Proof.
  intros Hv. unfold replicate_known_cluster_peers. apply kept_bind; [apply keeps_is_leader|].
  intros leader d1 E1. destruct (negb leader); [apply keeps_ret|].
  rewrite <- E1 in Hv. destruct (collect_defined d1 Hv) as [ps Hps].
  apply kept_bind; [by eapply kept_reads|]. intros ps' d2 _. apply keeps.
Qed.

Lemma announce_members_kept d jr : view_ok (view_of d) → kept (announce_members sockets jr) d.
Proof.
  intros Hv. unfold announce_members. destruct (collect_defined d Hv) as [ps Hps].
  apply kept_bind; [by eapply kept_reads|]. intros ps' d2 _. apply keeps.
Qed.

(** The ids in [sent] are those of peers, each once, so there are fewer than the
    array holds. *)
Lemma forward_merge_kept d jr ids sent :
  view_ok (view_of d) → join_ok jr → Forall short ids →
  NoDup sent → (∀ id, id ∈ sent → id ∈ (peer_id <$> tcp_peers (tcp d))) →
  wp (forward_merge_loop sockets jr ids sent) (λ sent' d', view_of d' = view_of d ∧
    NoDup sent' ∧ (∀ id, id ∈ sent' → id ∈ (peer_id <$> tcp_peers (tcp d')))) d.
Proof.
  intros Hv Hj. revert d sent Hv; induction ids as [|id ids IH]; intros d sent Hv Hs Hn Hsub;
    cbn [forward_merge_loop]; [by apply wp_ret|]. inversion Hs; subst.
  apply wp_bind, wp_gets. destruct (_ || _) eqn:Eself; [by apply IH|].
  assert (∃ b, jr_contains jr id = Some b) as [listed Hl].
  { unfold jr_contains. destruct (peer_list_contains _ _); [eauto|].
    rewrite (proj2 (Z.leb_le _ _)) by apply Hj. eauto. }
  apply wp_bind. eapply wp_lift; [exact Hl|]. destruct (listed || _) eqn:Ein; [by apply IH|].
  apply wp_bind, wp_gets. destruct (find_peer_address d id) as [[host port]|] eqn:Ea; [|by apply IH].
  apply find_address_ok in Ea as [_ Hid]; [|done]. bools.
  apply wp_bind. eapply wp_mono; [apply keeps_announce_cluster|]. intros r d1 E1. cbv beta in E1.
  assert (tcp_peers (tcp d1) = tcp_peers (tcp d)) as Ep by (change (v_peers (view_of d1) = v_peers (view_of d)); by rewrite E1).
  assert (id ∉ sent) as Hnew.
  { intros Hin. assert (member_contains sent id = true); [|congruence].
    apply existsb_exists. exists id. split; [by apply list_elem_of_In|apply streq_refl]. }
  assert (id ∈ (peer_id <$> tcp_peers (tcp d))) as Hidp.
  { destruct Hid as [->|]; [|done].
    match goal with H : streq (v_id _) _ = false |- _ => apply streq_false in H end. done. }
  assert (NoDup (sent ++ [id])) as Hn'.
  { apply NoDup_app. split_and!; [done| |apply NoDup_singleton]. intros x Hx ->%list_elem_of_singleton. done. }
  assert (∀ x, x ∈ sent ++ [id] → x ∈ (peer_id <$> tcp_peers (tcp d))) as Hsub'.
  { intros x [?| ->%list_elem_of_singleton]%elem_of_app; [by apply Hsub|done]. }
  assert (length (sent ++ [id]) ≤ RAFT_MAX_PEERS)%nat as Hlen.
  { etrans; [|exact (proj2 (view_ok_peers _ Hv))]. cbn [v_peers view_of].
    rewrite <- (length_fmap peer_id). apply NoDup_incl_length; [by apply NoDup_ListNoDup|].
    intros x Hx. by apply list_elem_of_In, Hsub', list_elem_of_In. }
  rewrite length_app in Hlen. unfold RAFT_MAX_PEERS in Hlen. cbn [length] in Hlen.
  rewrite (proj2 (Nat.ltb_lt _ _)) by (unfold RAFT_MAX_NODES in *; lia).
  apply wp_bind. eapply wp_lift; [by apply copy_short|].
  eapply wp_mono; [apply (IH d1)|]; [by rewrite E1|done|done|by rewrite Ep|].
  intros s' d' (E' & ?). split; [congruence|done].
Qed.

Lemma forward_merge_all_kept d jr :
  view_ok (view_of d) → join_ok jr → kept (forward_merge_peers_to_local_members sockets jr) d.
Proof.
  intros Hv Hj. unfold forward_merge_peers_to_local_members, kept.
  apply wp_bind, wp_gets, wp_bind.
  eapply wp_mono; [apply forward_merge_kept; [done|done|apply Hv|apply NoDup_nil_2|by intros ? ?%elem_of_nil]|].
  intros sent d1 (E1 & Hn & Hsub). apply wp_bind, wp_gets, wp_bind.
  eapply wp_mono; [apply forward_merge_kept; [by rewrite E1|done| |done|done]|].
  - change (config_state (node d1)) with (v_config (view_of d1)). rewrite E1. apply Hv.
  - intros sent' d2 (E2 & _). apply wp_ret. congruence.
Qed.

End Joins.

Section Loop.
  Context {N : Type} (sockets : sockets_t N) (fopen_w : string → bool).
  Context {layout : MessageLayout} {frames : Layout raft_tcp_frame_t frame_fits}.
  Context {requests : Layout raft_tcp_join_req_t join_req_fits} {commands : Layout raft_command_t command_fits}.
  Implicit Types d : demo_process_t N.

Lemma learn_peer_learns d id host port b :
  host_ok host → view_ok (view_of d) → learns (learn_peer sockets fopen_w id host port b) d.
Proof.
  intros Hh Hv. unfold learn_peer.
  apply learns_bind; [by apply learns_kept, keeps_gets|]. intros changed d1 H1. eapply learnt_ok in Hv; [|exact H1].
  apply learns_bind; [by apply learns_kept, keeps_gets|]. intros self d2 H2. eapply learnt_ok in Hv; [|exact H2].
  destruct (streq id self); [apply learns_kept, keeps_ret|].
  apply learns_bind; [|intros [] d3 _; apply learns_kept, keeps].
  apply wp_modify. destruct (add_peer_ok fopen_w (tcp d2) id host port Hh (view_ok_peers _ Hv)) as [Hp Eh].
  unfold learnt, view_of. rsimpl. rewrite Eh. split; [done|]. intros _. exact Hp.
Qed.

Lemma learn_if_unknown_learns d jr :
  join_ok jr → view_ok (view_of d) → learns (learn_if_unknown sockets fopen_w jr) d.
Proof.
  intros Hj Hv. unfold learn_if_unknown.
  apply learns_bind; [by apply learns_kept, keeps_gets|]. intros known d1 H1. eapply learnt_ok in Hv; [|exact H1].
  apply learns_bind; [by apply learns_kept, keeps_is_leader|]. intros leader d2 H2. eapply learnt_ok in Hv; [|exact H2].
  unfold when. destruct (negb known); [|apply learns_kept, keeps_ret].
  apply learn_peer_learns; [apply Hj|done].
Qed.

Lemma learn_each d ps :
  Forall (λ p, short (peer_id p) ∧ host_ok (peer_host p)) ps → view_ok (view_of d) →
  learns (each (λ p,
        self ← gets (λ d, node_id (config (node d)));
        if streq (peer_id p) self then mret tt
        else leader ← is_leader; learn_peer sockets fopen_w (peer_id p) (peer_host p) (peer_port p) leader) ps) d.
Proof.
  intros Hps Hv. apply wp_each; [done|]. intros p d1 Hp H1. eapply learnt_ok in Hv; [|exact H1].
  eapply wp_mono with (Q1 := λ _ d', learnt (view_of d1) (view_of d')); [|intros _ d2 H2; by etrans].
  apply (learns_bind _ _ d1); [by apply learns_kept, keeps_gets|]. intros self d2 H2.
  eapply learnt_ok in Hv; [|exact H2]. destruct (streq _ _); [apply learns_kept, keeps_ret|].
  apply learns_bind; [by apply learns_kept, keeps_is_leader|]. intros leader d3 H3. eapply learnt_ok in Hv; [|exact H3].
  apply learn_peer_learns; [|done]. by apply (proj1 (Forall_forall _ _) Hps).
Qed.

Lemma learn_members_learns d jr :
  join_ok jr → view_ok (view_of d) → learns (learn_members sockets fopen_w jr) d.
Proof.
  intros Hj Hv. unfold learn_members. apply learns_bind.
  - apply learn_each; [|done]. apply Forall_take, Hj.
  - intros [] d1 _. rewrite (proj2 (Z.ltb_ge _ _)) by apply Hj. apply learns_kept, keeps_ret.
Qed.

Lemma merge_steps_settle d jr :
  join_ok jr → view_ok (view_of d) →
  wp (merge_steps sockets jr) (λ f d', view_of d' = view_of d ∧ settled f) d.
Proof.
  intros Hj Hv. unfold merge_steps. destruct (forwarded jr =? RAFT_JOIN_ORIGINAL)%Z eqn:E1;
    [|destruct (forwarded jr =? RAFT_JOIN_FORWARDED)%Z eqn:E2;
      [|destruct (forwarded jr =? RAFT_JOIN_ANNOUNCE)%Z eqn:E3]].
  - apply wp_bind. eapply wp_mono; [apply keeps_flood|]. intros [] d1 H1. cbv beta in H1.
    apply wp_bind. eapply wp_mono; [apply announce_members_kept; by rewrite H1|]. intros [] d2 H2. cbv beta in H2.
    apply wp_ret. split; [congruence|done].
  - apply wp_bind. eapply wp_mono; [by apply announce_members_kept|]. intros [] d2 H2. by apply wp_ret.
  - apply wp_bind. eapply wp_mono; [by apply forward_merge_all_kept|]. intros [] d2 H2. by apply wp_ret.
  - apply wp_ret. split; [done|]. bools. by split_and!.
Qed.

(** *** The leader's part *)

Lemma union_loop_defined b ids ms :
  Forall short ids → ∃ ms', union_loop b ids ms = Some ms'.
Proof.
  revert ms; induction ids as [|id ids IH]; intros ms H; cbn [union_loop]; [eauto|]. inversion H; subst.
  destruct (_ <? _)%nat; [|eauto]. destruct (_ || _); [by apply IH|]. rewrite copy_short by done. by apply IH.
Qed.

Lemma membership_union_kept d jr :
  join_ok jr → view_ok (view_of d) → kept (request_membership_union jr) d.
Proof.
  intros Hj Hv. unfold request_membership_union. apply kept_bind; [apply keeps_is_leader|].
  intros leader d1 E1. destruct (negb leader); [apply keeps_ret|].
  assert (view_ok (view_of d1)) as Hv1 by (by rewrite E1). clear Hv E1.
  apply wp_bind, wp_gets. set (c := config_state (node d1)).
  assert (Forall short (take RAFT_MAX_NODES (old_members c))) as Ho by (apply Forall_take, Hv1).
  apply kept_bind; [by eapply kept_lift, copy_all|]. intros ms d2 _.
  destruct (union_loop_defined false (new_members c) ms) as [ms2 H2]; [apply Hv1|].
  apply kept_bind; [by eapply kept_lift|]. intros ms3 d3 _.
  destruct (union_loop_defined true (peer_id <$> take (Z.to_nat (member_count jr)) (jr_members jr)) ms3) as [ms4 H4].
  { apply Forall_fmap, Forall_take. eapply Forall_impl; [apply Hj|]. by intros p []. }
  apply kept_bind; [by eapply kept_lift|]. intros ms5 d4 _.
  rewrite (proj2 (Nat.ltb_ge (length (jr_members jr)) (Z.to_nat (member_count jr))))
    by (pose proof (join_ok_count _ Hj); lia).
  cbn [andb when]. apply keeps.
Qed.

Lemma leader_adds_kept d jr : join_ok jr → view_ok (view_of d) → kept (leader_adds sockets jr) d.
Proof.
  intros Hj Hv. unfold leader_adds. apply wp_bind, wp_gets.
  apply kept_bind; [eapply kept_lift, copy_all, Hv|]. intros ms d1 E1. destruct (_ && _); [|apply keeps_ret].
  apply kept_bind; [eapply kept_lift, copy_short, Hj|]. intros i d2 E2.
  apply kept_bind; [apply keeps_request_change|]. intros [] d3 E3.
  apply kept_bind; [apply replicate_kept; congruence|]. intros [] d4 E4. apply keeps.
Qed.

(** *** One iteration *)

Lemma merge_step_stepped d i jr :
  join_ok jr → view_ok (view_of d) → wp (merge_step sockets fopen_w i jr) (λ i' d', stepped i d i' d') d.
Proof.
  intros Hj Hv. unfold merge_step. apply wp_bind. eapply wp_mono; [by apply learn_members_learns|].
  intros [] d1 H1. cbv beta in H1. apply wp_bind.
  eapply wp_mono; [apply merge_steps_settle; [done|by eapply learnt_ok]|]. intros f d2 [H2 Hf].
  rewrite <- H2 in H1. set (jr' := jr <| forwarded := f |>).
  assert (join_ok jr') as Hj' by by apply join_ok_forwarded.
  pose proof (set_joins_ok d i jr' Hv Hj') as Hv'.
  apply wp_bind, (set_join_learns i jr' d); [done|]. intros d3 H3.
  assert (view_ok (view_of d3)) as Hv3 by by eapply learnt_ok.
  pose proof (learnt_role _ _ _ _ H3) as Er.
  apply wp_bind, wp_gets. rewrite Er. destruct (role_eqb (machine_state (node d)) RAFT_ROLE_LEADER) eqn:El.
  - apply wp_bind. eapply wp_mono; [by apply membership_union_kept|]. intros [] d4 H4. cbv beta in H4.
    apply wp_bind. eapply wp_mono; [apply replicate_kept; by rewrite H4|]. intros [] d5 H5. cbv beta in H5.
    apply wp_bind. eapply wp_mono; [apply keeps_printf|]. intros [] d6 H6. cbv beta in H6.
    apply wp_bind. eapply wp_mono; [apply keeps_prompt|]. intros [] d7 H7. cbv beta in H7.
    eapply drop_stepped; [exact Hj'|]. by rewrite H7, H6, H5, H4.
  - apply bool_decide_eq_false in El. destruct (_ && _).
    + by eapply drop_stepped.
    + by eapply keep_stepped.
Qed.

Lemma join_step_stepped d i jr :
  pending_joins (cli d) !! i = Some jr → join_ok jr → view_ok (view_of d) →
  wp (join_step sockets fopen_w i jr) (λ i' d', stepped i d i' d') d.
Proof.
  intros Hi Hj Hv. unfold join_step. destruct (forwarded jr =? RAFT_JOIN_ANNOUNCE)%Z eqn:Ef; bools.
  - apply wp_bind. eapply wp_mono; [by apply learn_if_unknown_learns|]. intros [] d1 H1. cbv beta in H1.
    eapply drop_stepped; [exact Hj|]. etrans; [|exact H1]. by apply learnt_eq, eq_sym, view_with_join_same.
  - apply wp_bind. eapply wp_mono; [by apply join_steps_settle|]. intros f d1 [H1 Hf].
    set (jr' := jr <| forwarded := f |>). assert (join_ok jr') as Hj' by by apply join_ok_forwarded.
    pose proof (set_joins_ok d i jr' Hv Hj') as Hv'.
    apply wp_bind, (set_join_learns i jr' d); [by apply learnt_eq|]. intros d2 H2.
    assert (view_ok (view_of d2)) as Hv2 by by eapply learnt_ok.
    apply wp_bind. eapply wp_mono; [by apply learn_if_unknown_learns|]. intros [] d3 H3. cbv beta in H3.
    assert (view_ok (view_of d3)) as Hv3 by by eapply learnt_ok.
    pose proof (transitivity H2 H3) as H23. clear H2 H3.
    pose proof (learnt_role _ _ _ _ H23) as Er.
    apply wp_bind, wp_gets. destruct (_ || _); [by eapply drop_stepped|].
    apply wp_bind, wp_gets. rewrite Er. destruct (role_eqb (machine_state (node d)) RAFT_ROLE_LEADER) eqn:El.
    + apply wp_bind. eapply wp_mono; [by apply leader_adds_kept|]. intros [] d4 H4. cbv beta in H4.
      eapply drop_stepped; [exact Hj'|]. by rewrite H4.
    + apply bool_decide_eq_false in El. by eapply keep_stepped.
Qed.

Lemma handle_joins_handles d :
  view_ok (view_of d) → wp (handle_joins sockets fopen_w) (λ _ d', handled d d') d.
Proof.
  intros Hv. apply each_join_handles; [|done]. intros d1 i jr Hi Hj Hv1.
  destruct (negb _); [by apply merge_step_stepped|by apply join_step_stepped].
Qed.

(** *** Forwarded commands *)

Lemma other_members_short d id :
  view_ok (view_of d) → ∃ ms, mapM (copy_uninit RAFT_MAX_ID)
    (filter (λ m, streq m id = false) (old_members (config_state (node d)))) = Some ms.
Proof.
  intros Hv. eexists. apply copy_all, Forall_forall. intros m [_ Hm]%list_elem_of_filter.
  exact (proj1 (Forall_forall _ _) (view_ok_old _ Hv) m Hm).
Qed.

Lemma forwarded_command_kept d c : view_ok (view_of d) → cmd_ok c → kept (forwarded_command sockets c) d.
Proof.
  intros Hv Hc. unfold forwarded_command. destruct (streq (op c) "cluster.fwd_add") eqn:E.
  - apply streq_true in E. unfold forwarded_add. apply wp_bind, wp_gets.
    apply kept_bind; [eapply kept_lift, copy_all, Hv|]. intros ms d1 _. destruct (_ && _); [|apply keeps_ret].
    apply kept_bind; [by eapply kept_lift, copy_short, Hc|]. intros i d2 _. apply keeps.
  - destruct (_ || _); [|apply keeps]. unfold forwarded_remove.
    destruct (other_members_short d (key c) Hv) as [ms Hms].
    apply kept_bind; [by eapply kept_reads|]. intros ms' d1 _. apply keeps.
Qed.

Lemma handle_forwarded_spec d :
  view_ok (view_of d) →
  wp (handle_forwarded sockets) (λ _ d', view_of d' = view_of (d <| cli := cli d <| fwd_cmds := [] |> |>)) d.
Proof.
  intros Hv. unfold handle_forwarded. apply wp_bind, wp_gets, wp_bind, wp_gets, wp_bind.
  eapply wp_mono with (Q1 := λ _ d', view_of d' = view_of d).
  - destruct (0 <? _)%nat; [|by apply wp_ret]. destruct (role_eqb _ _); [|by apply wp_ret].
    apply (wp_each _ _ (λ d', view_of d' = view_of d)); [done|]. intros c d1 Hin E1.
    eapply wp_mono; [apply forwarded_command_kept; [by rewrite E1|]|].
    + exact (proj1 (Forall_forall _ _) (view_ok_cmds _ Hv) c Hin).
    + intros [] d2 E2. cbv beta in E2. congruence.
  - intros [] d1 E1. apply wp_modify. unfold view_of in *. do 2 rsimpl. injection E1. intros. congruence.
Qed.

(** *** The output phase *)

Context (clock : Z).

Lemma reset_state_view {U} (n : raft_node_t U) :
  config_state (reset_state n clock) = zero_configuration ∧
  node_id (config (reset_state n clock)) = node_id (config n) ∧
  machine_state (reset_state n clock) = RAFT_ROLE_FOLLOWER.
Proof. split_and!; reflexivity. Qed.

Lemma reset_for_join_view d :
  wp (reset_for_join clock) (λ _ d', view_of d' =
    mkView (pending_joins (cli d)) (fwd_cmds (cli d)) zero_configuration (node_id (config (node d)))
      RAFT_ROLE_FOLLOWER (own_host (tcp d)) (tcp_peers (tcp d))) d.
Proof.
  apply wp_modify. unfold raft_node_reset_for_join. destruct (reset_state_view (node d)) as (E1 & E2 & E3).
  revert E1 E2 E3. generalize (reset_state (node d) clock). intros n E1 E2 E3. unfold view_of. do 2 rsimpl.
  by rewrite E1, E2, E3.
Qed.

Lemma request_join_now_ok d host port :
  view_ok (view_of d) →
  wp (request_join_now sockets clock host port) (λ _ d', view_ok (view_of d') ∧
    pending_joins (cli d') = pending_joins (cli d)) d.
Proof.
  intros Hv. unfold request_join_now. apply wp_bind, wp_gets. destruct (negb _).
  { eapply wp_mono; [by apply keeps|]. intros r d1 E. cbv beta in E. split; [by rewrite E|].
    change (v_joins (view_of d1) = v_joins (view_of d)). by rewrite E. }
  apply wp_bind. eapply wp_mono; [apply reset_for_join_view|]. intros [] d1 E1. cbv beta in E1.
  assert (view_ok (view_of d1)) as Hv1 by (rewrite E1; destruct Hv; by split).
  apply wp_bind, wp_gets, wp_bind. eapply wp_mono; [by refine (keeps_on_tcp _ _ d1)|].
  intros r d2 E2. cbv beta in E2. eapply wp_mono; [by apply keeps|]. intros r' d3 E3. cbv beta in E3.
  split; [by rewrite E3, E2|]. change (v_joins (view_of d3) = pending_joins (cli d)). by rewrite E3, E2, E1.
Qed.

Lemma finish_leave_ok d :
  view_ok (view_of d) →
  wp (finish_leave sockets clock) (λ _ d', view_ok (view_of d') ∧ pending_joins (cli d') = pending_joins (cli d)) d.
Proof.
  intros Hv. unfold finish_leave. apply wp_bind, wp_gets. destruct (_ && _); [|by apply wp_ret].
  destruct (rejoin_pending _); [|by apply wp_modify].
  apply wp_bind. eapply wp_mono; [by apply request_join_now_ok|]. intros r d1 [H1 H2]. by apply wp_modify.
Qed.

#[local] Instance keeps_report : Keeps (N:=N) report_changes.
Proof.
  assert (∀ f : cli_user_t → cli_user_t,
    (∀ c, pending_joins (f c) = pending_joins c ∧ fwd_cmds (f c) = fwd_cmds c) → 
    Keeps (U:=demo_kv_app_t) (N:=N) (on_cli f)) as Hc.
  { intros f Hf. apply keeps_modify. intros d. unfold view_of. rsimpl. cbn [joins_of cmds_of cli_user_queues].
    destruct (Hf (cli d)) as [-> ->]. done. }
  unfold report_changes. apply keeps_bind; [apply _|]. intros d. cbv zeta.
  repeat first [apply keeps_bind; [|intros []] | apply keeps_when | apply keeps_if | apply keeps_eprintf
               | apply keeps_ret | by apply Hc].
Qed.

#[local] Instance keeps_print_prompt : Keeps (N:=N) print_prompt.
Proof.
  unfold print_prompt. apply keeps_bind; [apply _|]. intros c. apply keeps_when, keeps_bind; [apply _|].
  intros []. by apply keeps_modify.
Qed.

(** The output phase never leaves an array, and stops the program or leaves no
    request to be acted on and no forwarded command. *)
Lemma cli_dump_settles d :
  view_ok (view_of d) →
  wp (cli_dump_outputs sockets fopen_w clock) (λ _ d', view_ok (view_of d') ∧
    (length (pending_joins (cli d')) ≤ length (pending_joins (cli d)))%nat ∧
    (stopped d' = true ∨
     (fwd_cmds (cli d') = [] ∧
      ∀ jr, jr ∈ pending_joins (cli d') →
        settled (forwarded jr) ∧ machine_state (node d') ≠ RAFT_ROLE_LEADER))) d.
Proof.
  intros Hv. unfold cli_dump_outputs. apply wp_bind. eapply wp_mono; [by apply finish_leave_ok|].
  intros [] d1 [Hv1 E1]. apply wp_bind, wp_gets. destruct (quit_requested _).
  { apply wp_modify. split_and!; [exact Hv1|by rewrite <- E1|by left]. }
  apply wp_bind. eapply wp_mono; [apply keeps_report|]. intros [] d2 E2. cbv beta in E2.
  apply wp_bind. eapply wp_mono; [apply handle_joins_handles; by rewrite E2|]. intros [] d3 [H1 H2 H3 _ _ _].
  apply wp_bind. eapply wp_mono; [by apply handle_forwarded_spec|]. intros [] d4 E4. cbv beta in E4.
  eapply wp_mono; [apply keeps_print_prompt|]. intros [] d5 E5. cbv beta in E5. rewrite E4 in E5.
  split.
  { rewrite E5. destruct H1. split; unfold view_of in *; cbn in *; try done. }
  unfold view_of in E5. do 2 rsimpl. injection E5 as F1 F2 F3 F4 F5 F6. rewrite F1, F2, F5.
  split_and!; [|by right].
  etrans; [exact H3|]. change (joins_of (cli d2)) with (v_joins (view_of d2)). rewrite E2. cbn. by rewrite E1.
Qed.

End Loop.
