(* ===== verification/CliProps.v ===== *)
(** The theorems about the demo program: the addresses of peers that are
    replicated through the log, join requests, and the user's commands. *)
From S2P Require Import Prelude StateMonad CString Types KvApp Config NodeLog Handlers Storage MemTransport Membership Fsm Lifecycle MessageLayout TcpTransport TcpPeers TcpProps TcpPeerProps CliProcess CliFacts DemoApp CliFsm DemoMain CliJoins.

(** ** Replicated addresses *)

Lemma str_rbreak_lacks c s : lacks c s = true → str_rbreak c s = None.
Proof.
  unfold lacks. induction s as [|d s IH]; cbn [str_all str_rbreak]; [done|].
  intros [Hc%negb_true_iff Hs]%andb_true_iff. by rewrite IH, Hc.
Qed.

Lemma str_rbreak_app c a b : lacks c b = true → str_rbreak c (a +:+ String c b) = Some (a, b).
Proof.
  intros Hb. induction a as [|d a IH].
  - rewrite str_app_nil_l. cbn [str_rbreak]. rewrite (str_rbreak_lacks c b Hb). unfold is_char.
    by rewrite bool_decide_true.
  - rewrite str_app_cons. cbn [str_rbreak]. by rewrite IH.
Qed.

(** [%s:%d] is read back. *)
Lemma parse_host_port_print host port size :
  host ≠ "" → (String.length host < size)%nat → (0 < port)%Z →
  parse_host_port (host +:+ String ":"%char (print_int port)) size = Some (host, port).
Proof.
  intros Hh Hl Hp. unfold parse_host_port. rewrite str_rbreak_app by by apply print_int_lacks. bind_simpl.
  rewrite <- (str_app_nil_r (print_int port)), atoi_print_int by done.
  rewrite (proj2 (Nat.eqb_neq _ _)) by (by destruct host). rewrite (proj2 (Nat.leb_gt _ _)) by done.
  by rewrite (proj2 (Z.ltb_lt _ _)).
Qed.

Lemma find_peer_update id host port ps ps' :
  update_peer id host port ps = Some ps' →
  find_peer id ps' = Some (mkPeer id (strncpy 256 host) port).
Proof.
  revert ps'; induction ps as [|p ps IH]; intros ps' H; cbn [update_peer] in H; [done|].
  destruct (streq (peer_id p) id) eqn:E.
  - simplify_eq. cbn [find_peer]. rsimpl. rewrite E. apply streq_true in E as <-. by destruct p.
  - apply bind_Some in H as (q & Hq & [= <-]). cbn [find_peer]. rewrite E. by apply IH.
Qed.

Lemma find_peer_fresh id host port ps :
  update_peer id host port ps = None → find_peer id (ps ++ [mkPeer id host port]) = Some (mkPeer id host port).
Proof.
  induction ps as [|p ps IH]; intros H; cbn [update_peer find_peer app] in *; [by rewrite streq_refl|].
  destruct (streq _ _); [done|]. apply IH. by destruct (update_peer id host port ps).
Qed.

Lemma update_known id host port ps : id ∈ (peer_id <$> ps) → ∃ ps', update_peer id host port ps = Some ps'.
Proof.
  induction ps as [|p ps IH]; cbn [fmap list_fmap update_peer]; [by intros ?%elem_of_nil|].
  intros [->|Hin]%elem_of_cons; [rewrite streq_refl; eauto|]. destruct (streq _ _); [eauto|].
  destruct (IH Hin) as [ps' ->]. eauto.
Qed.

(** C39: the address of a peer that is replicated through the log arrives as it was
    sent.  When any node applies the command a leader has queued for a peer, the
    registration it performs puts exactly that host and port into its table, for
    ids and addresses that fit the command and a table with room (or the peer in it). *)
Theorem replicated_address_registers {N} (fopen_w : string → bool) (n : raft_node_t demo_kv_app_t)
    (tcp : raft_tcp_transport_t N) kv id host port :
  application n = demo_kv_app_make kv → id ≠ own_id tcp → (String.length id < RAFT_MAX_ID)%nat →
  host ≠ "" → (String.length host < 256)%nat → (0 < port)%Z →
  (String.length (host +:+ String ":"%char (print_int port)) < RAFT_MAX_VALUE)%nat →
  (length (tcp_peers tcp) < RAFT_MAX_PEERS)%nat ∨ id ∈ (peer_id <$> tcp_peers tcp) →
  let n' := node_apply_command n (peer_set_command id host port) in
  let tcp' := (perform_peer_sets fopen_w tcp (peer_calls (user (application n')))).1 in
  find_peer id (tcp_peers tcp') = Some (mkPeer id host port) ∧
  demo_kv (user (application n')) = kv ∧ own_id tcp' = own_id tcp.
Proof.
  intros Happ Hid Hl Hh Hh2 Hp Hv Hroom n' tcp'.
  assert (snprintf RAFT_MAX_VALUE (host +:+ String ":"%char (print_int port)) =
    (host +:+ String ":"%char (print_int port), String.length (host +:+ String ":"%char (print_int port)))) as Es.
  { unfold snprintf. rewrite str_take_all; [done|]. unfold RAFT_MAX_VALUE in *. lia. }
  assert (user (application n') = mkDemoApp kv [(id, host +:+ String ":"%char (print_int port))]) as Eu.
  { unfold n', node_apply_command, peer_set_command. rewrite Es. cbn [op fst].
    replace (_ || _ || _) with false by (vm_compute; done). rewrite Happ. cbn [demo_kv_app_make apply].
    rsimpl. unfold demo_apply. cbn [op key value user]. rewrite streq_refl. rsimpl.
    rewrite strncpy_fits; [done|]. unfold RAFT_MAX_KEY, RAFT_MAX_ID in *. lia. }
  unfold tcp'. rewrite Eu. cbn [peer_calls perform_peer_sets]. unfold register_peer_from_app.
  rewrite (proj2 (streq_false _ _)) by done. rewrite parse_host_port_print by done.
  split; [|split; [done|]]; unfold raft_tcp_transport_add_peer;
    (destruct (update_peer id host port (tcp_peers tcp)) as [ps|] eqn:E;
     [|destruct (_ <=? _)%nat eqn:Ec]); cbn [fst]; rsimpl; try done.
  - rewrite (find_peer_update _ _ _ _ _ E). by rewrite strncpy_fits.
  - bools. destruct Hroom as [|Hin]; [lia|]. destruct (update_known id host port _ Hin) as [? E']. congruence.
  - rewrite (strncpy_fits RAFT_MAX_ID), (strncpy_fits 256) by done. by apply find_peer_fresh.
Qed.

(** ** The node of the demo program

    A tick in which no address arrives through the log is the tick of the library,
    so what holds of [node_tick] holds of the demo's node. *)
Lemma demo_tick_is_node_tick {N} (sockets : sockets_t N) fopen_w
    {layout : MessageLayout} {frames : Layout raft_tcp_frame_t frame_fits}
    evaluate clock (d : demo_process_t N) n t disk :
  node_tick (raft_tcp_transport_make sockets) evaluate clock (node d) (tcp d) (files d) = Some (n, t, disk) →
  peer_calls (user (application n)) = [] →
  demo_node_tick sockets fopen_w evaluate clock d = Some (d <| node := n |> <| tcp := t |> <| files := disk |>).
Proof.
  assert (∀ m : raft_node_t demo_kv_app_t, peer_calls (user (application m)) = [] → clear_calls m = m) as Hclear.
  { intros m Hm. unfold clear_calls. destruct m as [? ? [? ? ? ? [kv calls]]]. cbn in Hm. by subst. }
  unfold node_tick, demo_node_tick. destruct (raft_node_latch_inputs _ _ _) as [[n1 t1]|]; bind_simpl; [|done].
  destruct (commit_transition _ _ _) as [n2|]; bind_simpl; [|done].
  unfold raft_node_dump_outputs, demo_dump_outputs. do 2 rsimpl. destruct (negb (running n2)).
  - intros [= <- <- <-] _. by destruct d.
  - destruct (dump_prepare n2) as [[n3 ops]|]; bind_simpl; [|done]. intros [= <- <- <-] Hc.
    change (peer_calls (user (application n3)) = []) in Hc. rewrite Hc. cbn [perform_peer_sets].
    by rewrite Hclear.
Qed.

(** ** Join requests *)

Section KeepsNode.
  Context {N : Type} (sockets : sockets_t N) (fopen_w : string → bool).
  Context {layout : MessageLayout} {frames : Layout raft_tcp_frame_t frame_fits}.
  Context {requests : Layout raft_tcp_join_req_t join_req_fits} {commands : Layout raft_command_t command_fits}.

#[export] Instance kn_queue_peer_set id host port : KeepsNode (queue_peer_set sockets id host port).
Proof.
  unfold queue_peer_set. apply kn_bind; [apply _|]. intros self. apply kn_if; [apply _|]. cbv zeta.
  apply kn_bind; [apply _|]. intros []; apply kn_bind; [apply _| |apply _|].
  - intros []; [apply _|]. unfold submit. apply _.
  - intros [[h p]|]; [|apply _]. unfold forward_cmd. apply _.
Qed.

#[export] Instance kn_learn_peer id host port b : KeepsNode (learn_peer sockets fopen_w id host port b).
Proof. unfold learn_peer. apply _. Qed.
#[export] Instance kn_learn_if_unknown jr : KeepsNode (learn_if_unknown sockets fopen_w jr).
Proof. unfold learn_if_unknown, is_leader. apply _. Qed.
#[export] Instance kn_replicate : KeepsNode (replicate_known_cluster_peers sockets).
Proof. unfold replicate_known_cluster_peers, is_leader. apply _. Qed.

End KeepsNode.

Section Requests.
  Context {N : Type} (sockets : sockets_t N) (fopen_w : string → bool).
  Context (open_listener : Z → option Z) (pthread_create : bool).
  Context {layout : MessageLayout} {frames : Layout raft_tcp_frame_t frame_fits}.
  Context {requests : Layout raft_tcp_join_req_t join_req_fits} {commands : Layout raft_command_t command_fits}.
  Implicit Types d : demo_process_t N.

(** Latching, without a line from the user. *)
Lemma latch_ok d :
  view_ok (view_of d) → Forall join_ok (tcp_join_queue (tcp d)) → Forall cmd_ok (fwd_cmd_queue (tcp d)) →
  (length (pending_joins (cli d)) ≤ RAFT_MAX_NODES)%nat →
  wp (cli_latch_inputs StdinNothing) (λ _ d', view_ok (view_of d') ∧ has_line (cli d') = false ∧
    (length (pending_joins (cli d')) ≤ RAFT_MAX_NODES)%nat) d.
Proof.
  intros Hv Hj Hc Hl. unfold cli_latch_inputs. apply wp_bind, wp_modify, wp_bind, wp_ret.
  eapply wp_mono; [by apply receive_ok|]. intros [] d' (Hv' & Hl' & js & cs & E). split_and!; [done| |done].
  by rewrite E.
Qed.


(** What the leader asks for. *)
Lemma leader_adds_request d jr d' :
  Forall short (old_members (config_state (node d))) → short (jr_node_id jr) →
  node_is_leader (node d) = true → jr_node_id jr ≠ "" →
  jr_node_id jr ∉ old_members (config_state (node d)) →
  (length (old_members (config_state (node d))) < RAFT_MAX_NODES)%nat →
  leader_adds sockets jr d = Some (tt, d') →
  node d' = node d <| requested_membership :=
                        normalize_members (old_members (config_state (node d)) ++ [jr_node_id jr]) RAFT_MAX_NODES |>
                   <| requested_membership_pending := true |>.
Proof.
  intros Hs Hid Hlead Hne Hold Hroom H. unfold leader_adds in H.
  apply bind_inv in H as (old & e1 & [= <- <-] & H). rewrite copy_all in H by done.
  apply bind_inv in H as (ms & e2 & [= <- <-] & H). replace (_ && _) with true in H.
  2:{ symmetry. apply andb_true_iff; split; [|by apply Nat.ltb_lt]. apply negb_true_iff.
      by apply member_list_contains_false. }
  rewrite copy_short in H by done. apply bind_inv in H as (i2 & e3 & [= <- <-] & H).
  apply bind_inv in H as (u5 & e4 & H4 & H).
  assert (node d' = node e4) as -> by (by apply keeps_node in H). injection H4 as _ <-. rsimpl.
  unfold raft_node_request_membership_change. rewrite Hlead. cbn [negb]. cbv zeta.
  rewrite (proj2 (Nat.eqb_neq _ _)); [done|]. rsimpl. intros E%length_zero_iff_nil.
  assert (jr_node_id jr ∈ normalize_members (old_members (config_state (node d)) ++ [jr_node_id jr]) RAFT_MAX_NODES)
    as Hin; [|rewrite E in Hin; by apply elem_of_nil in Hin].
  assert (∀ s, short s → id_fits s) as Hfit by (unfold short, id_fits; intros; lia).
  apply normalize_members_elem.
  - apply Forall_app; split; [by eapply Forall_impl|]. constructor; [by apply Hfit|done].
  - rewrite length_app. cbn [length]. lia.
  - split; [|done]. apply elem_of_app. right. by left.
Qed.

(** C37: the leader asks for the node that wants to join.  A single request of a new
    node, with room in the configuration, is taken off the queue, and all it
    changes in the node is the membership request: the old members and the new
    node, normalised, and pending for the membership driver. *)
Theorem leader_accepts_join d jr :
  view_ok (view_of d) → pending_joins (cli d) = [jr] → cluster_join jr = 0%Z →
  forwarded jr ≠ RAFT_JOIN_ANNOUNCE → node_is_leader (node d) = true → jr_node_id jr ≠ "" →
  jr_node_id jr ∉ old_members (config_state (node d)) → jr_node_id jr ∉ new_members (config_state (node d)) →
  (length (old_members (config_state (node d))) < RAFT_MAX_NODES)%nat →
  ∃ d', handle_joins sockets fopen_w d = Some (tt, d') ∧ pending_joins (cli d') = [] ∧
    node d' = node d <| requested_membership :=
                          normalize_members (old_members (config_state (node d)) ++ [jr_node_id jr]) RAFT_MAX_NODES |>
                     <| requested_membership_pending := true |>.
Proof.
  intros Hv Hp Hcj Hf Hlead Hne Hold Hnew Hroom.
  destruct (handle_joins_handles sockets fopen_w d Hv) as ([] & d' & H & Hd). exists d'. split; [done|].
  assert (machine_state (node d) = RAFT_ROLE_LEADER) as Hrole by (unfold node_is_leader in Hlead; by bools).
  split.
  { pose proof (handled_joins _ _ Hd) as Hj. cbn [joins_of cli_user_queues] in Hj.
    destruct (pending_joins (cli d')) as [|jr' l]; [done|]. destruct (Hj jr').
    - by left.
    - exfalso. by rewrite (handled_role _ _ Hd) in *. }
  assert (join_ok jr) as Hj by (pose proof (view_ok_joins _ Hv) as Hj; cbn in Hj; rewrite Hp in Hj; by inversion Hj).
  unfold handle_joins in H. apply bind_inv in H as (js & d1 & [= <- <-] & H). rewrite Hp in H.
  cbn [length joins_loop] in H. apply bind_inv in H as (js & d1 & [= <- <-] & H).
  rewrite Hp in H. cbn [lookup list_lookup] in H. rewrite Hcj in H. cbn [Z.eqb negb] in H.
  apply bind_inv in H as (i & d2 & Hs & [= <-]).
  unfold join_step in Hs. rewrite (proj2 (Z.eqb_neq _ _)) in Hs by done.
  apply bind_inv in Hs as (f & e1 & H1 & Hs). apply keeps_node in H1.
  apply bind_inv in Hs as (u & e2 & H2 & Hs). apply keeps_node in H2.
  apply bind_inv in Hs as (u2 & e3 & H3 & Hs). apply keeps_node in H3.
  assert (node e3 = node d) as En by congruence. clear H1 H2 H3.
  apply bind_inv in Hs as (c & e4 & [= <- <-] & Hs). rewrite En in Hs.
  replace (member_contains _ _ || member_contains _ _) with false in Hs.
  2:{ symmetry. apply orb_false_iff; split; by apply member_list_contains_false. }
  apply bind_inv in Hs as (l & e5 & [= <- <-] & Hs). rewrite En in Hs. unfold role_eqb in Hs.
  rewrite bool_decide_true in Hs by done.
  apply bind_inv in Hs as ([] & e6 & H6 & Hs). apply bind_inv in Hs as (u4 & e7 & H7 & [= _ <-]).
  apply keeps_node in H7. rewrite H7. clear H7.
  rewrite <- En in *. apply leader_adds_request in H6; [done|..]; try done; [|apply Hj].
  rewrite En. apply Hv.
Qed.

End Requests.

(** ** Typed commands *)

Section Typed.
  Context {N : Type} (sockets : sockets_t N) (stream : N → Z → string * Z * string)
    (closed : N → list (string * Z * string)).
  Context {Hsockets : SocketLaws sockets stream closed}.
  Context (fopen_w : string → bool) (open_listener : Z → option Z) (pthread_create : bool) (clock : Z).
  Context {layout : MessageLayout} {frames : Layout raft_tcp_frame_t frame_fits}.
  Context {requests : Layout raft_tcp_join_req_t join_req_fits} {commands : Layout raft_command_t command_fits}.
  Implicit Types d : demo_process_t N.

Definition typed_set (k v : string) : raft_command_t :=
  mkCommand "set" (strncpy RAFT_MAX_KEY k) (strncpy RAFT_MAX_VALUE v).

Lemma lacks_take c n s : lacks c s = true → lacks c (str_take n s) = true.
Proof.
  unfold lacks. revert s; induction n as [|n IH]; intros [|d s]; cbn [str_take str_all]; try done.
  intros [Hc Hs]%andb_true_iff. apply andb_true_iff; split; [done|by apply IH].
Qed.

Lemma typed_set_fits k v : lacks nul k = true → lacks nul v = true → command_fits (typed_set k v) = true.
Proof.
  intros Hk Hv. unfold command_fits, typed_set. cbn [op key value]. rewrite !andb_true_iff. split_and!.
  - by vm_compute.
  - unfold chars_fit. apply andb_true_iff; split; [by apply lacks_take|].
    apply Nat.ltb_lt, strncpy_length. unfold RAFT_MAX_KEY. lia.
  - unfold chars_fit. apply andb_true_iff; split; [by apply lacks_take|].
    apply Nat.ltb_lt, strncpy_length. unfold RAFT_MAX_VALUE. lia.
Qed.

(** What a forwarded command is at the listener it reaches, whole or cut short. *)
Lemma forwarded_command_frame (leader : raft_tcp_transport_t N) n host port cmd conn :
  command_fits cmd = true → (length (fwd_cmd_queue leader) < RAFT_MAX_QUEUE)%nat → chunks conn →
  let '(n', r) := tcp_transmit sockets n host port TCP_TYPE_CMD (sizeof raft_command_t) (to_bytes cmd) in
  let address := (host, port mod 2 ^ 16)%Z in
  (r = 0%Z ∧ ∃ bytes, closed n' = closed n ++ [(address, bytes)] ∧
     (bytes_of conn = bytes →
      tcp_listener_thread leader conn = leader <| fwd_cmd_queue := fwd_cmd_queue leader ++ [cmd] |>)) ∨
  (r = (-1)%Z ∧ (closed n' = closed n ∨
     ∃ bytes, closed n' = closed n ++ [(address, bytes)] ∧
              (bytes_of conn = bytes → tcp_listener_thread leader conn = leader))).
Proof using Hsockets.
  intros Hfit Hroom Hconn.
  pose proof (tcp_transmit_spec sockets stream closed n host port TCP_TYPE_CMD (sizeof raft_command_t) (to_bytes cmd)) as H.
  destruct (tcp_transmit _ _ _ _ _ _ _) as [n' r]. cbv zeta in *.
  assert (frame_body TCP_TYPE_CMD = Some (sizeof raft_command_t, λ b, TcpCommand (from_bytes raft_command_t b)))
    as Hb by done.
  assert (String.length (to_bytes cmd) = sizeof raft_command_t) as Hl by by apply to_bytes_length.
  destruct H as [[-> H]|[-> H]]; [left|right]; (split; [done|]).
  - eexists. split; [exact H|]. intros E. unfold tcp_listener_thread.
    rewrite (tcp_listener_parses leader conn Hconn), E, (parse_frame_whole _ _ _ _ Hb Hl). bind_simpl.
    cbn [admitted tcp_listener_enqueue]. rewrite from_to_bytes by done. unfold queue_push.
    by rewrite (proj2 (Nat.ltb_lt _ _)).
  - destruct H as [H|(k & Hk & H)]; [by left|right]. eexists. split; [exact H|]. intros E.
    unfold tcp_listener_thread. by rewrite (tcp_listener_parses leader conn Hconn), E, (parse_frame_cut _ _ _ _ _ Hb Hl).
Qed.

(** Where forwarding leaves the process. *)
Definition after_forwarding d (cmd : raft_command_t) : demo_process_t N :=
  match find_leader_address d with
  | None => d <| out := out d ++ ["leader unknown — cannot forward" +:+ nl] |>
  | Some (host, port) =>
      let x := tcp_transmit sockets (net (tcp d)) host port TCP_TYPE_CMD (sizeof raft_command_t) (to_bytes cmd) in
      let d := d <| tcp := tcp d <| net := x.1 |> |> in
      if (x.2 <? 0)%Z then d <| out := out d ++ ["forward failed" +:+ nl] |> else d
  end.

Lemma forward_to_leader_forwarded d cmd :
  ∃ r, forward_to_leader sockets cmd d = Some (r, after_forwarding d cmd).
Proof using Type.
  unfold forward_to_leader, after_forwarding, mbind, M_bind, gets.
  destruct (find_leader_address d) as [[host port]|]; [|eexists; reflexivity]. cbv zeta.
  destruct (_ <? 0)%Z eqn:E; eexists; cbn; unfold mbind, M_bind; rewrite E; reflexivity.
Qed.

Lemma forwarded_node d cmd : node (after_forwarding d cmd) = node d.
Proof using Type.
  unfold after_forwarding. destruct (find_leader_address d) as [[host port]|]; [|done].
  cbv zeta. by destruct (_ <? 0)%Z.
Qed.

Lemma forwarded_outcome (leader : raft_tcp_transport_t N) d cmd conn :
  command_fits cmd = true → (length (fwd_cmd_queue leader) < RAFT_MAX_QUEUE)%nat → chunks conn →
  match find_leader_address d with
  | None => tcp (after_forwarding d cmd) = tcp d ∧ out (after_forwarding d cmd) = out d ++ ["leader unknown — cannot forward" +:+ nl]
  | Some (host, port) =>
      let address := (host, port mod 2 ^ 16)%Z in
      (out (after_forwarding d cmd) = out d ∧
       ∃ bytes, closed (net (tcp (after_forwarding d cmd))) = closed (net (tcp d)) ++ [(address, bytes)] ∧
         (bytes_of conn = bytes →
          tcp_listener_thread leader conn = leader <| fwd_cmd_queue := fwd_cmd_queue leader ++ [cmd] |>)) ∨
      (out (after_forwarding d cmd) = out d ++ ["forward failed" +:+ nl] ∧
       (closed (net (tcp (after_forwarding d cmd))) = closed (net (tcp d)) ∨
        ∃ bytes, closed (net (tcp (after_forwarding d cmd))) = closed (net (tcp d)) ++ [(address, bytes)] ∧
                 (bytes_of conn = bytes → tcp_listener_thread leader conn = leader)))
  end.
Proof using Hsockets.
  intros Hfit Hroom Hconn. unfold after_forwarding. destruct (find_leader_address d) as [[host port]|]; [|done].
  pose proof (forwarded_command_frame leader (net (tcp d)) host port cmd conn Hfit Hroom Hconn) as H.
  destruct (tcp_transmit _ _ _ _ _ _ _) as [n r]. destruct H as [[-> H]|[-> H]]; [left|right]; by split.
Qed.

(** C40: a typed [set] reaches the queue of the leader, or the user is told that it
    does not.  On the leader the command is queued for the next tick, unless the
    node is not running, no member, or its queue is full; elsewhere it is sent as
    one connection to the leader's address, whose listener queues exactly that
    command when the connection is complete and nothing when it was cut, and the
    user reads of a failure or of an unknown leader. *)
Theorem typed_set_reaches_leader d text k v rest (leader : raft_tcp_transport_t N) conn :
  tokens 4 blank "" (chop_newline text) = "set" :: k :: v :: rest →
  lacks nul k = true → lacks nul v = true →
  (length (fwd_cmd_queue leader) < RAFT_MAX_QUEUE)%nat → chunks conn →
  let cmd := typed_set k v in
  ∃ d', dispatch sockets fopen_w open_listener pthread_create clock text d = Some (tt, d') ∧ node d' = node d ∧
    match machine_state (node d), find_leader_address d with
    | RAFT_ROLE_LEADER, _ =>
        out d' = out d ++ ["queued" +:+ nl] ∧
        tcp d' = tcp d <| tcp_cmd_queue :=
          if running (node d) && node_self_is_member (node d)
          then queue_push RAFT_MAX_QUEUE (tcp_cmd_queue (tcp d)) cmd else tcp_cmd_queue (tcp d) |>
    | _, None => tcp d' = tcp d ∧ out d' = out d ++ ["leader unknown — cannot forward" +:+ nl]
    | _, Some (host, port) =>
        let address := (host, port mod 2 ^ 16)%Z in
        (out d' = out d ∧ ∃ bytes, closed (net (tcp d')) = closed (net (tcp d)) ++ [(address, bytes)] ∧
          (bytes_of conn = bytes →
           tcp_listener_thread leader conn = leader <| fwd_cmd_queue := fwd_cmd_queue leader ++ [cmd] |>)) ∨
        (out d' = out d ++ ["forward failed" +:+ nl] ∧ (closed (net (tcp d')) = closed (net (tcp d)) ∨
          ∃ bytes, closed (net (tcp d')) = closed (net (tcp d)) ++ [(address, bytes)] ∧
                   (bytes_of conn = bytes → tcp_listener_thread leader conn = leader)))
    end.
Proof using Hsockets.
  intros Htok Hk Hv Hroom Hconn cmd.
  pose proof (typed_set_fits k v Hk Hv) as Hfit. fold cmd in Hfit.
  unfold dispatch. rewrite Htok. cbv zeta. rewrite streq_refl.
  change (cmd_set sockets k v) with (enqueue_or_forward sockets cmd). unfold enqueue_or_forward.
  destruct (machine_state (node d)) eqn:Er.
  3:{ eexists. split; [unfold mbind, M_bind, is_leader, gets; rewrite Er; reflexivity|]. do 2 rsimpl.
      split_and!; [done..|]. unfold raft_node_submit_command. rewrite <- negb_andb.
      destruct (_ && _); cbn [negb]; [|by destruct (tcp d)]. cbn [submit_command raft_tcp_transport_make].
      unfold tcp_submit_command, queue_push. rewrite Nat.leb_antisym. destruct (_ <? _)%nat; cbn [negb fst]; [done|].
      by destruct (tcp d). }
  all: eexists; (split; [|split; [|exact (forwarded_outcome leader d cmd conn Hfit Hroom Hconn)]]);
    [|apply forwarded_node].
  all: destruct (forward_to_leader_forwarded d cmd) as [r Hr]; unfold mbind, M_bind, is_leader, gets; rewrite Er; cbn;
    unfold mbind, M_bind; unfold role_eqb; rewrite bool_decide_false by done; by rewrite Hr.
Qed.

(** *** Leaving

    A sole member does not leave: the request for no members is refused, and yet
    the program waits for the node to stop. *)
Lemma sole_member_never_leaves d self :
  node_is_leader (node d) = true → node_id (config (node d)) = self →
  old_members (config_state (node d)) = [self] →
  ∃ d', cmd_leave sockets d = Some (tt, d') ∧ leave_pending (cli d') = true ∧
    out d' = out d ++ ["leaving cluster..." +:+ nl] ∧
    node d' = node d <| requested_membership := [] |> ∧
    (raft_node_request_membership_change (node d) []).2 = (-1)%Z.
Proof using Type.
  intros Hl Hid Ho.
  assert (machine_state (node d) = RAFT_ROLE_LEADER) as Hrole by (unfold node_is_leader in Hl; by bools).
  assert (wp (cmd_leave sockets) (λ _ d', leave_pending (cli d') = true ∧
    out d' = out d ++ ["leaving cluster..." +:+ nl] ∧ node d' = node d <| requested_membership := [] |> ∧
    (raft_node_request_membership_change (node d) []).2 = (-1)%Z) d) as ([] & d' & H); [|by exists d'].
  unfold cmd_leave. apply wp_bind, wp_gets, wp_bind, wp_gets. rewrite Hrole. unfold role_eqb.
  rewrite bool_decide_true by done. cbn [negb]. apply wp_bind. eapply wp_reads.
  { rewrite Ho, Hid, filter_cons, decide_False by (rewrite streq_refl; done). reflexivity. }
  apply wp_bind, wp_modify, wp_bind, wp_modify, wp_modify. do 2 rsimpl.
  unfold raft_node_request_membership_change. rewrite Hl. by split_and!.
Qed.

End Typed.

(** ** Witnesses *)

(** Node [a] of the cluster {a, b} in a demo process, with [b] in its table. *)
Definition demo_node (r : raft_role_t) : raft_node_t demo_kv_app_t :=
  mkNode (mkConfig "a" ["b"] ["a"; "b"] false 500 100) (mkStorage "a" "data" "")
    (demo_kv_app_make raft_kv_state_init) r 2 "" (replicate RAFT_MAX_LOG zero_entry) 0 0 0 0 0
    "b" 128 true (mkClusterConfig ["a"; "b"] [] 0) RAFT_MEMBERSHIP_STABLE [] false 0 0 []
    (replicate RAFT_MAX_PEERS 1%Z) (replicate RAFT_MAX_PEERS 0%Z) [] [] [] [] false 500 100.

Definition demo_tcp : raft_tcp_transport_t sample_net :=
  raft_tcp_transport_set_self sample_tcp "a" "10.0.0.1".

Definition join_of_c : raft_tcp_join_req_t :=
  zero_join_req <| jr_node_id := "c" |> <| jr_host := "10.0.0.3" |> <| jr_port := 7002%Z |>.

(** The process with the given role and pending requests. *)
Definition demo_process (r : raft_role_t) (joins : list raft_tcp_join_req_t) : demo_process_t sample_net :=
  mkProcess (mkCli "a" "" false false false false r 2 "" 0 false "" 0 joins []) (demo_node r) demo_tcp ∅ [] [] false.

Lemma join_of_c_ok : join_ok join_of_c.
Proof.
  split; unfold short, host_ok; vm_compute; try lia; [split; discriminate|].
  repeat constructor; vm_compute; lia.
Qed.

Lemma demo_view_ok r joins : Forall join_ok joins → view_ok (view_of (demo_process r joins)).
Proof.
  intros Hj. split; cbn; try done; unfold short, host_ok; repeat constructor; vm_compute; lia.
Qed.

Lemma replicated_address_registers_witness :
  find_peer "c" (tcp_peers (perform_peer_sets (λ _, true) demo_tcp (peer_calls (user (application
    (node_apply_command (demo_node RAFT_ROLE_FOLLOWER) (peer_set_command "c" "10.0.0.3" 7002)))))).1) =
  Some (mkPeer "c" "10.0.0.3" 7002).
Proof.
  refine (proj1 (replicated_address_registers (λ _, true) (demo_node RAFT_ROLE_FOLLOWER) demo_tcp raft_kv_state_init
    "c" "10.0.0.3" 7002 eq_refl _ _ _ _ _ _ _)); try (vm_compute; discriminate); try (vm_compute; lia); reflexivity.
Defined.


Lemma leader_accepts_join_witness :
  ∃ d', handle_joins sample_sockets (λ _, true) (demo_process RAFT_ROLE_LEADER [join_of_c]) = Some (tt, d') ∧
    requested_membership (node d') = ["a"; "b"; "c"].
Proof.
  destruct (leader_accepts_join sample_sockets (λ _, true) (demo_process RAFT_ROLE_LEADER [join_of_c]) join_of_c)
    as (d' & H & _ & Hn); try reflexivity; try (vm_compute; discriminate); try (vm_compute; lia).
  - apply demo_view_ok. constructor; [apply join_of_c_ok|constructor].
  - apply member_list_contains_false. vm_compute. reflexivity.
  - apply member_list_contains_false. vm_compute. reflexivity.
  - exists d'. split; [exact H|]. rewrite Hn. vm_compute. reflexivity.
Defined.

Definition set_bytes : string :=
  to_bytes (frame_of TCP_TYPE_CMD (sizeof raft_command_t)) +:+ to_bytes (typed_set "x" "1").

Lemma typed_set_reaches_leader_witness :
  ∃ d', dispatch sample_sockets (λ _, true) (λ _, Some 3%Z) true 1000 ("set x 1" +:+ nl)
          (demo_process RAFT_ROLE_FOLLOWER []) = Some (tt, d') ∧ node d' = demo_node RAFT_ROLE_FOLLOWER.
Proof.
  destruct (typed_set_reaches_leader sample_sockets (λ n _, n.1) snd (λ _, true) (λ _, Some 3%Z) true 1000
    (demo_process RAFT_ROLE_FOLLOWER []) ("set x 1" +:+ nl) "x" "1" [] demo_tcp [set_bytes])
    as (d' & H & Hn & _); try (vm_compute; reflexivity); try (vm_compute; lia).
  - repeat constructor. vm_compute. discriminate.
  - exists d'. split; [exact H|exact Hn].
Defined.
