(* ===== verification/Replay.v ===== *)
(** The state of the application is the committed log replayed: what a tick does to
    it, and what a restart gives. *)
From S2P Require Import Prelude CString Types Config NodeLog Replication Handlers LogMerge HandlerFacts Storage StorageFacts MemTransport Membership MembershipFacts Fsm FsmFacts FsmProps Lifecycle LifecycleProps.

Section Frozen.
  Context {U : Type}.
  Implicit Types node : raft_node_t U.

Definition callbacks (app : raft_application_t U) :=
  (apply app, reload app, snapshot app, restore_snapshot app).

(** The application, its snapshot and the applied part of the log are kept. *)
Record frozen node node' : Prop := {
  fz_kept : applied_kept node node';
  fz_app : application node' = application node;
  fz_snap : snapshot_buf (storage node') = snapshot_buf (storage node);
}.

#[export] Instance frozen_preorder : PreOrder frozen.
Proof.
  split; [by split|]. intros n1 n2 n3 [K1 A1 S1] [K2 A2 S2]. split; [by etrans|congruence..].
Qed.

Lemma frozen_same node node' :
  log node' = log node → log_count node' = log_count node →
  snapshot_last_included_index node' = snapshot_last_included_index node →
  snapshot_last_included_term node' = snapshot_last_included_term node →
  last_applied node' = last_applied node → application node' = application node →
  snapshot_buf (storage node') = snapshot_buf (storage node) → frozen node node'.
Proof. intros. split; [by apply applied_kept_same|done..]. Qed.

Lemma only_outbox_frozen node node' : only_outbox node node' → frozen node node'.
Proof. intros [E _]. rewrite E. by apply frozen_same. Qed.

Lemma term_update_frozen node message : frozen node (node_handle_term_update node message).
Proof. unfold node_handle_term_update. case_match; by apply frozen_same. Qed.

Lemma record_vote_frozen node id : frozen node (node_record_vote node id).
Proof. unfold node_record_vote. repeat case_match; by apply frozen_same. Qed.

Lemma appended_frozen node c node' : log_wf node → appended node c node' → frozen node node'.
Proof.
  intros Hw Ha. split; [by eapply appended_kept|..]; by rewrite (appended_rest _ _ _ Ha).
Qed.

(** *** Latching *)

Lemma append_response_frozen node message node' :
  node_handle_append_entries_response node message = Some node' → frozen node node'.
Proof.
  unfold node_handle_append_entries_response. intros H.
  transitivity (node_handle_term_update node message); [apply term_update_frozen|].
  set (n1 := node_handle_term_update node message) in *.
  case_match; [by simplify_eq|]. destruct (node_peer_index n1 (source message)) as [p|]; [|by simplify_eq].
  destruct (success message); opts.
  - apply advance_commit_loop_spec in H; [|lia].
    destruct H as [->|(i & -> & _)]; by apply frozen_same.
  - apply send_only_outbox, only_outbox_frozen in H. etrans; [|exact H]. by apply frozen_same.
Qed.

Lemma latch_message_frozen node m node' : latch_message node m = Some node' → frozen node node'.
Proof.
  unfold latch_message. case_match; [| | |apply append_response_frozen]; intros [= <-]; by apply frozen_same.
Qed.

Lemma latch_commands_frozen cs node node' :
  log_wf node → repl_wf node → latch_commands cs node = Some node' → frozen node node'.
Proof.
  revert node; induction cs as [|c cs IH]; intros node Hw Hr H; cbn [latch_commands] in H; [by simplify_eq|].
  case_match; [|by simplify_eq]. bools.
  destruct (append_entry_appended node c) as (n1 & E & Ha); [done..|]. rewrite E in H. bind_simpl_in H.
  etrans; [by eapply appended_frozen|]. apply IH; [by apply Ha|by apply Ha|done].
Qed.

Lemma latch_inputs_frozen {T} (tr : raft_transport_t T) node ctx node' ctx' :
  node_inv node → (∀ m, m ∈ (recv tr ctx RAFT_MAX_QUEUE).2 → benign node m) →
  raft_node_latch_inputs tr node ctx = Some (node', ctx') → frozen node node'.
Proof.
  intros Hi Hb H. unfold raft_node_latch_inputs in H.
  set (n0 := node <| pending_append_entries := [] |> <| pending_vote_requests := [] |>
                  <| pending_votes := [] |>) in *.
  assert (frozen node n0) as F0 by by apply frozen_same.
  destruct (negb (running n0)) eqn:Er; [simplify_eq; etrans; [exact F0|]; by apply frozen_same|].
  destruct (recv tr ctx RAFT_MAX_QUEUE) as [ctx1 messages] eqn:E. simpl in Hb.
  apply bind_Some in H as (n1 & H1 & H).
  assert (latched node messages n0) as Hl0.
  { destruct Hi as [Hw Hr Hc Hid]. split; [split; [by keep_log_wf node|by keep_repl_wf node|done|done]|..]; try done.
    - split; [by apply vote_mono_same|]. intros m Hm. by left.
    - intros m [Hm|[Hm|Hm]]; by apply elem_of_nil in Hm.
    - intros m Hm. by apply elem_of_nil in Hm. }
  apply (for_each_inv (λ n, latched node messages n ∧ frozen node n)) in H1; [|..|done].
  2:{ intros m n n' Hm [Hl Hf] Hs.
      destruct (latch_message_latched node messages n m) as (n'' & Hs' & Hl'); [apply Hi|done|done|by apply Hb|].
      simplify_eq. split; [done|]. etrans; [exact Hf|]. by eapply latch_message_frozen. }
  destruct H1 as [[[Hw1 Hr1 _ _] _ _ _ _ _ _] F1].
  destruct (recv_commands tr ctx1 RAFT_MAX_QUEUE) as [ctx2 cs]. case_match; [|by simplify_eq].
  apply bind_Some in H as (n2 & H2 & [= <- <-]). etrans; [exact F1|]. by eapply latch_commands_frozen.
Qed.

(** *** Actions *)

Lemma append_entries_frozen node message node' ok :
  log_wf node →
  (∀ e, e ∈ entries message →
    (snapshot_last_included_index node < entry_index e ≤ last_applied node)%Z →
    entry_conflicts node e = Some false) →
  node_append_entries_from_leader node message = Some (node', ok) → frozen node node'.
Proof.
  intros Hwf Hb H. unfold node_append_entries_from_leader in H.
  apply bind_Some in H as (b & _ & H). destruct b; simpl in H; [|by simplify_eq].
  apply bind_Some in H as ([n rb] & Hl & H). simplify_eq.
  assert (prefix_kept node (n, rb)) as [Hm Hrb Hat].
  { apply (for_each_inv (prefix_kept node)) in Hl;
      [done| |split; [by apply merge_ok_init|done|done]].
    intros e s1 s2 He Hs1 Hs. eapply append_step_prefix; [done|exact Hs1|by apply Hb|exact Hs]. }
  simpl in Hrb. subst rb. destruct Hm as [Hf _ Ha _]. simpl in *. specialize (Ha eq_refl).
  assert (frozen node n) as Hn.
  { split; [|by rewrite Hf..]. split; [by rewrite Hf..| |done]. intros _. by rewrite (log_frame_applied _ _ Hf). }
  etrans; [exact Hn|]. unfold append_entries_finish. repeat case_match; by apply frozen_same.
Qed.

Lemma handle_append_frozen node message clock node' :
  log_wf node → kind message = RAFT_MSG_APPEND_ENTRIES → benign node message →
  node_handle_append_entries node message clock = Some node' → frozen node node'.
Proof.
  intros Hw Hk Hb H. unfold node_handle_append_entries in H.
  assert (frozen node (node_handle_term_update node message)) as F1 by apply term_update_frozen.
  set (n1 := node_handle_term_update node message) in *.
  assert (log_wf n1) as Hw1 by by apply term_update_log_wf.
  apply bind_Some in H as ([n2 ok] & Hs & [= <-]).
  transitivity n2; [|by apply frozen_same]. etrans; [exact F1|]. case_match; [|by simplify_eq].
  etrans; [|eapply append_entries_frozen; [| |exact Hs]]; [by apply frozen_same|by keep_log_wf n1|].
  intros e He Hi. eapply (benign_entries _ message); [|done|done|done].
  eapply benign_kept; [exact Hw| |exact Hb]. etrans; [apply F1|]. by apply applied_kept_same.
Qed.

Lemma become_candidate_frozen node clock node' :
  action_become_candidate node clock = Some node' → frozen node node'.
Proof.
  unfold action_become_candidate. intros H. apply bind_Some in H as (t & _ & H). cbv zeta in H.
  match type of H with for_each _ _ ?n0 = _ =>
    apply (for_each_inv (λ n, frozen n0 n)) in H; [|intros p n1 n2 _ F Hs; opts; etrans; [exact F|]; by apply frozen_same|done];
    transitivity n0; [|exact H] end.
  match goal with |- context [node_record_vote ?n ?i] => transitivity (node_record_vote n i);
    [transitivity n; [by apply frozen_same|apply record_vote_frozen]|by apply frozen_same] end.
Qed.

Lemma broadcast_frozen node node' : node_broadcast_append_entries node = Some node' → frozen node node'.
Proof. intros H. by apply only_outbox_frozen, broadcast_only_outbox. Qed.

Lemma become_leader_frozen node clock node' :
  action_become_leader node clock = Some node' → frozen node node'.
Proof.
  unfold action_become_leader. intros H. apply bind_Some in H as (n2 & H2 & H).
  apply bind_Some in H as (n3 & H3%broadcast_frozen & [= <-]).
  transitivity n3; [|by apply frozen_same]. etrans; [|exact H3].
  match type of H2 with for_each _ _ ?n0 = _ =>
    apply (for_each_inv (λ n, frozen n0 n)) in H2; [|intros p n1 n4 _ F Hs; opts; etrans; [exact F|]; by apply frozen_same|done];
    transitivity n0; [by apply frozen_same|exact H2] end.
Qed.

Lemma action_frozen t node clock node' :
  t ∈ RAFT_TRANSITIONS → log_wf node →
  (∀ m, m ∈ pending_append_entries node → kind m = RAFT_MSG_APPEND_ENTRIES ∧ benign node m) →
  action t node clock = Some node' → frozen node node'.
Proof.
  intros Ht Hw Ha H.
  assert (action_handle_append_entries node clock = Some node' → frozen node node') as H1.
  { unfold action_handle_append_entries. intros Hx.
    destruct (pending_append_entries node) as [|m l]; [by simplify_eq|]. destruct (Ha m) as [Hk Hb]; [by left|].
    etrans; [|eapply handle_append_frozen; [| | |exact Hx]]; [by apply frozen_same|by keep_log_wf node|done|].
    apply (benign_kept node); [done|by apply applied_kept_same|done]. }
  assert (action_handle_vote_request node clock = Some node' → frozen node node') as H2.
  { unfold action_handle_vote_request. intros Hx.
    destruct (pending_vote_requests node) as [|m l]; [by simplify_eq|].
    set (n1 := node <| pending_vote_requests := l |>) in *.
    transitivity (node_handle_term_update n1 m); [etrans; [|apply term_update_frozen]; by apply frozen_same|].
    destruct (handle_vote_request_cases n1 m clock) as [[_ E]|[_ E]];
      [apply (log_core_ext node); done || apply Hw|..]; rewrite E in Hx; injection Hx as <-; by apply frozen_same. }
  assert (action_handle_vote node clock = Some node' → frozen node node') as H3.
  { unfold action_handle_vote. intros Hx. destruct (pending_votes node) as [|m l]; [by simplify_eq|].
    injection Hx as <-. unfold node_handle_vote_response.
    set (n1 := node <| pending_votes := l |>). transitivity (node_handle_term_update n1 m);
      [etrans; [|apply term_update_frozen]; by apply frozen_same|].
    repeat case_match; try done. apply record_vote_frozen. }
  assert (action_send_heartbeat node clock = Some node' → frozen node node') as H4.
  { unfold action_send_heartbeat. intros (n & Hn%broadcast_frozen & [= <-])%bind_Some.
    etrans; [exact Hn|]. by apply frozen_same. }
  pose proof (become_candidate_frozen node clock node') as H5.
  pose proof (become_leader_frozen node clock node') as H6.
  assert (action_ignore_vote node clock = Some node' → frozen node node') as H7
    by (intros [= <-]; by apply frozen_same).
  assert (action_ignore_vote_request node clock = Some node' → frozen node node') as H8
    by (intros [= <-]; by apply frozen_same).
  assert (action_back_to_follower_due_to_timeout node clock = Some node' → frozen node node') as H9
    by (intros [= <-]; by apply frozen_same).
  unfold RAFT_TRANSITIONS in Ht.
  repeat (apply elem_of_cons in Ht as [->|Ht]; [by auto|]).
  by apply elem_of_nil in Ht.
Qed.

(** *** The membership driver and the compaction *)

Lemma drive_membership_frozen node node' :
  log_wf node → repl_wf node → node_maybe_drive_membership node = Some node' → frozen node node'.
Proof.
  intros Hw Hr H. unfold node_maybe_drive_membership in H.
  assert (∀ o k v n i, node_append_internal_command node o k v = Some (n, i) → frozen node n) as Ha.
  { intros o k v n i E. destruct (append_internal_cases node o k v Hw Hr) as [[E' _]|(n' & E' & _ & Hap)];
      rewrite E' in E; simplify_eq; [done|]. by eapply appended_frozen. }
  repeat case_match; try (simplify_eq; by apply frozen_same);
    apply bind_Some in H as ([n i] & E%Ha & H); cbv zeta in H; (etrans; [exact E|]);
    case_match; simplify_eq; by apply frozen_same.
Qed.

End Frozen.

(** ** Replaying *)

Section Replay.
  Context {U : Type} (app : raft_application_t U) (u0 : U).
  Implicit Types node : raft_node_t U.
  Implicit Types h cs : list raft_command_t.

(** The state after the commands [cs], from the start. *)
Definition replay cs : U := fold_left (app_step app) cs u0.

Definition snapshot_text (u : U) : string :=
  match snapshot app with Some f => f u RAFT_MAX_SNAPSHOT_SIZE | None => "" end.

(** [h] is what the node has applied, from index 1 on, and the snapshot it holds, if
    any, is of the state after the first [k] of them. *)
Record replayed h (k : nat) node : Prop := {
  rp_callbacks : callbacks (application node) = callbacks app;
  rp_length : Z.of_nat (length h) = last_applied node;
  rp_user : user (application node) = replay h;
  rp_log i e : (snapshot_last_included_index node < i ≤ last_applied node)%Z →
               node_log_at node i = Some e → h !! Z.to_nat (i - 1) = Some (entry_command e);
  rp_snapshot : (snapshot_last_included_index node ≤ Z.of_nat k ≤ last_applied node)%Z;
  rp_text : (0 < snapshot_last_included_index node)%Z →
            snapshot_buf (storage node) = snapshot_text (replay (take k h));
}.

Lemma frozen_replayed h k node node' : frozen node node' → replayed h k node → replayed h k node'.
Proof.
  intros [[S _ A _ K] Eapp Eb] [R1 R2 R3 R4 R5 R6].
  split; rewrite ?S, ?A, ?Eapp, ?Eb; try done. intros i e Hi. rewrite K by done. by apply R4.
Qed.

Lemma apply_loop_same n node node' :
  apply_loop n node = Some node' →
  callbacks (application node') = callbacks (application node) ∧
  snapshot_buf (storage node') = snapshot_buf (storage node).
Proof.
  assert (∀ m c, callbacks (application (node_apply_command (U:=U) m c)) = callbacks (application m) ∧
                 snapshot_buf (storage (node_apply_command m c)) = snapshot_buf (storage m)) as Hc.
  { intros m c. unfold node_apply_command, node_apply_internal_command, apply_set_maxlog, apply_enter_joint,
      apply_leave_joint, stop_if_expelled. cbv zeta. repeat case_match; done. }
  revert node; induction n as [|n IH]; intros node H; cbn [apply_loop] in H; [by simplify_eq|].
  case_match; [|by simplify_eq]. cbv zeta in H. apply bind_Some in H as (e & _ & [H1 H2]%IH).
  rsimpl. match type of H1 with context [node_apply_command ?m ?c] => destruct (Hc m c) as [E1 E2] end.
  by rewrite H1, H2, E1, E2.
Qed.

Lemma commands_from_lookup node i n :
  log_core node → (snapshot_last_included_index node ≤ i)%Z →
  (i + Z.of_nat n ≤ node_last_log_index node)%Z →
  length (commands_from node i n) = n ∧
  ∀ j e, (i < j ≤ i + Z.of_nat n)%Z → node_log_at node j = Some e →
    commands_from node i n !! Z.to_nat (j - i - 1) = Some (entry_command e).
Proof.
  intros Hw. revert i; induction n as [|n IH]; intros i Hi Hn; cbn [commands_from]; [split; [done|lia]|].
  pose proof (log_core_count _ Hw) as Hc. unfold node_last_log_index in *.
  destruct (node_log_at_defined node (i + 1) Hw) as [e He]; [lia..|]. rewrite He.
  destruct (IH (i + 1)%Z) as [Hl Hj]; [lia..|]. split; [cbn [length]; by rewrite Hl|].
  intros j e' Hj1 Hj2. destruct (decide (j = i + 1)%Z) as [->|].
  - replace (Z.to_nat (i + 1 - i - 1)) with 0%nat by lia. cbn. congruence.
  - replace (Z.to_nat (j - i - 1)) with (S (Z.to_nat (j - (i + 1) - 1))) by lia. cbn. apply Hj; [lia|done].
Qed.

Lemma applied_replayed h k node node' :
  log_wf node → replayed h k node → node_apply_committed node = Some node' →
  replayed (h ++ commands_from node (last_applied node) (Z.to_nat (commit_index node - last_applied node)))
    k node'.
Proof.
  intros Hw [R1 R2 R3 R4 R5 R6] H. unfold node_apply_committed in H.
  destruct (apply_loop_applied _ node Hw eq_refl) as (n' & H' & [A1 A2 _ _ _ (L1 & L2 & L3 & L4)]).
  destruct (apply_loop_same _ _ _ H) as [S1 S2]. rewrite H in H'. injection H' as <-.
  pose proof (log_wf_applied _ Hw) as Hap. pose proof (log_wf_commit _ Hw) as Hc.
  destruct (commands_from_lookup node (last_applied node) (Z.to_nat (commit_index node - last_applied node)))
    as [Hl Hj]; [apply Hw|lia|lia|].
  split.
  - by rewrite S1.
  - rewrite length_app, Hl. lia.
  - unfold replay. rewrite A2, fold_left_app, R3. apply fold_app_step_ext. by injection R1.
  - intros i e Hi He. rewrite (node_log_at_same node node') in He by done. rewrite L3, A1 in Hi.
    destruct (decide (i ≤ last_applied node)%Z).
    + apply lookup_app_l_Some. apply R4; [lia|done].
    + rewrite lookup_app_r by lia. rewrite <- (Hj i e) by (lia || done). f_equal. lia.
  - rewrite L3, A1. lia.
  - rewrite L3, S2. intros Hs. rewrite take_app_le by lia. by apply R6.
Qed.

Lemma do_compact_fields node node' ops :
  node_do_compact node = Some (node', ops) →
  (snapshot_last_included_index node < snapshot_last_included_index node')%Z →
  application node' = application node ∧ snapshot_buf (storage node') = app_snapshot node ∧
  machine_state node' = machine_state node ∧
  node_compactible_index node = Some (snapshot_last_included_index node').
Proof.
  intros H Hlt. unfold node_do_compact in H. apply bind_Some in H as (t & Ht & H). rewrite Ht.
  case_match; [simplify_eq; lia|]. case_match; [simplify_eq; lia|].
  apply bind_Some in H as (tm' & _ & H). cbv zeta in H. revert H. generalize (app_snapshot node).
  intros buf [= <- _]. case_match; split_and!; reflexivity.
Qed.

(** A compaction takes the snapshot of the state it finds: what is applied, not what
    is dropped. *)
Lemma compact_replayed h k node node' ops :
  log_wf node → repl_wf node → node_should_compact node = Some true → replayed h k node →
  node_do_compact node = Some (node', ops) →
  replayed h (length h) node' ∧ last_applied node' = last_applied node ∧
  machine_state node' = machine_state node ∧
  (machine_state node ≠ RAFT_ROLE_LEADER → snapshot_last_included_index node' = last_applied node').
Proof.
  intros Hw Hr Hs [R1 R2 R3 R4 R5 R6] H.
  destruct (do_compact_spec node Hw Hr Hs)
    as (target & tm & n' & ops' & H' & T1 & _ & _ & T2 & _ & _ & _ & _ & T3 & _ & T4 & _).
  rewrite H in H'. injection H' as <- <-. subst target.
  destruct (do_compact_fields _ _ _ H) as (E1 & E2 & E3 & E4); [lia|].
  split_and!; [|done|done|].
  - split; rewrite ?E1, ?E2, ?T4; try done.
    + intros i e Hi He. rewrite T3 in He; [by apply R4; [lia|]|]. pose proof (log_wf_applied _ Hw). lia.
    + lia.
    + intros _. rewrite firstn_all, <- R3. unfold app_snapshot, snapshot_text. injection R1 as _ _ -> _. done.
  - intros Hl. rewrite T4. unfold node_compactible_index in E4. rewrite bool_decide_false in E4 by done.
    by injection E4.
Qed.

(** What a tick may do to the snapshot: nothing, or take a new one of all that is
    applied, which on a follower is also what it drops. *)
Definition snapshot_step k node (k' applied : nat) node' : Prop :=
  (k' = k ∧ snapshot_last_included_index node' = snapshot_last_included_index node) ∨
  (k' = applied ∧ (machine_state node' ≠ RAFT_ROLE_LEADER →
                   snapshot_last_included_index node' = last_applied node')).

Lemma dump_prepare_replayed h k node node' ops :
  node_inv node → replayed h k node → dump_prepare node = Some (node', ops) →
  ∃ cs k', replayed (h ++ cs) k' node' ∧ snapshot_step k node k' (length (h ++ cs)) node'.
Proof.
  intros [Hw Hr Hc _] Hrep H. unfold dump_prepare in H. pose proof (log_wf_applied _ Hw) as Hap.
  apply bind_Some in H as (n1 & H1 & H).
  assert (frozen node n1 ∧ log_wf n1 ∧ repl_wf n1) as (F1 & Hw1 & Hr1).
  { case_match; [|by simplify_eq].
    destruct (advance_commit_wf node Hw) as (n1' & E & Hw1 & Hr1 & _); [lia|]. rewrite E in H1.
    injection H1 as ->. split_and!; [|done|by apply Hr1].
    apply advance_commit_loop_spec in E; [|lia]. destruct E as [->|(i & -> & _)]; by apply frozen_same. }
  eapply frozen_replayed in Hrep; [|exact F1].
  apply bind_Some in H as (n2 & H2 & H).
  destruct (apply_loop_applied _ n1 Hw1 eq_refl) as (n2' & E2 & [_ _ Hw2 Hr2 _ (_ & _ & S2 & _)]).
  unfold node_apply_committed in H2. rewrite E2 in H2. injection H2 as ->. specialize (Hr2 Hr1).
  pose proof (applied_replayed _ _ _ _ Hw1 Hrep E2) as Hrep2.
  set (cs := commands_from n1 _ _) in *. clearbody cs.
  apply bind_Some in H as (n3 & H3 & H).
  destruct (drive_membership_spec n2 Hw2 Hr2) as (n3' & E3 & Hw3 & Hr3 & _). rewrite E3 in H3. injection H3 as ->.
  pose proof (drive_membership_frozen _ _ Hw2 Hr2 E3) as F3. eapply frozen_replayed in Hrep2; [|exact F3].
  assert (snapshot_last_included_index n3 = snapshot_last_included_index node) as Es
    by (rewrite (ak_snap _ _ (fz_kept _ _ F3)), S2; apply (ak_snap _ _ (fz_kept _ _ F1))).
  apply bind_Some in H as (b & Hb & H). apply bind_Some in H as ([n4 ops4] & H4 & H).
  assert (∃ k', replayed (h ++ cs) k' n4 ∧ snapshot_step k node k' (length (h ++ cs)) n4) as (k' & Hrep4 & Hst).
  { destruct b; [|simplify_eq; exists k; split; [done|by left]].
    destruct (compact_replayed _ _ _ _ _ Hw3 Hr3 Hb Hrep2 H4) as (Hrep4 & _ & Erole & Hlast).
    eexists. split; [done|]. right. split; [done|]. by rewrite Erole. }
  exists cs, k'. destruct (persist_dirty n4); simplify_eq; [|done].
  split; [|exact Hst]. eapply frozen_replayed; [|exact Hrep4]. by apply frozen_same.
Qed.

Section Tick.
  Context {T : Type} (tr : raft_transport_t T) (inflight : T → raft_message_t → Prop).
  Context {Htr : TransportLaws tr inflight}.
  Context (evaluate : list (transition (U:=U)) → raft_node_t U → Z → option (transition (U:=U))).
  Context {Hev : RuntimeLaws evaluate}.

Lemma tick_replays clock node ctx disk h k :
  node_inv node → (current_term node < INT_MAX)%Z → (∀ m, inflight ctx m → benign node m) →
  replayed h k node →
  ∃ node' ctx' disk' cs k', node_tick tr evaluate clock node ctx disk = Some (node', ctx', disk') ∧
    replayed (h ++ cs) k' node' ∧ snapshot_step k node k' (length (h ++ cs)) node'.
Proof using Htr Hev.
  intros Hi Ht Hb Hrep.
  destruct (node_tick_total tr inflight evaluate clock node ctx disk Hi Ht Hb) as (node' & ctx' & disk' & H & _).
  exists node', ctx', disk'. assert (∀ m, m ∈ (recv tr ctx RAFT_MAX_QUEUE).2 → benign node m) as Hbr
    by (intros m Hm; by eapply Hb, recv_inflight).
  cut (∃ cs k', replayed (h ++ cs) k' node' ∧ snapshot_step k node k' (length (h ++ cs)) node');
    [intros (cs & k' & ?); by exists cs, k'|].
  unfold node_tick in H. destruct (latch_inputs_latched tr node ctx Hi Hbr) as (n1 & ctx1 & E1 & Hl).
  pose proof (latch_inputs_frozen _ _ _ _ _ Hi Hbr E1) as F1. rewrite E1 in H. bind_simpl_in H.
  destruct (transition_acts evaluate clock _ _ _ (node_inv_log _ Hi) Hl Ht Hbr) as [(n2 & E2 & Hi2 & _) Hact].
  rewrite E2 in H. bind_simpl_in H.
  assert (frozen n1 n2) as F2.
  { destruct (evaluate RAFT_TRANSITIONS n1 clock) as [t|] eqn:Ev; [|by injection E2 as <-].
    destruct (Hact t eq_refl) as [Hin Ha]. transitivity (n1 <| machine_state := to_role t |>); [by apply frozen_same|].
    eapply action_frozen; [exact Hin| |exact Ha|exact E2].
    apply (log_wf_ext n1); try done. apply (latched_inv _ _ _ Hl). }
  pose proof (transitivity F1 F2) as F. eapply frozen_replayed in Hrep; [|exact F].
  unfold raft_node_dump_outputs in H. destruct (negb (running n2)).
  - simplify_eq. exists [], k. rewrite app_nil_r.
    split; [eapply frozen_replayed; [|exact Hrep]; by apply frozen_same|]. left. split; [done|].
    exact (ak_snap _ _ (fz_kept _ _ F)).
  - apply bind_Some in H as ([n3 ops] & E3 & [= <- _ _]).
    destruct (dump_prepare_replayed _ _ _ _ _ Hi2 Hrep E3) as (cs & k' & Hrep3 & Hst). exists cs, k'.
    split; [eapply frozen_replayed; [|exact Hrep3]; by apply frozen_same|].
    unfold snapshot_step in *. by rewrite <- (ak_snap _ _ (fz_kept _ _ F)).
Qed.


End Tick.

(** ** Restarting *)

(** What the application promises: reloading starts over, and restoring the snapshot
    of a state gives that state back. *)
Class ReplayLaws : Prop := {
  replay_reload : ∃ f, reload app = Some f ∧ ∀ u, f u = u0;
  replay_restores cs : (Z.of_nat (length cs) ≤ INT_MAX)%Z →
    ∃ f, restore_snapshot app = Some f ∧ ∀ u, f u (snapshot_text (replay cs)) = replay cs;
}.

Lemma commands_from_app node i n m :
  length (commands_from node i n) = n →
  commands_from node i (n + m) = commands_from node i n ++ commands_from node (i + Z.of_nat n) m.
Proof.
  revert i; induction n as [|n IH]; intros i; cbn [commands_from Nat.add].
  - intros _. by rewrite Z.add_0_r.
  - case_match; [|done]. cbn [length]. intros [= Hl]. rewrite IH by done. cbn. do 3 f_equal. lia.
Qed.

Lemma commands_from_same node node' i n :
  (∀ j, (i < j ≤ i + Z.of_nat n)%Z → node_log_at node' j = node_log_at node j) →
  commands_from node' i n = commands_from node i n.
Proof.
  revert i; induction n as [|n IH]; intros i H; [done|]. cbn [commands_from]. rewrite H by lia.
  case_match; [|done]. f_equal. apply IH. intros j Hj. apply H. lia.
Qed.

(** What is still in the log are the last commands applied. *)
Lemma replayed_commands h k node :
  log_wf node → replayed h k node →
  commands_from node (snapshot_last_included_index node)
    (Z.to_nat (last_applied node - snapshot_last_included_index node)) =
  drop (Z.to_nat (snapshot_last_included_index node)) h.
Proof.
  intros Hw [R1 R2 R3 R4 R5 R6]. pose proof (log_wf_applied _ Hw) as Hap.
  pose proof (log_core_snapshot _ Hw) as Hs. pose proof (log_core_count _ Hw) as Hcount.
  set (s := snapshot_last_included_index node) in *.
  destruct (commands_from_lookup node s (Z.to_nat (last_applied node - s))) as [Hl Hj]; [apply Hw|lia|lia|].
  apply list_eq_same_length with (n := Z.to_nat (last_applied node - s)); [by rewrite length_drop; lia|done|].
  intros i x y Hi Hx Hy. rewrite lookup_drop in Hy.
  destruct (node_log_at_defined node (s + 1 + Z.of_nat i) Hw) as [e He];
    [unfold s in *; lia|unfold node_last_log_index, s in *; lia|].
  specialize (Hj (s + 1 + Z.of_nat i)%Z e ltac:(lia) He). specialize (R4 (s + 1 + Z.of_nat i)%Z e ltac:(lia) He).
  replace (Z.to_nat (s + 1 + Z.of_nat i - s - 1)) with i in Hj by lia.
  replace (Z.to_nat (s + 1 + Z.of_nat i - 1)) with (Z.to_nat s + i)%nat in R4 by lia. congruence.
Qed.

Lemma fill_user (m : meta_t) snap es node :
  callbacks (application (node_fill m snap es node)) = callbacks (application node) ∧
  user (application (node_fill m snap es node)) =
    match snap, restore_snapshot (application node), reload (application node) with
    | Some s, Some f, _ => f (user (application node)) s
    | None, _, Some f => f (user (application node))
    | _, _, _ => user (application node)
    end.
Proof.
  unfold node_fill, app_restore_snapshot, app_reload.
  destruct snap; [destruct (restore_snapshot _) eqn:E|destruct (reload _) eqn:E]; unfold callbacks; cbn;
    split; try reflexivity; by rewrite E.
Qed.

(** A restart: what the snapshot holds. *)
Lemma load_replayed {Hlaws : ReplayLaws} d h k node :
  node_inv node → storable node → snapshot_on_disk d node →
  (snapshot_last_included_index node = 0%Z → d !! storage_snapshot_path (storage node) = None) →
  replayed h k node → (last_applied node ≤ INT_MAX)%Z → (snapshot_last_included_index node = 0%Z → k = 0%nat) →
  let node' := raft_storage_node_load (run_disk (raft_storage_node_save node) d) node in
  callbacks (application node') = callbacks app ∧ user (application node') = replay (take k h).
Proof using Type.
  intros Hi Hs Hsnap H0 [R1 R2 R3 R4 R5 R6] Hmax Hk node'.
  pose proof (log_core_snapshot _ (node_inv_log _ Hi)) as Hs0.
  destruct (save_files node d) as [Hm _]. unfold node', raft_storage_node_load.
  edestruct fill_user as [-> ->]. split; [done|].
  assert (reload (application node) = reload app ∧ restore_snapshot (application node) = restore_snapshot app)
    as [-> ->] by (by injection R1).
  destruct (decide (snapshot_last_included_index node = 0%Z)) as [E|E].
  - rewrite Hk by done. cbn [take]. destruct Hlaws as [(f & -> & Hf) _].
    assert (loaded_snapshot (run_disk (raft_storage_node_save node) d) (storage node) = None) as ->.
    { unfold loaded_snapshot. rewrite save_keeps_snapshot, H0 by done. done. }
    apply Hf.
  - destruct Hsnap as [[? _]|[Hd Hlen]]; [done|].
    assert (loaded_snapshot (run_disk (raft_storage_node_save node) d) (storage node) =
            Some (snapshot_buf (storage node))) as ->.
    { unfold loaded_snapshot. rewrite save_keeps_snapshot, Hd. bind_simpl. rewrite (saved_meta node _ _ Hs Hm).
      apply (read_write_snapshot (meta_of node)); [|exact (storable_snap_term _ Hs)|done].
      exact (storable_snap_index _ Hs). }
    rewrite R6 by lia. destruct Hlaws as [_ Hr]. destruct (Hr (take k h)) as (f & -> & Hf).
    + rewrite length_take. lia.
    + apply Hf.
Qed.

Lemma loaded_log_at d node :
  node_inv node → storable node → snapshot_on_disk d node →
  let node' := raft_storage_node_load (run_disk (raft_storage_node_save node) d) node in
  snapshot_last_included_index node' = snapshot_last_included_index node ∧
  ∀ i, (snapshot_last_included_index node < i ≤ node_last_log_index node)%Z →
    node_log_at node' i = node_log_at node i.
Proof.
  intros Hi Hs Hsnap node'. destruct (saved_node_restarts d node Hi Hs Hsnap) as (_ & _ & _ & _ & Hlog & _).
  fold node' in Hlog.
  assert (snapshot_last_included_index node' = snapshot_last_included_index node) as Es.
  { pose proof (load_fields (run_disk (raft_storage_node_save node) d) node) as Hf. cbv zeta in Hf.
    destruct (save_files node d) as [Hm _]. rewrite (saved_meta node _ _ Hs Hm) in Hf.
    by destruct Hf as (_ & _ & _ & _ & Hf & _). }
  split; [done|]. intros i Hr. unfold node_log_at, node_physical_index, array_get, node_last_log_index in *. rewrite Es.
  case_match; [done|]. apply Hlog. lia.
Qed.

(** C21: a restart replays the log.  A node that has been saved, with its snapshot on
    the disk, is loaded and applies what was committed: its application goes through
    the commands the snapshot stands for, then through those the log still holds and
    through the committed ones it had not applied yet.  When the snapshot is one of
    exactly what was dropped from the log, as a follower's is, the node has applied
    each committed command once: it is again the replay of its history. *)
Theorem restart_replays_history {Hlaws : ReplayLaws} d h k node :
  node_inv node → storable node → snapshot_on_disk d node →
  (snapshot_last_included_index node = 0%Z → d !! storage_snapshot_path (storage node) = None ∧ k = 0%nat) →
  replayed h k node → (last_applied node ≤ INT_MAX)%Z →
  let node' := raft_storage_node_load (run_disk (raft_storage_node_save node) d) node in
  let cs := commands_from node (last_applied node) (Z.to_nat (commit_index node - last_applied node)) in
  ∃ node'', node_apply_committed node' = Some node'' ∧ last_applied node'' = commit_index node ∧
    user (application node'') =
      replay (take k h ++ drop (Z.to_nat (snapshot_last_included_index node)) h ++ cs) ∧
    (snapshot_last_included_index node = Z.of_nat k → replayed (h ++ cs) k node'').
Proof using Type.
  intros Hi Hs Hsnap H0 Hrep Hmax node' cs. pose proof Hi as [Hw _ Hc _].
  destruct (saved_node_restarts d node Hi Hs Hsnap) as (Hi' & Ea & Ec & _ & _ & Eb).
  destruct (loaded_log_at d node Hi Hs Hsnap) as [Es Hat].
  destruct (load_replayed d h k node Hi Hs Hsnap (λ E, proj1 (H0 E)) Hrep Hmax (λ E, proj2 (H0 E))) as [Hcb Hu].
  fold node' in Hi', Ea, Ec, Eb, Es, Hat, Hcb, Hu. clearbody node'.
  pose proof (log_wf_applied _ Hw) as Hap. pose proof (log_wf_commit _ Hw) as Hcm.
  set (s := snapshot_last_included_index node) in *.
  assert (commands_from node' s (Z.to_nat (commit_index node - s)) = drop (Z.to_nat s) h ++ cs) as Hcs.
  { rewrite (commands_from_same node) by (intros j Hj; apply Hat; unfold s in *; lia).
    replace (Z.to_nat (commit_index node - s)) with
      (Z.to_nat (last_applied node - s) + Z.to_nat (commit_index node - last_applied node))%nat by lia.
    destruct (commands_from_lookup node s (Z.to_nat (last_applied node - s))) as [Hl _];
      [apply Hw|unfold s; lia|lia|].
    rewrite commands_from_app by done. f_equal; [by eapply replayed_commands|].
    unfold cs. f_equal. lia. }
  destruct (apply_loop_applied _ node' (node_inv_log _ Hi') eq_refl) as (node'' & H & [A1 A2 _ _ _ _]).
  exists node''. split; [exact H|]. split; [lia|].
  assert (app_step (application node') = app_step app) as Estep.
  { unfold app_step. injection Hcb as -> _ _ _. done. }
  split.
  - rewrite A2, Ea, Ec, Hcs, Hu, Estep. unfold replay. by rewrite <- fold_left_app.
  - intros Ek. assert (replayed (take k h) k node') as Hrep'.
    { destruct Hrep as [R1 R2 R3 R4 R5 R6]. split; rewrite ?Es, ?Ea; try done; [rewrite length_take; lia|lia|lia|].
      intros Hpos. by rewrite take_take, Nat.min_id, Eb, R6. }
    pose proof (applied_replayed _ _ _ _ (node_inv_log _ Hi') Hrep' H) as Hr.
    rewrite Ea, Ec, Hcs in Hr. replace (Z.to_nat s) with k in Hr by lia.
    by rewrite (assoc (++)), take_drop in Hr.
Qed.

End Replay.
