(* ===== verification/CounterApp.v ===== *)
(** The application of the counter program, [c/examples/counter/src/main.c]: a number
    behind the four callbacks. *)
From S2P Require Import Prelude CString Types Config NodeLog Handlers HandlerFacts Storage Membership MembershipFacts.

Record counter_state_t : Type := mkCounter { counter_value : Z }.

(** [value += 1] is exact as long as the value is below [INT_MAX], which
    [counter_counts_increments] shows of every committed history. *)
Definition counter_apply (counter : counter_state_t) (command : raft_command_t) : counter_state_t :=
  if streq (op command) "inc" then mkCounter (counter_value counter + 1)
  else if streq (op command) "reset" then mkCounter 0
  else counter.

Definition counter_reload (counter : counter_state_t) : counter_state_t := mkCounter 0.

(** The text; the empty one when it does not fit. *)
Definition counter_snapshot (counter : counter_state_t) (buf_size : nat) : string :=
  let '(s, n) := snprintf buf_size (print_int (counter_value counter) +:+ String newline "") in
  if (n =? 0)%nat || (buf_size <=? n)%nat then "" else s.

(** [size] bytes of [buf], 31 at most. *)
Definition counter_restore_snapshot (counter : counter_state_t) (buf : string) : counter_state_t :=
  mkCounter (atoi (str_take 31 buf)).

Definition counter_make_application (counter : counter_state_t) : raft_application_t counter_state_t :=
  mkApplication (Some counter_apply) (Some counter_reload) (Some counter_snapshot)
    (Some counter_restore_snapshot) counter.
