(* ===== verification/CounterProps.v ===== *)
(** The counter: its value is the number of increments since the last reset in what
    the node has applied, through ticks and restarts. *)
From S2P Require Import Prelude CString Types Config NodeLog Samples Replication Handlers LogMerge HandlerFacts Storage StorageFacts MemTransport Membership MembershipFacts Fsm FsmFacts FsmProps Lifecycle LifecycleProps Replay CounterApp.

Definition counter_app : raft_application_t counter_state_t := counter_make_application (mkCounter 0).

(** The commands of [cs], latest first: the increments before the first reset. *)
Fixpoint increments (cs : list raft_command_t) : nat :=
  match cs with
  | [] => 0
  | c :: cs =>
      if streq (op c) "reset" then 0%nat
      else if streq (op c) "inc" then S (increments cs) else increments cs
  end.

Lemma internal_no_count c : is_internal c = true → streq (op c) "inc" = false ∧ streq (op c) "reset" = false.
Proof.
  unfold is_internal. intros H. repeat (apply orb_true_iff in H as [H|H]); apply streq_true in H as ->; done.
Qed.

Lemma replay_counts cs :
  counter_value (replay counter_app (mkCounter 0) cs) = Z.of_nat (increments (reverse cs)).
Proof.
  induction cs as [|c cs IH] using rev_ind; [done|]. unfold replay in *.
  rewrite fold_left_app, reverse_snoc. cbn [fold_left increments]. unfold app_step at 1.
  destruct (is_internal c) eqn:Ei.
  - by destruct (internal_no_count c Ei) as [-> ->].
  - cbn [apply counter_app counter_make_application]. unfold counter_apply.
    destruct (streq (op c) "inc") eqn:E1; destruct (streq (op c) "reset") eqn:E2; cbn [counter_value]; try lia.
    apply streq_true in E1, E2. congruence.
Qed.

Lemma increments_length cs : (increments cs ≤ length cs)%nat.
Proof. induction cs as [|c cs IH]; cbn [increments length]; repeat case_match; lia. Qed.

Lemma replay_counts_bound cs :
  (0 ≤ counter_value (replay counter_app (mkCounter 0) cs) ≤ Z.of_nat (length cs))%Z.
Proof.
  rewrite replay_counts. pose proof (increments_length (reverse cs)) as H. rewrite length_reverse in H. lia.
Qed.

(** The text of a value fits every buffer and is read back. *)
Lemma counter_snapshot_restores v u :
  (0 ≤ v ≤ INT_MAX)%Z →
  counter_snapshot (mkCounter v) RAFT_MAX_SNAPSHOT_SIZE = print_int v +:+ String newline "" ∧
  counter_restore_snapshot u (counter_snapshot (mkCounter v) RAFT_MAX_SNAPSHOT_SIZE) = mkCounter v.
Proof.
  intros Hv. assert (String.length (print_int v +:+ String newline "") ≤ 12)%nat as Hl.
  { rewrite str_app_length. assert (in_int v) as Hi by (unfold in_int, INT_MAX in *; lia).
    pose proof (print_int_length v Hi). cbn [String.length]. lia. }
  assert (counter_snapshot (mkCounter v) RAFT_MAX_SNAPSHOT_SIZE = print_int v +:+ String newline "") as E.
  { unfold counter_snapshot, snprintf. cbn [counter_value]. rewrite (proj2 (Nat.eqb_neq _ _)), (proj2 (Nat.leb_gt _ _)).
    - cbn [orb]. apply str_take_all. unfold RAFT_MAX_SNAPSHOT_SIZE. lia.
    - unfold RAFT_MAX_SNAPSHOT_SIZE. lia.
    - rewrite str_app_length. cbn [String.length]. lia. }
  split; [done|]. rewrite E. unfold counter_restore_snapshot. rewrite str_take_all by lia. f_equal. apply atoi_line.
Qed.

#[export] Instance counter_replay_laws : ReplayLaws counter_app (mkCounter 0).
Proof.
  split; [by exists counter_reload|]. intros cs Hcs. exists counter_restore_snapshot. split; [done|]. intros u.
  pose proof (replay_counts_bound cs) as Hb. destruct (replay counter_app (mkCounter 0) cs) as [v]. cbn [counter_value] in Hb.
  apply counter_snapshot_restores. lia.
Qed.

(** ** The value *)

Section Tick.
  Context {T : Type} (tr : raft_transport_t T) (inflight : T → raft_message_t → Prop).
  Context {Htr : TransportLaws tr inflight}.
  Context (evaluate : list (transition (U:=counter_state_t)) → raft_node_t counter_state_t → Z →
                      option (transition (U:=counter_state_t))).
  Context {Hev : RuntimeLaws evaluate}.


End Tick.

(** ** Witnesses *)

Definition inc : raft_command_t := mkCommand "inc" "" "".

(** A node of the counter with [log] in term 1, of which [applied] are applied. *)
Definition counter_node (r : raft_role_t) (es : list raft_log_entry_t) (applied committed value : Z)
    : raft_node_t counter_state_t :=
  mkNode (sample_config "a" ["b"; "c"] ["a"; "b"; "c"]) (mkStorage "a" "data" "")
    (counter_make_application (mkCounter value)) r 1 ""
    (es ++ replicate (RAFT_MAX_LOG - length es) zero_entry) (length es) 0 0 committed applied "" 128 true
    (mkClusterConfig ["a"; "b"; "c"] [] 0) RAFT_MEMBERSHIP_STABLE [] false 0 0 []
    (replicate RAFT_MAX_PEERS 1%Z) (replicate RAFT_MAX_PEERS 0%Z) [] [] [] [] false 150 50.

Definition counter_b : raft_node_t counter_state_t :=
  counter_node RAFT_ROLE_FOLLOWER [mkEntry 1 1 "b" inc; mkEntry 2 1 "b" inc] 1 2 1.

Lemma counter_b_inv : node_inv counter_b.
Proof. apply node_invb_sound. vm_compute. reflexivity. Qed.

Lemma counter_b_storable : storable counter_b.
Proof. apply storableb_sound. vm_compute. reflexivity. Qed.

Lemma counter_b_replayed : replayed counter_app (mkCounter 0) [inc] 0 counter_b.
Proof.
  split; try reflexivity.
  - intros i e Hi. assert (i = 1%Z) as -> by (cbn in Hi; lia). vm_compute. by intros [= <-].
  - vm_compute. done.
  - intros H. vm_compute in H. done.
Qed.

Lemma queued_nothing m : queued raft_memory_transport_init m → benign counter_b m.
Proof.
  intros (q & Hq & Hm). unfold raft_memory_transport_init in Hq. cbn [queues] in Hq.
  apply elem_of_replicate in Hq as [-> _]. by apply elem_of_nil in Hm.
Qed.



Lemma restart_replays_history_witness :
  let node' := raft_storage_node_load (run_disk (raft_storage_node_save counter_b) ∅) counter_b in
  ∃ node'', node_apply_committed node' = Some node'' ∧ counter_value (user (application node'')) = 2%Z.
Proof.
  assert (snapshot_on_disk ∅ counter_b) as Hsn by (left; split; [reflexivity|apply lookup_empty]).
  destruct (restart_replays_history counter_app (mkCounter 0) ∅ [inc] 0 counter_b counter_b_inv
    counter_b_storable Hsn) as (node'' & H & _ & Hu & _).
  - intros _. split; [apply lookup_empty|reflexivity].
  - apply counter_b_replayed.
  - vm_compute. discriminate.
  - exists node''. split; [exact H|]. rewrite Hu. vm_compute. reflexivity.
Defined.

(** A leader with two increments applied, one of which all its peers have
    acknowledged: what it drops is one entry, what it snapshots counts two, so after
    a restart the second increment is counted again. *)
Definition compacting_leader : raft_node_t counter_state_t :=
  counter_node RAFT_ROLE_LEADER [mkEntry 1 1 "a" inc; mkEntry 2 1 "a" inc] 2 2 2
    <| match_index := 1%Z :: 1%Z :: replicate (RAFT_MAX_PEERS - 2) 0%Z |> <| compaction_threshold := 1%Z |>.

(** Compaction, save and restart: what is applied in the end, and the value. *)
Definition compact_and_restart (node : raft_node_t counter_state_t) : option (Z * Z) :=
  '(node, ops) ← node_do_compact node;
  let disk := run_disk (raft_storage_node_save node) (run_disk ops ∅) in
  node ← node_apply_committed (raft_storage_node_load disk node);
  Some (last_applied node, counter_value (user (application node))).

Lemma leader_snapshot_counts_twice :
  node_inv compacting_leader ∧ node_should_compact compacting_leader = Some true ∧
  compact_and_restart compacting_leader = Some (2, 3)%Z.
Proof. split; [apply node_invb_sound|split]; vm_compute; reflexivity. Qed.
