(* ===== verification/CounterCli.v ===== *)
(** The counter program, [c/examples/counter/src]: its command line machine
    ([counter_cli.c]), its command line and its set-up ([main.c]).  What its node does in
    a tick is [Fsm.node_tick] with the application of [CounterApp]. *)
From S2P Require Import Prelude StateMonad CString Types Config NodeLog Handlers Storage MemTransport Membership Fsm Lifecycle MessageLayout TcpTransport TcpPeers CliProcess CounterApp.

Record counter_cli_t : Type := mkCounterCli {
  cli_node_id : string;
  line : string;
  has_line : bool;
  prompt_needed : bool;
  quit_requested : bool;
  last_role : raft_role_t;
  last_term : Z;
  pending_joins : list raft_tcp_join_req_t;
  fwd_cmds : list raft_command_t;
}.

#[export] Instance counter_cli_eta : Eta counter_cli_t := λ c,
  mkCounterCli (cli_node_id c) (line c) (has_line c) (prompt_needed c) (quit_requested c) (last_role c)
    (last_term c) (pending_joins c) (fwd_cmds c).

(** [counter_process_t]; the counter is the one of the node's application. *)
Abbreviation counter_process_t N := (process_t counter_cli_t counter_state_t N).

#[export] Instance counter_cli_queues : RequestQueues counter_cli_t := {|
  joins_of := pending_joins;
  with_joins l c := c <| pending_joins := l |>;
  cmds_of := fwd_cmds;
  with_cmds l c := c <| fwd_cmds := l |>;
|}.

#[export] Instance counter_cli_queues_laws : RequestQueuesLaws counter_cli_t.
Proof. by split. Qed.

Definition counter_find_peer_address {N} (d : counter_process_t N) (id : string) : option (string * Z) :=
  if streq id (node_id (config (node d))) then Some (strncpy 256 (own_host (tcp d)), listen_port (tcp d))
  else p ← find_peer id (tcp_peers (tcp d)); Some (strncpy 256 (peer_host p), peer_port p).

Definition counter_find_leader_address {N} (d : counter_process_t N) : option (string * Z) :=
  if streq (leader_id (node d)) "" then None else counter_find_peer_address d (leader_id (node d)).

Definition counter_of {N} (d : counter_process_t N) : Z := counter_value (user (application (node d))).

Section Counter.
  Context {N : Type} (sockets : sockets_t N) (fopen_w : string → bool).
  Context {layout : MessageLayout} {frames : Layout raft_tcp_frame_t frame_fits}.
  Context {requests : Layout raft_tcp_join_req_t join_req_fits} {commands : Layout raft_command_t command_fits}.
  Context (clock : Z).
  Abbreviation M := (M (counter_process_t N)).

Definition counter_prompt : M unit := on_cli (λ c, c <| prompt_needed := true |>).

(** *** Commands *)

Definition counter_forward_to_leader (cmd : raft_command_t) : M Z :=
  leader ← gets counter_find_leader_address;
  match leader with
  | None => _ ← puts "leader unknown; retry later"; mret (-1)%Z
  | Some (host, port) =>
      r ← forward_cmd sockets host port cmd;
      if negb (r =? 0)%Z then _ ← puts "forward failed"; mret (-1)%Z
      else _ ← puts "forwarded"; mret 0%Z
  end.

Definition submit_counter_command (op : string) : M unit :=
  let cmd := mkCommand (strncpy RAFT_MAX_OP op) "" "" in
  leader ← is_leader;
  if (leader : bool) then
    r ← submit sockets cmd;
    if (r =? 0)%Z then puts "queued" else puts "not a cluster member"
  else _ ← counter_forward_to_leader cmd; mret tt.

(** [raft_node_reset_for_join] and [counter->value = 0]. *)
Definition counter_reset_for_join : M unit :=
  modify (λ d,
    let '(n, disk) := raft_node_reset_for_join (node d) clock (files d) in
    let n := n <| application := application n <| user := mkCounter 0 |> |> in
    d <| node := n |> <| files := disk |>).

Definition counter_cmd_join (addr : string) : M unit :=
  match parse_host_port addr 256 with
  | None => puts "usage: join HOST:PORT"
  | Some (host, port) =>
      _ ← counter_reset_for_join;
      id ← gets (λ d, node_id (config (node d)));
      r ← on_tcp (λ t, raft_tcp_transport_request_join sockets t id (own_host t) (listen_port t) host port);
      if negb (r =? 0)%Z then puts "join failed" else puts "join requested"
  end.

Definition counter_status (d : counter_process_t N) : string :=
  let n := node d in
  "id=" +:+ node_id (config n) +:+ " role=" +:+ role_name (machine_state n)
  +:+ " term=" +:+ print_int (current_term n) +:+ " commit=" +:+ print_int (commit_index n)
  +:+ " leader=" +:+ (if streq (leader_id n) "" then "unknown" else leader_id n)
  +:+ " value=" +:+ print_int (counter_of d)
  +:+ " members=[" +:+ String.concat "," (old_members (config_state n)).

Definition counter_print_status : M unit :=
  s ← gets counter_status; _ ← printf s; puts "]".

Definition counter_help_lines : list string :=
  ["Commands:";
   "  inc              synchronized: value += 1";
   "  reset            synchronized: value = 0";
   "  get              local unsynchronized read";
   "  join HOST:PORT   join the cluster reachable at HOST:PORT";
   "  leader           show known leader";
   "  status           show local Raft status";
   "  help             this message";
   "  quit             exit"].

Definition counter_cmd_help : M unit := each puts counter_help_lines.

Definition counter_dispatch (line : string) : M unit :=
  match tokens 3 blank "" (chop_newline line) with
  | [] => mret tt
  | cmd :: args =>
      if streq cmd "inc" then submit_counter_command "inc"
      else if streq cmd "reset" then submit_counter_command "reset"
      else if streq cmd "get" then v ← gets counter_of; printf (print_int v +:+ nl)
      else if streq cmd "join" then
        match args with [] => puts "usage: join HOST:PORT" | a :: _ => counter_cmd_join a end
      else if streq cmd "leader" then
        l ← gets (λ d, leader_id (node d)); puts (if streq l "" then "unknown" else l)
      else if streq cmd "status" then counter_print_status
      else if streq cmd "help" then counter_cmd_help
      else if streq cmd "quit" || streq cmd "exit" then on_cli (λ c, c <| quit_requested := true |>)
      else printf ("unknown: " +:+ cmd +:+ " (type 'help')" +:+ nl)
  end.

(** *** The machine *)

Definition counter_latch_inputs (stdin : stdin_t) : M unit :=
  _ ← on_cli (λ c, c <| has_line := false |>);
  _ ← match stdin with
      | StdinNothing => mret tt
      | StdinEof => on_cli (λ c, c <| quit_requested := true |>)
      | StdinLine l => on_cli (λ c, c <| line := l |> <| has_line := true |>)
      end;
  receive.

Definition counter_guard_has_line (c : counter_cli_t) : bool := has_line c.

Definition counter_action_execute : M unit :=
  l ← gets (λ d, line (cli d)); _ ← counter_dispatch l; counter_prompt.

Definition request_membership_add (id : string) : M unit :=
  leader ← is_leader;
  if negb leader then mret tt
  else
    old ← gets (λ d, take RAFT_MAX_NODES (old_members (config_state (node d))));
    members ← lift (mapM (copy_uninit RAFT_MAX_ID) old);
    if negb (member_contains members id) && (length members <? RAFT_MAX_NODES)%nat then
      i ← lift (copy_uninit RAFT_MAX_ID id);
      _ ← request_change (members ++ [i]);
      _ ← printf (nl +:+ "[cluster] join: " +:+ id +:+ nl);
      counter_prompt
    else mret tt.

Definition counter_add_peer (jr : raft_tcp_join_req_t) : M unit :=
  on_tcp_files (λ t, raft_tcp_transport_add_peer fopen_w t (jr_node_id jr) (jr_host jr) (jr_port jr)).

(** One iteration of [handle_pending_joins]. *)
Definition pending_join_step (i : nat) (jr : raft_tcp_join_req_t) : M nat :=
  if (forwarded jr =? RAFT_JOIN_ANNOUNCE)%Z then
    _ ← counter_add_peer jr; _ ← drop_join i; mret i
  else
    f ← join_steps sockets jr;
    let jr := jr <| forwarded := f |> in
    _ ← set_join i jr;
    known ← gets (λ d, peer_list_contains (tcp_peers (tcp d)) (jr_node_id jr));
    _ ← when (negb known) (counter_add_peer jr);
    c ← gets (λ d, config_state (node d));
    if member_contains (old_members c) (jr_node_id jr) || member_contains (new_members c) (jr_node_id jr)
    then _ ← drop_join i; mret i
    else
      leader ← is_leader;
      if (leader : bool) then _ ← request_membership_add (jr_node_id jr); _ ← drop_join i; mret i
      else mret (S i).

Definition handle_pending_joins : M unit := each_join pending_join_step.

Definition handle_forwarded_commands : M unit :=
  cmds ← gets (λ d, fwd_cmds (cli d));
  if (length cmds =? 0)%nat then mret tt
  else
    leader ← is_leader;
    _ ← when leader (each (λ c, _ ← submit sockets c; mret tt) cmds);
    on_cli (λ c, c <| fwd_cmds := [] |>).

(** Changes of role and term go to the standard error. *)
Definition counter_report_changes : M unit :=
  d ← gets id;
  let n := node d in
  when (negb (role_eqb (machine_state n) (last_role (cli d))) || negb (current_term n =? last_term (cli d))%Z)
    (_ ← eprintf (nl +:+ "[" +:+ cli_node_id (cli d) +:+ "] " +:+ role_name (last_role (cli d)) +:+ " -> "
                  +:+ role_name (machine_state n) +:+ " term=" +:+ print_int (current_term n)
                  +:+ " commit=" +:+ print_int (commit_index n) +:+ nl);
     on_cli (λ c, c <| last_role := machine_state n |> <| last_term := current_term n |>
                    <| prompt_needed := true |>)).

Definition counter_dump_outputs : M unit :=
  quit ← gets (λ d, quit_requested (cli d));
  if (quit : bool) then modify (λ d, d <| stopped := true |>)
  else
    _ ← counter_report_changes;
    _ ← handle_pending_joins;
    _ ← handle_forwarded_commands;
    c ← gets cli;
    when (prompt_needed c)
      (_ ← printf (cli_node_id c +:+ "> "); on_cli (λ c, c <| prompt_needed := false |>)).

(** One tick of the runtime on this machine. *)
Definition counter_cli_tick (stdin : stdin_t) : M unit :=
  _ ← counter_latch_inputs stdin;
  c ← gets cli;
  _ ← when (counter_guard_has_line c) counter_action_execute;
  counter_dump_outputs.

End Counter.

(** *** The process *)

Record counter_args_t : Type := mkCounterArgs {
  counter_node_id : string;
  counter_port : Z;
  counter_host : string;
  counter_data_dir : string;
}.

#[export] Instance counter_args_eta : Eta counter_args_t := λ a,
  mkCounterArgs (counter_node_id a) (counter_port a) (counter_host a) (counter_data_dir a).

(** The loop over the arguments; [usage], which exits, is [None]. *)
Fixpoint parse_args_loop (a : counter_args_t) (argv : list string) : option counter_args_t :=
  match argv with
  | [] => Some a
  | [_] => None
  | arg :: v :: argv =>
      if streq arg "--id" then parse_args_loop (a <| counter_node_id := strncpy RAFT_MAX_ID v |>) argv
      else if streq arg "--port" then parse_args_loop (a <| counter_port := atoi v |>) argv
      else if streq arg "--host" then parse_args_loop (a <| counter_host := strncpy 256 v |>) argv
      else if streq arg "--data" then parse_args_loop (a <| counter_data_dir := strncpy 256 v |>) argv
      else None
  end.

(** [argv] without the program's name. *)
Definition parse_args (argv : list string) : option counter_args_t :=
  a ← parse_args_loop (mkCounterArgs "" 0 "127.0.0.1" "var/counter") argv;
  if streq (counter_node_id a) "" || (counter_port a <=? 0)%Z then None else Some a.

Definition counter_raft_config (args : counter_args_t) : raft_node_config_t :=
  mkConfig (strncpy RAFT_MAX_ID (counter_node_id args)) [] [] false 500 100.

Section Main.
  Context {N : Type} (fopen_w : string → bool).
  Context (open_listener : Z → option Z) (pthread_create : bool).
  Context {layout : MessageLayout} {frames : Layout raft_tcp_frame_t frame_fits}.

(** [-1] with its message is [inl]; the registration with the runtime is taken to
    succeed, and [now] is the reading of the clock. *)
Definition counter_setup (n : N) (args : counter_args_t) (now : Z) (disk : disk_t)
    : option (string + counter_process_t N) :=
  let tcp := raft_tcp_transport_init n (counter_port args) in
  let tcp := raft_tcp_transport_set_self tcp (counter_node_id args) (counter_host args) in
  let node_dir := (snprintf 512 (counter_data_dir args +:+ "/" +:+ counter_node_id args)).1 in
  let '(tcp, ops) := raft_tcp_transport_set_data_dir fopen_w tcp node_dir disk in
  let '(tcp, ops', r) := raft_tcp_transport_start fopen_w open_listener pthread_create tcp in
  let disk := fs_run ops' (fs_run ops disk) in
  if negb (r =? 0)%Z
  then Some (inl ("failed to listen on port " +:+ print_int (listen_port tcp) +:+ nl))
  else
    let cluster := raft_cluster_enable_realtime_clock raft_cluster_init now in
    '(cluster, added) ← raft_cluster_add_node cluster (counter_raft_config args) (counter_data_dir args)
                          (counter_make_application (mkCounter 0)) disk;
    match head (nodes cluster) with
    | Some node =>
        let cli := mkCounterCli (strncpy RAFT_MAX_ID (counter_node_id args)) "" false true false
                     (machine_state node) (current_term node) [] [] in
        Some (inr (mkProcess cli node tcp disk [] [] false))
    | None => Some (inl "")
    end.

End Main.

Definition counter_teardown {N} (d : counter_process_t N) : counter_process_t N :=
  d <| tcp := raft_tcp_transport_stop (tcp d) |>.
