(* ===== verification/CounterCliProps.v ===== *)
(** The command line machine of the counter: a tick, whatever is typed. *)
From S2P Require Import Prelude StateMonad CString Types Config NodeLog Handlers Storage MemTransport Membership Fsm Lifecycle MessageLayout TcpTransport TcpPeers TcpProps TcpPeerProps CliProcess CliFacts CliProps CounterApp CounterProps CounterCli.

Section Machine.
  Context {N : Type} (sockets : sockets_t N) (fopen_w : string → bool).
  Context {layout : MessageLayout} {frames : Layout raft_tcp_frame_t frame_fits}.
  Context {requests : Layout raft_tcp_join_req_t join_req_fits} {commands : Layout raft_command_t command_fits}.
  Context (clock : Z).
  Implicit Types d : counter_process_t N.

#[export] Instance keeps_counter_prompt : Keeps (N:=N) counter_prompt.
Proof. by apply keeps_modify. Qed.

#[export] Instance keeps_quit : Keeps (U:=counter_state_t) (N:=N) (on_cli (λ c, c <| quit_requested := true |>)).
Proof. by apply keeps_modify. Qed.

#[export] Instance keeps_counter_submit s : Keeps (N:=N) (submit_counter_command sockets s).
Proof. unfold submit_counter_command, counter_forward_to_leader. cbv zeta. apply _. Qed.

(** *** Typed commands *)

(** The join requests and the queues stay, the node may have been reset. *)
Definition typed d d' : Prop :=
  view_of d' = view_of d ∨
  view_of d' = mkView (pending_joins (cli d)) (fwd_cmds (cli d)) zero_configuration (node_id (config (node d)))
                 RAFT_ROLE_FOLLOWER (own_host (tcp d)) (tcp_peers (tcp d)).

Lemma typed_ok d d' : typed d d' → view_ok (view_of d) →
  view_ok (view_of d') ∧ pending_joins (cli d') = pending_joins (cli d).
Proof.
  intros [E|E] Hv; (split; [|change (v_joins (view_of d') = pending_joins (cli d)); by rewrite E]); rewrite E;
    [done|]. destruct Hv. by split.
Qed.

Lemma counter_reset_view d :
  wp (counter_reset_for_join clock) (λ _ d', view_of d' =
    mkView (pending_joins (cli d)) (fwd_cmds (cli d)) zero_configuration (node_id (config (node d)))
      RAFT_ROLE_FOLLOWER (own_host (tcp d)) (tcp_peers (tcp d))) d.
Proof using Type.
  apply wp_modify. unfold raft_node_reset_for_join.
  assert (config_state (reset_state (node d) clock) = zero_configuration ∧
    node_id (config (reset_state (node d) clock)) = node_id (config (node d)) ∧
    machine_state (reset_state (node d) clock) = RAFT_ROLE_FOLLOWER) as (E1 & E2 & E3) by (split_and!; reflexivity).
  revert E1 E2 E3. generalize (reset_state (node d) clock). intros n E1 E2 E3. unfold view_of. do 2 rsimpl.
  by rewrite E1, E2, E3.
Qed.

Lemma counter_cmd_join_typed d a : wp (counter_cmd_join sockets clock a) (λ _, typed d) d.
Proof.
  unfold counter_cmd_join. destruct (parse_host_port a 256) as [[host port]|].
  2:{ eapply wp_mono; [apply keeps_puts|]. intros [] d1 E. by left. }
  apply wp_bind. eapply wp_mono; [apply counter_reset_view|]. intros [] d1 E1. cbv beta in E1.
  apply wp_bind, wp_gets, wp_bind. eapply wp_mono; [by refine (keeps_on_tcp _ _ d1)|].
  intros r d2 E2. cbv beta in E2. eapply wp_mono; [apply keeps|]. intros [] d3 E3. cbv beta in E3.
  right. congruence.
Qed.

Lemma counter_dispatch_typed d l : wp (counter_dispatch sockets clock l) (λ _, typed d) d.
Proof.
  assert (∀ m : M (counter_process_t N) unit, Keeps m → wp m (λ _, typed d) d) as Hk.
  { intros m Hm. eapply wp_mono; [apply Hm|]. intros [] d1 E. by left. }
  unfold counter_dispatch. destruct (tokens 3 blank "" (chop_newline l)) as [|cmd args]; [apply Hk, _|].
  repeat first [apply Hk; apply _ | apply counter_cmd_join_typed |
    match goal with |- wp (if ?b then _ else _) _ _ => destruct b end |
    match goal with |- wp (match ?l with [] => _ | _ :: _ => _ end) _ _ => destruct l end];
    apply Hk; unfold counter_print_status, counter_cmd_help; apply _.
Qed.

(** *** Join requests *)

Lemma request_add_kept d id : view_ok (view_of d) → short id → kept (request_membership_add id) d.
Proof.
  intros Hv Hid. unfold request_membership_add. apply kept_bind; [apply keeps_is_leader|].
  intros leader d1 E1. destruct (negb leader); [apply keeps_ret|].
  assert (view_ok (view_of d1)) as Hv1 by (by rewrite E1). apply wp_bind, wp_gets.
  apply kept_bind; [eapply kept_lift, copy_all, Forall_take, Hv1|]. intros ms d2 _.
  destruct (_ && _); [|apply keeps_ret].
  apply kept_bind; [by eapply kept_lift, copy_short|]. intros i d3 _. apply keeps.
Qed.

Lemma counter_add_peer_learns d jr : join_ok jr → view_ok (view_of d) → learns (counter_add_peer fopen_w jr) d.
Proof.
  intros Hj Hv. apply wp_modify.
  destruct (add_peer_ok fopen_w (tcp d) (jr_node_id jr) (jr_host jr) (jr_port jr)) as [Hp Eh];
    [apply Hj|exact (view_ok_peers _ Hv)|].
  unfold learnt, view_of. rsimpl. rewrite Eh. split; [done|]. intros _. exact Hp.
Qed.

Lemma pending_join_step_stepped d i jr :
  joins_of (cli d) !! i = Some jr → join_ok jr → view_ok (view_of d) →
  wp (pending_join_step sockets fopen_w i jr) (λ i' d', stepped i d i' d') d.
Proof.
  intros Hi Hj Hv. unfold pending_join_step. destruct (forwarded jr =? RAFT_JOIN_ANNOUNCE)%Z eqn:Ef; bools.
  - apply wp_bind. eapply wp_mono; [by apply counter_add_peer_learns|]. intros [] d1 H1. cbv beta in H1.
    eapply drop_stepped; [exact Hj|]. etrans; [|exact H1]. by apply learnt_eq, eq_sym, view_with_join_same.
  - apply wp_bind. eapply wp_mono; [by apply join_steps_settle|]. intros f d1 [H1 Hf].
    set (jr' := jr <| forwarded := f |>). assert (join_ok jr') as Hj' by by apply join_ok_forwarded.
    pose proof (set_joins_ok d i jr' Hv Hj') as Hv'.
    apply wp_bind, (set_join_learns i jr' d); [by apply learnt_eq|]. intros d2 H2.
    assert (view_ok (view_of d2)) as Hv2 by by eapply learnt_ok.
    apply wp_bind, wp_gets, wp_bind.
    eapply wp_mono with (Q1 := λ _ d', learnt (view_of d2) (view_of d')).
    { unfold when. destruct (negb _); [by apply counter_add_peer_learns|by apply wp_ret]. }
    intros [] d3 H3. cbv beta in H3. assert (view_ok (view_of d3)) as Hv3 by by eapply learnt_ok.
    pose proof (transitivity H2 H3) as H23. clear H2 H3. pose proof (learnt_role _ _ _ _ H23) as Er.
    apply wp_bind, wp_gets. destruct (_ || _); [by eapply drop_stepped|].
    apply wp_bind, wp_gets. rewrite Er. destruct (role_eqb (machine_state (node d)) RAFT_ROLE_LEADER) eqn:El.
    + apply wp_bind. eapply wp_mono; [apply request_add_kept; [done|apply Hj]|]. intros [] d4 H4. cbv beta in H4.
      eapply drop_stepped; [exact Hj'|]. by rewrite H4.
    + apply bool_decide_eq_false in El. by eapply keep_stepped.
Qed.

Lemma handle_pending_joins_handles d :
  view_ok (view_of d) → wp (handle_pending_joins sockets fopen_w) (λ _ d', handled d d') d.
Proof. intros Hv. apply each_join_handles; [|done]. intros d1 i jr Hi Hj Hv1. by apply pending_join_step_stepped. Qed.

(** *** The output phase *)

Lemma handle_forwarded_commands_spec d :
  wp (handle_forwarded_commands sockets)
    (λ _ d', view_of d' = view_of (d <| cli := cli d <| fwd_cmds := [] |> |>)) d.
Proof.
  unfold handle_forwarded_commands. apply wp_bind, wp_gets. destruct (length _ =? 0)%nat eqn:El.
  { apply wp_ret. apply Nat.eqb_eq, length_zero_iff_nil in El. unfold view_of. rsimpl.
    cbn [joins_of cmds_of counter_cli_queues]. by rewrite El. }
  apply wp_bind, wp_gets, wp_bind. eapply wp_mono; [apply keeps|]. intros [] d1 E1. cbv beta in E1.
  apply wp_modify. unfold view_of in *. do 2 rsimpl. injection E1. intros. congruence.
Qed.

#[local] Instance keeps_counter_report : Keeps (N:=N) counter_report_changes.
Proof.
  unfold counter_report_changes. apply keeps_bind; [apply _|]. intros d. apply keeps_when, keeps_bind; [apply _|].
  intros []. by apply keeps_modify.
Qed.

Lemma counter_dump_settles d :
  view_ok (view_of d) →
  wp (counter_dump_outputs sockets fopen_w) (λ _ d', view_ok (view_of d') ∧
    (length (pending_joins (cli d')) ≤ length (pending_joins (cli d)))%nat ∧
    (stopped d' = true ∨
     (fwd_cmds (cli d') = [] ∧
      ∀ jr, jr ∈ pending_joins (cli d') →
        settled (forwarded jr) ∧ machine_state (node d') ≠ RAFT_ROLE_LEADER))) d.
Proof.
  intros Hv. unfold counter_dump_outputs. apply wp_bind, wp_gets. destruct (quit_requested _).
  { apply wp_modify. split_and!; [exact Hv|done|by left]. }
  apply wp_bind. eapply wp_mono; [apply keeps_counter_report|]. intros [] d2 E2. cbv beta in E2.
  apply wp_bind. eapply wp_mono; [apply handle_pending_joins_handles; by rewrite E2|]. intros [] d3 [H1 H2 H3 _ _ _].
  apply wp_bind. eapply wp_mono; [apply handle_forwarded_commands_spec|]. intros [] d4 E4. cbv beta in E4.
  apply wp_bind, wp_gets.
  assert (Keeps (U:=counter_state_t) (N:=N) (when (prompt_needed (cli d4))
    (_ ← printf (cli_node_id (cli d4) +:+ "> "); on_cli (λ c, c <| prompt_needed := false |>)))) as Hp.
  { apply keeps_when, keeps_bind; [apply _|]. intros []. by apply keeps_modify. }
  eapply wp_mono; [apply Hp|]. intros [] d5 E5. cbv beta in E5. rewrite E4 in E5.
  split; [rewrite E5; destruct H1; split; unfold view_of in *; cbn in *; done|].
  unfold view_of in E5. do 2 rsimpl. injection E5 as F1 F2 F3 F4 F5 F6. rewrite F1, F2, F5.
  split_and!; [|by right].
  etrans; [exact H3|].
  change (joins_of (cli d2)) with (v_joins (view_of d2)). by rewrite E2.
Qed.

Lemma counter_latch_ok stdin d :
  view_ok (view_of d) → Forall join_ok (tcp_join_queue (tcp d)) → Forall cmd_ok (fwd_cmd_queue (tcp d)) →
  (length (pending_joins (cli d)) ≤ RAFT_MAX_NODES)%nat →
  wp (counter_latch_inputs stdin)
    (λ _ d', view_ok (view_of d') ∧ (length (pending_joins (cli d')) ≤ RAFT_MAX_NODES)%nat) d.
Proof.
  intros Hv Hj Hc Hl. unfold counter_latch_inputs. apply wp_bind, wp_modify, wp_bind.
  destruct stdin; [apply wp_ret|apply wp_modify..];
    (eapply wp_mono; [by apply receive_ok|]; intros [] d1 (H1 & H2 & _); by split).
Qed.


End Machine.

(** ** Witness *)

(** The counter at a leader, with a join request. *)
Definition counter_process : counter_process_t sample_net :=
  mkProcess (mkCounterCli "a" "" false false false RAFT_ROLE_LEADER 1 [join_of_c] [])
    (counter_node RAFT_ROLE_LEADER [mkEntry 1 1 "a" inc] 1 1 1) demo_tcp ∅ [] [] false.

Lemma counter_process_ok : view_ok (view_of counter_process).
Proof.
  split; cbn; try done; [by constructor; [apply join_of_c_ok|]|..];
    unfold short, host_ok; repeat constructor; vm_compute; lia.
Qed.

